(* ===== verification/_CoqProject ===== *)
-Q . S2P
Prelude.v
Errors.v
CLib.v
CNum.v
ParmValue.v
Datetime.v
TagNorm.v
Driver.v
DriverHandle.v
Argp.v
DriverInv.v
DriverCalls.v
DriverProps.v
CliArgp.v
CliArgpProps.v
CliArgpUser.v
RunDim.v
Run.v
RunState.v
RunSweep.v
RunProps.v
FileIO.v
Sha1.v
RafBase.v
RafLocate.v
RafHeader.v
RafEntry.v
RafIds.v
RafRecord.v
RafTask.v
RafPeek.v
RafTbatch.v
RafKernel.v
RafTaglink.v
RafBatchlink.v
TaskSel.v
TaskSelMap.v
TaskSelProps.v
TaskSelCapsule.v
TaskSelText.v
