(* ===== verification/Prelude.v ===== *)
(** * A verification development for TPBench

    TPBench runs benchmark kernels and keeps a database of their results.  The
    command line ([src/tpbcli]) collects kernels, arguments, environment variables
    and wrappers into runtime handles of the driver ([src/corelib/tpb-driver.c]);
    running them appends records to the record database
    ([src/corelib/rafdb]).  This library models these three parts and proves what
    makes them correct.  Paths below are relative to the [src/] of the repository.

    ** Conventions

    A byte buffer is a list of integers in 0..255 and a C string the list of its
    bytes before the NUL ([Prelude]).  Machine integers are [Z] with the wrap-around
    written out ([wrap], [swrap]); floating-point numbers are their bit patterns,
    computed with the SpecFloat library ([CNum]).  The C library functions the
    sources call are in [CLib] and [CNum]; [pow] of libm is a parameter.

    A function that can fail returns an [outcome] ([Errors]): [Ok], [Err] with the
    packed status, or [UB] where the behaviour of the C code is undefined (a null or
    released pointer, an array overrun, a signed overflow).  State is threaded by a
    small monad per part: [IO] for files ([FileIO]), [D] for the driver, [P] for the
    command-line parser, [R] for [tpbcli run].  Whether an allocation succeeds is a
    function of its size in the state, so that theorems cover any pattern of
    failures; what uninitialised memory holds is an unknown value.

    ** Foundations

    - [Errors]: status codes, [corelib/tpb-impl.c] and [include/tpb-public.h].
    - [FileIO]: a file system and stdio streams over a device with a capacity,
      where writes may stop half-way and buffered data may be lost at [fclose].
    - [Sha1]: [rafdb-l1-sha1.c]; streaming equals the RFC digest of the message.
    - [Datetime]: [corelib/strftime.c]; dates of the clock, the packed form, ISO
      strings.
    - [TagNorm]: [corelib/tpb-tag-norm.c]; the canonical form of tags.

    ** The record database ([corelib/rafdb])

    - [RafBase]: magics, hexadecimal identifiers, domains and paths.
    - [RafHeader]: metadata headers and record sections.
    - [RafEntry]: the registries; they implement lists, and an interrupted append is
      never seen as a partial row.
    - [RafLocate], [RafPeek]: finding records and their signatures.
    - [RafIds]: the pre-images of identifiers.
    - [RafRecord]: the interface of the three record formats, and their common
      theorem; [RafTask], [RafTbatch], [RafKernel] are its instances: what is
      written to a device of any capacity is read back exactly when it fits, and
      never delivered otherwise.
    - [RafTaglink], [RafBatchlink]: in-place changes of the member lists of capsules
      and batches, as refinements of lists.

    ** The driver ([corelib/tpb-driver.c], [corelib/tpb-argp.c])

    - [ParmValue]: argument types, the value union, parsing and range checks.
    - [Driver]: the static state as a record [driver] and the kernel registry.
      Arrays are lists, but the limits of arguments and the data of outputs are
      blocks of a heap of their own, since copies of an argument share them.
    - [DriverHandle]: handles, environment, wrapper chains, copies and release.
    - [Argp]: the key=value tokens and the merge with common arguments.
    - [DriverInv], [DriverCalls]: the public calls as a type [call], the states they
      reach, the invariant every call keeps whatever allocation fails, and that calls
      are defined while nothing is released.
    - [DriverProps]: what setting arguments and variables does, and the faults of
      shared limits and of the [float] member, by evaluation.

    ** The command line ([tpbcli])

    - [CliArgp]: [argp/tpbcli-argp.c], the tree of options and its parser, for any
      application state and handlers; [CliArgpProps]: the marks of the tree after
      any run; [CliArgpUser]: an invariant of the application that every handler
      keeps is kept by a run.
    - [RunDim]: [run/tpbcli-run-dim.c], sweeps: lists round trip, and a recurrence
      yields its terms up to the first that ends it.
    - [Run]: [run/tpbcli-run.c], the handlers of [tpbcli run] on the driver, the
      expansion of sweeps and the wrapper chains, up to the handles that are ready.
    - [RunState]: the static arrays fit after any command line.
    - [RunSweep], [RunProps]: both expansions implement the Cartesian product; which
      handles the wrapper chains reach; when their local array is overrun.
    - [TaskSel]: [task/tpbcli-task-select.c], how [tpbcli task] chooses the records
      it works on: the RIDMAP that numbers the last listing, lists of numbers, names
      and identifier prefixes, derivation chains, capsules, logical tasks, and the
      works of an export.
    - [TaskSelMap]: replacing the RIDMAP is all or nothing; [TaskSelProps]: chains
      and the tasks they lead to; [TaskSelCapsule]: a capsule the record database
      wrote is shown with its members; [TaskSelText]: what lists denote, that
      selections stay inside the RIDMAP, and the prefixes that are dropped.

    ** Fuel

    Recursion follows lists wherever the code walks an array, a string or a chain.
    Where a loop has a bound of its own that bound is the fuel: the capacity of the
    values of a recurrence ([RunDim.recur_cap]; [dim_values_recur] shows that it
    ends the loop no earlier than the code), the number of combinations of a sweep
    ([RunProps.flush_expands] shows that all are reached), the number of digits of a
    printed integer ([CLib.dec_fuel]), the hops of a derivation chain
    ([TaskSelProps.follow_derive_iff] says which chains end within it) and the
    numbers of a range ([TaskSel.rid_turns]).

    ** Not modelled

    Output to the terminal and the log, help texts, and the release of memory that
    no result depends on; [fork], [exec] and [dlopen] and what kernels compute; the
    measurement code ([timers], [libpfc], [pmu]), the benchmark kernels themselves and
    the tools of [utils].

    Planned next: the display and export of records by [tpbcli task],
    kernel metadata and runtime environments of the record database, and the
    recording of a batch around [tpb_driver_run_all]. *)

From Stdlib Require Export ZArith Lia.
From Stdlib Require Import Ascii String.
Export StringSyntax AsciiSyntax.
From stdpp Require Export prelude gmap.
From stdpp Require Import options.

#[global] Open Scope Z_scope.

(** ** Bytes, machine words and C strings *)

(** A byte buffer of the C program.  Its elements are kept in [0, 255] by
    [is_byte]; a C string is the list of its bytes before the NUL. *)
Abbreviation bytes := (list Z).

Definition is_byte (b : Z) : Prop := 0 ≤ b < 256.

(** Unsigned machine words of [w] bits as integers. *)
Definition is_word (w : Z) (v : Z) : Prop := 0 ≤ v < 2 ^ w.
Definition wrap (w : Z) (v : Z) : Z := v mod 2 ^ w.

Abbreviation is_u32 := (is_word 32).
Abbreviation is_u64 := (is_word 64).
Abbreviation wrap32 := (wrap 32).
Abbreviation wrap64 := (wrap 64).

(** The conversion of an integer to a signed [w]-bit type. *)
Definition swrap (w : Z) (v : Z) : Z :=
  let u := v mod 2 ^ w in if u <? 2 ^ (w - 1) then u else u - 2 ^ w.

(** Byte values of a string literal. *)
Definition chr (a : ascii) : Z := Z.of_N (N_of_ascii a).
Definition str (s : string) : bytes := map chr (list_ascii_of_string s).

Declare Scope tpb_scope.
Delimit Scope tpb_scope with tpb.
Notation "'$' s" := (str s%string) (at level 1, format "'$' s") : tpb_scope.
Notation "'#' c" := (chr c%char) (at level 1, format "'#' c") : tpb_scope.
#[global] Open Scope tpb_scope.

(** Little-endian object representation of an unsigned integer of [n] bytes
    (the byte order of every platform the program supports). *)
Fixpoint le (n : nat) (v : Z) : bytes :=
  match n with
  | O => []
  | S n' => v mod 256 :: le n' (v / 256)
  end.

Fixpoint le_val (bs : bytes) : Z :=
  match bs with
  | [] => 0
  | b :: bs' => b + 256 * le_val bs'
  end.

(** Big-endian representation, as SHA-1 writes words. *)
Definition be (n : nat) (v : Z) : bytes := reverse (le n v).

(** Overwriting part of a byte buffer, growing it with zero bytes if needed. *)
Definition overlay (d : bytes) (p : nat) (bs : bytes) : bytes :=
  take p d ++ replicate (p - length d) 0 ++ bs ++ drop (p + length bs) d.

(** ** Generic lemmas *)

Create HintDb tpb discriminated.
Create Rewrite HintDb tpb_len.

Lemma is_word_wrap w v : 0 ≤ w → is_word w (wrap w v).
Proof. intros. apply Z.mod_pos_bound. lia. Qed.

Lemma wrap_small w v : is_word w v → wrap w v = v.
Proof. apply Z.mod_small. Qed.

(** Bits at or above the width of a word are zero. *)
Lemma testbit_above n w i : 0 ≤ n < 2 ^ w → 0 ≤ w ≤ i → Z.testbit n i = false.
Proof.
  intros Hn Hi. rewrite <- (Z.mod_small n (2 ^ w)) by done.
  apply Z.mod_pow2_bits_high. lia.
Qed.

(** Or-ing a field below a shifted one adds it. *)
Lemma lor_shiftl_add hi lo n :
  0 ≤ n → 0 ≤ lo < 2 ^ n → Z.lor (Z.shiftl hi n) lo = hi * 2 ^ n + lo.
Proof.
  intros Hn Hlo. rewrite <- Z.shiftl_mul_pow2 by done. symmetry.
  apply Z.add_nocarry_lor. apply Z.bits_inj'. intros i Hi.
  rewrite Z.land_spec, Z.bits_0. destruct (Z.ltb_spec i n).
  - by rewrite Z.shiftl_spec_low.
  - by rewrite (testbit_above lo n), andb_false_r by lia.
Qed.

Lemma land_FF v : Z.land v 0xFF = v mod 256.
Proof. apply (Z.land_ones v 8). lia. Qed.

Lemma mod_mod_pow2 v a b : 0 ≤ a ≤ b → (v mod 2 ^ b) mod 2 ^ a = v mod 2 ^ a.
Proof.
  intros Hab. rewrite <- !Z.land_ones by lia. rewrite <- Z.land_assoc. f_equal.
  apply Z.bits_inj'. intros i Hi. rewrite Z.land_spec, !Z.testbit_ones by lia.
  destruct (Z.leb_spec 0 i), (Z.ltb_spec i a), (Z.ltb_spec i b); simpl; lia.
Qed.

Lemma wrap_mod_256 w v : 8 ≤ w → wrap w v mod 256 = v mod 256.
Proof. intros. apply (mod_mod_pow2 v 8 w). lia. Qed.

Lemma swrap_small w v : 1 ≤ w → 0 ≤ v < 2 ^ (w - 1) → swrap w v = v.
Proof.
  intros Hw Hv. unfold swrap.
  assert (2 ^ w = 2 * 2 ^ (w - 1)) by (rewrite <- Z.pow_succ_r by lia; f_equal; lia).
  rewrite Z.mod_small by lia. destruct (Z.ltb_spec v (2 ^ (w - 1))); lia.
Qed.

Lemma swrap64_small v : 0 ≤ v < 2 ^ 63 → swrap 64 v = v.
Proof. apply (swrap_small 64). lia. Qed.

Lemma length_le n v : length (le n v) = n.
Proof. revert v; induction n as [|n IH]; intros v; simpl; auto. Qed.

Lemma le_is_byte n v : Forall is_byte (le n v).
Proof.
  revert v; induction n as [|n IH]; intros v; simpl; constructor; auto.
  apply Z.mod_pos_bound; lia.
Qed.

Lemma le_val_le n v : 0 ≤ v < 256 ^ Z.of_nat n → le_val (le n v) = v.
Proof.
  revert v; induction n as [|n IH]; intros v Hv; simpl in *.
  - lia.
  - rewrite IH.
    + rewrite (Z.div_mod v 256) at 3; lia.
    + rewrite Nat2Z.inj_succ, Z.pow_succ_r in Hv by lia.
      split; [apply Z.div_pos; lia | apply Z.div_lt_upper_bound; lia].
Qed.

Lemma le_val_le_word n v : is_word (8 * Z.of_nat n) v → le_val (le n v) = v.
Proof.
  intros Hv. apply le_val_le. unfold is_word in Hv.
  by rewrite Z.pow_mul_r in Hv by lia.
Qed.

Lemma le_val_bound bs :
  Forall is_byte bs → 0 ≤ le_val bs < 256 ^ Z.of_nat (length bs).
Proof.
  induction 1 as [|b bs Hb _ IH]; simpl; [lia|].
  rewrite Nat2Z.inj_succ, Z.pow_succ_r by lia. unfold is_byte in Hb. nia.
Qed.

Lemma length_be n v : length (be n v) = n.
Proof. unfold be. by rewrite length_reverse, length_le. Qed.

Lemma overlay_append d bs : overlay d (length d) bs = d ++ bs.
Proof.
  unfold overlay. rewrite firstn_all, Nat.sub_diag, drop_ge by lia.
  simpl. by rewrite app_nil_r.
Qed.

Lemma overlay_nil d p : (p ≤ length d)%nat → overlay d p [] = d.
Proof.
  intros Hp. unfold overlay. rewrite Nat.add_0_r.
  replace (p - length d)%nat with 0%nat by lia. simpl. apply take_drop.
Qed.

Lemma overlay_0 d bs : overlay d 0 bs = bs ++ drop (length bs) d.
Proof. reflexivity. Qed.

Lemma length_overlay d p bs :
  length (overlay d p bs) = Nat.max (length d) (p + length bs).
Proof.
  unfold overlay. rewrite !length_app, length_take, length_replicate, length_drop.
  lia.
Qed.

Lemma overlay_overlay d p a b :
  (p ≤ length d)%nat → overlay (overlay d p a) (p + length a) b = overlay d p (a ++ b).
Proof.
  intros Hp. assert (∃ x y, d = x ++ y ∧ length x = p) as (x & y & -> & <-).
  { exists (take p d), (drop p d). rewrite take_drop, length_take. split; [done|lia]. }
  unfold overlay. rewrite !length_app, !take_app_length, length_replicate, length_drop.
  replace (length x - (length x + length y))%nat with 0%nat by lia.
  rewrite !drop_app_add, length_app.
  replace (length x + length a - _)%nat with 0%nat by lia.
  cbn [replicate app]. rewrite take_app_add, take_app_length, <- !app_assoc. do 3 f_equal.
  rewrite <- Nat.add_assoc, drop_app_add, drop_app_add, drop_drop. done.
Qed.

(** The part of a buffer between two fixed pieces is replaced. *)
Lemma overlay_middle a b c bs p :
  length a = p → length b = length bs → overlay (a ++ b ++ c) p bs = a ++ bs ++ c.
Proof.
  intros <- Hl. unfold overlay. rewrite take_app_length.
  rewrite !length_app. replace (length a - _)%nat with 0%nat by lia. simpl.
  f_equal. f_equal. rewrite drop_app_ge by lia.
  replace (length a + length bs - length a)%nat with (length b) by lia.
  by rewrite drop_app_length.
Qed.

Lemma overlay_tail a b bs p :
  length a = p → (length b ≤ length bs)%nat → overlay (a ++ b) p bs = a ++ bs.
Proof.
  intros <- Hl. unfold overlay. rewrite take_app_length, length_app.
  replace (length a - _)%nat with 0%nat by lia. simpl.
  rewrite drop_ge; [by rewrite app_nil_r | rewrite length_app; lia].
Qed.

(** Addressing a buffer made of consecutive pieces, from the left. *)
Lemma drop_piece n (a b : bytes) : (length a ≤ n)%nat → drop n (a ++ b) = drop (n - length a) b.
Proof. intros. by apply drop_app_ge. Qed.

Lemma overlay_piece a b p bs :
  (length a ≤ p)%nat → overlay (a ++ b) p bs = a ++ overlay b (p - length a) bs.
Proof.
  intros Hp. unfold overlay. rewrite take_app_ge, length_app, drop_app_ge, <- app_assoc by lia.
  replace (p - (length a + length b))%nat with (p - length a - length b)%nat by lia.
  by replace (p + length bs - length a)%nat with (p - length a + length bs)%nat by lia.
Qed.

Lemma overlay_here b c bs : length b = length bs → overlay (b ++ c) 0 bs = bs ++ c.
Proof. intros Hl. rewrite overlay_0, <- Hl. by rewrite drop_app_length. Qed.

Lemma overlay_over b bs : (length b ≤ length bs)%nat → overlay b 0 bs = bs.
Proof. intros Hl. by rewrite overlay_0, drop_ge, app_nil_r. Qed.

(** A prefix of a concatenation stops inside the first part or the second. *)
Lemma prefix_app_split (p q a b : bytes) :
  p ++ q = a ++ b → q ≠ [] →
  (∃ a2, a = p ++ a2 ∧ a2 ≠ []) ∨ (∃ b1, p = a ++ b1 ∧ b = b1 ++ q).
Proof.
  intros Heq Hq. destruct (decide (length p < length a)%nat) as [Hlt|Hge].
  - left. exists (drop (length p) a). split.
    + rewrite <- (take_drop (length p) a) at 1. f_equal.
      apply (f_equal (take (length p))) in Heq.
      rewrite take_app_length, take_app_le in Heq by lia. done.
    + intros Hn. apply (f_equal length) in Hn. rewrite length_drop in Hn.
      simpl in Hn. lia.
  - right. exists (drop (length a) p).
    assert (Hpre : p = a ++ drop (length a) p).
    { rewrite <- (take_drop (length a) p) at 1. f_equal.
      apply (f_equal (take (length a))) in Heq.
      rewrite take_app_length, take_app_le in Heq by lia. done. }
    split; [done|]. apply (app_inv_head a). rewrite <- Heq. rewrite Hpre at 1.
    by rewrite app_assoc.
Qed.

(** Two loops whose bodies agree on the states an invariant allows. *)
Lemma foldl_ext_inv {S I} (P : S → Prop) (Q : I → Prop) (g h : S → I → S) :
  (∀ s i, P s → Q i → g s i = h s i ∧ P (h s i)) →
  ∀ l s, Forall Q l → P s → foldl g s l = foldl h s l ∧ P (foldl h s l).
Proof.
  intros Hgh l. induction l as [|i l IH]; intros s Hl Hs; simpl; [done|].
  apply Forall_cons in Hl as [Hi Hl]. destruct (Hgh s i Hs Hi) as [-> Hs'].
  by apply IH.
Qed.

Lemma chr_bound a : 0 ≤ chr a < 256.
Proof. unfold chr. pose proof (N_ascii_bounded a). lia. Qed.

Lemma str_is_byte s : Forall is_byte (str s).
Proof. unfold str. apply Forall_map, Forall_true. intros a. apply chr_bound. Qed.

#[export] Hint Constants Opaque : tpb.
#[export] Hint Resolve is_word_wrap le_is_byte str_is_byte : tpb.
#[export] Hint Rewrite length_le length_be @length_app @length_replicate
  @length_take @length_drop @length_cons @length_nil : tpb_len.

#[global] Arguments overlay : simpl never.

(** ** Tactics *)

(** Case analysis on the scrutinee of a [match] or [if] of the goal. *)
Ltac case_goal :=
  match goal with
  | |- context [match ?x with _ => _ end] => destruct x eqn:?
  end.

(** Length side conditions of byte buffers. *)
Ltac len := autorewrite with tpb_len; lia.
