(* ===== verification/Errors.v ===== *)
(** * Error codes of the core library

    The [TPBE_*] causes and [TPB_MOD_*] modules of [src/include/tpb-public.h],
    their packing into one [int], and the error table of
    [src/corelib/tpb-impl.c]. *)

From S2P Require Import Prelude.
From stdpp Require Import options.

(** [enum _tpb_errno]: the causes, in declaration order. *)
Definition TPBE_SUCCESS : Z := 0.
Definition TPBE_EXIT_ON_HELP : Z := 1.
Definition TPBE_CLI_FAIL : Z := 2.
Definition TPBE_FILE_IO_FAIL : Z := 3.
Definition TPBE_MALLOC_FAIL : Z := 4.
Definition TPBE_MPI_FAIL : Z := 5.
Definition TPBE_KERN_ARG_FAIL : Z := 6.
Definition TPBE_KERN_VERIFY_FAIL : Z := 7.
Definition TPBE_LIST_NOT_FOUND : Z := 8.
Definition TPBE_LIST_DUP : Z := 9.
Definition TPBE_NULLPTR_ARG : Z := 10.
Definition TPBE_DTYPE_NOT_SUPPORTED : Z := 11.
Definition TPBE_ILLEGAL_CALL : Z := 12.
Definition TPBE_KERNEL_NE_FAIL : Z := 13.
Definition TPBE_KARG_NE_FAIL : Z := 14.
Definition TPBE_KERNEL_INCOMPLETE : Z := 15.
Definition TPBE_DLOPEN_FAIL : Z := 16.
Definition TPBE_METRIC_MISSING : Z := 17.

(** [enum _tpb_module]. *)
Definition TPB_MOD_NONE : Z := 0.
Definition TPB_MOD_DRIVER : Z := 1.
Definition TPB_MOD_ARGP : Z := 2.
Definition TPB_MOD_IMPL : Z := 3.
Definition TPB_MOD_IO : Z := 4.
Definition TPB_MOD_MISC : Z := 5.
Definition TPB_MOD_RAF_L1 : Z := 6.
Definition TPB_MOD_RAF_L2_KERNEL : Z := 7.
Definition TPB_MOD_RAF_L2_TASK : Z := 8.
Definition TPB_MOD_RAF_L2_TBATCH : Z := 9.
Definition TPB_MOD_RAF_L2_RTENV : Z := 10.
Definition TPB_MOD_RAF_L3_KERNEL : Z := 11.
Definition TPB_MOD_RAF_L3_TASK : Z := 12.
Definition TPB_MOD_RAF_L3_TBATCH : Z := 13.
Definition TPB_MOD_RAF_L3_RTENV : Z := 14.
Definition TPB_MOD_RAF_MISC : Z := 15.
Definition TPB_MOD_CLI_RUN : Z := 16.
Definition TPB_MOD_CLI_BENCHMARK : Z := 17.
Definition TPB_MOD_CLI_KERNEL : Z := 18.
Definition TPB_MOD_CLI_MISC : Z := 19.
Definition TPB_MOD_CLI_RTENV : Z := 20.

Definition TPBE_CAUSE_MASK : Z := 0xFF.
Definition TPBE_MOD_SHIFT : Z := 8.
Definition TPBE_MOD_MASK : Z := 0xFF00.

(** The [(unsigned)] conversions of the macros are [wrap32], the final [(int)]
    conversion is [swrap 32]. *)
Definition TPBE_MAKE (md cause : Z) : Z :=
  swrap 32 (Z.lor (wrap32 (Z.shiftl (wrap32 md) TPBE_MOD_SHIFT))
                  (Z.land (wrap32 cause) TPBE_CAUSE_MASK)).

Definition TPBE_CAUSE (err : Z) : Z :=
  swrap 32 (Z.land (wrap32 err) TPBE_CAUSE_MASK).

Definition TPBE_MODULE (err : Z) : Z :=
  swrap 32 (Z.shiftr (Z.land (wrap32 err) TPBE_MOD_MASK) TPBE_MOD_SHIFT).

Definition TPBE_IS_ENCODED (err : Z) : bool :=
  negb (err =? 0) && negb (Z.land (wrap32 err) TPBE_MOD_MASK =? 0).

(** The outcome of a C function that returns an [int] status: a value delivered
    with status [TPBE_SUCCESS], another status, or undefined behaviour. *)
Inductive outcome (A : Type) : Type :=
  | Ok (a : A)
  | Err (e : Z)
  | UB.
Arguments Ok {A} a.
Arguments Err {A} e.
Arguments UB {A}.

#[export] Instance outcome_ret : MRet outcome := @Ok.
#[export] Instance outcome_bind : MBind outcome := λ A B f m,
  match m with Ok a => f a | Err e => Err e | UB => UB end.

(** [tpb_report_error_at], without its log line. *)
Definition tpb_report_error_at (md cause : Z) : Z :=
  if cause =? TPBE_SUCCESS then TPBE_SUCCESS else TPBE_MAKE md cause.

(** [TPB_FAIL(mod, cause, msg)]: return the encoded error. *)
Definition TPB_FAIL {A} (md cause : Z) : outcome A := Err (tpb_report_error_at md cause).

(** [TPB_PROPAGATE(mod, err, msg)] on the outcome of the call it wraps. *)
Definition TPB_PROPAGATE {A} (md : Z) (r : outcome A) : outcome A :=
  match r with
  | Ok a => Ok a
  | Err e => if e =? TPBE_EXIT_ON_HELP then Err e
             else Err (tpb_report_error_at md (TPBE_CAUSE e))
  | UB => UB
  end.

Definition tpb_err_propagate (cur_mod err : Z) : Z :=
  if (err =? TPBE_SUCCESS) || (err =? TPBE_EXIT_ON_HELP) then err
  else TPBE_MAKE cur_mod (TPBE_CAUSE err).

Definition tpb_err_to_exit_status (err : Z) : Z :=
  if err =? TPBE_EXIT_ON_HELP then 0 else TPBE_CAUSE err.

(** [tpb_errors], the message table. *)
Definition tpb_errors : list (Z * bytes) :=
  [ (TPBE_SUCCESS,             $"Action successful.");
    (TPBE_EXIT_ON_HELP,        $"TPBench exits on help.");
    (TPBE_CLI_FAIL,            $"Failed to parse TPbench CLI argument.");
    (TPBE_FILE_IO_FAIL,        $"File I/O failed.");
    (TPBE_MALLOC_FAIL,         $"Memory allocation failed.");
    (TPBE_MPI_FAIL,            $"MPI initialization failed.");
    (TPBE_KERN_ARG_FAIL,       $"Failed to parse kernel arguments.");
    (TPBE_KERN_VERIFY_FAIL,    $"Kernel verification failed.");
    (TPBE_LIST_NOT_FOUND,      $"Element is not found in the list.");
    (TPBE_LIST_DUP,            $"Duplicated element.");
    (TPBE_NULLPTR_ARG,         $"Empty input pointer.");
    (TPBE_DTYPE_NOT_SUPPORTED, $"Datatype not supported.");
    (TPBE_ILLEGAL_CALL,        $"Illegal call.");
    (TPBE_KERNEL_NE_FAIL,      $"Kernel does not exist.");
    (TPBE_KARG_NE_FAIL,        $"Kernel argument does not exist.");
    (TPBE_KERNEL_INCOMPLETE,   $"Incomplete kernel (missing .so).");
    (TPBE_DLOPEN_FAIL,         $"Failed to load kernel library.");
    (TPBE_METRIC_MISSING,      $"Required benchmark metric not found in log.") ].

Definition tpb_module_names : list bytes :=
  [ $"NONE"; $"DRIVER"; $"ARGP"; $"IMPL"; $"IO"; $"MISC"; $"RAF_L1";
    $"RAF_L2_KERNEL"; $"RAF_L2_TASK"; $"RAF_L2_TBATCH"; $"RAF_L2_RTENV";
    $"RAF_L3_KERNEL"; $"RAF_L3_TASK"; $"RAF_L3_TBATCH"; $"RAF_L3_RTENV";
    $"RAF_MISC"; $"CLI_RUN"; $"CLI_BENCHMARK"; $"CLI_KERNEL"; $"CLI_MISC";
    $"CLI_RTENV" ].

(** [_sf_lookup_cause]: the first row of the table with this cause. *)
Definition _sf_lookup_cause (cause : Z) : option (Z * bytes) :=
  snd <$> list_find (λ row, row.1 = cause) tpb_errors.

Definition tpb_get_err_msg (err : Z) : bytes :=
  match _sf_lookup_cause (TPBE_CAUSE err) with
  | Some row => row.2
  | None => $"Unknown error."
  end.

Definition tpb_err_module_name (md : Z) : bytes :=
  if (0 <=? md) && (md <? Z.of_nat (length tpb_module_names))
  then default ($"UNKNOWN") (tpb_module_names !! Z.to_nat md)
  else $"UNKNOWN".

(** ** Facts about packed error codes *)

(** The packed word is the module in the second byte above the cause. *)
Lemma TPBE_MAKE_sum md cause :
  0 ≤ md < 256 → TPBE_MAKE md cause = 256 * md + cause mod 256.
Proof.
  intros Hm. unfold TPBE_MAKE, TPBE_MOD_SHIFT, TPBE_CAUSE_MASK.
  rewrite land_FF, (wrap_mod_256 32 cause) by lia.
  pose proof (Z.mod_pos_bound cause 256).
  rewrite (wrap_small 32 md) by (unfold is_word; lia).
  rewrite (wrap_small 32); [|rewrite Z.shiftl_mul_pow2 by lia; unfold is_word; lia].
  rewrite lor_shiftl_add by lia. rewrite swrap_small; lia.
Qed.

Lemma TPBE_CAUSE_mod err : TPBE_CAUSE err = err mod 256.
Proof.
  unfold TPBE_CAUSE, TPBE_CAUSE_MASK. rewrite land_FF.
  rewrite wrap_mod_256 by lia.
  pose proof (Z.mod_pos_bound err 256). apply swrap_small; lia.
Qed.

Lemma TPBE_MAKE_nonneg md cause : 0 ≤ md < 256 → 0 ≤ TPBE_MAKE md cause < 2 ^ 16.
Proof. intros. rewrite TPBE_MAKE_sum by done. pose proof (Z.mod_pos_bound cause 256). lia. Qed.

Lemma TPBE_MODULE_div err : 0 ≤ err < 2 ^ 16 → TPBE_MODULE err = err / 256.
Proof.
  intros He. unfold TPBE_MODULE, TPBE_MOD_MASK, TPBE_MOD_SHIFT.
  rewrite (wrap_small 32) by (unfold is_word; lia).
  change 0xFF00 with (Z.shiftl (Z.ones 8) 8).
  rewrite Z.shiftr_land, Z.shiftr_shiftl_l, Z.sub_diag, Z.shiftl_0_r, Z.land_ones by lia.
  rewrite Z.shiftr_div_pow2 by lia. rewrite Z.mod_small.
  - apply swrap_small; [lia|]. split; [apply Z.div_pos; lia|].
    apply Z.div_lt_upper_bound; lia.
  - split; [apply Z.div_pos; lia|]. apply Z.div_lt_upper_bound; lia.
Qed.

(** The status a call reports: its error code, or success. *)
Definition status {A} (r : outcome A) : option Z :=
  match r with Ok _ => Some TPBE_SUCCESS | Err e => Some e | UB => None end.

(** ** Properties *)

(** Packing an error and taking it apart again returns the module and the
    cause, for every module code and every cause that fit a byte; and the packed
    code is recognised as encoded exactly when the module is not [TPB_MOD_NONE]
    (or the cause is above the mask, which never happens for a [TPBE_] cause). *)
Theorem error_code_roundtrip md cause :
  0 ≤ md < 256 → 0 ≤ cause < 256 →
  TPBE_CAUSE (TPBE_MAKE md cause) = cause
  ∧ TPBE_MODULE (TPBE_MAKE md cause) = md
  ∧ (TPBE_IS_ENCODED (TPBE_MAKE md cause) = true ↔ md ≠ TPB_MOD_NONE).
Proof.
  intros Hm Hc. pose proof (TPBE_MAKE_nonneg md cause Hm) as Hn.
  rewrite TPBE_CAUSE_mod, TPBE_MODULE_div by done.
  rewrite TPBE_MAKE_sum, (Z.mod_small cause) in * by lia.
  split_and!.
  - rewrite Z.add_comm, Z.mul_comm, Z.mod_add, Z.mod_small; lia.
  - rewrite Z.mul_comm, Z.div_add_l, Z.div_small; lia.
  - unfold TPBE_IS_ENCODED, TPBE_MOD_MASK, TPB_MOD_NONE.
    rewrite (wrap_small 32) by (unfold is_word; lia).
    assert (HL : Z.land (256 * md + cause) 0xFF00 = 256 * md).
    { replace (256 * md + cause) with (Z.lor (Z.shiftl md 8) cause)
        by (rewrite lor_shiftl_add; lia).
      replace (256 * md) with (Z.shiftl md 8) by (rewrite Z.shiftl_mul_pow2; lia).
      change 0xFF00 with (Z.shiftl (Z.ones 8) 8).
      apply Z.bits_inj'. intros i Hi.
      rewrite Z.land_spec, Z.lor_spec. destruct (Z.ltb_spec i 8).
      - rewrite !Z.shiftl_spec_low by lia. by rewrite andb_false_r.
      - rewrite !Z.shiftl_spec, Z.testbit_ones by lia.
        rewrite (testbit_above cause 8) by lia. rewrite orb_false_r.
        destruct (Z.ltb_spec (i - 8) 8).
        + replace (0 <=? i - 8) with true by lia. by rewrite andb_true_r.
        + by rewrite (testbit_above md 8) by lia. }
    rewrite HL, andb_true_iff, !negb_true_iff, !Z.eqb_neq. lia.
Qed.

Lemma error_code_roundtrip_witness :
  TPBE_CAUSE (TPBE_MAKE TPB_MOD_RAF_L2_TASK TPBE_FILE_IO_FAIL) = TPBE_FILE_IO_FAIL
  ∧ TPBE_MODULE (TPBE_MAKE TPB_MOD_RAF_L2_TASK TPBE_FILE_IO_FAIL) = TPB_MOD_RAF_L2_TASK
  ∧ (TPBE_IS_ENCODED (TPBE_MAKE TPB_MOD_RAF_L2_TASK TPBE_FILE_IO_FAIL) = true
     ↔ TPB_MOD_RAF_L2_TASK ≠ TPB_MOD_NONE).
Proof. apply error_code_roundtrip; vm_compute; split; congruence. Defined.
