(* ===== verification/CLib.v ===== *)
(** * The C library functions the sources call

    Character classes (C locale), string comparison and search, [strtok_r]
    over commas, and the [printf] conversions used to build identifiers, paths
    and dates.  Strings are the bytes before the NUL. *)

From S2P Require Import Prelude.
From Stdlib Require Import Sorting.Sorted.
From stdpp Require Import options.

(** ** <ctype.h> *)

Definition isspace (c : Z) : bool := (c =? 32) || ((9 <=? c) && (c <=? 13)).
Definition isdigit (c : Z) : bool := (48 <=? c) && (c <=? 57).
Definition isupper (c : Z) : bool := (65 <=? c) && (c <=? 90).
Definition islower (c : Z) : bool := (97 <=? c) && (c <=? 122).
Definition isalpha (c : Z) : bool := isupper c || islower c.
Definition isxdigit (c : Z) : bool :=
  isdigit c || ((65 <=? c) && (c <=? 70)) || ((97 <=? c) && (c <=? 102)).
Definition isprint (c : Z) : bool := (32 <=? c) && (c <=? 126).
Definition toupper (c : Z) : Z := if islower c then c - 32 else c.
Definition tolower (c : Z) : Z := if isupper c then c + 32 else c.

(** ** <string.h> *)

(** [s\[i\]] of a C string: 0 at the terminator. *)
Definition cget (s : bytes) (i : nat) : Z := default 0 (s !! i).

(** [strcmp]: negative, zero or positive, comparing as unsigned bytes. *)
Fixpoint strcmp (a b : bytes) : Z :=
  match a, b with
  | [], [] => 0
  | [], y :: _ => - y
  | x :: _, [] => x
  | x :: a', y :: b' => if x =? y then strcmp a' b' else x - y
  end.

(** [strchr(s, c)]: the part before the first [c] and the part after it. *)
Fixpoint strchr_split (c : Z) (s : bytes) : option (bytes * bytes) :=
  match s with
  | [] => None
  | x :: s' => if x =? c then Some ([], s')
               else '(a, b) ← strchr_split c s'; Some (x :: a, b)
  end.

(** [snprintf(dst, sz, "%s", s)]: [s] cut so that the NUL fits. *)
Definition snprintf_s (sz : nat) (s : bytes) : bytes := take (sz - 1) s.

(** All the tokens [strtok_r(s, "<d>", &save)] returns, in order: the maximal
    non-empty runs without the delimiter. *)
Fixpoint strtok_acc (d : Z) (s cur : bytes) : list bytes :=
  match s with
  | [] => match cur with [] => [] | _ => [cur] end
  | x :: s' =>
      if x =? d then match cur with
                     | [] => strtok_acc d s' []
                     | _ => cur :: strtok_acc d s' []
                     end
      else strtok_acc d s' (cur ++ [x])
  end.
Definition strtok (d : Z) (s : bytes) : list bytes := strtok_acc d s [].

(** The bytes of a fixed char array up to the first NUL. *)
Fixpoint cstr_of (buf : bytes) : bytes :=
  match buf with
  | [] => []
  | x :: buf' => if x =? 0 then [] else x :: cstr_of buf'
  end.

(** ** printf conversions *)

Fixpoint dec_fuel (fuel : nat) (n : Z) : bytes :=
  match fuel with
  | O => []
  | S f => if n <? 10 then [48 + n] else dec_fuel f (n / 10) ++ [48 + n mod 10]
  end.

(** ["%u"], ["%lu"]: the decimal digits of a non-negative integer. *)
Definition fmt_u (n : Z) : bytes := dec_fuel (S (Z.to_nat (Z.log2 n))) n.

(** A decimal number with a minimal width, zero padded: ["%02u"], ["%010d"]. *)
Definition fmt_0u (w : nat) (n : Z) : bytes :=
  let s := fmt_u n in replicate (w - length s) 48 ++ s.
Definition fmt_0d (w : nat) (n : Z) : bytes :=
  if n <? 0 then let s := fmt_u (- n) in 45 :: replicate (w - 1 - length s) 48 ++ s
  else fmt_0u w n.

(** ["%02x"] of a byte. *)
Definition hex_digit (n : Z) : Z := if n <? 10 then 48 + n else 87 + n.
Definition fmt_02x (b : Z) : bytes := [hex_digit (b / 16); hex_digit (b mod 16)].

(** ** Lemmas *)

Definition dec_val (s : bytes) : Z := foldl (λ a c, a * 10 + (c - 48)) 0 s.

Lemma dec_fuel_spec fuel n :
  0 ≤ n < 10 ^ Z.of_nat fuel → (0 < fuel)%nat →
  dec_val (dec_fuel fuel n) = n ∧ Forall (λ c, isdigit c = true) (dec_fuel fuel n)
  ∧ (0 < length (dec_fuel fuel n))%nat.
Proof.
  revert n. induction fuel as [|f IH]; intros n Hn Hf; [lia|]. cbn [dec_fuel].
  destruct (Z.ltb_spec n 10) as [Hlt|Hge].
  - split_and!; [cbn; lia| |cbn; lia]. repeat constructor. unfold isdigit. lia.
  - rewrite Nat2Z.inj_succ, Z.pow_succ_r in Hn by lia.
    assert (Hq : 0 ≤ n / 10 < 10 ^ Z.of_nat f).
    { split; [apply Z.div_pos; lia|]. apply Z.div_lt_upper_bound; lia. }
    assert (0 < f)%nat.
    { destruct f; [|lia]. cbn in Hq. assert (1 ≤ n / 10); [|lia].
      apply Z.div_le_lower_bound; lia. }
    destruct (IH _ Hq) as (Hv & Hd & _); [done|].
    pose proof (Z.mod_pos_bound n 10). split_and!.
    + unfold dec_val in *. rewrite foldl_app, Hv. cbn.
      pose proof (Z.div_mod n 10). lia.
    + apply Forall_app. split; [done|]. repeat constructor. unfold isdigit. lia.
    + len.
Qed.

Lemma fmt_u_spec n :
  0 ≤ n → dec_val (fmt_u n) = n ∧ Forall (λ c, isdigit c = true) (fmt_u n)
          ∧ (0 < length (fmt_u n))%nat.
Proof.
  intros Hn. apply dec_fuel_spec; [|lia]. split; [done|].
  destruct (Z.eq_dec n 0) as [->|]; [done|].
  rewrite Nat2Z.inj_succ, Z2Nat.id by apply Z.log2_nonneg.
  eapply Z.lt_le_trans; [apply Z.log2_spec; lia|].
  apply Z.pow_le_mono_l. lia.
Qed.

Lemma fmt_u_inj n m : 0 ≤ n → 0 ≤ m → fmt_u n = fmt_u m → n = m.
Proof.
  intros Hn Hm E. destruct (fmt_u_spec n Hn) as [<- _], (fmt_u_spec m Hm) as [<- _].
  by rewrite E.
Qed.

Lemma dec_val_zeros k s : dec_val (replicate k 48 ++ s) = dec_val s.
Proof. unfold dec_val. rewrite foldl_app. f_equal. by induction k. Qed.

Lemma dec_fuel_length fuel n k :
  0 ≤ n < 10 ^ Z.of_nat k → (0 < k)%nat → (length (dec_fuel fuel n) ≤ k)%nat.
Proof.
  revert n k. induction fuel as [|f IH]; intros n k Hn Hk; [cbn; lia|]. cbn [dec_fuel].
  destruct (Z.ltb_spec n 10) as [Hlt|Hge]; [cbn; lia|].
  destruct k as [|k]; [lia|]. rewrite Nat2Z.inj_succ, Z.pow_succ_r in Hn by lia.
  assert (Hq : 0 ≤ n / 10 < 10 ^ Z.of_nat k).
  { split; [apply Z.div_pos; lia|]. apply Z.div_lt_upper_bound; lia. }
  assert (0 < k)%nat.
  { destruct k; [|lia]. cbn in Hq. assert (1 ≤ n / 10); [|lia].
    apply Z.div_le_lower_bound; lia. }
  specialize (IH _ _ Hq ltac:(done)). rewrite length_app. cbn. lia.
Qed.

(** A zero-padded field of the right width has exactly that width. *)
Lemma fmt_0u_length w n :
  0 ≤ n < 10 ^ Z.of_nat w → (0 < w)%nat → length (fmt_0u w n) = w.
Proof.
  intros Hn Hw. unfold fmt_0u. rewrite length_app, length_replicate.
  pose proof (dec_fuel_length (S (Z.to_nat (Z.log2 n))) n w Hn Hw) as H.
  fold (fmt_u n) in H. lia.
Qed.

Lemma fmt_0u_spec w n :
  0 ≤ n → dec_val (fmt_0u w n) = n ∧ Forall (λ c, isdigit c = true) (fmt_0u w n).
Proof.
  intros Hn. destruct (fmt_u_spec n Hn) as (Hv & Hd & _). unfold fmt_0u.
  rewrite dec_val_zeros. split; [done|]. apply Forall_app. split; [|done].
  by apply Forall_replicate.
Qed.

Lemma hex_digit_inj a b :
  0 ≤ a < 16 → 0 ≤ b < 16 → hex_digit a = hex_digit b → a = b.
Proof. unfold hex_digit. intros. repeat case_match; lia. Qed.

Lemma fmt_02x_inj a b : is_byte a → is_byte b → fmt_02x a = fmt_02x b → a = b.
Proof.
  unfold is_byte. intros Ha Hb [= E1 E2].
  apply hex_digit_inj in E1; [|split; [apply Z.div_pos|apply Z.div_lt_upper_bound]; lia..].
  apply hex_digit_inj in E2; [|apply Z.mod_pos_bound; lia..].
  rewrite (Z.div_mod a 16), (Z.div_mod b 16) by lia. lia.
Qed.

Lemma strchr_split_Some c s a b :
  strchr_split c s = Some (a, b) ↔ s = a ++ c :: b ∧ c ∉ a.
Proof.
  revert a b. induction s as [|x s IH]; intros a b; cbn.
  - split; [done|]. intros [H _]. by destruct a.
  - destruct (Z.eqb_spec x c) as [->|Hne].
    + split.
      * intros [= <- <-]. split; [done|]. set_solver.
      * intros [H Hc]. destruct a as [|y a]; cbn in H; [by injection H as ->|].
        injection H as <- _. set_solver.
    + split.
      * destruct (strchr_split c s) as [[a' b']|] eqn:E; cbn; [|done].
        intros [= <- <-]. destruct (proj1 (IH a' b') eq_refl) as [-> Hc]. set_solver.
      * intros [H Hc]. destruct a as [|y a]; cbn in H; [injection H as ->; done|].
        injection H as -> ->. rewrite (proj2 (IH a b)); [done|]. set_solver.
Qed.

Lemma strcmp_eq a b : Forall (λ c, 0 < c) a → Forall (λ c, 0 < c) b → strcmp a b = 0 ↔ a = b.
Proof.
  revert b. induction a as [|x a IH]; intros [|y b] Ha Hb; cbn.
  - done.
  - apply Forall_cons in Hb as [? _]. split; [lia|done].
  - apply Forall_cons in Ha as [? _]. split; [lia|done].
  - apply Forall_cons in Ha as [? Ha], Hb as [? Hb].
    destruct (Z.eqb_spec x y) as [->|]; [rewrite IH by done; naive_solver|].
    split; [lia|naive_solver].
Qed.

(** ** sscanf *)

(** The directives the sources use: a literal byte, ["%<w>u"], ["%<w>d"] and ["%c"]. *)
Inductive directive := DLit (c : Z) | DUint (w : nat) | DInt (w : nat) | DChar.

Fixpoint skip_space (s : bytes) : bytes :=
  match s with
  | [] => []
  | c :: s' => if isspace c then skip_space s' else s
  end.

(** At most [w] digits from the front of [s]. *)
Fixpoint span_digits (w : nat) (s : bytes) : bytes * bytes :=
  match w, s with
  | S w', c :: s' => if isdigit c then let '(d, r) := span_digits w' s' in (c :: d, r)
                     else ([], s)
  | _, _ => ([], s)
  end.

(** An integer field of width [w]: white space, an optional sign that counts
    towards the width, digits.  [None]: nothing to convert. *)
Definition scan_int (w : nat) (s : bytes) : option (Z * bytes) :=
  let s := skip_space s in
  let '(neg, w, s) :=
    match s with
    | c :: r => if c =? (#"-") then (true, pred w, r)
                else if c =? (#"+") then (false, pred w, r) else (false, w, s)
    | [] => (false, w, s)
    end in
  match span_digits w s with
  | ([], _) => None
  | (d, r) => Some (if neg then - dec_val d else dec_val d, r)
  end.

(** The values converted before the first directive that fails. *)
Fixpoint sscanf (fmt : list directive) (s : bytes) : list Z :=
  match fmt with
  | [] => []
  | DLit c :: fmt' =>
      match s with
      | x :: s' => if x =? c then sscanf fmt' s' else []
      | [] => []
      end
  | DUint w :: fmt' =>
      match scan_int w s with
      | Some (v, s') => wrap32 v :: sscanf fmt' s'
      | None => []
      end
  | DInt w :: fmt' =>
      match scan_int w s with
      | Some (v, s') => v :: sscanf fmt' s'
      | None => []
      end
  | DChar :: fmt' =>
      match s with
      | x :: s' => x :: sscanf fmt' s'
      | [] => []
      end
  end.

Lemma span_digits_all d s : Forall (λ c, isdigit c = true) d →
  span_digits (length d) (d ++ s) = (d, s).
Proof.
  induction 1 as [|c d Hc _ IH]; cbn; [by destruct s|]. by rewrite Hc, IH.
Qed.

(** A zero-padded number of the field's width is scanned back. *)
Lemma scan_int_fmt w n s :
  0 ≤ n < 10 ^ Z.of_nat w → (0 < w)%nat → scan_int w (fmt_0u w n ++ s) = Some (n, s).
Proof.
  intros Hn Hw. pose proof (fmt_0u_length w n Hn Hw) as Hl.
  destruct (fmt_0u_spec w n ltac:(lia)) as [Hv Hd].
  destruct (fmt_0u w n) as [|c d] eqn:E; [cbn in Hl; lia|].
  pose proof Hd as Hc. apply Forall_cons in Hc as [Hc _].
  unfold scan_int. cbn [app skip_space].
  assert (isspace c = false) as -> by (unfold isspace, isdigit in *; lia).
  assert ((c =? #"-") = false) as -> by (unfold isdigit in Hc; vm_compute (#"-"); lia).
  assert ((c =? #"+") = false) as -> by (unfold isdigit in Hc; vm_compute (#"+"); lia).
  rewrite <- Hl. rewrite app_comm_cons, (span_digits_all (c :: d) s Hd). by rewrite Hv.
Qed.

Lemma sscanf_uint w n fmt s :
  0 ≤ n < 10 ^ Z.of_nat w → (0 < w < 10)%nat →
  sscanf (DUint w :: fmt) (fmt_0u w n ++ s) = n :: sscanf fmt s.
Proof.
  intros Hn Hw. cbn [sscanf]. rewrite scan_int_fmt by lia. f_equal. apply wrap_small.
  split; [lia|]. eapply Z.lt_le_trans; [apply Hn|].
  transitivity (10 ^ 9); [apply Z.pow_le_mono_r; lia|done].
Qed.

Lemma sscanf_int w n fmt s :
  0 ≤ n < 10 ^ Z.of_nat w → (0 < w)%nat →
  sscanf (DInt w :: fmt) (fmt_0u w n ++ s) = n :: sscanf fmt s.
Proof. intros. cbn [sscanf]. by rewrite scan_int_fmt. Qed.

Lemma sscanf_lit c fmt s : sscanf (DLit c :: fmt) (c :: s) = sscanf fmt s.
Proof. cbn [sscanf]. by rewrite Z.eqb_refl. Qed.

(** ** qsort *)

(** [qsort] returns the elements in the order of the comparison.  Insertion sort;
    the sources only sort keys that the comparison tells apart. *)
Fixpoint insert_by {A} (cmp : A → A → Z) (x : A) (l : list A) : list A :=
  match l with
  | [] => [x]
  | y :: l' => if cmp x y <=? 0 then x :: l else y :: insert_by cmp x l'
  end.

Fixpoint qsort {A} (cmp : A → A → Z) (l : list A) : list A :=
  match l with
  | [] => []
  | x :: l' => insert_by cmp x (qsort cmp l')
  end.

Lemma insert_by_perm {A} (cmp : A → A → Z) x l : insert_by cmp x l ≡ₚ x :: l.
Proof.
  induction l as [|y l IH]; cbn; [done|]. case_match; [done|].
  rewrite IH. apply Permutation_swap.
Qed.

Lemma qsort_perm {A} (cmp : A → A → Z) l : qsort cmp l ≡ₚ l.
Proof. induction l as [|x l IH]; cbn; [done|]. by rewrite insert_by_perm, IH. Qed.

(** A comparison that orders the elements satisfying [P]. *)
Class Comparison {A} (cmp : A → A → Z) (P : A → Prop) : Prop := {
  cmp_opp x y : cmp y x = - cmp x y;
  cmp_trans x y z : P x → P y → P z → cmp x y < 0 → cmp y z < 0 → cmp x z < 0;
  cmp_eq x y : P x → P y → cmp x y = 0 → x = y;
}.

Abbreviation sorted_by cmp := (StronglySorted (λ x y, cmp x y < 0)).

Lemma insert_by_sorted {A} (cmp : A → A → Z) (P : A → Prop) `{!Comparison cmp P} x l :
  P x → Forall P l → sorted_by cmp l → x ∉ l → sorted_by cmp (insert_by cmp x l).
Proof.
  intros Hx Hl Hs Hn. induction Hs as [|y l Hs IH Hy]; cbn; [repeat constructor|].
  apply Forall_cons in Hl as [HPy Hl].
  assert (cmp x y ≠ 0) by (intros E; apply cmp_eq in E; set_solver).
  destruct (Z.leb_spec (cmp x y) 0) as [Hle|Hgt].
  - constructor; [by constructor|]. constructor; [lia|].
    apply Forall_forall. intros z Hz. rewrite Forall_forall in Hl, Hy.
    apply (cmp_trans x y z); [done|done|by apply Hl|lia|by apply Hy].
  - constructor; [apply IH; [done|set_solver]|].
    rewrite insert_by_perm. constructor; [|done]. rewrite (cmp_opp (P:=P)). lia.
Qed.

Lemma qsort_sorted {A} (cmp : A → A → Z) (P : A → Prop) `{!Comparison cmp P} l :
  Forall P l → NoDup l → sorted_by cmp (qsort cmp l).
Proof.
  intros Hl. induction 1 as [|x l Hx Hnd IH]; cbn; [constructor|].
  apply Forall_cons in Hl as [HPx Hl]. apply (insert_by_sorted cmp P); [done| |by apply IH|].
  - by rewrite qsort_perm.
  - by rewrite qsort_perm.
Qed.

Lemma qsort_sorted_le {A} (cmp : A → A → Z) (P : A → Prop) `{!Comparison cmp P} l :
  Forall P l → StronglySorted (λ x y, cmp x y ≤ 0) (qsort cmp l).
Proof.
  induction 1 as [|x l Hx Hl IH]; cbn; [constructor|].
  rewrite <- (qsort_perm cmp l) in Hl. induction IH as [|y k Hk IH Hy]; cbn; [repeat constructor|].
  apply Forall_cons in Hl as [HPy HPk].
  destruct (Z.leb_spec (cmp x y) 0) as [Hle|Hgt].
  - constructor; [by constructor|]. constructor; [done|].
    rewrite Forall_forall in Hy, HPk |- *. intros z Hz. specialize (Hy z Hz). specialize (HPk z Hz).
    destruct (Z.eq_dec (cmp x y) 0) as [E|]; [by apply (cmp_eq (P:=P)) in E as ->|].
    destruct (Z.eq_dec (cmp y z) 0) as [E|]; [by apply (cmp_eq (P:=P)) in E as <-|].
    pose proof (cmp_trans (P:=P) x y z Hx HPy HPk). lia.
  - constructor; [by apply IH|]. rewrite insert_by_perm. constructor; [|done].
    rewrite (cmp_opp (P:=P)). lia.
Qed.

(** Sorted lists with the same elements are equal. *)
Lemma sorted_by_unique {A} (cmp : A → A → Z) (P : A → Prop) `{!Comparison cmp P} l k :
  sorted_by cmp l → sorted_by cmp k → (∀ x, x ∈ l ↔ x ∈ k) → l = k.
Proof.
  intros Hl. revert k. induction Hl as [|x l Hl IH Hx]; intros k Hk Heq.
  - destruct k as [|y k]; [done|]. specialize (Heq y). set_solver.
  - destruct Hk as [|y k Hk Hy]; [specialize (Heq x); set_solver|].
    rewrite Forall_forall in Hx, Hy.
    assert (Irr : ∀ z, ¬ cmp z z < 0) by (intros z; pose proof (cmp_opp (P:=P) z z); lia).
    assert (x = y) as ->.
    { destruct (proj1 (elem_of_cons k x y) (proj1 (Heq x) ltac:(set_solver))) as [|Hxk]; [done|].
      destruct (proj1 (elem_of_cons l y x) (proj2 (Heq y) ltac:(set_solver))) as [|Hyl]; [done|].
      specialize (Hx _ Hyl). specialize (Hy _ Hxk).
      pose proof (cmp_opp (P:=P) x y). lia. }
    f_equal. apply IH; [done|]. intros z. specialize (Heq z).
    rewrite !elem_of_cons in Heq. split; intros Hz.
    + destruct (proj1 Heq (or_intror Hz)) as [->|]; [|done].
      by destruct (Irr y (Hx _ Hz)).
    + destruct (proj2 Heq (or_intror Hz)) as [->|]; [|done].
      by destruct (Irr y (Hy _ Hz)).
Qed.

(** A C string proper: no NUL inside. *)
Definition is_cstr (s : bytes) : Prop := Forall (λ c, 0 < c) s.

Lemma strcmp_opp a b : strcmp b a = - strcmp a b.
Proof.
  revert b. induction a as [|x a IH]; intros [|y b]; cbn; try lia.
  rewrite (Z.eqb_sym y x). destruct (x =? y); [apply IH|lia].
Qed.

Lemma strcmp_trans a b c :
  is_cstr a → is_cstr b → is_cstr c → strcmp a b < 0 → strcmp b c < 0 → strcmp a c < 0.
Proof.
  unfold is_cstr. revert b c. induction a as [|x a IH]; intros [|y b] [|z c]; cbn;
    rewrite ?Forall_cons; try lia.
  intros [? ?] [? ?] [? ?].
  destruct (Z.eqb_spec x y), (Z.eqb_spec y z), (Z.eqb_spec x z); try lia. by apply IH.
Qed.

#[export] Instance strcmp_comparison : Comparison strcmp is_cstr.
Proof.
  split; [apply strcmp_opp|apply strcmp_trans|]. intros a b Ha Hb. by apply strcmp_eq.
Qed.
