(* ===== verification/CNum.v ===== *)
(** * Numbers in strings

    [strtoll], [strtoull], [atoll], [strtod] and [atof] of <stdlib.h>, the
    integer conversions of [printf], and IEEE 754 arithmetic on the 64-bit and
    32-bit patterns of [double] and [float], on the Standard Library's
    [SpecFloat]. *)

From S2P Require Import Prelude CLib.
From Stdlib Require Import SpecFloat.
From stdpp Require Import options.

(** ** IEEE 754 patterns *)

(** The format with [mw] mantissa and [ew] exponent bits. *)
Section Format.
Context (mw ew : Z).

Definition fmt_prec : Z := mw + 1.
Definition fmt_emax : Z := 2 ^ (ew - 1).
Definition fmt_emin : Z := 3 - fmt_emax - fmt_prec.

Definition sf_of_bits (b : Z) : spec_float :=
  let s := Z.testbit b (mw + ew) in
  let e := Z.land (Z.shiftr b mw) (Z.ones ew) in
  let m := Z.land b (Z.ones mw) in
  if e =? 0 then match m with
                 | Zpos p => S754_finite s p fmt_emin
                 | _ => S754_zero s
                 end
  else if e =? Z.ones ew then if m =? 0 then S754_infinity s else S754_nan
  else match m + 2 ^ mw with
       | Zpos p => S754_finite s p (e - 1 + fmt_emin)
       | _ => S754_nan
       end.

Definition bits_of_sf (x : spec_float) : Z :=
  let pack s e m := (if s : bool then 2 ^ (mw + ew) else 0) + e * 2 ^ mw + m in
  match x with
  | S754_zero s => pack s 0 0
  | S754_infinity s => pack s (Z.ones ew) 0
  | S754_nan => pack false (Z.ones ew) (2 ^ (mw - 1))
  | S754_finite s p e =>
      if Zpos p <? 2 ^ mw then pack s 0 (Zpos p)
      else pack s (e - fmt_emin + 1) (Zpos p - 2 ^ mw)
  end.

(** [± m * 2 ^ e] and [± m / d], rounded to the nearest, ties to even. *)
Definition sf_scaled (s : bool) (m : positive) (e : Z) : spec_float :=
  binary_round fmt_prec fmt_emax s m e.
Definition sf_quotient (s : bool) (m d : positive) : spec_float :=
  let '(q, e, l) := SFdiv_core_binary fmt_prec fmt_emax (Zpos m) 0 (Zpos d) 0 in
  binary_round_aux fmt_prec fmt_emax s q e l.

End Format.

Abbreviation f64 := (sf_of_bits 52 11).
Abbreviation f32 := (sf_of_bits 23 8).
Abbreviation f64_bits := (bits_of_sf 52 11).
Abbreviation f32_bits := (bits_of_sf 23 8).

(** The conversions between the two formats; [float] to [double] is exact. *)
Definition sf_cast (mw ew : Z) (x : spec_float) : spec_float :=
  match x with
  | S754_finite s m e => sf_scaled mw ew s m e
  | _ => x
  end.
Definition double_to_float (b : Z) : Z := f32_bits (sf_cast 23 8 (f64 b)).
Definition float_to_double (b : Z) : Z := f64_bits (sf_cast 52 11 (f32 b)).

(** [a < b], [a > b], [fabs(a - b) < c] on doubles. *)
Definition f64_lt (a b : Z) : bool := SFltb (f64 a) (f64 b).
Definition f64_sub (a b : Z) : Z := f64_bits (SFsub 53 1024 (f64 a) (f64 b)).
Definition f64_add (a b : Z) : Z := f64_bits (SFadd 53 1024 (f64 a) (f64 b)).
Definition f64_mul (a b : Z) : Z := f64_bits (SFmul 53 1024 (f64 a) (f64 b)).
Definition f64_div (a b : Z) : Z := f64_bits (SFdiv 53 1024 (f64 a) (f64 b)).
Definition f64_eq (a b : Z) : bool := SFeqb (f64 a) (f64 b).
Definition f64_abs (a : Z) : Z := f64_bits (SFabs (f64 a)).
Definition f32_lt (a b : Z) : bool := SFltb (f32 a) (f32 b).
Definition f32_sub (a b : Z) : Z := f32_bits (SFsub 24 128 (f32 a) (f32 b)).

(** The integer part of a finite number. *)
Definition sf_trunc (x : spec_float) : option Z :=
  match x with
  | S754_zero _ => Some 0
  | S754_finite s m e =>
      let v := match e with Zneg k => Z.shiftr (Zpos m) (Zpos k) | _ => Z.shiftl (Zpos m) e end in
      Some (if s then - v else v)
  | _ => None
  end.
(** [(int64_t)v], undefined when the integer part does not fit. *)
Definition f64_to_i64 (v : Z) : option Z :=
  match sf_trunc (f64 v) with
  | Some z => if (- 2 ^ 63 <=? z) && (z <? 2 ^ 63) then Some z else None
  | None => None
  end.
(** [val == (double)z]. *)
Definition f64_of_int (z : Z) : Z :=
  match z with
  | Z0 => f64_bits (S754_zero false)
  | Zpos p => f64_bits (sf_scaled 52 11 false p 0)
  | Zneg p => f64_bits (sf_scaled 52 11 true p 0)
  end.

(** ** Integers *)

Definition LLONG_MIN : Z := - 2 ^ 63.
Definition LLONG_MAX : Z := 2 ^ 63 - 1.
Definition ULLONG_MAX : Z := 2 ^ 64 - 1.

(** The longest prefix whose bytes satisfy [p], and the rest. *)
Fixpoint span_while (p : Z → bool) (s : bytes) : bytes * bytes :=
  match s with
  | c :: s' => if p c then let '(a, b) := span_while p s' in (c :: a, b) else ([], s)
  | [] => ([], [])
  end.

(** An optional sign: whether it is a minus, and what follows. *)
Definition scan_sign (s : bytes) : bool * bytes :=
  match s with
  | c :: r => if c =? (#"-") then (true, r) else if c =? (#"+") then (false, r) else (false, s)
  | [] => (false, s)
  end.

(** The sign and the magnitude of the subject sequence in base 10; no digits give
    zero. *)
Definition scan_decimal (s : bytes) : bool * Z :=
  let '(neg, r) := scan_sign (skip_space s) in (neg, dec_val (span_while isdigit r).1).

(** [strtoll(s, NULL, 10)], saturating. *)
Definition strtoll (s : bytes) : Z :=
  let '(neg, m) := scan_decimal s in
  if neg then Z.max LLONG_MIN (- m) else Z.min LLONG_MAX m.

(** [strtoull(s, NULL, 10)]: the sign negates in the unsigned type. *)
Definition strtoull (s : bytes) : Z :=
  let '(neg, m) := scan_decimal s in
  if ULLONG_MAX <? m then ULLONG_MAX else if neg then wrap64 (- m) else m.

Definition atoll : bytes → Z := strtoll.

(** ["%" PRId64] and ["%" PRIu64] of the 64-bit pattern [v]. *)
Definition fmt_d (v : Z) : bytes := if v <? 0 then #"-" :: fmt_u (- v) else fmt_u v.

(** ** strtod *)

Definition hex_nibble_val (c : Z) : Z :=
  if isdigit c then c - 48 else if isupper c then c - 55 else c - 87.

(** [expchar\[sign\]digits]: the exponent and what it leaves; without digits the
    exponent is absent. *)
Definition scan_exponent (expchar : Z) (s : bytes) : Z :=
  match s with
  | c :: r =>
      if tolower c =? expchar then
        let '(neg, r) := scan_sign r in
        let v := dec_val (span_while isdigit r).1 in if neg then - v else v
      else 0
  | [] => 0
  end.

(** Digits with an optional point: the digits before and after it, the rest. *)
Definition scan_fraction (p : Z → bool) (s : bytes) : bytes * bytes * bytes :=
  let '(a, r) := span_while p s in
  match r with
  | c :: r' => if c =? (#".") then let '(b, r'') := span_while p r' in (a, b, r'')
               else (a, [], r)
  | [] => (a, [], r)
  end.

Definition starts_with (p s : bytes) : bool := bool_decide (take (length p) s = p).

(** [± m * 10 ^ e]. *)
Definition sf_decimal (neg : bool) (m e : Z) : spec_float :=
  match m with
  | Zpos p =>
      match e with
      | Zneg k => sf_quotient 52 11 neg p (10 ^ k)%positive
      | Z0 => sf_scaled 52 11 neg p 0
      | Zpos k => sf_scaled 52 11 neg (p * 10 ^ k)%positive 0
      end
  | _ => S754_zero neg
  end.

Definition hex_val (s : bytes) : Z := foldl (λ a c, a * 16 + hex_nibble_val c) 0 s.

(** Without digits there is nothing to convert. *)
Definition no_digits (f : bytes * bytes * bytes) : bool := bool_decide (f.1.1 = [] ∧ f.1.2 = []).

(** [strtod(s, NULL)] as the pattern of a [double]. *)
Definition strtod (s : bytes) : Z :=
  let '(neg, r) := scan_sign (skip_space s) in
  let low := tolower <$> r in
  let hex := scan_fraction isxdigit (drop 2 r) in
  let dec := scan_fraction isdigit r in
  f64_bits
    (if starts_with ($"inf") low then S754_infinity neg
     else if starts_with ($"nan") low then S754_nan
     else if starts_with ($"0x") low && negb (no_digits hex) then
       match hex_val (hex.1.1 ++ hex.1.2) with
       | Zpos p => sf_scaled 52 11 neg p
                     (scan_exponent (#"p") hex.2 - 4 * Z.of_nat (length hex.1.2))
       | _ => S754_zero neg
       end
     else if no_digits dec then S754_zero false
     else
       sf_decimal neg (dec_val (dec.1.1 ++ dec.1.2))
         (scan_exponent (#"e") dec.2 - Z.of_nat (length dec.1.2))).

(** What [strtod] leaves, through its second argument. *)
Definition exponent_end (expchar : Z) (s : bytes) : bytes :=
  match s with
  | c :: r =>
      if tolower c =? expchar then
        match span_while isdigit (scan_sign r).2 with
        | ([], _) => s
        | (_, rest) => rest
        end
      else s
  | [] => s
  end.
Definition nan_end (r : bytes) : bytes :=
  match r with
  | c :: r' =>
      if c =? (#"(") then
        match (span_while (λ c, isalpha c || isdigit c || (c =? #"_")) r').2 with
        | c' :: rest => if c' =? (#")") then rest else r
        | [] => r
        end
      else r
  | [] => r
  end.
Definition strtod_end (s : bytes) : bytes :=
  let '(_, r) := scan_sign (skip_space s) in
  let low := tolower <$> r in
  let hex := scan_fraction isxdigit (drop 2 r) in
  let dec := scan_fraction isdigit r in
  if starts_with ($"infinity") low then drop 8 r
  else if starts_with ($"inf") low then drop 3 r
  else if starts_with ($"nan") low then nan_end (drop 3 r)
  else if starts_with ($"0x") low && negb (no_digits hex) then exponent_end (#"p") hex.2
  else if no_digits dec then s
  else exponent_end (#"e") dec.2.

Definition atof : bytes → Z := strtod.

(** ** printf %g *)

(** The largest [X] with [10 ^ X <= n / d], from an estimate below it. *)
Fixpoint log10_from (fuel : nat) (x n d : Z) : Z :=
  match fuel with
  | O => x
  | S fuel' =>
      if (if 0 <=? x + 1 then 10 ^ (x + 1) * d <=? n else d <=? n * 10 ^ (- (x + 1)))
      then log10_from fuel' (x + 1) n d else x
  end.
Definition log10_floor (n d : Z) : Z :=
  log10_from 4 (((Z.log2 n - Z.log2 d - 1) * 30103) / 100000 - 1) n d.
(** [n / d] rounded to an integer, ties to even. *)
Definition round_half_even (n d : Z) : Z :=
  let q := n / d in let r := n mod d in
  if (2 * r <? d) || ((2 * r =? d) && Z.even q) then q else q + 1.
(** The digits without trailing zeros. *)
Definition strip_zeros (s : bytes) : bytes := reverse (span_while (Z.eqb 48) (reverse s)).2.
Definition with_point (a b : bytes) : bytes := match strip_zeros b with [] => a | b => a ++ [ #"." ] ++ b end.

(** [n / d > 0] in [%.15g]: 15 significant digits. *)
Definition fmt_g15_pos (n d : Z) : bytes :=
  let x := log10_floor n d in
  let digits := if x <=? 14 then round_half_even (n * 10 ^ (14 - x)) d
                else round_half_even n (d * 10 ^ (x - 14)) in
  let '(x, digits) := if digits =? 10 ^ 15 then (x + 1, 10 ^ 14) else (x, digits) in
  let s := fmt_u digits in
  if (-4 <=? x) && (x <? 15) then
    if 0 <=? x then with_point (take (Z.to_nat (x + 1)) s) (drop (Z.to_nat (x + 1)) s)
    else with_point ($"0") (replicate (Z.to_nat (- x - 1)) 48 ++ s)
  else
    with_point (take 1 s) (drop 1 s)
    ++ $"e" ++ (if x <? 0 then $"-" else $"+") ++ fmt_0u 2 (Z.abs x).
(** [printf("%.15g")] of a double. *)
Definition fmt_g15 (v : Z) : bytes :=
  let sign (s : bool) t := if s then #"-" :: t else t in
  match f64 v with
  | S754_zero s => sign s ($"0")
  | S754_infinity s => sign s ($"inf")
  | S754_nan => sign (Z.testbit v 63) ($"nan")
  | S754_finite s m e =>
      sign s (match e with
              | Zneg k => fmt_g15_pos (Zpos m) (2 ^ Zpos k)
              | _ => fmt_g15_pos (Zpos m * 2 ^ e) 1
              end)
  end.

(** ** Lemmas *)

Lemma span_while_app p d s :
  Forall (λ c, p c = true) d → (∀ c r, s = c :: r → p c = false) → span_while p (d ++ s) = (d, s).
Proof.
  intros Hd Hs. induction Hd as [|c d Hc _ IH]; cbn.
  - destruct s as [|c r]; [done|]. cbn. by rewrite (Hs c r).
  - by rewrite Hc, IH.
Qed.

Lemma fmt_u_digits n : 0 ≤ n → ∃ c d, fmt_u n = c :: d ∧ isdigit c = true.
Proof.
  intros Hn. destruct (fmt_u_spec n Hn) as (_ & Hd & Hl).
  destruct (fmt_u n) as [|c d]; [cbn in Hl; lia|]. apply Forall_cons in Hd as [Hc _]. eauto.
Qed.

Lemma digit_not_space c : isdigit c = true → isspace c = false ∧ (c =? #"-") = false ∧ (c =? #"+") = false.
Proof. unfold isdigit, isspace. intros. change (#"-") with 45. change (#"+") with 43. lia. Qed.

(** A printed integer is scanned back. *)
Lemma scan_decimal_fmt v : scan_decimal (fmt_d v) = (v <? 0, Z.abs v).
Proof.
  assert (U : ∀ n, 0 ≤ n → dec_val (span_while isdigit (fmt_u n)).1 = n).
  { intros n Hn. destruct (fmt_u_spec n Hn) as (Hv & Hd & _).
    rewrite <- (app_nil_r (fmt_u n)), span_while_app; done. }
  unfold scan_decimal, fmt_d. destruct (Z.ltb_spec v 0) as [Hv|Hv].
  - change (scan_sign (skip_space (#"-" :: fmt_u (- v)))) with (true, fmt_u (- v)).
    cbn beta iota. rewrite U by lia. f_equal. lia.
  - destruct (fmt_u_digits v Hv) as (c & d & E & Hc). rewrite E. cbn [skip_space].
    destruct (digit_not_space c Hc) as (-> & Hm & Hp). cbn [scan_sign]. rewrite Hm, Hp, <- E. cbn beta iota.
    rewrite U by done. f_equal. lia.
Qed.

Lemma strtoll_fmt v : LLONG_MIN ≤ v ≤ LLONG_MAX → strtoll (fmt_d v) = v.
Proof.
  intros Hv. unfold strtoll. rewrite scan_decimal_fmt. destruct (Z.ltb_spec v 0); lia.
Qed.

Lemma strtoull_fmt v : 0 ≤ v ≤ ULLONG_MAX → strtoull (fmt_u v) = v.
Proof.
  intros Hv. assert (fmt_u v = fmt_d v) as ->.
  { unfold fmt_d. by destruct (Z.ltb_spec v 0); [lia|]. }
  unfold strtoull. rewrite scan_decimal_fmt. destruct (Z.ltb_spec v 0); [lia|].
  rewrite Z.abs_eq by lia. by destruct (Z.ltb_spec ULLONG_MAX v); [lia|].
Qed.

Lemma dec_val_nonneg s : Forall (λ c, isdigit c = true) s → 0 ≤ dec_val s.
Proof.
  intros Hs. unfold dec_val.
  assert (H : ∀ a, 0 ≤ a → 0 ≤ foldl (λ a c, a * 10 + (c - 48)) a s); [|by apply H].
  induction Hs as [|c s Hc _ IH]; intros a Ha; cbn; [done|]. apply IH.
  unfold isdigit in Hc. lia.
Qed.

Lemma span_while_Forall p s : Forall (λ c, p c = true) (span_while p s).1.
Proof.
  induction s as [|c s IH]; cbn; [constructor|]. destruct (p c) eqn:E; [|constructor].
  destruct (span_while p s) as [a b]. by constructor.
Qed.

Lemma scan_decimal_nonneg s : 0 ≤ (scan_decimal s).2.
Proof.
  unfold scan_decimal. destruct (scan_sign _) as [b r]. cbn.
  apply dec_val_nonneg, span_while_Forall.
Qed.

Lemma strtoll_bounds s : LLONG_MIN ≤ strtoll s ≤ LLONG_MAX.
Proof.
  unfold strtoll, LLONG_MIN, LLONG_MAX. pose proof (scan_decimal_nonneg s) as H.
  destruct (scan_decimal s) as [[] m]; cbn in H; lia.
Qed.

Lemma strtoull_bounds s : is_u64 (strtoull s).
Proof.
  unfold strtoull, ULLONG_MAX. pose proof (scan_decimal_nonneg s) as H.
  destruct (scan_decimal s) as [neg m]; cbn in H. unfold is_word.
  destruct (Z.ltb_spec (2 ^ 64 - 1) m); [lia|]. destruct neg; [|lia]. by apply is_word_wrap.
Qed.
