(* ===== verification/ParmValue.v ===== *)
(** * Argument values and their types

    The type codes of [src/include/tpb-public.h], the union [tpb_parm_value_t] as
    a 64-bit pattern, and what [src/corelib/tpb-driver.c] and [tpb-argp.c] do
    with it: parsing a string by type, checking a value against a range or a
    list, the element size of a type, and the text on a kernel's command line. *)

From S2P Require Import Prelude CLib CNum.
From stdpp Require Import options.

(** ** Control bits: source, check mode, type *)

Definition TPB_PARM_SOURCE_MASK : Z := 0xFF000000.
Definition TPB_PARM_CLI : Z := 0x01000000.
Definition TPB_PARM_ENV : Z := 0x08000000.
Definition TPB_PARM_CHECK_MASK : Z := 0x00FF0000.
Definition TPB_PARM_NOCHECK : Z := 0x00000000.
Definition TPB_PARM_RANGE : Z := 0x00010000.
Definition TPB_PARM_LIST : Z := 0x00020000.
Definition TPB_PARM_TYPE_MASK : Z := 0x0000FFFF.

Definition TPB_CHAR_T : Z := 0x00000101.
Definition TPB_INT8_T : Z := 0x00000137.
Definition TPB_UINT8_T : Z := 0x0000013b.
Definition TPB_INT16_T : Z := 0x00000238.
Definition TPB_UINT16_T : Z := 0x0000023c.
Definition TPB_INT_T : Z := 0x00000405.
Definition TPB_FLOAT_T : Z := 0x0000040a.
Definition TPB_INT32_T : Z := 0x00000439.
Definition TPB_UINT32_T : Z := 0x0000043d.
Definition TPB_DOUBLE_T : Z := 0x0000080b.
Definition TPB_INT64_T : Z := 0x0000083a.
Definition TPB_UINT64_T : Z := 0x0000083e.
Definition TPB_DTYPE_TIMER_T : Z := 0x0000083F.
Definition TPB_LONG_DOUBLE_T : Z := 0x0000100c.

(** The tests the sources write out as chains of [type_code == TPB_..._T]. *)
Definition one_of (codes : list Z) (tc : Z) : bool := existsb (Z.eqb tc) codes.
Definition is_double_t : Z → bool := one_of [TPB_DOUBLE_T; TPB_LONG_DOUBLE_T].
Definition is_float_t : Z → bool := one_of [TPB_FLOAT_T].
Definition is_int_t : Z → bool := one_of [TPB_INT_T; TPB_INT8_T; TPB_INT16_T; TPB_INT32_T; TPB_INT64_T].
Definition is_uint_t : Z → bool := one_of [TPB_UINT8_T; TPB_UINT16_T; TPB_UINT32_T; TPB_UINT64_T].
Definition is_char_t : Z → bool := one_of [TPB_CHAR_T].

(** [(uint32_t)(dtype & TPB_PARM_TYPE_MASK)] and the check mode. *)
Definition type_code (dtype : Z) : Z := Z.land dtype TPB_PARM_TYPE_MASK.
Definition check_mode (dtype : Z) : Z := Z.land dtype TPB_PARM_CHECK_MASK.

(** ** The union [tpb_parm_value_t]

    A value is the 64-bit pattern of the union: [u64] is the pattern itself, [f64]
    the pattern of the double, and the narrower members are its low bytes. *)

Definition as_i64 (v : Z) : Z := swrap 64 v.
Definition as_f32 (v : Z) : Z := Z.land v (Z.ones 32).
Definition as_c (v : Z) : Z := swrap 8 v.

(** Writing a member of [w] bits leaves the other bytes of the union [old]. *)
Definition set_member (w old v : Z) : Z :=
  Z.lor (Z.shiftl (Z.shiftr old w) w) (v mod 2 ^ w).

(** ** Operations *)

(** The value of the string [s] for a type, as [tpb_driver_set_hdl_karg],
    [_sf_apply_karg_tokens] and [tpb_k_pli_build_handle] compute it; [old] is what
    the union held before (nothing definite in a local variable). *)
Definition parse_value (old tc : Z) (s : bytes) : option Z :=
  if is_float_t tc || is_double_t tc then Some (strtod s)
  else if is_int_t tc then Some (wrap64 (strtoll s))
  else if is_uint_t tc then Some (strtoull s)
  else if is_char_t tc then Some (set_member 8 old (cget s 0))
  else None.

(** The default value [tpb_k_add_arg] stores in a union filled with zeros. *)
Definition default_value (tc : Z) (s : bytes) : option Z :=
  if is_int_t tc then Some (wrap64 (atoll s))
  else if is_uint_t tc then Some (strtoull s)
  else if is_float_t tc then Some (set_member 32 0 (double_to_float (atof s)))
  else if tc =? TPB_DOUBLE_T then Some (atof s)
  else if is_char_t tc then Some (set_member 8 0 (cget s 0))
  else None.

(** [value < lo || value > hi] in the member the type selects; the test of
    [tpb_driver_set_hdl_karg] has no case for characters, that of
    [_sf_check_arg_range] has. *)
Definition karg_out_of_range (tc v lo hi : Z) : bool :=
  if is_double_t tc then f64_lt v lo || f64_lt hi v
  else if is_float_t tc then f32_lt (as_f32 v) (as_f32 lo) || f32_lt (as_f32 hi) (as_f32 v)
  else if is_int_t tc then (as_i64 v <? as_i64 lo) || (as_i64 hi <? as_i64 v)
  else if is_uint_t tc then (v <? lo) || (hi <? v)
  else false.
Definition arg_out_of_range (tc v lo hi : Z) : bool :=
  if is_char_t tc then (as_c v <? as_c lo) || (as_c hi <? as_c v)
  else karg_out_of_range tc v lo hi.

(** The membership test of [_sf_check_arg_list]; floating point values are
    compared up to [1e-15] ([1e-7] for [float], after a float subtraction). *)
Definition in_arg_list (tc v : Z) (lims : list Z) : bool :=
  if is_double_t tc then
    existsb (λ l, f64_lt (f64_abs (f64_sub v l)) (strtod $"1e-15")) lims
  else if is_float_t tc then
    existsb (λ l, f64_lt (f64_abs (float_to_double (f32_sub (as_f32 v) (as_f32 l))))
                    (strtod $"1e-7")) lims
  else if is_int_t tc then existsb (λ l, as_i64 v =? as_i64 l) lims
  else if is_uint_t tc then existsb (λ l, v =? l) lims
  else if is_char_t tc then existsb (λ l, as_c v =? as_c l) lims
  else false.

(** The limits a [TPB_PARM_RANGE] argument stores from its two variadic arguments
    (patterns of [double], [int64_t], [uint64_t] or [int]); [None]: illegal range.
    The unions come from [malloc]: [old] is what they held. *)
Definition range_limits (tc lo hi : Z) (old : Z * Z) : option (list Z) :=
  if is_double_t tc then if f64_lt hi lo then None else Some [lo; hi]
  else if is_float_t tc then
    let lo := double_to_float lo in let hi := double_to_float hi in
    if f32_lt hi lo then None else Some [set_member 32 old.1 lo; set_member 32 old.2 hi]
  else if is_int_t tc then if as_i64 hi <? as_i64 lo then None else Some [lo; hi]
  else if is_uint_t tc then if hi <? lo then None else Some [lo; hi]
  else if is_char_t tc then
    if as_c hi <? as_c lo then None else Some [set_member 8 old.1 lo; set_member 8 old.2 hi]
  else Some [old.1; old.2].

(** The limits of a [TPB_PARM_LIST] argument from the array it was given. *)
Definition list_limits (tc : Z) (src : list Z) (old : Z) : list Z :=
  if is_float_t tc || is_double_t tc || is_int_t tc || is_uint_t tc then src
  else if is_char_t tc then set_member 8 old <$> src
  else (λ _, old) <$> src.

(** [tpb_dtype_elem_size]: [None] is [TPBE_LIST_NOT_FOUND]. *)
Definition elem_size_of (tc : Z) : option Z :=
  if tc =? TPB_INT_T then Some 4
  else if one_of [TPB_INT8_T; TPB_UINT8_T; TPB_CHAR_T] tc then Some 1
  else if one_of [TPB_INT16_T; TPB_UINT16_T] tc then Some 2
  else if one_of [TPB_INT32_T; TPB_UINT32_T] tc then Some 4
  else if tc =? TPB_FLOAT_T then Some 4
  else if one_of [TPB_INT64_T; TPB_UINT64_T; TPB_DOUBLE_T] tc then Some 8
  else if tc =? TPB_LONG_DOUBLE_T then Some 16
  else None.

(** What [tpb_k_get_arg] stores through [argptr] for a type; [None] is
    [TPBE_LIST_NOT_FOUND]. *)
Definition read_value (tc v : Z) : option Z :=
  if tc =? TPB_INT_T then Some (swrap 32 v)
  else if tc =? TPB_INT64_T then Some (as_i64 v)
  else if tc =? TPB_UINT8_T then Some (wrap 8 v)
  else if tc =? TPB_UINT16_T then Some (wrap 16 v)
  else if tc =? TPB_UINT32_T then Some (wrap 32 v)
  else if tc =? TPB_UINT64_T then Some v
  else if tc =? TPB_FLOAT_T then Some (as_f32 v)
  else if tc =? TPB_DOUBLE_T then Some v
  else if tc =? TPB_CHAR_T then Some (as_c v)
  else None.

(** ** Lemmas *)

Lemma is_u64_i64 v : is_u64 v → wrap64 (as_i64 v) = v.
Proof.
  unfold is_word, as_i64, swrap, wrap. intros Hv. rewrite (Z.mod_small v) by lia.
  destruct (v <? 2 ^ (64 - 1)); [by apply Z.mod_small|].
  rewrite <- (Z.mod_add (v - 2 ^ 64) 1) by lia. rewrite Z.mod_small; lia.
Qed.

Lemma as_i64_wrap n : LLONG_MIN ≤ n ≤ LLONG_MAX → as_i64 (wrap64 n) = n.
Proof.
  unfold LLONG_MIN, LLONG_MAX, as_i64, swrap, wrap. intros Hn. rewrite Z.mod_mod by lia.
  destruct (Z_le_gt_dec 0 n) as [H|H].
  - rewrite Z.mod_small by lia. by destruct (Z.ltb_spec n (2 ^ (64 - 1))); [|lia].
  - rewrite <- (Z.mod_add n 1), Z.mod_small by lia.
    destruct (Z.ltb_spec (n + 1 * 2 ^ 64) (2 ^ (64 - 1))); lia.
Qed.

Lemma as_i64_bounds v : LLONG_MIN ≤ as_i64 v ≤ LLONG_MAX.
Proof.
  unfold LLONG_MIN, LLONG_MAX, as_i64, swrap. pose proof (Z.mod_pos_bound v (2 ^ 64)).
  destruct (Z.ltb_spec (v mod 2 ^ 64) (2 ^ (64 - 1))); lia.
Qed.

Lemma as_i64_inj v v' : is_u64 v → is_u64 v' → as_i64 v = as_i64 v' → v = v'.
Proof. intros Hv Hv' E. by rewrite <- (is_u64_i64 v), <- (is_u64_i64 v'), E. Qed.

(** The five groups of type codes are disjoint. *)
Lemma int_not_float tc : is_int_t tc = true → is_float_t tc = false ∧ is_double_t tc = false.
Proof.
  unfold is_int_t, is_float_t, is_double_t, one_of. cbn.
  rewrite !orb_false_r, !orb_true_iff, !Z.eqb_eq. intros H.
  destruct_or! H; subst; done.
Qed.

Lemma uint_not_others tc :
  is_uint_t tc = true → is_float_t tc = false ∧ is_double_t tc = false ∧ is_int_t tc = false.
Proof.
  unfold is_uint_t, is_int_t, is_float_t, is_double_t, one_of. cbn.
  rewrite !orb_false_r, !orb_true_iff, !Z.eqb_eq. intros H.
  destruct_or! H; subst; done.
Qed.

Lemma char_not_others tc :
  is_char_t tc = true →
  is_float_t tc = false ∧ is_double_t tc = false ∧ is_int_t tc = false ∧ is_uint_t tc = false.
Proof.
  unfold is_char_t, is_uint_t, is_int_t, is_float_t, is_double_t, one_of. cbn.
  rewrite !orb_false_r, !Z.eqb_eq. by intros ->.
Qed.

Lemma parse_value_int old tc s :
  is_int_t tc = true → parse_value old tc s = Some (wrap64 (strtoll s)).
Proof. intros H. unfold parse_value. by destruct (int_not_float tc H) as [-> ->]; rewrite H. Qed.

Lemma parse_value_uint old tc s :
  is_uint_t tc = true → parse_value old tc s = Some (strtoull s).
Proof.
  intros H. unfold parse_value. by destruct (uint_not_others tc H) as (-> & -> & ->); rewrite H.
Qed.

Lemma out_of_range_int tc v lo hi :
  is_int_t tc = true →
  karg_out_of_range tc v lo hi = negb ((as_i64 lo <=? as_i64 v) && (as_i64 v <=? as_i64 hi)).
Proof.
  intros H. unfold karg_out_of_range. destruct (int_not_float tc H) as [-> ->]. rewrite H. lia.
Qed.

Lemma out_of_range_uint tc v lo hi :
  is_uint_t tc = true → karg_out_of_range tc v lo hi = negb ((lo <=? v) && (v <=? hi)).
Proof.
  intros H. unfold karg_out_of_range. destruct (uint_not_others tc H) as (-> & -> & ->).
  rewrite H. lia.
Qed.
