(* ===== verification/Datetime.v ===== *)
(** * Dates: clocks, packed 64-bit dates and ISO 8601 strings

    [src/corelib/strftime.c].  The record database stamps every record with the
    packed form, and derives identifiers from it. *)

From S2P Require Import Prelude Errors CLib.
From stdpp Require Import options.

(** ** Constants and types *)

Definition TPBM_TS_UTC : Z := 0x01.
Definition TPBM_TS_LOCAL : Z := 0x02.

Definition TPB_TS_BIT_SEC : Z := 0.
Definition TPB_TS_BIT_MIN : Z := 6.
Definition TPB_TS_BIT_HOUR : Z := 12.
Definition TPB_TS_BIT_DAY : Z := 17.
Definition TPB_TS_BIT_MONTH : Z := 22.
Definition TPB_TS_BIT_YEAR : Z := 26.
Definition TPB_TS_BIT_TZ : Z := 34.

Definition TPB_TS_MASK_SEC : Z := Z.shiftl 0x3F 0.
Definition TPB_TS_MASK_MIN : Z := Z.shiftl 0x3F 6.
Definition TPB_TS_MASK_HOUR : Z := Z.shiftl 0x1F 12.
Definition TPB_TS_MASK_DAY : Z := Z.shiftl 0x1F 17.
Definition TPB_TS_MASK_MONTH : Z := Z.shiftl 0xF 22.
Definition TPB_TS_MASK_YEAR : Z := Z.shiftl 0xFF 26.
Definition TPB_TS_MASK_TZ : Z := Z.shiftl 0xFF 34.

Definition TPB_TS_YEAR_BIAS : Z := 1970.
Definition TPB_TS_TZ_INCREMENT : Z := 15.

(** [tpb_datetime_t]: a 16-bit year and five bytes. *)
Record tpb_datetime := mkDT {
  year : Z; month : Z; day : Z; hour : Z; minute : Z; second : Z
}.

(** [tpb_btime_t]. *)
Record tpb_btime := mkBtime { bt_sec : Z; bt_nsec : Z }.

#[export] Instance tpb_datetime_eq_dec : EqDecision tpb_datetime.
Proof. solve_decision. Defined.

(** ** <time.h> *)

(** [struct tm], the members the source reads. *)
Record tm := mkTm {
  tm_year : Z; tm_mon : Z; tm_mday : Z; tm_hour : Z; tm_min : Z; tm_sec : Z
}.

(** Leap years up to [y], and the days from 1970-01-01 to the first of [y]. *)
Definition leaps (y : Z) : Z := y / 4 - y / 100 + y / 400.
Definition days_before_year (y : Z) : Z := 365 * (y - 1970) + leaps (y - 1) - leaps 1969.

(** The year of a day: a guess from the mean length of a year, one off at most. *)
Definition year_of_day (days : Z) : Z :=
  let g := 1970 + 400 * days / 146097 in
  if days <? days_before_year g then g - 1
  else if days_before_year (g + 1) <=? days then g + 1 else g.

Definition month_lengths (y : Z) : list Z :=
  [31; days_before_year (y + 1) - days_before_year y - 337; 31; 30; 31; 30; 31; 31; 30; 31; 30; 31].

(** The month and the day of the month of a day of the year, from month [m] on. *)
Fixpoint month_day (m : Z) (lens : list Z) (doy : Z) : Z * Z :=
  match lens with
  | [] => (m, doy + 1)
  | l :: lens' => if doy <? l then (m, doy + 1) else month_day (m + 1) lens' (doy - l)
  end.

(** The Gregorian date of a day counted from 1970-01-01. *)
Definition civil_from_days (days : Z) : Z * Z * Z :=
  let y := year_of_day days in
  let '(m, d) := month_day 1 (month_lengths y) (days - days_before_year y) in (y, m, d).

(** [gmtime_r]: undefined (a null result the caller ignores) when the year does
    not fit an [int]; the bound used is [2^55] seconds, about 10^9 years. *)
Definition gmtime_r (t : Z) : outcome tm :=
  if (Z.abs t <? 2 ^ 55) then
    let '(y, m, d) := civil_from_days (t / 86400) in
    let s := t mod 86400 in
    Ok (mkTm (y - 1900) (m - 1) d (s / 3600) (s / 60 mod 60) (s mod 60))
  else UB.

(** What the operating system's clocks and time zone database say: the real time
    clock (seconds), the boot time and monotonic clocks ([None] when the call
    fails) and the offset of local time. *)
Record clocks := mkClocks {
  realtime : Z;
  boottime : option (Z * Z);
  monotonic : option (Z * Z);
  local_offset : Z → Z;
}.

Definition localtime_r (c : clocks) (t : Z) : outcome tm := gmtime_r (t + local_offset c t).

(** ** Reading the clocks *)

Definition _sf_from_tm (t : tm) : tpb_datetime :=
  mkDT (wrap 16 (tm_year t + 1900)) (wrap 8 (tm_mon t + 1)) (wrap 8 (tm_mday t))
       (wrap 8 (tm_hour t)) (wrap 8 (tm_min t)) (wrap 8 (tm_sec t)).

Definition _sf_from_timespec (sec : Z) : outcome tpb_datetime :=
  t ← gmtime_r sec; Ok (_sf_from_tm t).

(** [dt] says whether the output pointer is given. *)
Definition tpb_ts_get_datetime (c : clocks) (mode : Z) (dt : bool) : outcome tpb_datetime :=
  if negb dt then TPB_FAIL TPB_MOD_MISC TPBE_NULLPTR_ARG
  else if mode =? TPBM_TS_UTC then _sf_from_timespec (realtime c)
  else if mode =? TPBM_TS_LOCAL then t ← localtime_r c (realtime c); Ok (_sf_from_tm t)
  else TPB_FAIL TPB_MOD_MISC TPBE_ILLEGAL_CALL.

(** The branch compiled where [CLOCK_BOOTTIME] exists. *)
Definition tpb_ts_get_btime (c : clocks) (btime : bool) : outcome tpb_btime :=
  if negb btime then TPB_FAIL TPB_MOD_MISC TPBE_NULLPTR_ARG
  else match boottime c with
       | Some (s, n) => Ok (mkBtime (wrap64 s) (wrap32 n))
       | None =>
           match monotonic c with
           | Some (s, n) => Ok (mkBtime (wrap64 s) (wrap32 n))
           | None => TPB_FAIL TPB_MOD_MISC TPBE_ILLEGAL_CALL
           end
       end.

(** ** Boot time as a rough date *)

Definition SEC_PER_MIN : Z := 60.
Definition SEC_PER_HOUR : Z := 3600.
Definition SEC_PER_DAY : Z := 86400.
Definition HOURS_PER_MONTH : Z := 730.
Definition HOURS_PER_YEAR : Z := 8760.
Definition SEC_PER_MONTH : Z := HOURS_PER_MONTH * SEC_PER_HOUR.
Definition SEC_PER_YEAR : Z := HOURS_PER_YEAR * SEC_PER_HOUR.

Definition tpb_ts_btime_to_datetime (btime : option tpb_btime) (dt : bool)
  : outcome tpb_datetime :=
  match btime, dt with
  | None, _ | _, false => TPB_FAIL TPB_MOD_MISC TPBE_NULLPTR_ARG
  | Some b, true =>
    let total_sec := bt_sec b in
    let years := total_sec / SEC_PER_YEAR in
    let years := if 255 <? years then 255 else years in
    let total_sec := wrap64 (total_sec - years * SEC_PER_YEAR) in
    let months := total_sec / SEC_PER_MONTH in
    let months := if 11 <? months then 11 else months in
    let total_sec := wrap64 (total_sec - months * SEC_PER_MONTH) in
    let days := total_sec / SEC_PER_DAY in
    let days := if 30 <? days then 30 else days in
    let total_sec := wrap64 (total_sec - days * SEC_PER_DAY) in
    let hours := total_sec / SEC_PER_HOUR in
    let total_sec := wrap64 (total_sec - hours * SEC_PER_HOUR) in
    let mins := total_sec / SEC_PER_MIN in
    let total_sec := wrap64 (total_sec - mins * SEC_PER_MIN) in
    Ok (mkDT (wrap 16 (TPB_TS_YEAR_BIAS + years)) (wrap 8 (1 + months))
             (wrap 8 (1 + days)) (wrap 8 hours) (wrap 8 mins) (wrap 8 total_sec))
  end.

(** ** The packed form *)

(** One [b |= (uint64_t)(v & mask) << at] of the packing. *)
Definition pack_field (b v mask at_ : Z) : Z := Z.lor b (wrap64 (Z.shiftl (Z.land v mask) at_)).

Definition tpb_ts_datetime_to_bits (dt : option tpb_datetime) (tz_bias_min : Z) (bits : bool)
  : outcome Z :=
  match dt, bits with
  | None, _ | _, false => TPB_FAIL TPB_MOD_MISC TPBE_NULLPTR_ARG
  | Some dt, true =>
    if (year dt <? TPB_TS_YEAR_BIAS) || (TPB_TS_YEAR_BIAS + 255 <? year dt)
    then TPB_FAIL TPB_MOD_MISC TPBE_ILLEGAL_CALL
    else
      let b := 0 in
      let b := pack_field b (second dt) 0x3F TPB_TS_BIT_SEC in
      let b := pack_field b (minute dt) 0x3F TPB_TS_BIT_MIN in
      let b := pack_field b (hour dt) 0x1F TPB_TS_BIT_HOUR in
      let b := pack_field b (day dt) 0x1F TPB_TS_BIT_DAY in
      let b := pack_field b (month dt) 0xF TPB_TS_BIT_MONTH in
      let b := pack_field b (year dt - TPB_TS_YEAR_BIAS) 0xFF TPB_TS_BIT_YEAR in
      let tz_inc := Z.quot tz_bias_min TPB_TS_TZ_INCREMENT in
      let tz_inc := if tz_inc <? -128 then -128 else tz_inc in
      let tz_inc := if 127 <? tz_inc then 127 else tz_inc in
      Ok (pack_field b tz_inc 0xFF TPB_TS_BIT_TZ)
  end.

(** [(bits & mask) >> at]. *)
Definition unpack_field (bits mask at_ : Z) : Z := Z.shiftr (Z.land bits mask) at_.

(** The date, and the time zone bias for a caller that asks for it. *)
Definition tpb_ts_bits_to_datetime (bits : Z) (dt : bool) : outcome (tpb_datetime * Z) :=
  if negb dt then TPB_FAIL TPB_MOD_MISC TPBE_NULLPTR_ARG
  else
    let d :=
      mkDT (wrap 16 (wrap 16 (unpack_field bits TPB_TS_MASK_YEAR TPB_TS_BIT_YEAR)
                     + TPB_TS_YEAR_BIAS))
           (wrap 8 (unpack_field bits TPB_TS_MASK_MONTH TPB_TS_BIT_MONTH))
           (wrap 8 (unpack_field bits TPB_TS_MASK_DAY TPB_TS_BIT_DAY))
           (wrap 8 (unpack_field bits TPB_TS_MASK_HOUR TPB_TS_BIT_HOUR))
           (wrap 8 (unpack_field bits TPB_TS_MASK_MIN TPB_TS_BIT_MIN))
           (wrap 8 (unpack_field bits TPB_TS_MASK_SEC TPB_TS_BIT_SEC)) in
    let tz_inc_u := wrap 8 (unpack_field bits TPB_TS_MASK_TZ TPB_TS_BIT_TZ) in
    let tz_inc := if tz_inc_u <=? 127 then swrap 8 tz_inc_u else swrap 8 (tz_inc_u - 256) in
    Ok (d, swrap 16 (tz_inc * TPB_TS_TZ_INCREMENT)).

(** ** ISO 8601 strings *)

(** [sizeof(tpb_datetime_str_t)]. *)
Definition sizeof_datetime_str : nat := 32.

(** ["%04u-%02u-%02uT%02u:%02u:%02u"]. *)
Definition fmt_datetime (dt : tpb_datetime) : bytes :=
  fmt_0u 4 (year dt) ++ [ #"-" ] ++ fmt_0u 2 (month dt) ++ [ #"-" ] ++ fmt_0u 2 (day dt)
  ++ [ #"T" ] ++ fmt_0u 2 (hour dt) ++ [ #":" ] ++ fmt_0u 2 (minute dt)
  ++ [ #":" ] ++ fmt_0u 2 (second dt).

(** A [snprintf] into the 32 bytes of the string, whose result must fit. *)
Definition store_datetime_str (s : bytes) : outcome bytes :=
  if (sizeof_datetime_str <=? length s)%nat then TPB_FAIL TPB_MOD_MISC TPBE_CLI_FAIL else Ok s.

Definition tpb_ts_bits_to_isoutc (bits : Z) (out : bool) : outcome bytes :=
  if negb out then TPB_FAIL TPB_MOD_MISC TPBE_NULLPTR_ARG
  else match tpb_ts_bits_to_datetime bits true with
       | Ok (dt, _) => store_datetime_str (fmt_datetime dt ++ [ #"Z" ])
       | Err _ => TPB_FAIL TPB_MOD_MISC TPBE_ILLEGAL_CALL
       | UB => UB
       end.

Definition tpb_ts_bits_to_isotz (bits tz_bias_min : Z) (out : bool) : outcome bytes :=
  if negb out then TPB_FAIL TPB_MOD_MISC TPBE_NULLPTR_ARG
  else match tpb_ts_bits_to_datetime bits true with
       | Ok (dt, _) =>
           let tz_sign := if 0 <=? tz_bias_min then 1 else -1 in
           let tz_abs_min := if 0 <=? tz_bias_min then tz_bias_min else - tz_bias_min in
           let tz_hours := Z.quot tz_abs_min 60 in
           let tz_mins := Z.rem tz_abs_min 60 in
           store_datetime_str
             (fmt_datetime dt ++ [if 0 <=? tz_sign then #"+" else #"-"]
              ++ fmt_0d 2 tz_hours ++ [ #":" ] ++ fmt_0d 2 tz_mins)
       | Err _ => TPB_FAIL TPB_MOD_MISC TPBE_ILLEGAL_CALL
       | UB => UB
       end.

(** ["%4u-%2u-%2uT%2u:%2u:%2u"], and the four formats built on it. *)
Definition scan_datetime : list directive :=
  [DUint 4; DLit #"-"; DUint 2; DLit #"-"; DUint 2; DLit #"T";
   DUint 2; DLit #":"; DUint 2; DLit #":"; DUint 2].
Definition fmt_isoutc : list directive := scan_datetime ++ [DLit #"Z"].
Definition fmt_isotz_colon : list directive := scan_datetime ++ [DChar; DInt 2; DLit #":"; DInt 2].
Definition fmt_isotz_plain : list directive := scan_datetime ++ [DChar; DInt 2; DInt 2].
Definition fmt_isotz_hour : list directive := scan_datetime ++ [DChar; DInt 2].

Definition parsed_datetime (y mo d h mi s : Z) : tpb_datetime :=
  mkDT (wrap 16 y) (wrap 8 mo) (wrap 8 d) (wrap 8 h) (wrap 8 mi) (wrap 8 s).

Definition tpb_ts_isoutc_to_bits (s : option bytes) (bits : bool) : outcome Z :=
  match s, bits with
  | None, _ | _, false => TPB_FAIL TPB_MOD_MISC TPBE_NULLPTR_ARG
  | Some s, true =>
    match sscanf fmt_isoutc s with
    | [y; mo; d; h; mi; se] =>
        TPB_PROPAGATE TPB_MOD_MISC
          (tpb_ts_datetime_to_bits (Some (parsed_datetime y mo d h mi se)) 0 true)
    | _ => TPB_FAIL TPB_MOD_MISC TPBE_ILLEGAL_CALL
    end
  end.

(** The three formats tried in turn: the date fields, the sign, hours, minutes. *)
Definition scan_isotz (s : bytes) : option (tpb_datetime * Z * Z * Z) :=
  match sscanf fmt_isotz_colon s with
  | [y; mo; d; h; mi; se; sg; th; tmin] => Some (parsed_datetime y mo d h mi se, sg, th, tmin)
  | _ =>
    match sscanf fmt_isotz_plain s with
    | [y; mo; d; h; mi; se; sg; th; tmin] => Some (parsed_datetime y mo d h mi se, sg, th, tmin)
    | _ =>
      match sscanf fmt_isotz_hour s with
      | [y; mo; d; h; mi; se; sg; th] => Some (parsed_datetime y mo d h mi se, sg, th, 0)
      | _ => None
      end
    end
  end.

(** The packed date and the bias in minutes. *)
Definition tpb_ts_isotz_to_bits (s : option bytes) (bits : bool) : outcome (Z * Z) :=
  match s, bits with
  | None, _ | _, false => TPB_FAIL TPB_MOD_MISC TPBE_NULLPTR_ARG
  | Some s, true =>
    match scan_isotz s with
    | None => TPB_FAIL TPB_MOD_MISC TPBE_ILLEGAL_CALL
    | Some (dt, tz_sign, tz_hour, tz_min) =>
        let bias := swrap 16 (tz_hour * 60 + tz_min) in
        let bias := if tz_sign =? #"-" then swrap 16 (- bias) else bias in
        b ← TPB_PROPAGATE TPB_MOD_MISC (tpb_ts_datetime_to_bits (Some dt) bias true);
        Ok (b, bias)
    end
  end.

(** ** The packed form, as arithmetic *)

(** The fields of a date that fit the packed form. *)
Definition packable (dt : tpb_datetime) : Prop :=
  1970 ≤ year dt ≤ 2225 ∧ 0 ≤ month dt < 16 ∧ 0 ≤ day dt < 32 ∧ 0 ≤ hour dt < 32
  ∧ 0 ≤ minute dt < 64 ∧ 0 ≤ second dt < 64.

(** The 34 date bits, most significant field first. *)
Definition date_number (dt : tpb_datetime) : Z :=
  ((((((year dt - 1970) * 2 ^ 4 + month dt) * 2 ^ 5 + day dt) * 2 ^ 5 + hour dt) * 2 ^ 6
    + minute dt) * 2 ^ 6 + second dt).

(** The time zone field: quarter hours towards zero, clamped to a signed byte. *)
Definition tz_quarters (tz : Z) : Z := Z.max (-128) (Z.min 127 (Z.quot tz 15)).

Lemma pack_field_add b v k at_ :
  0 ≤ b < 2 ^ at_ → 0 ≤ k → 0 ≤ at_ → at_ + k ≤ 64 →
  pack_field b v (Z.ones k) at_ = b + (v mod 2 ^ k) * 2 ^ at_.
Proof.
  intros Hb Hk Ha Hs. unfold pack_field. rewrite Z.land_ones by done.
  pose proof (Z.mod_pos_bound v (2 ^ k) ltac:(lia)).
  rewrite (wrap_small 64).
  - rewrite Z.lor_comm, lor_shiftl_add by lia. lia.
  - rewrite Z.shiftl_mul_pow2 by done. split; [nia|].
    apply (Z.lt_le_trans _ (2 ^ k * 2 ^ at_)); [nia|].
    rewrite <- Z.pow_add_r by lia. apply Z.pow_le_mono_r; lia.
Qed.

Lemma unpack_field_div bits k at_ :
  0 ≤ k → 0 ≤ at_ →
  unpack_field bits (Z.shiftl (Z.ones k) at_) at_ = bits / 2 ^ at_ mod 2 ^ k.
Proof.
  intros Hk Ha. unfold unpack_field.
  rewrite Z.shiftr_land, Z.shiftr_shiftl_l, Z.sub_diag, Z.shiftl_0_r by lia.
  rewrite Z.land_ones by done. by rewrite Z.shiftr_div_pow2.
Qed.

Lemma datetime_to_bits_number dt tz :
  packable dt →
  tpb_ts_datetime_to_bits (Some dt) tz true
  = Ok (date_number dt + (tz_quarters tz mod 2 ^ 8) * 2 ^ 34).
Proof.
  intros (Hy & Hmo & Hd & Hh & Hmi & Hs). unfold tpb_ts_datetime_to_bits, TPB_TS_YEAR_BIAS.
  assert ((year dt <? 1970) || (1970 + 255 <? year dt) = false) as -> by lia.
  cbv zeta. change 0x3F with (Z.ones 6). change 0x1F with (Z.ones 5).
  change 0xF with (Z.ones 4). change 0xFF with (Z.ones 8).
  unfold TPB_TS_BIT_SEC, TPB_TS_BIT_MIN, TPB_TS_BIT_HOUR, TPB_TS_BIT_DAY, TPB_TS_BIT_MONTH,
    TPB_TS_BIT_YEAR, TPB_TS_BIT_TZ.
  rewrite (pack_field_add 0 (second dt) 6 0), (Z.mod_small (second dt)) by lia.
  rewrite (pack_field_add _ (minute dt) 6 6), (Z.mod_small (minute dt)) by lia.
  rewrite (pack_field_add _ (hour dt) 5 12), (Z.mod_small (hour dt)) by lia.
  rewrite (pack_field_add _ (day dt) 5 17), (Z.mod_small (day dt)) by lia.
  rewrite (pack_field_add _ (month dt) 4 22), (Z.mod_small (month dt)) by lia.
  rewrite (pack_field_add _ (year dt - 1970) 8 26), (Z.mod_small (year dt - 1970)) by lia.
  rewrite (pack_field_add _ _ 8 34) by lia.
  unfold tz_quarters, date_number, TPB_TS_TZ_INCREMENT.
  assert (∀ q, (if 127 <? (if q <? -128 then -128 else q) then 127
                else if q <? -128 then -128 else q) = Z.max (-128) (Z.min 127 q)) as ->
    by (intros q; destruct (Z.ltb_spec q (-128)); case_match; lia).
  f_equal. lia.
Qed.

Lemma bits_to_datetime_div bits :
  tpb_ts_bits_to_datetime bits true
  = Ok (mkDT (bits / 2 ^ 26 mod 2 ^ 8 + 1970) (bits / 2 ^ 22 mod 2 ^ 4)
             (bits / 2 ^ 17 mod 2 ^ 5) (bits / 2 ^ 12 mod 2 ^ 5)
             (bits / 2 ^ 6 mod 2 ^ 6) (bits mod 2 ^ 6),
        let q := bits / 2 ^ 34 mod 2 ^ 8 in (if q <=? 127 then q else q - 256) * 15).
Proof.
  assert (U : ∀ k at_, 0 ≤ k ≤ 8 → 0 ≤ at_ →
    wrap 8 (unpack_field bits (Z.shiftl (Z.ones k) at_) at_) = bits / 2 ^ at_ mod 2 ^ k).
  { intros k a Hk Ha. rewrite unpack_field_div by lia. apply wrap_small.
    pose proof (Z.mod_pos_bound (bits / 2 ^ a) (2 ^ k) ltac:(lia)).
    assert (2 ^ k ≤ 2 ^ 8) by (apply Z.pow_le_mono_r; lia). split; lia. }
  unfold tpb_ts_bits_to_datetime. cbn [negb].
  pose proof (Z.mod_pos_bound (bits / 2 ^ 26) (2 ^ 8) ltac:(lia)).
  pose proof (Z.mod_pos_bound (bits / 2 ^ 34) (2 ^ 8) ltac:(lia)).
  unfold TPB_TS_MASK_SEC, TPB_TS_MASK_MIN, TPB_TS_MASK_HOUR, TPB_TS_MASK_DAY,
    TPB_TS_MASK_MONTH, TPB_TS_MASK_YEAR, TPB_TS_MASK_TZ, TPB_TS_BIT_SEC, TPB_TS_BIT_MIN,
    TPB_TS_BIT_HOUR, TPB_TS_BIT_DAY, TPB_TS_BIT_MONTH, TPB_TS_BIT_YEAR, TPB_TS_BIT_TZ.
  change 0x3F with (Z.ones 6). change 0x1F with (Z.ones 5). change 0xF with (Z.ones 4).
  change 0xFF with (Z.ones 8). rewrite !U by lia. rewrite (unpack_field_div bits 8 26) by lia.
  rewrite Z.div_1_r. unfold TPB_TS_YEAR_BIAS, TPB_TS_TZ_INCREMENT.
  rewrite (wrap_small 16 (_ mod _)) by (unfold is_word; lia).
  rewrite (wrap_small 16) by (unfold is_word; lia).
  change (Z.ones 4) with 15.
  set (q := bits / 2 ^ 34 mod 2 ^ 8) in *. do 3 f_equal. unfold swrap.
  destruct (Z.leb_spec q 127).
  - rewrite (Z.mod_small q) by lia. assert ((q <? 2 ^ (8 - 1)) = true) as -> by lia.
    rewrite Z.mod_small by lia. case_match; lia.
  - assert ((q - 256) mod 2 ^ 8 = q) as ->.
    { symmetry. apply (Z.mod_unique _ _ (-1)); lia. }
    assert ((q <? 2 ^ (8 - 1)) = false) as -> by lia.
    replace ((q - 2 ^ 8) * 15 mod 2 ^ 16) with (2 ^ 16 + (q - 2 ^ 8) * 15)
      by (apply (Z.mod_unique _ _ (-1)); lia).
    case_match; lia.
Qed.

(** Digits of a number in mixed power-of-two bases. *)
Lemma horner_div x y a n m :
  m = a + n → 0 ≤ a → 0 ≤ n → 0 ≤ y < 2 ^ a → (x * 2 ^ a + y) / 2 ^ m = x / 2 ^ n.
Proof.
  intros -> Ha Hn Hy. rewrite Z.pow_add_r, <- Z.div_div by lia.
  rewrite Z.div_add_l, (Z.div_small y) by lia. by rewrite Z.add_0_r.
Qed.

Lemma horner_mod x y a : 0 ≤ y < 2 ^ a → (x * 2 ^ a + y) mod 2 ^ a = y.
Proof. intros Hy. rewrite Z.add_comm, Z.mod_add, Z.mod_small by lia. done. Qed.

Lemma horner_split b o k : 0 ≤ o → 0 ≤ k →
  (b / 2 ^ (o + k)) * 2 ^ k + (b / 2 ^ o) mod 2 ^ k = b / 2 ^ o.
Proof.
  intros Ho Hk. rewrite Z.pow_add_r, <- Z.div_div by lia.
  rewrite (Z.mul_comm _ (2 ^ k)). symmetry. apply Z.div_mod. lia.
Qed.

Lemma date_number_bound dt : packable dt → 0 ≤ date_number dt < 2 ^ 34.
Proof. intros (Hy & Hmo & Hd & Hh & Hmi & Hs). unfold date_number. lia. Qed.

Lemma tz_quarters_bound tz : -128 ≤ tz_quarters tz ≤ 127.
Proof. unfold tz_quarters. lia. Qed.

Lemma bits_to_datetime_number dt q :
  packable dt → 0 ≤ q < 2 ^ 8 →
  tpb_ts_bits_to_datetime (date_number dt + q * 2 ^ 34) true
  = Ok (dt, (if q <=? 127 then q else q - 256) * 15).
Proof.
  intros (Hy & Hmo & Hd & Hh & Hmi & Hs) Hq. rewrite bits_to_datetime_div.
  destruct dt as [y mo d h mi s]. cbn [year month day hour minute second] in *.
  unfold date_number. cbn [year month day hour minute second].
  set (x1 := q * 2 ^ 8 + (y - 1970)). set (x2 := x1 * 2 ^ 4 + mo). set (x3 := x2 * 2 ^ 5 + d).
  set (x4 := x3 * 2 ^ 5 + h). set (x5 := x4 * 2 ^ 6 + mi).
  replace (_ + q * 2 ^ 34) with (x5 * 2 ^ 6 + s) by lia.
  rewrite horner_mod by lia.
  rewrite (horner_div x5 s 6 28 34), (horner_div x5 s 6 20 26), (horner_div x5 s 6 16 22),
    (horner_div x5 s 6 11 17), (horner_div x5 s 6 6 12), (horner_div x5 s 6 0 6), Z.div_1_r by lia.
  unfold x5. rewrite horner_mod by lia.
  rewrite (horner_div x4 mi 6 22 28), (horner_div x4 mi 6 14 20), (horner_div x4 mi 6 10 16),
    (horner_div x4 mi 6 5 11), (horner_div x4 mi 6 0 6), Z.div_1_r by lia.
  unfold x4. rewrite horner_mod by lia.
  rewrite (horner_div x3 h 5 17 22), (horner_div x3 h 5 9 14), (horner_div x3 h 5 5 10),
    (horner_div x3 h 5 0 5), Z.div_1_r by lia.
  unfold x3. rewrite horner_mod by lia.
  rewrite (horner_div x2 d 5 12 17), (horner_div x2 d 5 4 9), (horner_div x2 d 5 0 5), Z.div_1_r by lia.
  unfold x2. rewrite horner_mod by lia.
  rewrite (horner_div x1 mo 4 8 12), (horner_div x1 mo 4 0 4), Z.div_1_r by lia.
  unfold x1. rewrite horner_mod by lia. rewrite (horner_div q _ 8 0 8), Z.div_1_r by lia.
  rewrite (Z.mod_small q) by lia. do 3 f_equal. lia.
Qed.

(** A signed byte, from its unsigned value. *)
Lemma signed_byte q :
  -128 ≤ q ≤ 127 → (if q mod 2 ^ 8 <=? 127 then q mod 2 ^ 8 else q mod 2 ^ 8 - 256) = q.
Proof.
  intros Hq. destruct (Z.ltb_spec q 0).
  - replace (q mod 2 ^ 8) with (q + 2 ^ 8) by (apply (Z.mod_unique _ _ (-1)); lia).
    case_match; lia.
  - rewrite Z.mod_small by lia. case_match; lia.
Qed.

(** The date a packed number holds. *)
Definition date_of_bits (bits : Z) : tpb_datetime :=
  mkDT (bits / 2 ^ 26 mod 2 ^ 8 + 1970) (bits / 2 ^ 22 mod 2 ^ 4) (bits / 2 ^ 17 mod 2 ^ 5)
       (bits / 2 ^ 12 mod 2 ^ 5) (bits / 2 ^ 6 mod 2 ^ 6) (bits mod 2 ^ 6).

Lemma date_of_bits_packable bits : packable (date_of_bits bits).
Proof.
  unfold packable, date_of_bits; cbn.
  pose proof (Z.mod_pos_bound (bits / 2 ^ 26) (2 ^ 8) ltac:(lia)).
  split; [lia|]. split_and!; apply Z.mod_pos_bound; lia.
Qed.

Lemma date_number_of_bits bits : date_number (date_of_bits bits) = bits mod 2 ^ 34.
Proof.
  pose proof (Z.div_mod bits (2 ^ 34) ltac:(lia)) as E.
  assert (bits / 2 ^ 34 * 2 ^ 8 + bits / 2 ^ 26 mod 2 ^ 8 = bits / 2 ^ 26)
    by (apply (horner_split bits 26 8); lia).
  assert (bits / 2 ^ 26 * 2 ^ 4 + bits / 2 ^ 22 mod 2 ^ 4 = bits / 2 ^ 22)
    by (apply (horner_split bits 22 4); lia).
  assert (bits / 2 ^ 22 * 2 ^ 5 + bits / 2 ^ 17 mod 2 ^ 5 = bits / 2 ^ 17)
    by (apply (horner_split bits 17 5); lia).
  assert (bits / 2 ^ 17 * 2 ^ 5 + bits / 2 ^ 12 mod 2 ^ 5 = bits / 2 ^ 12)
    by (apply (horner_split bits 12 5); lia).
  assert (bits / 2 ^ 12 * 2 ^ 6 + bits / 2 ^ 6 mod 2 ^ 6 = bits / 2 ^ 6)
    by (apply (horner_split bits 6 6); lia).
  pose proof (Z.div_mod bits (2 ^ 6) ltac:(lia)).
  unfold date_number, date_of_bits; cbn [year month day hour minute second].
  lia.
Qed.

(** ** The calendar from 1970 to 2225 *)

(** The first second of 2226. *)
Definition end_of_2225 : Z := 93502 * 86400.

Definition day_number (days : Z) : Z :=
  let '(y, m, d) := civil_from_days days in ((y - 1970) * 2 ^ 4 + m) * 2 ^ 5 + d.

Lemma leaps_bounds y : 97 * y - 699 ≤ 400 * leaps y ≤ 97 * y + 396.
Proof.
  unfold leaps. pose proof (Z.div_mod y 4 ltac:(lia)). pose proof (Z.div_mod y 100 ltac:(lia)).
  pose proof (Z.div_mod y 400 ltac:(lia)). pose proof (Z.mod_pos_bound y 4 ltac:(lia)).
  pose proof (Z.mod_pos_bound y 100 ltac:(lia)). pose proof (Z.mod_pos_bound y 400 ltac:(lia)).
  generalize dependent (y / 4). generalize dependent (y / 100). generalize dependent (y / 400).
  intros. lia.
Qed.

Lemma year_of_day_spec days :
  days_before_year (year_of_day days) ≤ days < days_before_year (year_of_day days + 1).
Proof.
  unfold year_of_day. set (g := 1970 + 400 * days / 146097).
  pose proof (Z.div_mod (400 * days) 146097 ltac:(lia)) as Hg.
  pose proof (Z.mod_pos_bound (400 * days) 146097 ltac:(lia)) as Hr.
  replace (400 * days / 146097) with (g - 1970) in Hg by lia.
  set (r := (400 * days) mod 146097) in *. clearbody r.
  clearbody g. pose proof (leaps_bounds (g - 2)). pose proof (leaps_bounds (g + 1)).
  destruct (Z.ltb_spec days (days_before_year g)) as [H'|H'].
  - replace (g - 1 + 1) with g by lia. split; [|done]. unfold days_before_year.
    replace (g - 1 - 1) with (g - 2) by lia. change (leaps 1969) with 477. lia.
  - destruct (Z.leb_spec (days_before_year (g + 1)) days) as [Hn|Hn]; [|lia].
    split; [done|]. unfold days_before_year.
    replace (g + 1 + 1 - 1) with (g + 1) by lia. change (leaps 1969) with 477. lia.
Qed.

Lemma div_gap x y k : 1 < k → x ≤ y → x - x / k ≤ y - y / k.
Proof.
  intros Hk Hxy. pose proof (Z.div_le_mono x y k ltac:(lia) Hxy).
  pose proof (Z.div_mod x k ltac:(lia)). pose proof (Z.mod_pos_bound x k ltac:(lia)).
  pose proof (Z.div_mod y k ltac:(lia)). pose proof (Z.mod_pos_bound y k ltac:(lia)).
  destruct (Z.eq_dec (x / k) (y / k)) as [E|]; [rewrite E; lia|nia].
Qed.

(** A year adds a leap day or none. *)
Lemma leaps_step y : leaps (y - 1) ≤ leaps y ≤ leaps (y - 1) + 1.
Proof.
  unfold leaps.
  pose proof (Z.div_le_mono (y - 1) y 4 ltac:(lia) ltac:(lia)) as H4.
  pose proof (Z.div_le_mono (y - 1) y 100 ltac:(lia) ltac:(lia)) as H100.
  pose proof (Z.div_le_mono (y - 1) y 400 ltac:(lia) ltac:(lia)) as H400.
  pose proof (div_gap _ _ 25 ltac:(lia) H4) as G1. rewrite !Z.div_div in G1 by lia.
  pose proof (div_gap _ _ 4 ltac:(lia) H100) as G2. rewrite !Z.div_div in G2 by lia.
  change (4 * 25) with 100 in G1. change (100 * 4) with 400 in G2.
  assert (y / 4 ≤ (y - 1) / 4 + 1).
  { pose proof (Z.div_le_mono y (y - 1 + 1 * 4) 4 ltac:(lia) ltac:(lia)) as G4.
    rewrite Z.div_add in G4 by lia. lia. }
  generalize dependent (y / 4). generalize dependent (y / 100). generalize dependent (y / 400).
  intros. lia.
Qed.

Lemma year_length y : 365 ≤ days_before_year (y + 1) - days_before_year y ≤ 366.
Proof.
  unfold days_before_year. replace (y + 1 - 1) with y by lia. pose proof (leaps_step y). lia.
Qed.

Lemma days_before_year_lt a b : a < b → days_before_year a + 365 ≤ days_before_year b.
Proof.
  intros H. replace b with (a + 1 + Z.of_nat (Z.to_nat (b - a - 1))) by lia.
  induction (Z.to_nat (b - a - 1)) as [|k IH].
  - pose proof (year_length a). rewrite Z.add_0_r. lia.
  - pose proof (year_length (a + 1 + Z.of_nat k)) as Hk.
    replace (a + 1 + Z.of_nat (S k)) with (a + 1 + Z.of_nat k + 1) by lia. lia.
Qed.

Lemma year_of_day_mono a b : a ≤ b → year_of_day a ≤ year_of_day b.
Proof.
  intros H. destruct (year_of_day_spec a) as [Ha _], (year_of_day_spec b) as [_ Hb].
  destruct (Z.le_gt_cases (year_of_day a) (year_of_day b)) as [|Hgt]; [done|].
  destruct (Z.eq_dec (year_of_day b + 1) (year_of_day a)) as [E|]; [rewrite E in Hb; lia|].
  pose proof (days_before_year_lt (year_of_day b + 1) (year_of_day a)). lia.
Qed.

(** A day of the year falls in one of the listed months. *)
Lemma month_day_bounds lens m doy :
  Forall (λ l, 1 ≤ l ≤ 31) lens → 0 ≤ doy < foldr Z.add 0 lens →
  m ≤ (month_day m lens doy).1 < m + Z.of_nat (length lens)
  ∧ 1 ≤ (month_day m lens doy).2 ≤ 31.
Proof.
  revert m doy. induction lens as [|l lens IH]; intros m doy Hl Hd; cbn in Hd; [lia|].
  apply Forall_cons in Hl as [Hl Hls]. cbn [month_day length]. rewrite Nat2Z.inj_succ.
  destruct (Z.ltb_spec doy l); [cbn; lia|].
  specialize (IH (m + 1) (doy - l) Hls ltac:(lia)). lia.
Qed.

(** Later days of a year have later dates. *)
Lemma month_day_mono lens m a b :
  Forall (λ l, 1 ≤ l ≤ 31) lens → 0 ≤ a < b → b < foldr Z.add 0 lens →
  (month_day m lens a).1 * 2 ^ 5 + (month_day m lens a).2
  < (month_day m lens b).1 * 2 ^ 5 + (month_day m lens b).2.
Proof.
  revert m a b. induction lens as [|l lens IH]; intros m a b Hl Hab Hb; cbn in Hb; [lia|].
  apply Forall_cons in Hl as [Hl Hls]. cbn [month_day].
  destruct (Z.ltb_spec a l), (Z.ltb_spec b l); try (cbn; lia).
  - pose proof (month_day_bounds lens (m + 1) (b - l) Hls ltac:(lia)). cbn [fst snd]. lia.
  - apply IH; [done|lia..].
Qed.

Lemma month_lengths_ok y :
  Forall (λ l, 1 ≤ l ≤ 31) (month_lengths y)
  ∧ foldr Z.add 0 (month_lengths y) = days_before_year (y + 1) - days_before_year y.
Proof.
  pose proof (year_length y). unfold month_lengths. split; [repeat constructor; lia|].
  cbn [foldr]. lia.
Qed.

(** The calendar: dates are in range and increase with the day. *)
Lemma civil_from_days_spec days :
  0 ≤ days < 93502 →
  let '(y, m, d) := civil_from_days days in
  1970 ≤ y ≤ 2225 ∧ 1 ≤ m ≤ 12 ∧ 1 ≤ d ≤ 31.
Proof.
  intros Hd. unfold civil_from_days.
  destruct (month_lengths_ok (year_of_day days)) as [Hl Hs].
  pose proof (year_of_day_spec days) as Hy.
  pose proof (month_day_bounds _ 1 (days - days_before_year (year_of_day days)) Hl ltac:(lia)) as Hb.
  destruct (month_day _ _ _) as [m d]. cbn in Hb.
  pose proof (year_of_day_mono 0 days ltac:(lia)).
  pose proof (year_of_day_mono days 93501 ltac:(lia)).
  change (year_of_day 0) with 1970 in *. change (year_of_day 93501) with 2225 in *. lia.
Qed.

Lemma day_number_mono a b : a < b → day_number a < day_number b.
Proof.
  intros Hab. unfold day_number, civil_from_days.
  pose proof (year_of_day_mono a b ltac:(lia)) as Hy.
  pose proof (year_of_day_spec a) as Sa. pose proof (year_of_day_spec b) as Sb.
  destruct (month_lengths_ok (year_of_day a)) as [Hl Hs].
  destruct (month_lengths_ok (year_of_day b)) as [Hl' Hs'].
  destruct (Z.eq_dec (year_of_day a) (year_of_day b)) as [E|Hne].
  - rewrite E in *.
    pose proof (month_day_mono _ 1 (a - days_before_year (year_of_day b))
                  (b - days_before_year (year_of_day b)) Hl ltac:(lia) ltac:(lia)) as Hm.
    destruct (month_day _ _ (a - _)), (month_day _ _ (b - _)). cbn in Hm. lia.
  - pose proof (month_day_bounds _ 1 (a - days_before_year (year_of_day a)) Hl ltac:(lia)) as Ha.
    pose proof (month_day_bounds _ 1 (b - days_before_year (year_of_day b)) Hl' ltac:(lia)) as Hb.
    destruct (month_day _ _ (a - _)), (month_day _ _ (b - _)). cbn in Ha, Hb. lia.
Qed.

Definition time_number (s : Z) : Z := (s / 3600 * 2 ^ 6 + s / 60 mod 60) * 2 ^ 6 + s mod 60.

(** Hours, minutes and seconds of a second count. *)
Lemma time_fields s :
  s = (s / 3600 * 60 + s / 60 mod 60) * 60 + s mod 60
  ∧ 0 ≤ s mod 60 < 60 ∧ 0 ≤ s / 60 mod 60 < 60.
Proof.
  change 3600 with (60 * 60). rewrite <- Z.div_div by lia.
  pose proof (Z.div_mod s 60 ltac:(lia)). pose proof (Z.div_mod (s / 60) 60 ltac:(lia)).
  split_and!; [lia|apply Z.mod_pos_bound; lia..].
Qed.

Lemma time_number_mono a b : a < b → time_number a < time_number b.
Proof.
  intros H. unfold time_number.
  destruct (time_fields a) as (Ea & ? & ?), (time_fields b) as (Eb & ? & ?).
  revert Ea Eb. generalize dependent (a mod 60). generalize dependent (b mod 60).
  generalize dependent (a / 60 mod 60). generalize dependent (b / 60 mod 60).
  generalize (a / 3600) (b / 3600). intros. lia.
Qed.

Lemma hours_bound s : 0 ≤ s < 86400 → 0 ≤ s / 3600 < 24.
Proof. intros H. split; [apply Z.div_pos|apply Z.div_lt_upper_bound]; lia. Qed.

Lemma time_number_bound s : 0 ≤ s < 86400 → 0 ≤ time_number s < 2 ^ 17.
Proof.
  intros H. unfold time_number. destruct (time_fields s) as (Es & ? & ?).
  pose proof (hours_bound s H). lia.
Qed.

(** The date of a clock value in the packed range. *)
Lemma from_timespec_number t :
  0 ≤ t < end_of_2225 →
  ∃ dt, _sf_from_timespec t = Ok dt ∧ packable dt ∧ 1 ≤ month dt ≤ 12 ∧ 1 ≤ day dt ≤ 31
    ∧ hour dt < 24 ∧ minute dt < 60 ∧ second dt < 60
    ∧ date_number dt = day_number (t / 86400) * 2 ^ 17 + time_number (t mod 86400).
Proof.
  unfold end_of_2225. intros Ht.
  unfold _sf_from_timespec, gmtime_r.
  assert ((Z.abs t <? 2 ^ 55) = true) as -> by lia.
  assert (Hd : 0 ≤ t / 86400 < 93502)
    by (split; [apply Z.div_pos|apply Z.div_lt_upper_bound]; lia).
  pose proof (civil_from_days_spec (t / 86400) Hd) as Hc.
  unfold day_number. destruct (civil_from_days (t / 86400)) as [[y m] d].
  pose proof (Z.mod_pos_bound t 86400 ltac:(lia)) as Hs.
  set (s := t mod 86400) in *. clearbody s. clear Ht Hd.
  destruct (time_fields s) as (_ & ? & ?). pose proof (hours_bound s Hs).
  cbn [mbind outcome_bind]. eexists. split; [reflexivity|].
  unfold _sf_from_tm, packable, date_number; cbn [tm_year tm_mon tm_mday tm_hour tm_min tm_sec].
  rewrite (wrap_small 16) by (unfold is_word; lia).
  rewrite !(wrap_small 8) by (unfold is_word; lia).
  cbn [year month day hour minute second]. unfold time_number.
  split_and!; lia.
Qed.

(** ** Properties *)

(** C31: the packed form is a bijection between the dates whose fields fit
    (years 1970 to 2225) with a bias of quarter hours and the numbers below
    [2^42]: unpacking what was packed returns the date and the bias, truncated to
    quarter hours and clamped to a signed byte of them; packing what was unpacked
    returns the number; and a year outside the range is refused. *)
Theorem datetime_bits_bijection :
  (∀ dt tz, packable dt →
     ∃ bits, tpb_ts_datetime_to_bits (Some dt) tz true = Ok bits ∧ 0 ≤ bits < 2 ^ 42
       ∧ tpb_ts_bits_to_datetime bits true = Ok (dt, 15 * tz_quarters tz))
  ∧ (∀ bits, 0 ≤ bits < 2 ^ 42 →
     ∃ dt tz, tpb_ts_bits_to_datetime bits true = Ok (dt, tz) ∧ packable dt
       ∧ tpb_ts_datetime_to_bits (Some dt) tz true = Ok bits)
  ∧ (∀ dt tz, year dt < 1970 ∨ 2225 < year dt →
     tpb_ts_datetime_to_bits (Some dt) tz true = TPB_FAIL TPB_MOD_MISC TPBE_ILLEGAL_CALL).
Proof.
  split_and!.
  - intros dt tz Hp. pose proof (date_number_bound dt Hp). pose proof (tz_quarters_bound tz).
    pose proof (Z.mod_pos_bound (tz_quarters tz) (2 ^ 8) ltac:(lia)).
    eexists. split; [by apply datetime_to_bits_number|]. split; [lia|].
    rewrite bits_to_datetime_number by done. rewrite signed_byte by done. do 2 f_equal. lia.
  - intros bits Hb. do 2 eexists. split; [apply bits_to_datetime_div|].
    split; [apply date_of_bits_packable|].
    rewrite (datetime_to_bits_number (date_of_bits bits)) by apply date_of_bits_packable.
    rewrite date_number_of_bits. f_equal. unfold tz_quarters.
    rewrite Z.quot_mul by lia. pose proof (Z.div_mod bits (2 ^ 34) ltac:(lia)).
    assert (0 ≤ bits / 2 ^ 34 < 2 ^ 8)
      by (split; [apply Z.div_pos|apply Z.div_lt_upper_bound]; lia).
    set (q := bits / 2 ^ 34) in *. rewrite (Z.mod_small q (2 ^ 8)) by lia.
    destruct (Z.leb_spec q 127).
    + rewrite (Z.mod_small (_ `max` _)) by lia. lia.
    + replace (_ `max` _) with (q - 2 ^ 8) by lia.
      replace ((q - 2 ^ 8) mod 2 ^ 8) with q by (apply (Z.mod_unique _ _ (-1)); lia). lia.
  - intros dt tz Hy. unfold tpb_ts_datetime_to_bits, TPB_TS_YEAR_BIAS.
    assert ((year dt <? 1970) || (1970 + 255 <? year dt) = true) as -> by lia. done.
Qed.

Lemma datetime_bits_bijection_witness :
  ∃ bits, tpb_ts_datetime_to_bits (Some (mkDT 2024 2 29 23 59 60)) (-210) true = Ok bits
    ∧ 0 ≤ bits < 2 ^ 42
    ∧ tpb_ts_bits_to_datetime bits true = Ok (mkDT 2024 2 29 23 59 60, 15 * (-14)).
Proof.
  destruct datetime_bits_bijection as (H & _ & _).
  apply (H (mkDT 2024 2 29 23 59 60) (-210)).
  vm_compute; repeat split; discriminate.
Defined.

(** C30: from 1970 to the end of 2225 the packed UTC date of the real time clock
    is delivered, is a calendar date, and increases strictly with the clock: records
    stamped at different seconds have different stamps, in the same order. *)
Theorem utc_bits_monotone (c1 c2 : clocks) :
  0 ≤ realtime c1 → realtime c1 < realtime c2 → realtime c2 < end_of_2225 →
  ∃ d1 d2 b1 b2,
    tpb_ts_get_datetime c1 TPBM_TS_UTC true = Ok d1
    ∧ tpb_ts_get_datetime c2 TPBM_TS_UTC true = Ok d2
    ∧ tpb_ts_datetime_to_bits (Some d1) 0 true = Ok b1
    ∧ tpb_ts_datetime_to_bits (Some d2) 0 true = Ok b2
    ∧ b1 < b2 ∧ (1 ≤ month d1 ≤ 12 ∧ 1 ≤ day d1 ≤ 31 ∧ hour d1 < 24 ∧ minute d1 < 60 ∧ second d1 < 60).
Proof.
  intros H0 Hlt Hend.
  destruct (from_timespec_number (realtime c1)) as (d1 & E1 & P1 & M1 & D1 & h1 & m1 & s1 & N1);
    [lia|].
  destruct (from_timespec_number (realtime c2)) as (d2 & E2 & P2 & _ & _ & _ & _ & _ & N2); [lia|].
  exists d1, d2. do 2 eexists. split_and!; [exact E1|exact E2|by apply datetime_to_bits_number
    |by apply datetime_to_bits_number| |lia..].
  change (tz_quarters 0 mod 2 ^ 8) with 0. rewrite N1, N2.
  set (t1 := realtime c1) in *. set (t2 := realtime c2) in *. unfold end_of_2225 in Hend.
  pose proof (Z.mod_pos_bound t1 86400 ltac:(lia)) as R1.
  pose proof (Z.mod_pos_bound t2 86400 ltac:(lia)) as R2.
  pose proof (time_number_bound _ R1). pose proof (time_number_bound _ R2).
  pose proof (Z.div_mod t1 86400 ltac:(lia)). pose proof (Z.div_mod t2 86400 ltac:(lia)).
  pose proof (Z.div_le_mono t1 t2 86400 ltac:(lia) ltac:(lia)).
  destruct (Z.eq_dec (t1 / 86400) (t2 / 86400)) as [E|].
  - rewrite E in *. pose proof (time_number_mono (t1 mod 86400) (t2 mod 86400) ltac:(lia)). lia.
  - pose proof (day_number_mono (t1 / 86400) (t2 / 86400) ltac:(lia)). lia.
Qed.

Lemma utc_bits_monotone_witness :
  ∃ d1 d2 b1 b2,
    tpb_ts_get_datetime (mkClocks 951782399 None None (λ _, 0)) TPBM_TS_UTC true = Ok d1
    ∧ tpb_ts_get_datetime (mkClocks 951782400 None None (λ _, 0)) TPBM_TS_UTC true = Ok d2
    ∧ tpb_ts_datetime_to_bits (Some d1) 0 true = Ok b1
    ∧ tpb_ts_datetime_to_bits (Some d2) 0 true = Ok b2
    ∧ b1 < b2 ∧ (1 ≤ month d1 ≤ 12 ∧ 1 ≤ day d1 ≤ 31 ∧ hour d1 < 24 ∧ minute d1 < 60 ∧ second d1 < 60).
Proof.
  apply (utc_bits_monotone (mkClocks 951782399 None None (λ _, 0))
           (mkClocks 951782400 None None (λ _, 0))); vm_compute; congruence.
Defined.

(** ** ISO 8601 strings *)

Ltac scan_fields :=
  repeat first [rewrite <- app_assoc | rewrite sscanf_uint by lia | rewrite sscanf_int by lia
               | progress cbn [app] | rewrite sscanf_lit].

Lemma scan_printed_datetime dt fmt s :
  packable dt →
  sscanf (scan_datetime ++ fmt) (fmt_datetime dt ++ s)
  = year dt :: month dt :: day dt :: hour dt :: minute dt :: second dt :: sscanf fmt s.
Proof.
  intros (Hy & Hmo & Hd & Hh & Hmi & Hs). unfold scan_datetime, fmt_datetime. scan_fields. done.
Qed.

Lemma length_fmt_datetime dt : packable dt → length (fmt_datetime dt) = 19%nat.
Proof.
  intros (Hy & Hmo & Hd & Hh & Hmi & Hs). unfold fmt_datetime.
  rewrite !length_app, !fmt_0u_length by lia. done.
Qed.

Lemma parsed_datetime_id dt :
  packable dt →
  parsed_datetime (year dt) (month dt) (day dt) (hour dt) (minute dt) (second dt) = dt.
Proof.
  intros (Hy & Hmo & Hd & Hh & Hmi & Hs). unfold parsed_datetime.
  rewrite (wrap_small 16), !(wrap_small 8) by (unfold is_word; lia). by destruct dt.
Qed.

Lemma isoutc_eq bits :
  tpb_ts_bits_to_isoutc bits true = Ok (fmt_datetime (date_of_bits bits) ++ [ #"Z" ]).
Proof.
  unfold tpb_ts_bits_to_isoutc. cbn [negb]. rewrite bits_to_datetime_div.
  change (mkDT _ _ _ _ _ _) with (date_of_bits bits). unfold store_datetime_str.
  rewrite length_app, length_fmt_datetime by apply date_of_bits_packable. done.
Qed.

Lemma isotz_eq bits tz :
  Z.abs tz < 6000 →
  tpb_ts_bits_to_isotz bits tz true
  = Ok (fmt_datetime (date_of_bits bits) ++ (if 0 <=? tz then #"+" else #"-")
        :: fmt_0u 2 (Z.abs tz / 60) ++ #":" :: fmt_0u 2 (Z.abs tz mod 60)).
Proof.
  intros Ht. unfold tpb_ts_bits_to_isotz. cbn [negb]. rewrite bits_to_datetime_div.
  change (mkDT _ _ _ _ _ _) with (date_of_bits bits). cbv zeta.
  replace (if 0 <=? tz then tz else - tz) with (Z.abs tz) by (case_match; lia).
  rewrite Z.quot_div_nonneg, Z.rem_mod_nonneg by lia.
  pose proof (Z.mod_pos_bound (Z.abs tz) 60 ltac:(lia)).
  assert (0 ≤ Z.abs tz / 60 < 100)
    by (split; [apply Z.div_pos|apply Z.div_lt_upper_bound]; lia).
  unfold fmt_0d. repeat rewrite (proj2 (Z.ltb_ge _ 0)) by lia.
  unfold store_datetime_str. rewrite !length_app, length_fmt_datetime, !fmt_0u_length
    by (apply date_of_bits_packable || lia).
  cbn [app]. by destruct (0 <=? tz).
Qed.

(** C32: the ISO 8601 strings of any packed date are read back: the UTC string
    gives the date bits with a zero time zone field; the string with a bias of
    less than 100 hours gives the bias and the date bits with the field of that
    bias.  Both always fit their 32-byte buffer. *)
Theorem iso_string_roundtrip bits :
  (∃ s, tpb_ts_bits_to_isoutc bits true = Ok s ∧ length s = 20%nat
        ∧ tpb_ts_isoutc_to_bits (Some s) true = Ok (bits mod 2 ^ 34))
  ∧ (∀ tz, Z.abs tz < 6000 →
     ∃ s, tpb_ts_bits_to_isotz bits tz true = Ok s ∧ length s = 25%nat
          ∧ tpb_ts_isotz_to_bits (Some s) true
            = Ok (bits mod 2 ^ 34 + (tz_quarters tz mod 2 ^ 8) * 2 ^ 34, tz)).
Proof.
  pose proof (date_of_bits_packable bits) as Hp. split.
  - eexists. split; [apply isoutc_eq|].
    split; [by rewrite length_app, length_fmt_datetime|].
    unfold tpb_ts_isoutc_to_bits, fmt_isoutc. rewrite scan_printed_datetime by done.
    cbn [sscanf]. rewrite Z.eqb_refl, parsed_datetime_id by done.
    rewrite datetime_to_bits_number, date_number_of_bits by done. cbn [TPB_PROPAGATE].
    change (tz_quarters 0 mod 2 ^ 8) with 0. f_equal. lia.
  - intros tz Ht. pose proof (Z.mod_pos_bound (Z.abs tz) 60 ltac:(lia)).
    pose proof (Z.div_mod (Z.abs tz) 60 ltac:(lia)) as Hdm.
    assert (0 ≤ Z.abs tz / 60 < 100)
      by (split; [apply Z.div_pos|apply Z.div_lt_upper_bound]; lia).
    eexists. split; [by apply isotz_eq|]. split.
    { rewrite length_app, length_cons, length_app, length_cons, length_fmt_datetime,
        !fmt_0u_length by (done || lia). done. }
    unfold tpb_ts_isotz_to_bits, scan_isotz, fmt_isotz_colon.
    rewrite scan_printed_datetime by done.
    cbn [sscanf]. rewrite scan_int_fmt by lia. rewrite Z.eqb_refl.
    rewrite <- (app_nil_r (fmt_0u 2 (Z.abs tz mod 60))), scan_int_fmt by lia. cbn [sscanf].
    rewrite parsed_datetime_id by done.
    rewrite (swrap_small 16 (_ * 60 + _)) by lia.
    assert (Hb : (if (if 0 <=? tz then #"+" else #"-") =? #"-"
                  then swrap 16 (- (Z.abs tz / 60 * 60 + Z.abs tz mod 60))
                  else Z.abs tz / 60 * 60 + Z.abs tz mod 60) = tz).
    { replace (Z.abs tz / 60 * 60 + Z.abs tz mod 60) with (Z.abs tz) by lia.
      destruct (Z.leb_spec 0 tz).
      { change ((#"+") =? (#"-")) with false. cbv iota. lia. }
      change ((#"-") =? (#"-")) with true. cbv iota. rewrite Z.abs_neq, Z.opp_involutive by lia.
      unfold swrap. replace (tz mod 2 ^ 16) with (tz + 2 ^ 16)
        by (apply (Z.mod_unique _ _ (-1)); lia). case_match; lia. }
    cbv zeta. rewrite Hb, datetime_to_bits_number, date_number_of_bits by done. done.
Qed.

Lemma iso_string_roundtrip_witness :
  ∃ s, tpb_ts_bits_to_isotz 553360646996 (-210) true = Ok s ∧ length s = 25%nat
       ∧ tpb_ts_isotz_to_bits (Some s) true
         = Ok (553360646996 mod 2 ^ 34 + (tz_quarters (-210) mod 2 ^ 8) * 2 ^ 34, -210).
Proof. apply (proj2 (iso_string_roundtrip 553360646996)). reflexivity. Defined.

(** Below 256 of its 8760-hour years, the rough date of a boot time is the
    exact decomposition of the seconds into years, 730-hour months, days, hours,
    minutes and seconds, no field is clamped, and it can be packed. *)
Theorem btime_to_datetime_exact (b : tpb_btime) :
  0 ≤ bt_sec b < 256 * SEC_PER_YEAR →
  ∃ dt, tpb_ts_btime_to_datetime (Some b) true = Ok dt
    ∧ packable dt ∧ 1 ≤ month dt ≤ 12 ∧ 1 ≤ day dt ≤ 31
    ∧ hour dt < 24 ∧ minute dt < 60 ∧ second dt < 60
    ∧ bt_sec b = (year dt - 1970) * SEC_PER_YEAR + (month dt - 1) * SEC_PER_MONTH
                 + (day dt - 1) * SEC_PER_DAY + hour dt * SEC_PER_HOUR
                 + minute dt * SEC_PER_MIN + second dt.
Proof.
  destruct b as [s n]. cbn [bt_sec]. unfold SEC_PER_YEAR, SEC_PER_MONTH, HOURS_PER_YEAR,
    HOURS_PER_MONTH, SEC_PER_DAY, SEC_PER_HOUR, SEC_PER_MIN. intros Hs.
  assert (D : ∀ x k q, 0 ≤ x < q * k → 0 < k → 0 < q →
            0 ≤ x / k < q ∧ x - x / k * k = x mod k ∧ 0 ≤ x mod k < k).
  { intros x k q Hx Hk Hq. pose proof (Z.div_mod x k ltac:(lia)).
    pose proof (Z.mod_pos_bound x k Hk).
    split; [split; [apply Z.div_pos; lia|apply Z.div_lt_upper_bound; lia]|]. lia. }
  unfold tpb_ts_btime_to_datetime. cbn [bt_sec]. unfold SEC_PER_YEAR, SEC_PER_MONTH,
    HOURS_PER_YEAR, HOURS_PER_MONTH, SEC_PER_DAY, SEC_PER_HOUR, SEC_PER_MIN, TPB_TS_YEAR_BIAS.
  cbv zeta.
  assert (W : ∀ v, 0 ≤ v < 2 ^ 63 → wrap64 v = v) by (intros; apply wrap_small; split; lia).
  destruct (D s (8760 * 3600) 256) as (Y & EY & RY); [lia..|].
  rewrite (proj2 (Z.ltb_ge 255 (s / (8760 * 3600)))), EY, (W (s mod _)) by lia.
  set (r1 := s mod (8760 * 3600)) in *.
  destruct (D r1 (730 * 3600) 12) as (M & EM & RM); [lia..|].
  rewrite (proj2 (Z.ltb_ge 11 (r1 / (730 * 3600)))), EM, (W (r1 mod _)) by lia.
  set (r2 := r1 mod (730 * 3600)) in *.
  destruct (D r2 86400 31) as (Dy & ED & RD); [lia..|].
  rewrite (proj2 (Z.ltb_ge 30 (r2 / 86400))), ED, (W (r2 mod _)) by lia.
  set (r3 := r2 mod 86400) in *.
  destruct (D r3 3600 24) as (Hh & EH & RH); [lia..|]. rewrite EH, (W (r3 mod _)) by lia.
  set (r4 := r3 mod 3600) in *.
  destruct (D r4 60 60) as (Hm & Em & Rm); [lia..|]. rewrite Em, (W (r4 mod _)) by lia.
  set (r5 := r4 mod 60) in *.
  rewrite (wrap_small 16), !(wrap_small 8) by (unfold is_word; lia).
  eexists. split; [reflexivity|]. unfold packable. cbn [year month day hour minute second].
  split_and!; lia.
Qed.

Lemma btime_to_datetime_exact_witness :
  ∃ dt, tpb_ts_btime_to_datetime (Some (mkBtime 123456789 0)) true = Ok dt
    ∧ packable dt ∧ 1 ≤ month dt ≤ 12 ∧ 1 ≤ day dt ≤ 31
    ∧ hour dt < 24 ∧ minute dt < 60 ∧ second dt < 60
    ∧ 123456789 = (year dt - 1970) * SEC_PER_YEAR + (month dt - 1) * SEC_PER_MONTH
                 + (day dt - 1) * SEC_PER_DAY + hour dt * SEC_PER_HOUR
                 + minute dt * SEC_PER_MIN + second dt.
Proof. apply (btime_to_datetime_exact (mkBtime 123456789 0)). split; vm_compute; congruence. Defined.
