(* ===== verification/TagNorm.v ===== *)
(** * Tags of metadata headers

    [src/corelib/tpb-tag-norm.c]: validation, the canonical stored form (upper
    case, sorted, without duplicates, comma-separated) and the displayed form. *)

From S2P Require Import Prelude CLib.
From Stdlib Require Import Sorting.Sorted.
From stdpp Require Import options.

Definition TPB_TAG_MAX_TOKENS : nat := 64.
Definition TPBM_NAME_STR_MAX_LEN : nat := 256.
Definition TPBM_TAG_USER_MAX_LEN : nat := 191.

Definition COMMA : Z := #",".
Definition COLON : Z := #":".

Definition _sf_tag_token_cmp : bytes → bytes → Z := strcmp.

(** ** Normalisation *)

Definition is_blank (c : Z) : bool := (c =? 32) || (c =? 9).

(** The two trimming loops. *)
Fixpoint skip_blank (s : bytes) : bytes :=
  match s with
  | [] => []
  | c :: s' => if is_blank c then skip_blank s' else s
  end.
Definition trim_token (tok : bytes) : bytes := reverse (skip_blank (reverse (skip_blank tok))).

(** [None] at the first colon. *)
Fixpoint _sf_toupper_check (s : bytes) : option bytes :=
  match s with
  | [] => Some []
  | c :: s' => if c =? COLON then None else r ← _sf_toupper_check s'; Some (toupper c :: r)
  end.

(** The [strtok_r] loop: [tokens] holds the tokens accepted so far. *)
Fixpoint collect_tokens (raw_toks tokens : list bytes) : option (list bytes) :=
  match raw_toks with
  | [] => Some tokens
  | tok :: rest =>
      match trim_token tok with
      | [] => collect_tokens rest tokens
      | t =>
          u ← _sf_toupper_check t;
          if existsb (λ t', strcmp t' u =? 0) tokens then collect_tokens rest tokens
          else if (TPB_TAG_MAX_TOKENS <=? length tokens)%nat then None
          else collect_tokens rest (tokens ++ [u])
      end
  end.

(** The output loop: [dst] holds the bytes written, [dst_sz] the buffer size and
    [sep] the separator before every token but the first. *)
Fixpoint join_tokens (dst_sz : nat) (sep dst : bytes) (first : bool) (tokens : list bytes)
  : option bytes :=
  match tokens with
  | [] => Some dst
  | t :: rest =>
      dst ← (if first then Some dst
             else if (dst_sz <=? length dst + length sep)%nat then None
             else Some (dst ++ sep));
      if (dst_sz <=? length dst + length t)%nat then None
      else join_tokens dst_sz sep (dst ++ t) false rest
  end.

(** [None] is the return value -1; otherwise the string left in [dst].  A null
    [raw] is [None], the empty string [Some \[\]]. *)
Definition _sf_normalize_tags (dst : bool) (dst_sz : nat) (raw : option bytes) : option bytes :=
  if negb dst || (dst_sz =? 0)%nat then None
  else match raw with
       | None | Some [] => Some []
       | Some raw =>
           let scratch := snprintf_s TPBM_NAME_STR_MAX_LEN raw in
           tokens ← collect_tokens (strtok COMMA scratch) [];
           match tokens with
           | [] => Some []
           | _ => join_tokens dst_sz [COMMA] [] true (qsort _sf_tag_token_cmp tokens)
           end
       end.

(** ** Validation *)

(** [true] is the return value 0. *)
Definition _sf_validate_header_name (name : option bytes) : bool :=
  match name with
  | None | Some [] => false
  | Some name =>
      if (TPBM_NAME_STR_MAX_LEN - 1 <? length name)%nat then false
      else negb (existsb (Z.eqb COLON) name)
  end.

Definition _sf_validate_user_tags (tag : option bytes) : bool :=
  match tag with
  | None | Some [] => true
  | Some tag =>
      if (TPBM_TAG_USER_MAX_LEN <? length tag)%nat then false
      else negb (existsb (Z.eqb COLON) tag)
  end.

(** ** Role tags and display *)

Definition _sf_finalize_role_tags (dst : bool) (dst_sz : nat) (user_tag sys_tag : option bytes)
  : option bytes :=
  if negb dst || (dst_sz =? 0)%nat then None
  else match sys_tag with
       | None | Some [] => None
       | Some sys =>
           if negb (_sf_validate_user_tags user_tag) then None
           else
             let combined :=
               match user_tag with
               | None | Some [] => snprintf_s (TPBM_NAME_STR_MAX_LEN + 64) sys
               | Some user => snprintf_s (TPBM_NAME_STR_MAX_LEN + 64) (user ++ [COMMA] ++ sys)
               end in
             _sf_normalize_tags true dst_sz (Some combined)
       end.

Definition display_sep : bytes := [COMMA; 32].

Definition _sf_format_tags_display (dst : bool) (dst_sz : nat) (stored : option bytes)
  : option bytes :=
  if negb dst || (dst_sz =? 0)%nat then None
  else match stored with
       | None | Some [] => Some []
       | Some stored => join_tokens dst_sz display_sep [] true (strtok COMMA stored)
       end.

(** ** The canonical form *)

Definition upper (s : bytes) : bytes := toupper <$> s.
Definition non_empty (s : bytes) : bool := match s with [] => false | _ => true end.

(** The tokens a tag list names: separated by commas, trimmed, in upper case. *)
Definition tag_tokens (raw : bytes) : list bytes :=
  filter (λ t, non_empty t = true)
    ((λ t, upper (trim_token t)) <$> strtok COMMA (snprintf_s TPBM_NAME_STR_MAX_LEN raw)).

(** [t1<sep>t2<sep>...]. *)
Definition join (sep : bytes) (ts : list bytes) : bytes :=
  match ts with [] => [] | t :: ts' => t ++ concat (map (app sep) ts') end.

(** Adding the tokens that are new. *)
Definition add_token (acc : list bytes) (u : bytes) : list bytes :=
  if bool_decide (u ∈ acc) then acc else acc ++ [u].
Abbreviation distinct us := (foldl add_token [] us).

Definition canonical_tags (raw : bytes) : list bytes := qsort strcmp (distinct (tag_tokens raw)).

(** *** Splitting and trimming *)

Lemma strtok_acc_elem d s cur t :
  d ∉ cur → t ∈ strtok_acc d s cur → t ≠ [] ∧ d ∉ t ∧ ∀ c, c ∈ t → c ∈ cur ++ s.
Proof.
  revert cur. induction s as [|x s IH]; intros cur Hd Ht; cbn in Ht.
  - destruct cur; [set_solver|]. apply list_elem_of_singleton in Ht as ->. set_solver.
  - destruct (Z.eqb_spec x d) as [->|Hne].
    + destruct cur as [|c cur]; [apply IH in Ht; set_solver|].
      apply elem_of_cons in Ht as [->|Ht]; [set_solver|].
      apply IH in Ht; [|set_solver]. destruct Ht as (? & ? & Hc).
      split_and!; [done..|]. intros c' H'. specialize (Hc c' H'). set_solver.
    + apply IH in Ht; [|set_solver]. destruct Ht as (? & ? & Hc).
      split_and!; [done..|]. intros c' H'. specialize (Hc c' H'). set_solver.
Qed.

Lemma strtok_elem d s t : t ∈ strtok d s → t ≠ [] ∧ d ∉ t ∧ ∀ c, c ∈ t → c ∈ s.
Proof. apply strtok_acc_elem. set_solver. Qed.

(** A word without the delimiter is read into the current token. *)
Lemma strtok_acc_app d w s cur :
  d ∉ w → strtok_acc d (w ++ s) cur = strtok_acc d s (cur ++ w).
Proof.
  revert cur. induction w as [|x w IH]; intros cur Hd; cbn; [by rewrite app_nil_r|].
  assert (x <> d) by set_solver. rewrite (proj2 (Z.eqb_neq x d)) by done.
  rewrite IH by set_solver. by rewrite <- app_assoc.
Qed.

Lemma strtok_join d ts :
  Forall (λ t, t ≠ [] ∧ d ∉ t) ts → strtok d (join [d] ts) = ts.
Proof.
  intros Hts. destruct ts as [|t ts]; [done|]. apply Forall_cons in Hts as [[Ht Hd] Hts].
  unfold strtok, join. rewrite strtok_acc_app by done. cbn [app].
  assert (∀ cur, cur ≠ [] → strtok_acc d (concat (map (app [d]) ts)) cur = cur :: ts) as ->;
    [|done..].
  clear t Ht Hd. induction Hts as [|t ts [Ht Hd] _ IH]; intros cur Hc; cbn.
  - by destruct cur.
  - rewrite Z.eqb_refl. destruct cur; [done|]. rewrite strtok_acc_app by done.
    cbn [app]. by rewrite IH.
Qed.

Lemma toupper_blank c : is_blank (toupper c) = is_blank c.
Proof. unfold is_blank, toupper, islower. repeat case_match; lia. Qed.

Lemma toupper_idem c : toupper (toupper c) = toupper c.
Proof. unfold toupper, islower. repeat case_match; lia. Qed.

Lemma toupper_special c d : ¬ (65 ≤ d ≤ 90 ∨ 97 ≤ d ≤ 122) → toupper c = d ↔ c = d.
Proof. unfold toupper, islower. case_match; lia. Qed.

Lemma upper_idem s : upper (upper s) = upper s.
Proof. unfold upper. rewrite <- list_fmap_compose. apply list_fmap_ext. intros. apply toupper_idem. Qed.

Lemma upper_skip_blank s : upper (skip_blank s) = skip_blank (upper s).
Proof.
  induction s as [|c s IH]; cbn; [done|]. rewrite toupper_blank. by destruct (is_blank c).
Qed.

Lemma upper_reverse s : upper (reverse s) = reverse (upper s).
Proof. apply fmap_reverse. Qed.

Lemma upper_trim s : upper (trim_token s) = trim_token (upper s).
Proof. unfold trim_token. by rewrite upper_reverse, upper_skip_blank, upper_reverse, upper_skip_blank. Qed.

Lemma elem_of_upper d s : ¬ (65 ≤ d ≤ 90 ∨ 97 ≤ d ≤ 122) → d ∈ upper s ↔ d ∈ s.
Proof.
  intros Hd. unfold upper. rewrite list_elem_of_fmap. split.
  - intros (c & -> & Hc). destruct (toupper_special c (toupper c) Hd) as [E _].
    by rewrite <- E.
  - intros Hc. exists d. split; [|done]. symmetry. by apply toupper_special.
Qed.

Definition trimmed (s : bytes) : Prop :=
  skip_blank s = s ∧ skip_blank (reverse s) = reverse s.

Lemma skip_blank_suffix s : ∃ p, s = p ++ skip_blank s.
Proof.
  induction s as [|c s [p IH]]; [by exists []|]. cbn. destruct (is_blank c); [|by exists []].
  exists (c :: p). by rewrite IH at 1.
Qed.

Lemma skip_blank_idem s : skip_blank (skip_blank s) = skip_blank s.
Proof.
  induction s as [|c s IH]; [done|]. cbn. destruct (is_blank c) eqn:E; [done|]. cbn. by rewrite E.
Qed.

Lemma trimmed_trim s : trimmed (trim_token s).
Proof.
  unfold trimmed, trim_token. rewrite reverse_involutive. split; [|apply skip_blank_idem].
  destruct (skip_blank_suffix (reverse (skip_blank s))) as [p Hp].
  apply (f_equal reverse) in Hp. rewrite reverse_involutive, reverse_app in Hp.
  pose proof (skip_blank_idem s) as Hs.
  destruct (reverse (skip_blank (reverse (skip_blank s)))) as [|c t]; [done|].
  rewrite Hp in Hs. cbn in *. destruct (is_blank c); [|done].
  destruct (skip_blank_suffix (t ++ reverse p)) as [q Hq]. rewrite Hs in Hq.
  apply (f_equal length) in Hq. rewrite (length_app q), length_cons in Hq. lia.
Qed.

Lemma trim_trimmed s : trimmed s → trim_token s = s.
Proof. intros [H1 H2]. unfold trim_token. by rewrite H1, H2, reverse_involutive. Qed.

Lemma elem_of_trim c s : c ∈ trim_token s → c ∈ s.
Proof.
  unfold trim_token. rewrite elem_of_reverse. intros H.
  destruct (skip_blank_suffix (reverse (skip_blank s))) as [p Hp].
  assert (Hc : c ∈ reverse (skip_blank s)) by (rewrite Hp; set_solver).
  rewrite elem_of_reverse in Hc. destruct (skip_blank_suffix s) as [q ->]. set_solver.
Qed.

(** *** The tokens *)

Lemma toupper_check_spec s :
  _sf_toupper_check s = if bool_decide (COLON ∈ s) then None else Some (upper s).
Proof.
  induction s as [|c s IH]; [done|]. cbn [_sf_toupper_check]. rewrite IH.
  destruct (Z.eqb_spec c COLON) as [->|Hne].
  - by rewrite bool_decide_true by set_solver.
  - destruct (bool_decide_reflect (COLON ∈ s)).
    + by rewrite bool_decide_true by set_solver.
    + rewrite bool_decide_false by set_solver. done.
Qed.

Lemma add_token_length acc us : (length acc ≤ length (foldl add_token acc us))%nat.
Proof.
  revert acc. induction us as [|u us IH]; intros acc; cbn; [done|].
  etransitivity; [|apply IH]. unfold add_token. case_match; [done|]. rewrite length_app. lia.
Qed.

Lemma add_token_elem acc us t : t ∈ foldl add_token acc us ↔ t ∈ acc ∨ t ∈ us.
Proof.
  revert acc. induction us as [|u us IH]; intros acc; cbn; [set_solver|].
  rewrite IH. unfold add_token. case_bool_decide; set_solver.
Qed.

Lemma add_token_nodup acc us : NoDup acc → NoDup (foldl add_token acc us).
Proof.
  revert acc. induction us as [|u us IH]; intros acc Hacc; cbn; [done|].
  apply IH. unfold add_token. case_bool_decide; [done|]. apply NoDup_app. split_and!; [done|set_solver|].
  apply NoDup_singleton.
Qed.

(** The tokens of a list of raw ones. *)
Definition clean_tokens (ts : list bytes) : list bytes :=
  filter (λ t, non_empty t = true) ((λ t, upper (trim_token t)) <$> ts).

Lemma clean_tokens_cons t ts :
  clean_tokens (t :: ts)
  = match trim_token t with [] => clean_tokens ts | _ => upper (trim_token t) :: clean_tokens ts end.
Proof.
  unfold clean_tokens. rewrite fmap_cons, filter_cons. destruct (trim_token t); [done|]. done.
Qed.

Lemma upper_cstr s : is_cstr s → is_cstr (upper s).
Proof.
  unfold is_cstr, upper. intros H. apply Forall_fmap. eapply Forall_impl; [exact H|].
  intros c Hc. change (0 < toupper c). cbv beta in Hc. unfold toupper, islower.
  case_match; lia.
Qed.

Lemma trim_cstr s : is_cstr s → is_cstr (trim_token s).
Proof. unfold is_cstr. rewrite !Forall_forall. intros H c Hc. apply H. by apply elem_of_trim. Qed.

Lemma existsb_strcmp acc u :
  Forall is_cstr acc → is_cstr u → existsb (λ t, strcmp t u =? 0) acc = bool_decide (u ∈ acc).
Proof.
  intros Hacc Hu. induction Hacc as [|t acc Ht _ IH]; cbn.
  - by rewrite bool_decide_false by set_solver.
  - rewrite IH. apply eq_bool_prop_intro. rewrite orb_True, !Is_true_true.
    rewrite Z.eqb_eq, (strcmp_eq t u), !bool_decide_eq_true by done. set_solver.
Qed.

Lemma collect_tokens_spec ts acc :
  Forall is_cstr ts → Forall is_cstr acc → (length acc ≤ TPB_TAG_MAX_TOKENS)%nat →
  collect_tokens ts acc
  = let r := foldl add_token acc (clean_tokens ts) in
    if bool_decide (Exists (λ t, COLON ∈ t) (clean_tokens ts))
       || (TPB_TAG_MAX_TOKENS <? length r)%nat then None else Some r.
Proof.
  unfold TPB_TAG_MAX_TOKENS. intros Hts. revert acc.
  induction Hts as [|t ts Ht Hts IH]; intros acc Hacc Hl.
  - change (clean_tokens []) with (@nil bytes). cbn [collect_tokens foldl].
    rewrite bool_decide_false by (intros Hx; inversion Hx).
    by rewrite (proj2 (Nat.ltb_ge 64 (length acc))) by done.
  - cbn [collect_tokens]. rewrite clean_tokens_cons.
    assert (Hu : is_cstr (upper (trim_token t))) by by apply upper_cstr, trim_cstr.
    destruct (trim_token t) as [|c w] eqn:E; [by apply IH|]. rewrite <- E in *.
    rewrite toupper_check_spec. cbn [foldl].
    assert (Hcol : COLON ∈ upper (trim_token t) ↔ COLON ∈ trim_token t)
      by (apply elem_of_upper; change COLON with 58; lia).
    destruct (bool_decide_reflect (COLON ∈ trim_token t)).
    { cbn [mbind option_bind]. rewrite bool_decide_true by (constructor; by rewrite Hcol). done. }
    cbn [mbind option_bind]. rewrite existsb_strcmp by done. unfold TPB_TAG_MAX_TOKENS.
    assert (bool_decide (Exists (λ t, COLON ∈ t) (upper (trim_token t) :: clean_tokens ts))
            = bool_decide (Exists (λ t, COLON ∈ t) (clean_tokens ts))) as ->.
    { apply bool_decide_ext. rewrite Exists_cons, Hcol. naive_solver. }
    unfold add_token at 2 4. destruct (bool_decide_reflect (upper (trim_token t) ∈ acc)).
    + by apply IH.
    + destruct (Nat.leb_spec 64 (length acc)).
      * pose proof (add_token_length (acc ++ [upper (trim_token t)]) (clean_tokens ts)) as Hge.
        rewrite length_app in Hge. cbn in Hge.
        rewrite (proj2 (Nat.ltb_lt 64 _)) by lia. by rewrite orb_true_r.
      * apply IH; [apply Forall_app; split; [done|by constructor]|].
        rewrite length_app. cbn. lia.
Qed.

Lemma join_tokens_spec sz sep dst ts :
  Forall (λ t, t ≠ []) ts → (length dst < sz)%nat →
  join_tokens sz sep dst false ts
  = let r := dst ++ concat (map (app sep) ts) in if (sz <=? length r)%nat then None else Some r.
Proof.
  intros Hts. revert dst. induction Hts as [|t ts Ht _ IH]; intros dst Hd; cbn -[Nat.leb].
  - rewrite app_nil_r. by rewrite (proj2 (Nat.leb_gt sz (length dst))).
  - assert (0 < length t)%nat by (destruct t; [done|cbn; lia]).
    destruct (Nat.leb_spec sz (length dst + length sep)) as [H1|H1]; cbn -[Nat.leb].
    { rewrite (proj2 (Nat.leb_le sz _)); [done|]. rewrite !length_app. lia. }
    rewrite length_app. destruct (Nat.leb_spec sz (length dst + length sep + length t)) as [H2|H2].
    { rewrite (proj2 (Nat.leb_le sz _)); [done|]. rewrite !length_app. lia. }
    rewrite IH by (rewrite !length_app; lia). by rewrite <- !app_assoc.
Qed.

Lemma join_tokens_first sz sep ts :
  Forall (λ t, t ≠ []) ts → (0 < sz)%nat →
  join_tokens sz sep [] true ts
  = if (sz <=? length (join sep ts))%nat then None else Some (join sep ts).
Proof.
  intros Hts Hsz. destruct Hts as [|t ts Ht Hts]; cbn -[Nat.leb].
  { by rewrite (proj2 (Nat.leb_gt sz 0)). }
  destruct (Nat.leb_spec sz (length t)) as [H|H].
  { rewrite (proj2 (Nat.leb_le sz _)); [done|]. rewrite length_app. lia. }
  by rewrite join_tokens_spec.
Qed.

(** *** What a token looks like *)

Definition tag_token (t : bytes) : Prop :=
  t ≠ [] ∧ COMMA ∉ t ∧ trimmed t ∧ upper t = t ∧ is_cstr t.

Lemma tag_tokens_clean raw :
  tag_tokens raw = clean_tokens (strtok COMMA (snprintf_s TPBM_NAME_STR_MAX_LEN raw)).
Proof. done. Qed.

Lemma clean_tokens_ok ts :
  Forall (λ t, COMMA ∉ t ∧ is_cstr t) ts → Forall tag_token (clean_tokens ts).
Proof.
  intros Hts. apply Forall_forall. intros t Ht. unfold clean_tokens in Ht.
  apply list_elem_of_filter in Ht as [Hne Ht].
  apply list_elem_of_fmap in Ht as (t0 & -> & Ht0).
  rewrite Forall_forall in Hts. destruct (Hts _ Ht0) as [Hcm Hcs]. unfold tag_token.
  split_and!.
  - intros E. by rewrite E in Hne.
  - intros H. rewrite elem_of_upper in H by (change COMMA with 44; lia).
    by apply elem_of_trim in H.
  - rewrite upper_trim. apply trimmed_trim.
  - apply upper_idem.
  - by apply upper_cstr, trim_cstr.
Qed.

Lemma strtok_cstr d s : is_cstr s → Forall (λ t, d ∉ t ∧ is_cstr t) (strtok d s).
Proof.
  unfold is_cstr. rewrite !Forall_forall. intros H t Ht. destruct (strtok_elem _ _ _ Ht) as (? & ? & Hc).
  split; [done|]. apply Forall_forall. auto.
Qed.

Lemma snprintf_s_cstr n s : is_cstr s → is_cstr (snprintf_s n s).
Proof. unfold is_cstr, snprintf_s. apply Forall_take. Qed.

Lemma tag_tokens_ok raw : is_cstr raw → Forall tag_token (tag_tokens raw).
Proof. intros H. rewrite tag_tokens_clean. by apply clean_tokens_ok, strtok_cstr, snprintf_s_cstr. Qed.

Lemma canonical_elem raw t : t ∈ canonical_tags raw ↔ t ∈ tag_tokens raw.
Proof. unfold canonical_tags. rewrite qsort_perm, add_token_elem. set_solver. Qed.

Lemma canonical_sorted raw : is_cstr raw → sorted_by strcmp (canonical_tags raw).
Proof.
  intros H. apply (qsort_sorted strcmp is_cstr).
  - apply Forall_forall. intros t Ht. apply add_token_elem in Ht as [Ht|Ht]; [set_solver|].
    pose proof (tag_tokens_ok raw H) as Hok. rewrite Forall_forall in Hok. by apply Hok.
  - apply add_token_nodup, NoDup_nil_2.
Qed.

Lemma canonical_ok raw : is_cstr raw → Forall tag_token (canonical_tags raw).
Proof.
  intros H. apply Forall_forall. intros t Ht. apply canonical_elem in Ht.
  pose proof (tag_tokens_ok raw H) as Hok. rewrite Forall_forall in Hok. by apply Hok.
Qed.

(** Normalisation through the canonical form, in one equation. *)
Lemma normalize_tags_eq sz raw :
  is_cstr raw → (0 < sz)%nat →
  _sf_normalize_tags true sz (Some raw)
  = if bool_decide (Exists (λ t, COLON ∈ t) (tag_tokens raw))
       || (TPB_TAG_MAX_TOKENS <? length (canonical_tags raw))%nat
       || (sz <=? length (join [COMMA] (canonical_tags raw)))%nat
    then None else Some (join [COMMA] (canonical_tags raw)).
Proof.
  intros Hraw Hsz. unfold _sf_normalize_tags.
  rewrite (proj2 (Nat.eqb_neq sz 0)) by lia. cbn [negb orb].
  destruct raw as [|c raw].
  { change (canonical_tags []) with (@nil bytes). cbn [join length]. change (tag_tokens []) with (@nil bytes).
    rewrite bool_decide_false by (intros Hx; inversion Hx). cbn [orb Nat.ltb Nat.leb].
    destruct sz; [lia|]. done. }
  rewrite collect_tokens_spec; [|eapply Forall_impl; [by apply strtok_cstr, snprintf_s_cstr|];
    naive_solver|constructor|unfold TPB_TAG_MAX_TOKENS; cbn; lia].
  rewrite <- tag_tokens_clean. cbv zeta.
  assert (Hlen : length (canonical_tags (c :: raw)) = length (distinct (tag_tokens (c :: raw)))).
  { unfold canonical_tags. by rewrite qsort_perm. }
  rewrite Hlen. destruct (_ || _); [done|]. cbn [mbind option_bind orb].
  pose proof (canonical_ok _ Hraw) as Hok.
  assert (Hj := join_tokens_first sz [COMMA] (canonical_tags (c :: raw))
                  (Forall_impl _ _ _ Hok (λ t H, proj1 H)) Hsz).
  unfold canonical_tags in Hj at 1. change _sf_tag_token_cmp with strcmp.
  destruct (distinct (tag_tokens (c :: raw))); [by rewrite <- Hj|exact Hj].
Qed.

(** *** Joining and splitting again *)

Lemma tag_tokens_join ts :
  Forall tag_token ts → (length (join [COMMA] ts) < TPBM_NAME_STR_MAX_LEN)%nat →
  tag_tokens (join [COMMA] ts) = ts.
Proof.
  intros Hts Hl. rewrite tag_tokens_clean. unfold snprintf_s. rewrite take_ge by lia.
  rewrite strtok_join by (eapply Forall_impl; [exact Hts|]; by intros t (? & ? & _)).
  clear Hl. induction Hts as [|t ts (Hne & _ & Htr & Hup & _) Hts IH]; [done|].
  rewrite clean_tokens_cons, IH, (trim_trimmed t Htr), Hup. by destruct t.
Qed.

Lemma join_cstr ts : Forall tag_token ts → is_cstr (join [COMMA] ts).
Proof.
  unfold is_cstr. intros Hok. destruct Hok as [|t ts (_ & _ & _ & _ & Ht) Hok]; [constructor|].
  apply Forall_app. split; [done|].
  induction Hok as [|u us (_ & _ & _ & _ & Hu) _ IH]; cbn; [constructor|].
  constructor; [done|]. by apply Forall_app.
Qed.

(** A sorted list of tokens is its own canonical form, if it is not cut. *)
Lemma canonical_join ts : Forall tag_token ts → sorted_by strcmp ts →
  canonical_tags (join [COMMA] ts) = ts ∨ (TPBM_NAME_STR_MAX_LEN ≤ length (join [COMMA] ts))%nat.
Proof.
  intros Hok Hs. destruct (decide (length (join [COMMA] ts) < TPBM_NAME_STR_MAX_LEN)%nat);
    [left|right; lia].
  pose proof (join_cstr ts Hok).
  apply (sorted_by_unique strcmp is_cstr); [by apply canonical_sorted|done|].
  intros t. by rewrite canonical_elem, tag_tokens_join.
Qed.

(** Splitting a list after a comma. *)
Lemma strtok_app d a b : strtok d (a ++ [d] ++ b) = strtok d a ++ strtok d b.
Proof.
  cut (∀ cur, strtok_acc d (a ++ d :: b) cur = strtok_acc d a cur ++ strtok_acc d b []);
    [intros H; apply H|].
  induction a as [|x a IH]; intros cur; cbn.
  - rewrite Z.eqb_refl. by destruct cur.
  - destruct (x =? d); [|apply IH]. destruct cur; [apply IH|]. cbn. f_equal. apply IH.
Qed.

(** ** Properties *)

(** C33: normalisation computes a canonical form of the tag list (of its first 255
    bytes): it fails exactly when a token contains a colon, when more than 64
    distinct tokens remain, or when the result does not fit; otherwise the result
    joins with commas a list that is strictly increasing for [strcmp], so without
    duplicates, and holds exactly the trimmed, upper-cased, non-empty tokens. *)
Theorem normalize_tags_canonical sz raw :
  is_cstr raw → (0 < sz)%nat →
  _sf_normalize_tags true sz (Some raw)
  = (if bool_decide (Exists (λ t, COLON ∈ t) (tag_tokens raw))
        || (TPB_TAG_MAX_TOKENS <? length (canonical_tags raw))%nat
        || (sz <=? length (join [COMMA] (canonical_tags raw)))%nat
     then None else Some (join [COMMA] (canonical_tags raw)))
  ∧ sorted_by strcmp (canonical_tags raw)
  ∧ (∀ t, t ∈ canonical_tags raw ↔ t ∈ tag_tokens raw)
  ∧ Forall (λ t, t ≠ [] ∧ COMMA ∉ t ∧ trim_token t = t ∧ upper t = t) (canonical_tags raw).
Proof.
  intros Hraw Hsz. split_and!; [by apply normalize_tags_eq|by apply canonical_sorted|
    apply canonical_elem|].
  eapply Forall_impl; [by apply canonical_ok|]. intros t (? & ? & Ht & ? & _).
  split_and!; [done..|by apply trim_trimmed|done].
Qed.

Lemma normalize_tags_canonical_witness :
  _sf_normalize_tags true 32 (Some ($"fom, b ,,FOM,a"))
  = (if bool_decide (Exists (λ t, COLON ∈ t) (tag_tokens ($"fom, b ,,FOM,a")))
        || (TPB_TAG_MAX_TOKENS <? length (canonical_tags ($"fom, b ,,FOM,a")))%nat
        || (32 <=? length (join [COMMA] (canonical_tags ($"fom, b ,,FOM,a"))))%nat
     then None else Some (join [COMMA] (canonical_tags ($"fom, b ,,FOM,a"))))
  ∧ canonical_tags ($"fom, b ,,FOM,a") = [$"A"; $"B"; $"FOM"].
Proof.
  destruct (normalize_tags_canonical 32 ($"fom, b ,,FOM,a")) as [H _].
  - unfold is_cstr. apply Forall_forall, Forall_forall. vm_compute. repeat constructor.
  - lia.
  - split; [exact H|vm_compute; reflexivity].
Defined.

(** The canonical form is stable and depends only on the set of tokens: a
    normalised list normalises to itself, in any buffer of at most 256 bytes that
    held it, and two lists with the same tokens, in whatever order, case, spacing
    and multiplicity, normalise to the same result. *)
Theorem normalize_tags_idempotent sz raw raw' out :
  is_cstr raw → is_cstr raw' → (0 < sz ≤ TPBM_NAME_STR_MAX_LEN)%nat →
  _sf_normalize_tags true sz (Some raw) = Some out →
  (∀ t, t ∈ tag_tokens raw ↔ t ∈ tag_tokens raw') →
  _sf_normalize_tags true sz (Some out) = Some out
  ∧ _sf_normalize_tags true sz (Some raw') = Some out.
Proof.
  intros Hraw Hraw' Hsz Hn Hset.
  assert (E : canonical_tags raw' = canonical_tags raw).
  { apply (sorted_by_unique strcmp is_cstr); [by apply canonical_sorted..|].
    intros t. by rewrite !canonical_elem, Hset. }
  rewrite normalize_tags_eq in Hn by (done || lia).
  destruct (bool_decide_reflect (Exists (λ t, COLON ∈ t) (tag_tokens raw))) as [|Hcol]; [done|].
  destruct (Nat.ltb_spec TPB_TAG_MAX_TOKENS (length (canonical_tags raw))) as [|H64]; [done|].
  destruct (Nat.leb_spec sz (length (join [COMMA] (canonical_tags raw)))) as [|Hfit]; [done|].
  injection Hn as <-. rewrite Exists_exists in Hcol.
  pose proof (canonical_ok raw Hraw) as Hok.
  destruct (canonical_join _ Hok (canonical_sorted raw Hraw)) as [Ec|]; [|lia].
  pose proof (join_cstr _ Hok). rewrite !normalize_tags_eq by (done || lia).
  rewrite E, Ec, tag_tokens_join by (done || lia).
  assert (Hc : ∀ ts, (∀ t, t ∈ ts ↔ t ∈ tag_tokens raw) → ¬ Exists (λ t, COLON ∈ t) ts).
  { intros ts Hts. rewrite Exists_exists. intros (t & Ht & Hc). apply Hcol. exists t.
    by rewrite <- Hts. }
  rewrite !bool_decide_false
    by first [apply (Hc _ (canonical_elem raw))|apply (Hc _ (λ t, iff_sym (Hset t)))].
  rewrite (proj2 (Nat.ltb_ge _ _) H64), (proj2 (Nat.leb_gt _ _) Hfit). done.
Qed.

Lemma normalize_tags_idempotent_witness :
  _sf_normalize_tags true 32 (Some ($"A,B,FOM")) = Some ($"A,B,FOM")
  ∧ _sf_normalize_tags true 32 (Some ($"fom,  a,B,b")) = Some ($"A,B,FOM").
Proof.
  apply (normalize_tags_idempotent 32 ($"b,a , Fom,,A") ($"fom,  a,B,b")).
  - unfold is_cstr. apply Forall_forall, Forall_forall. vm_compute. repeat constructor.
  - unfold is_cstr. apply Forall_forall, Forall_forall. vm_compute. repeat constructor.
  - unfold TPBM_NAME_STR_MAX_LEN. lia.
  - vm_compute. reflexivity.
  - intros t. vm_compute (tag_tokens _). set_solver.
Defined.

(** The tokens of a role tag list: the user's, then the system's. *)
Lemma tag_tokens_combined user sys :
  (length user ≤ TPBM_TAG_USER_MAX_LEN)%nat → (length sys < 64)%nat →
  tag_tokens (user ++ [COMMA] ++ sys) = tag_tokens user ++ tag_tokens sys.
Proof.
  unfold TPBM_TAG_USER_MAX_LEN. intros Hu Hs. unfold tag_tokens, snprintf_s, TPBM_NAME_STR_MAX_LEN.
  rewrite !take_ge by (rewrite ?length_app; cbn [length]; lia).
  by rewrite strtok_app, fmap_app, filter_app.
Qed.

(** The stored role tags, when nothing is cut. *)
Lemma finalize_role_tags_spec sz user sys :
  is_cstr user → is_cstr sys → (0 < sz)%nat → sys ≠ [] → (length sys < 64)%nat →
  COLON ∉ sys → _sf_validate_user_tags (Some user) = true →
  ∃ toks, sorted_by strcmp toks
    ∧ (∀ t, t ∈ toks ↔ t ∈ tag_tokens user ∨ t ∈ tag_tokens sys)
    ∧ _sf_finalize_role_tags true sz (Some user) (Some sys)
      = (if (TPB_TAG_MAX_TOKENS <? length toks)%nat || (sz <=? length (join [COMMA] toks))%nat
         then None else Some (join [COMMA] toks)).
Proof.
  intros Hu Hs Hsz Hne Hls Hcol Hv.
  assert (Hv' : (length user ≤ TPBM_TAG_USER_MAX_LEN)%nat ∧ COLON ∉ user).
  { unfold _sf_validate_user_tags in Hv. destruct user as [|c user].
    - split; [cbn; lia|set_solver].
    - destruct (Nat.ltb_spec TPBM_TAG_USER_MAX_LEN (length (c :: user))); [done|]. split; [done|].
      intros Hin. apply negb_true_iff in Hv. rewrite <- not_true_iff_false in Hv. apply Hv.
      apply existsb_exists. exists COLON. split; [by apply list_elem_of_In|apply Z.eqb_refl]. }
  destruct Hv' as [Hlu Hcu]. set (all := user ++ [COMMA] ++ sys).
  assert (Hall : is_cstr all).
  { unfold is_cstr, all. rewrite !Forall_app. split_and!; [done| |done].
    constructor; [change COMMA with 44; lia|constructor]. }
  assert (Htoks : ∀ t, t ∈ canonical_tags all ↔ t ∈ tag_tokens user ∨ t ∈ tag_tokens sys).
  { intros t. unfold all. rewrite canonical_elem, tag_tokens_combined by done. set_solver. }
  exists (canonical_tags all). split_and!; [by apply canonical_sorted|done|].
  assert (Hnc : ¬ Exists (λ t, COLON ∈ t) (tag_tokens all)).
  { rewrite Exists_exists. intros (t & Ht & Hc). rewrite <- canonical_elem, Htoks in Ht.
    revert Hc. destruct Ht as [Ht|Ht]; apply list_elem_of_filter in Ht as [_ Ht];
      apply list_elem_of_fmap in Ht as (t0 & -> & Ht); apply strtok_elem in Ht as (_ & _ & Ht);
      rewrite elem_of_upper by (change COLON with 58; lia); intros Hc%elem_of_trim%Ht;
      unfold snprintf_s in Hc; apply elem_of_take in Hc as (i & Hi & _);
      apply list_elem_of_lookup_2 in Hi; done. }
  assert (Hfin : _sf_finalize_role_tags true sz (Some user) (Some sys)
                 = _sf_normalize_tags true sz (Some all)).
  { unfold _sf_finalize_role_tags. rewrite (proj2 (Nat.eqb_neq sz 0)), Hv by lia. cbn [negb orb].
    destruct sys as [|s sys]; [done|]. destruct user as [|u user].
    - unfold snprintf_s, TPBM_NAME_STR_MAX_LEN. rewrite take_ge by (cbn in *; lia).
      rewrite !normalize_tags_eq by done. unfold all in Hall |- *. cbn [app].
      assert (tag_tokens (COMMA :: s :: sys) = tag_tokens (s :: sys)) as Et
        by exact (tag_tokens_combined [] (s :: sys) ltac:(cbn; lia) Hls).
      unfold canonical_tags. by rewrite Et.
    - unfold snprintf_s. rewrite take_ge; [done|].
      unfold TPBM_TAG_USER_MAX_LEN, TPBM_NAME_STR_MAX_LEN in *. rewrite !length_app.
      cbn [length] in *. lia. }
  rewrite Hfin, normalize_tags_eq, bool_decide_false by done. done.
Qed.

(** What is stored for a null or an accepted user list: the sorted tokens with the
    system's among them. *)
Definition role_tags (sys tag : bytes) : Prop :=
  ∃ toks, sorted_by strcmp toks ∧ tag = join [COMMA] toks ∧ ∀ t, t ∈ tag_tokens sys → t ∈ toks.

Lemma finalize_role_tags_null dst sz sys :
  _sf_finalize_role_tags dst sz None sys = _sf_finalize_role_tags dst sz (Some []) sys.
Proof. unfold _sf_finalize_role_tags. by repeat case_match. Qed.

Lemma finalize_role_tags_stored sz user sys tag :
  is_cstr (default [] user) → is_cstr sys → (0 < sz)%nat → sys ≠ [] → (length sys < 64)%nat →
  COLON ∉ sys → _sf_finalize_role_tags true sz user (Some sys) = Some tag →
  role_tags sys tag ∧ (length tag < sz)%nat.
Proof.
  intros Hu Hs Hsz Hne Hl Hc Hf.
  assert (H : ∃ u, is_cstr u ∧ _sf_finalize_role_tags true sz (Some u) (Some sys) = Some tag).
  { destruct user as [u|]; [by exists u|]. exists []. rewrite <- finalize_role_tags_null.
    split; [constructor|done]. }
  clear Hf. destruct H as (u & Hcu & Hf).
  destruct (_sf_validate_user_tags (Some u)) eqn:Hv.
  - destruct (finalize_role_tags_spec sz u sys Hcu Hs Hsz Hne Hl Hc Hv) as (toks & Ht & Hin & E).
    rewrite E in Hf. destruct (_ <? _)%nat; [done|].
    destruct (Nat.leb_spec sz (length (join [COMMA] toks))); [done|]. injection Hf as <-.
    split; [|done]. exists toks. split_and!; [done..|]. intros t ?. rewrite Hin. by right.
  - unfold _sf_finalize_role_tags in Hf. rewrite Hv in Hf. by repeat case_match.
Qed.

(** C34: the stored tags of an argument or an output.  For a user list that
    validates and system roles without colons of fewer than 64 bytes in total,
    nothing is cut: the only failures left are too many tokens and a small buffer,
    and on success the stored list is the canonical form of both lists together,
    so every system role is in it. *)
Theorem finalize_role_tags_correct sz user sys :
  is_cstr user → is_cstr sys → (0 < sz)%nat → sys ≠ [] → (length sys < 64)%nat →
  COLON ∉ sys → _sf_validate_user_tags (Some user) = true →
  ∃ toks, sorted_by strcmp toks
    ∧ (∀ t, t ∈ toks ↔ t ∈ tag_tokens user ∨ t ∈ tag_tokens sys)
    ∧ _sf_finalize_role_tags true sz (Some user) (Some sys)
      = (if (TPB_TAG_MAX_TOKENS <? length toks)%nat || (sz <=? length (join [COMMA] toks))%nat
         then None else Some (join [COMMA] toks)).
Proof. apply finalize_role_tags_spec. Qed.

Lemma finalize_role_tags_correct_witness :
  ∃ toks, sorted_by strcmp toks
    ∧ (∀ t, t ∈ toks ↔ t ∈ tag_tokens ($"speed, fom") ∨ t ∈ tag_tokens ($"TPBOUTPUT,TPBFOM"))
    ∧ _sf_finalize_role_tags true 256 (Some ($"speed, fom")) (Some ($"TPBOUTPUT,TPBFOM"))
      = (if (TPB_TAG_MAX_TOKENS <? length toks)%nat || (256 <=? length (join [COMMA] toks))%nat
         then None else Some (join [COMMA] toks)).
Proof.
  apply finalize_role_tags_correct.
  - unfold is_cstr. apply Forall_forall, Forall_forall. vm_compute. repeat constructor.
  - unfold is_cstr. apply Forall_forall, Forall_forall. vm_compute. repeat constructor.
  - lia.
  - discriminate.
  - vm_compute. lia.
  - vm_compute (COLON). vm_compute ($"TPBOUTPUT,TPBFOM"). set_solver.
  - vm_compute. reflexivity.
Defined.

(** The displayed form of a stored list is the same tokens joined with a comma
    and a space, refused exactly when it does not fit the buffer. *)
Theorem format_tags_display_correct sz ts :
  Forall (λ t, t ≠ [] ∧ COMMA ∉ t) ts → (0 < sz)%nat →
  _sf_format_tags_display true sz (Some (join [COMMA] ts))
  = (if (sz <=? length (join display_sep ts))%nat then None else Some (join display_sep ts)).
Proof.
  intros Hts Hsz. unfold _sf_format_tags_display.
  rewrite (proj2 (Nat.eqb_neq sz 0)) by lia. cbn [negb orb].
  assert (Hne : Forall (λ t, t ≠ []) ts)
    by (eapply Forall_impl; [exact Hts|]; by intros t []).
  destruct (join [COMMA] ts) as [|c s] eqn:E.
  - destruct Hts as [|t ts [Ht _] _]; [destruct sz; [lia|done]|].
    by destruct t.
  - rewrite <- E, strtok_join by done. by apply join_tokens_first.
Qed.

Lemma format_tags_display_correct_witness :
  _sf_format_tags_display true 16 (Some (join [COMMA] [$"TPBFOM"; $"TPBINPUT"]))
  = (if (16 <=? length (join display_sep [$"TPBFOM"; $"TPBINPUT"]))%nat then None
     else Some (join display_sep [$"TPBFOM"; $"TPBINPUT"])).
Proof.
  apply format_tags_display_correct; [|lia].
  repeat constructor; vm_compute COMMA; vm_compute ($"TPBFOM"); vm_compute ($"TPBINPUT"); set_solver.
Defined.
