(* ===== verification/Driver.v ===== *)
(** * The driver: state and kernel registry

    [src/corelib/tpb-driver.c], first part: the module-level state, the look-up
    of kernels, the registration calls of a kernel ([tpb_k_register],
    [tpb_k_add_arg], [tpb_k_add_output], [tpb_k_finalize_pli]), the timer, and
    the deep copy handed out by [tpb_query_kernel].  Handles are in
    [DriverHandle].

    Arrays of structures ([args], [outs], [envs], ...) are the list of their
    counted elements; [None] is a null pointer next to a positive count, which a
    failed [realloc] leaves behind.  Blocks of limits and of output data live in
    a heap of their own, because several argument arrays point to the same block:
    [memcpy] copies the pointer. *)

From S2P Require Import Prelude Errors CLib CNum ParmValue TagNorm.
From stdpp Require Import options.

(** ** Data *)

Definition TPBM_CLI_STR_MAX_LEN : nat := 4096.
Definition TPBM_NOTE_STR_MAX_LEN : nat := 2048.
Definition TPB_KTYPE_MASK : Z := 0xF.
Definition TPB_KTYPE_PLI : Z := 2.
Definition TPB_TAG_INPUT : bytes := $"TPBINPUT".
Definition TPB_TAG_ENVVAR : bytes := $"TPBENVVAR".
Definition TPB_TAG_OUTPUT : bytes := $"TPBOUTPUT".

Definition loc : Set := positive.

Record tpb_rt_arg := mkArg {
  arg_name : bytes; arg_tag : bytes; arg_note : bytes;
  arg_value : Z; arg_ctrlbits : Z; arg_nlims : Z; arg_plims : option loc;
}.

Record tpb_k_output := mkOut {
  out_name : bytes; out_tag : bytes; out_note : bytes;
  out_dtype : Z; out_unit : Z; out_n : Z; out_p : option loc;
}.

Record tpb_kernel := mkKernel {
  k_name : bytes; k_note : bytes; k_kernel_id : bytes; k_record_ok : Z; k_kctrl : Z;
  k_args : option (list tpb_rt_arg); k_outs : option (list tpb_k_output);
}.

Record tpb_env_entry := mkEnv { env_name : bytes; env_value : bytes }.
Record tpb_wrapper_link := mkLink { link_app : bytes; link_args : option bytes }.

Record tpb_k_rthdl := mkHdl {
  h_args : option (list tpb_rt_arg);
  h_envs : option (list tpb_env_entry);
  h_links : option (list tpb_wrapper_link);
  h_outputs : option (list tpb_k_output);
  h_kernel : tpb_kernel;
}.

(** Which of the two timers the four function pointers of a [tpb_timer_t] are. *)
Inductive timer_impl := TimerNone | TimerClockGettime | TimerTscAsym.
Record tpb_timer := mkTimer {
  timer_name : bytes; timer_unit : Z; timer_dtype : Z; timer_fns : timer_impl;
}.

Record dyn_kernel_entry := mkDyn {
  dyn_name : bytes; dyn_exec_path : bytes; dyn_complete : bool; dyn_ktype : Z;
}.

(** [memset] to zero. *)
Definition kernel0 : tpb_kernel := mkKernel [] [] (replicate 20 0) 0 0 (Some []) (Some []).
Definition hdl0 : tpb_k_rthdl := mkHdl (Some []) (Some []) (Some []) (Some []) kernel0.

Inductive block := BLims (l : list Z) | BData (size : Z).

(** A kernel is [&kernel_common] or [&kernel_all\[i\]]; a handle is
    [&handle_list\[i\]], the variable of a kernel's [main], or an address that
    [realloc] has moved. *)
Inductive kref := KCommon | KReg (i : nat).
Inductive hptr := HList (i : nat) | HCaller | HDangling.

Record driver := mkDriver {
  d_kernel_all : bool;      (* kernel_all != NULL *)
  d_kernel_mem : list tpb_kernel;   (* the block kernel_all points to, or pointed to last *)
  d_nkern : nat;
  d_current_kernel : option nat;
  d_common : tpb_kernel;
  d_timer : tpb_timer;
  d_timer_set : bool;
  d_handle_list : option (list tpb_k_rthdl);
  d_nhdl : nat;
  d_ihdl : Z;
  d_current_rthdl : option hptr;
  d_caller : tpb_k_rthdl;
  d_dry_run : bool;
  d_dyn : list dyn_kernel_entry;
  d_full_scan : bool;
  d_heap : gmap loc block;
  d_next : loc;
  d_malloc : Z → bool;      (* the sizes malloc grants *)
  d_junk : Z;               (* what memory that is not initialised holds *)
}.

(** The statically initialised state of a process. *)
Definition driver_init (malloc : Z → bool) (junk : Z) : driver :=
  mkDriver false [] 0 None kernel0 (mkTimer [] 0 0 TimerNone) false None 0 0 None hdl0 false
           [] false ∅ 1%positive malloc junk.

Definition set_kernels all mem n cur s :=
  mkDriver all mem n cur (d_common s) (d_timer s) (d_timer_set s) (d_handle_list s) (d_nhdl s)
    (d_ihdl s) (d_current_rthdl s) (d_caller s) (d_dry_run s) (d_dyn s) (d_full_scan s)
    (d_heap s) (d_next s) (d_malloc s) (d_junk s).
Definition set_common c s :=
  mkDriver (d_kernel_all s) (d_kernel_mem s) (d_nkern s) (d_current_kernel s) c (d_timer s) (d_timer_set s)
    (d_handle_list s) (d_nhdl s) (d_ihdl s) (d_current_rthdl s) (d_caller s) (d_dry_run s)
    (d_dyn s) (d_full_scan s) (d_heap s) (d_next s) (d_malloc s) (d_junk s).
Definition set_timer t b s :=
  mkDriver (d_kernel_all s) (d_kernel_mem s) (d_nkern s) (d_current_kernel s) (d_common s) t b
    (d_handle_list s) (d_nhdl s) (d_ihdl s) (d_current_rthdl s) (d_caller s) (d_dry_run s)
    (d_dyn s) (d_full_scan s) (d_heap s) (d_next s) (d_malloc s) (d_junk s).
Definition set_handles hs n i cur s :=
  mkDriver (d_kernel_all s) (d_kernel_mem s) (d_nkern s) (d_current_kernel s) (d_common s) (d_timer s)
    (d_timer_set s) hs n i cur (d_caller s) (d_dry_run s) (d_dyn s) (d_full_scan s)
    (d_heap s) (d_next s) (d_malloc s) (d_junk s).
Definition set_caller h s :=
  mkDriver (d_kernel_all s) (d_kernel_mem s) (d_nkern s) (d_current_kernel s) (d_common s) (d_timer s)
    (d_timer_set s) (d_handle_list s) (d_nhdl s) (d_ihdl s) (d_current_rthdl s) h
    (d_dry_run s) (d_dyn s) (d_full_scan s) (d_heap s) (d_next s) (d_malloc s) (d_junk s).
Definition set_dry_run b s :=
  mkDriver (d_kernel_all s) (d_kernel_mem s) (d_nkern s) (d_current_kernel s) (d_common s) (d_timer s)
    (d_timer_set s) (d_handle_list s) (d_nhdl s) (d_ihdl s) (d_current_rthdl s) (d_caller s)
    b (d_dyn s) (d_full_scan s) (d_heap s) (d_next s) (d_malloc s) (d_junk s).
Definition set_dyn l full s :=
  mkDriver (d_kernel_all s) (d_kernel_mem s) (d_nkern s) (d_current_kernel s) (d_common s) (d_timer s)
    (d_timer_set s) (d_handle_list s) (d_nhdl s) (d_ihdl s) (d_current_rthdl s) (d_caller s)
    (d_dry_run s) l full (d_heap s) (d_next s) (d_malloc s) (d_junk s).
Definition set_heap h n s :=
  mkDriver (d_kernel_all s) (d_kernel_mem s) (d_nkern s) (d_current_kernel s) (d_common s) (d_timer s)
    (d_timer_set s) (d_handle_list s) (d_nhdl s) (d_ihdl s) (d_current_rthdl s) (d_caller s)
    (d_dry_run s) (d_dyn s) (d_full_scan s) h n (d_malloc s) (d_junk s).

Definition set_current_rthdl cur s :=
  set_handles (d_handle_list s) (d_nhdl s) (d_ihdl s) cur s.

(** ** Computations on the driver *)

Definition D (A : Type) : Type := driver → outcome A * driver.

#[export] Instance D_ret : MRet D := λ A a s, (Ok a, s).
#[export] Instance D_bind : MBind D := λ A B k m s,
  match m s with
  | (Ok a, s') => k a s'
  | (Err e, s') => (Err e, s')
  | (UB, s') => (UB, s')
  end.
#[export] Instance D_fmap : FMap D := λ A B f m, m ≫= λ a, mret (f a).

(** [TPB_FAIL(TPB_MOD_DRIVER, cause, ...)]. *)
Definition d_fail {A} (cause : Z) : D A := λ s, (TPB_FAIL TPB_MOD_DRIVER cause, s).
Definition d_ub {A} : D A := λ s, (UB, s).
Definition d_get {A} (f : driver → A) : D A := λ s, (Ok (f s), s).
Definition d_mod (f : driver → driver) : D unit := λ s, (Ok tt, f s).

(** [err = m; TPB_PROPAGATE(md, err, NULL)]. *)
Definition d_propagate {A} (md : Z) (m : D A) : D A := λ s,
  let '(r, s') := m s in (TPB_PROPAGATE md r, s').
(** [err = m; if (err != 0) ...]: the result, or [None]. *)
Definition d_try {A} (m : D A) : D (option A) := λ s,
  match m s with
  | (Ok a, s') => (Ok (Some a), s')
  | (Err _, s') => (Ok None, s')
  | (UB, s') => (UB, s')
  end.

(** A value the code reads: undefined behaviour when it is not there. *)
Definition d_some {A} (o : option A) : D A :=
  match o with Some a => mret a | None => d_ub end.

Definition when (b : bool) (m : D unit) : D unit := if b then m else mret tt.

Fixpoint d_iter {A} (f : A → D unit) (l : list A) : D unit :=
  match l with
  | [] => mret tt
  | x :: l' => _ ← f x; d_iter f l'
  end.

(** [malloc]: [None] is the null pointer. *)
Definition d_alloc (size : Z) (b : block) : D (option loc) := λ s,
  if d_malloc s size
  then (Ok (Some (d_next s)), set_heap (<[d_next s := b]> (d_heap s)) (Pos.succ (d_next s)) s)
  else (Ok None, s).
(** [malloc] or [realloc] of an array that is kept as a list. *)
Definition d_malloc_ok (size : Z) : D bool := d_get (λ s, d_malloc s size).

(** [if (p != NULL) free(p)]: freeing a block that is not allocated is undefined. *)
Definition d_free (p : option loc) : D unit := λ s,
  match p with
  | None => (Ok tt, s)
  | Some l => match d_heap s !! l with
              | Some _ => (Ok tt, set_heap (delete l (d_heap s)) (d_next s) s)
              | None => (UB, s)
              end
  end.

(** The limits a pointer leads to. *)
Definition d_lims (p : option loc) : D (list Z) := λ s,
  match p with
  | None => (UB, s)
  | Some l => match d_heap s !! l with
              | Some (BLims lims) => (Ok lims, s)
              | _ => (UB, s)
              end
  end.

(** A write through a pointer to a block. *)
Definition d_store (l : loc) (b : block) : D unit := λ s,
  match d_heap s !! l with
  | Some _ => (Ok tt, set_heap (<[l := b]> (d_heap s)) (d_next s) s)
  | None => (UB, s)
  end.

Definition d_elems {A} (arr : option (list A)) : D (list A) := d_some arr.

(** Object sizes. *)
Definition sizeof_parm_value : Z := 8.
Definition sizeof_rt_arg : Z := 2592.
Definition sizeof_k_output : Z := 2592.
Definition sizeof_kernel : Z := 2368.
Definition sizeof_rthdl : Z := 2432.
Definition sizeof_env_entry : Z := 4352.
Definition sizeof_wrapper_link : Z := 264.

(** The array left by [p = realloc(p, ...)] when it fails. *)
Definition lost {A} (arr : option (list A)) : option (list A) :=
  match arr with Some [] => Some [] | _ => None end.

(** ** Kernels *)

(** [kernel_all\[0..nkern-1\]]. *)
Definition registered : D (list tpb_kernel) := λ s,
  match d_nkern s with
  | O => (Ok [], s)
  | n => if d_kernel_all s && (n <=? length (d_kernel_mem s))%nat
         then (Ok (take n (d_kernel_mem s)), s) else (UB, s)
  end.

Definition name_is (name : bytes) (k : tpb_kernel) : bool := strcmp (k_name k) name =? 0.

(** The first index of a list whose element satisfies [p]. *)
Fixpoint find_index {A} (p : A → bool) (l : list A) : option nat :=
  match l with
  | [] => None
  | x :: l' => if p x then Some O else S <$> find_index p l'
  end.

Definition get_kernel (r : kref) : D tpb_kernel :=
  match r with
  | KCommon => d_get d_common
  | KReg i => ks ← d_get d_kernel_mem; d_some (ks !! i)
  end.

Definition put_kernel (r : kref) (k : tpb_kernel) : D unit :=
  match r with
  | KCommon => d_mod (set_common k)
  | KReg i => d_mod (λ s, set_kernels (d_kernel_all s) (<[i := k]> (d_kernel_mem s))
                                      (d_nkern s) (d_current_kernel s) s)
  end.

Definition _sf_get_kernel_by_name (name : option bytes) : D kref :=
  match name with
  | None => d_fail TPBE_KERN_ARG_FAIL
  | Some name =>
      common ← d_get d_common;
      if name_is name common then mret KCommon
      else ks ← registered;
           match find_index (name_is name) ks with
           | Some i => mret (KReg i)
           | None => d_fail TPBE_LIST_NOT_FOUND
           end
  end.

Definition _sf_get_kernel_by_index (idx : Z) : D kref :=
  n ← d_get d_nkern;
  if (idx <? 0) || (Z.of_nat n <=? idx) then d_fail TPBE_LIST_NOT_FOUND
  else mret (KReg (Z.to_nat idx)).

Definition with_id (id : bytes) (k : tpb_kernel) : tpb_kernel :=
  mkKernel (k_name k) (k_note k) id (k_record_ok k) (k_kctrl k) (k_args k) (k_outs k).
Definition with_record_ok (ok : Z) (k : tpb_kernel) : tpb_kernel :=
  mkKernel (k_name k) (k_note k) (k_kernel_id k) ok (k_kctrl k) (k_args k) (k_outs k).
Definition with_args (args : option (list tpb_rt_arg)) (k : tpb_kernel) : tpb_kernel :=
  mkKernel (k_name k) (k_note k) (k_kernel_id k) (k_record_ok k) (k_kctrl k) args (k_outs k).
Definition with_outs (outs : option (list tpb_k_output)) (k : tpb_kernel) : tpb_kernel :=
  mkKernel (k_name k) (k_note k) (k_kernel_id k) (k_record_ok k) (k_kctrl k) (k_args k) outs.

Definition tpb_driver_set_kernel_id (kernel_name kernel_id : option bytes) : D unit :=
  match kernel_name, kernel_id with
  | Some name, Some id =>
      r ← d_propagate TPB_MOD_DRIVER (_sf_get_kernel_by_name (Some name));
      k ← get_kernel r;
      put_kernel r (with_id id k)
  | _, _ => d_fail TPBE_NULLPTR_ARG
  end.

Definition tpb_driver_set_kernel_record_ok (kernel_name : option bytes) (ok : Z) : D unit :=
  match kernel_name with
  | None => d_fail TPBE_NULLPTR_ARG
  | Some name =>
      r ← d_propagate TPB_MOD_DRIVER (_sf_get_kernel_by_name (Some name));
      k ← get_kernel r;
      put_kernel r (with_record_ok (if ok =? 0 then 0 else 1) k)
  end.

Definition tpb_get_nkern : D Z := d_get (λ s, Z.of_nat (d_nkern s)).
Definition tpb_get_nhdl : D Z := d_get (λ s, Z.of_nat (d_nhdl s)).

(** ** The timer *)

Definition cut_timer (t : tpb_timer) : tpb_timer :=
  mkTimer (snprintf_s TPBM_NAME_STR_MAX_LEN (timer_name t)) (timer_unit t) (timer_dtype t)
          (timer_fns t).
Definition tpb_driver_set_timer (timer_in : tpb_timer) : D unit :=
  d_mod (set_timer (cut_timer timer_in) true).
Definition tpb_driver_get_timer (timer_out : bool) : D tpb_timer :=
  if timer_out then d_get (λ s, cut_timer (d_timer s)) else d_fail TPBE_NULLPTR_ARG.
Definition tpb_k_get_timer : bool → D tpb_timer := tpb_driver_get_timer.

(** ** The registry *)

Definition arg0 : tpb_rt_arg := mkArg [] [] [] 0 0 0 None.

(** [tpb_free_kernel(&k)]: frees the limits and leaves the kernel emptied. *)
Definition tpb_free_kernel (k : tpb_kernel) : D tpb_kernel :=
  _ ← match k_args k with
      | None => mret tt
      | Some args => d_iter (λ a, d_free (arg_plims a)) args
      end;
  mret (with_args (Some []) (with_outs (Some []) k)).

Definition _sf_clear_kernel_registry : D unit :=
  all ← d_get d_kernel_all;
  if all : bool then
    ks ← registered;
    _ ← d_iter (λ k, _ ← tpb_free_kernel k; mret tt) ks;
    d_mod (set_kernels false [] 0 None)
  else d_mod (λ s, set_kernels false (d_kernel_mem s) 0 None s).

(** The three common arguments before their limits are allocated. *)
Definition common_ntest : tpb_rt_arg :=
  mkArg ($"ntest") TPB_TAG_INPUT ($"Number of test iterations") 10
        (Z.lor (Z.lor TPB_PARM_CLI TPB_INT64_T) TPB_PARM_RANGE) 2 None.
Definition common_twarm : tpb_rt_arg :=
  mkArg ($"twarm") TPB_TAG_INPUT ($"Warm-up time in milliseconds") 100
        (Z.lor (Z.lor TPB_PARM_CLI TPB_INT64_T) TPB_PARM_RANGE) 2 None.
Definition common_total_memsize : tpb_rt_arg :=
  mkArg ($"total_memsize") TPB_TAG_INPUT ($"Memory size in KiB") 32
        (Z.lor (Z.lor TPB_PARM_CLI TPB_DOUBLE_T) TPB_PARM_RANGE) 2 None.
Definition DBL_MAX : Z := 0x7fefffffffffffff.

Definition with_plims (p : option loc) (a : tpb_rt_arg) : tpb_rt_arg :=
  mkArg (arg_name a) (arg_tag a) (arg_note a) (arg_value a) (arg_ctrlbits a) (arg_nlims a) p.

Definition common_name : bytes := $"_tpb_common".
Definition set_common_args (args : list tpb_rt_arg) : D unit :=
  d_mod (set_common (mkKernel common_name [] (replicate 20 0) 0 0 (Some args) (Some []))).

Definition tpb_register_common : D unit :=
  _ ← d_mod (set_common (with_args None kernel0));
  ok ← d_malloc_ok (3 * sizeof_rt_arg);
  if negb ok then d_fail TPBE_MALLOC_FAIL
  else
    _ ← set_common_args [common_ntest; arg0; arg0];
    p0 ← d_alloc (2 * sizeof_parm_value) (BLims [1; 100000]);
    match p0 with
    | None => d_fail TPBE_MALLOC_FAIL
    | Some _ =>
        let a0 := with_plims p0 common_ntest in
        _ ← set_common_args [a0; common_twarm; arg0];
        p1 ← d_alloc (2 * sizeof_parm_value) (BLims [0; 10000]);
        match p1 with
        | None => _ ← d_free p0; d_fail TPBE_MALLOC_FAIL
        | Some _ =>
            let a1 := with_plims p1 common_twarm in
            _ ← set_common_args [a0; a1; common_total_memsize];
            p2 ← d_alloc (2 * sizeof_parm_value) (BLims [strtod $"0.0009765625"; DBL_MAX]);
            match p2 with
            | None => _ ← d_free p0; _ ← d_free p1; d_fail TPBE_MALLOC_FAIL
            | Some _ => set_common_args [a0; a1; with_plims p2 common_total_memsize]
            end
        end
    end.

(** ** Copies for [tpb_query_kernel] *)

Definition cut_name : bytes → bytes := snprintf_s TPBM_NAME_STR_MAX_LEN.
Definition cut_note : bytes → bytes := snprintf_s TPBM_NOTE_STR_MAX_LEN.
#[global] Arguments cut_name : simpl never.
#[global] Arguments cut_note : simpl never.

Definition has_lims (a : tpb_rt_arg) : bool := bool_decide (is_Some (arg_plims a)) && (0 <? arg_nlims a).

(** The loop over the arguments; [done] are the copies made so far.  When an
    allocation fails the copies' limits are released and the result is [None]. *)
Fixpoint copy_args (done src : list tpb_rt_arg) : D (option (list tpb_rt_arg)) :=
  match src with
  | [] => mret (Some done)
  | a :: src' =>
      let copy p := mkArg (cut_name (arg_name a)) (cut_name (arg_tag a)) (cut_note (arg_note a))
                          (arg_value a) (arg_ctrlbits a) (arg_nlims a) p in
      if has_lims a then
        p ← d_alloc (sizeof_parm_value * arg_nlims a) (BLims []);
        match p with
        | None => _ ← d_iter (λ b, d_free (arg_plims b)) done; mret None
        | Some l =>
            lims ← d_lims (arg_plims a);
            if arg_nlims a <=? Z.of_nat (length lims) then
              _ ← d_store l (BLims (take (Z.to_nat (arg_nlims a)) lims));
              copy_args (done ++ [copy p]) src'
            else d_ub
        end
      else copy_args (done ++ [copy None]) src'
  end.

Definition copy_output (o : tpb_k_output) : tpb_k_output :=
  mkOut (cut_name (out_name o)) (cut_name (out_tag o)) (cut_note (out_note o)) (out_dtype o)
        (out_unit o) (out_n o) None.

(** The fields of the copy, with its arrays. *)
Definition copied_kernel (src : tpb_kernel) (args : option (list tpb_rt_arg))
    (outs : option (list tpb_k_output)) : tpb_kernel :=
  mkKernel (cut_name (k_name src)) (cut_note (k_note src)) (k_kernel_id src) (k_record_ok src)
           (k_kctrl src) args outs.

(** The part after the arguments: the outputs, released arguments on failure. *)
Definition copy_outs (src : tpb_kernel) (args : option (list tpb_rt_arg))
  : D (option tpb_kernel) :=
  match k_outs src with
  | Some ((_ :: _) as outs) =>
      ok ← d_malloc_ok (sizeof_k_output * Z.of_nat (length outs));
      if negb ok then
        _ ← match args with
            | Some l => d_iter (λ b, d_free (arg_plims b)) l
            | None => mret tt
            end;
        mret None
      else mret (Some (copied_kernel src args (Some (copy_output <$> outs))))
  | outs => mret (Some (copied_kernel src args outs))
  end.

Definition _sf_deep_copy_kernel (src : tpb_kernel) : D (option tpb_kernel) :=
  ok ← d_malloc_ok sizeof_kernel;
  if negb ok then mret None
  else
    match k_args src with
    | Some ((_ :: _) as args) =>
        ok ← d_malloc_ok (sizeof_rt_arg * Z.of_nat (length args));
        if negb ok then mret None
        else copies ← copy_args [] args;
             match copies with
             | None => mret None
             | Some l => copy_outs src (Some l)
             end
    | args => copy_outs src args
    end.

(** The number of kernels and the pointer [*kernel_out] on return; [kernel_out]
    is null ([None]) or points to a pointer that is null or not. *)
Definition tpb_query_kernel (id : Z) (kernel_name : option bytes)
    (kernel_out : option (option tpb_kernel)) : D (Z * option tpb_kernel) :=
  count ← tpb_get_nkern;
  match kernel_out with
  | None => mret (count, None)
  | Some (Some k) => mret (count, Some k)
  | Some None =>
      src ← (if 0 <=? id then d_try (_sf_get_kernel_by_index id)
             else match kernel_name with
                  | None => mret None
                  | Some name => d_try (_sf_get_kernel_by_name (Some name))
                  end);
      match src with
      | None => mret (count, None)
      | Some r => k ← get_kernel r; copy ← _sf_deep_copy_kernel k; mret (count, copy)
      end
  end.

(** ** Registration calls of a kernel *)

Definition tpb_k_register (name note : option bytes) (kctrl : Z) : D unit :=
  match name with
  | None => d_fail TPBE_KERN_ARG_FAIL
  | Some name =>
      ks ← registered;
      if existsb (name_is name) ks then d_fail TPBE_LIST_DUP
      else
        n ← d_get d_nkern;
        ok ← d_malloc_ok (sizeof_kernel * (Z.of_nat n + 1));
        mem ← d_get d_kernel_mem;
        if negb ok then
          cur ← d_get d_current_kernel;
          _ ← d_mod (set_kernels false mem n cur);
          d_fail TPBE_MALLOC_FAIL
        else
          note ← d_some note;
          if (length name <? TPBM_NAME_STR_MAX_LEN)%nat && (length note <? TPBM_NOTE_STR_MAX_LEN)%nat
          then
            let k := mkKernel name note (replicate 20 0) 0 kctrl (Some []) (Some []) in
            d_mod (set_kernels true (take n mem ++ [k]) n (Some n))
          else d_ub   (* sprintf past the end of the field *)
  end.

(** [current_kernel] as a value, and writing it back. *)
Definition get_current_kernel : D (option tpb_kernel) :=
  cur ← d_get d_current_kernel;
  match cur with
  | None => mret None
  | Some i => Some <$> get_kernel (KReg i)
  end.
Definition put_current_kernel (k : tpb_kernel) : D unit :=
  cur ← d_get d_current_kernel;
  i ← d_some cur;
  put_kernel (KReg i) k.

(** Handles by address. *)
Definition get_hdl (p : hptr) : D tpb_k_rthdl :=
  match p with
  | HList i => hs ← d_get d_handle_list; d_some (hs ≫= λ l, l !! i)
  | HCaller => d_get d_caller
  | HDangling => d_ub
  end.
Definition put_hdl (p : hptr) (h : tpb_k_rthdl) : D unit :=
  match p with
  | HList i => d_mod (λ s, set_handles (<[i := h]> <$> d_handle_list s) (d_nhdl s) (d_ihdl s)
                                       (d_current_rthdl s) s)
  | HCaller => d_mod (set_caller h)
  | HDangling => d_ub
  end.
Definition get_current_hdl : D (option tpb_k_rthdl) :=
  cur ← d_get d_current_rthdl;
  match cur with
  | None => mret None
  | Some p => Some <$> get_hdl p
  end.
Definition put_current_hdl (h : tpb_k_rthdl) : D unit :=
  cur ← d_get d_current_rthdl;
  p ← d_some cur;
  put_hdl p h.

Definition arg_is (name : bytes) (a : tpb_rt_arg) : bool := strcmp (arg_name a) name =? 0.
Definition out_is (name : bytes) (o : tpb_k_output) : bool := strcmp (out_name o) name =? 0.

Definition _sf_name_taken (name : bytes) : D bool :=
  k ← get_current_kernel;
  match k with
  | None => mret false
  | Some k =>
      args ← d_elems (k_args k);
      if existsb (arg_is name) args then mret true
      else
        outs ← d_elems (k_outs k);
        if existsb (out_is name) outs then mret true
        else
          h ← get_current_hdl;
          match h with
          | None => mret false
          | Some h => outputs ← d_elems (h_outputs h); mret (existsb (out_is name) outputs)
          end
  end.

(** The variadic arguments of [tpb_k_add_arg]: none, two numbers, or a count with
    an array; numbers as their 64-bit patterns. *)
Inductive va_args := VaNone | VaRange (lo hi : Z) | VaList (n : Z) (src : list Z).

(** [TPB_DTYPE_TIMER_T] stands for the type of the timer. *)
Definition resolve_timer_type (timer_dtype dtype : Z) : Z * Z :=
  let tc := type_code dtype in
  if tc =? TPB_DTYPE_TIMER_T
  then (Z.lor (Z.land dtype (Z.lnot TPB_PARM_TYPE_MASK)) (type_code timer_dtype),
        type_code timer_dtype)
  else (dtype, tc).

(** The number of limits and the block of limits a new argument gets. *)
Definition make_lims (dtype tc : Z) (va : va_args) : D (Z * option loc) :=
  junk ← d_get d_junk;
  if check_mode dtype =? TPB_PARM_RANGE then
    match va with
    | VaRange lo hi =>
        p ← d_alloc (2 * sizeof_parm_value) (BLims [junk; junk]);
        l ← d_some p;
        match range_limits tc lo hi (junk, junk) with
        | None => d_fail TPBE_KERN_ARG_FAIL
        | Some lims => _ ← d_store l (BLims lims); mret (2, Some l)
        end
    | _ => d_ub
    end
  else if check_mode dtype =? TPB_PARM_LIST then
    match va with
    | VaList n src =>
        p ← d_alloc (wrap64 (sizeof_parm_value * n)) (BLims []);
        if n <=? 0 then mret (n, p)
        else if n <=? Z.of_nat (length src) then
          l ← d_some p;
          _ ← d_store l (BLims (list_limits tc (take (Z.to_nat n) src) junk));
          mret (n, Some l)
        else d_ub
    | _ => d_ub
    end
  else mret (0, None).

Definition tpb_k_add_arg (name tag note default_val : option bytes) (dtype : Z) (va : va_args)
  : D unit :=
  k ← get_current_kernel;
  match k with
  | None => d_fail TPBE_KERN_ARG_FAIL
  | Some k =>
      cur ← d_get d_current_rthdl;
      if bool_decide (is_Some cur) then d_fail TPBE_ILLEGAL_CALL
      else match name, default_val, note with
      | Some name, Some default_val, Some note =>
          if negb (_sf_validate_header_name (Some name)) then d_fail TPBE_KERN_ARG_FAIL
          else
            taken ← _sf_name_taken name;
            if taken : bool then d_fail TPBE_KERN_ARG_FAIL
            else
              let sys_tag :=
                if Z.land dtype TPB_PARM_SOURCE_MASK =? Z.land TPB_PARM_ENV TPB_PARM_SOURCE_MASK
                then snprintf_s 64 (TPB_TAG_INPUT ++ $"," ++ TPB_TAG_ENVVAR) else TPB_TAG_INPUT in
              match _sf_finalize_role_tags true TPBM_NAME_STR_MAX_LEN tag (Some sys_tag) with
              | None => d_fail TPBE_KERN_ARG_FAIL
              | Some norm_tag =>
                  args ← d_elems (k_args k);
                  ok ← d_malloc_ok (sizeof_rt_arg * (Z.of_nat (length args) + 1));
                  if negb ok then
                    _ ← put_current_kernel (with_args (lost (k_args k)) k);
                    d_fail TPBE_MALLOC_FAIL
                  else
                    timer ← d_get d_timer;
                    let '(ctrlbits, tc) := resolve_timer_type (timer_dtype timer) dtype in
                    match default_value tc default_val with
                    | None => d_fail TPBE_KERN_ARG_FAIL
                    | Some value =>
                        lims ← make_lims dtype tc va;
                        let arg := mkArg (cut_name name) (cut_name norm_tag) (cut_note note)
                                         value ctrlbits lims.1 lims.2 in
                        put_current_kernel (with_args (Some (args ++ [arg])) k)
                    end
              end
      | _, _, _ => d_fail TPBE_NULLPTR_ARG
      end
  end.

Definition new_output (name norm_tag note : bytes) (dtype out_unit : Z) : tpb_k_output :=
  mkOut (cut_name name) (cut_name norm_tag) (cut_note note)
        (if type_code dtype =? TPB_DTYPE_TIMER_T then TPB_INT64_T else dtype) out_unit 0 None.

Definition with_outputs (outs : option (list tpb_k_output)) (h : tpb_k_rthdl) : tpb_k_rthdl :=
  mkHdl (h_args h) (h_envs h) (h_links h) outs (h_kernel h).

Definition tpb_k_add_output (name tag note : option bytes) (dtype out_unit : Z) : D unit :=
  match name, note with
  | Some name, Some note =>
      if negb (_sf_validate_header_name (Some name)) then d_fail TPBE_KERN_ARG_FAIL
      else
        taken ← _sf_name_taken name;
        if taken : bool then d_fail TPBE_KERN_ARG_FAIL
        else match _sf_finalize_role_tags true TPBM_NAME_STR_MAX_LEN tag (Some TPB_TAG_OUTPUT) with
        | None => d_fail TPBE_KERN_ARG_FAIL
        | Some norm_tag =>
            let out := new_output name norm_tag note dtype out_unit in
            h ← get_current_hdl;
            match h with
            | Some h =>
                outputs ← d_elems (h_outputs h);
                ok ← d_malloc_ok (sizeof_k_output * (Z.of_nat (length outputs) + 1));
                if negb ok then
                  _ ← put_current_hdl (with_outputs (lost (h_outputs h)) h);
                  d_fail TPBE_MALLOC_FAIL
                else put_current_hdl (with_outputs (Some (outputs ++ [out])) h)
            | None =>
                k ← get_current_kernel;
                match k with
                | None => d_fail TPBE_KERN_ARG_FAIL
                | Some k =>
                    outs ← d_elems (k_outs k);
                    ok ← d_malloc_ok (sizeof_k_output * (Z.of_nat (length outs) + 1));
                    if negb ok then
                      _ ← put_current_kernel (with_outs (lost (k_outs k)) k);
                      d_fail TPBE_MALLOC_FAIL
                    else put_current_kernel (with_outs (Some (outs ++ [out])) k)
                end
            end
        end
  | _, _ => d_fail TPBE_NULLPTR_ARG
  end.

Definition tpb_k_finalize_pli : D unit :=
  cur ← d_get d_current_kernel;
  match cur with
  | None => d_fail TPBE_KERN_ARG_FAIL
  | Some _ => d_mod (λ s, set_kernels (d_kernel_all s) (d_kernel_mem s) (S (d_nkern s)) None s)
  end.

(** ** Lemmas *)

Lemma cut_name_id n : (length n < TPBM_NAME_STR_MAX_LEN)%nat → cut_name n = n.
Proof. unfold cut_name, snprintf_s, TPBM_NAME_STR_MAX_LEN. intros. apply take_ge. lia. Qed.
