(* ===== verification/DriverHandle.v ===== *)
(** * The driver: runtime handles

    [src/corelib/tpb-driver.c], second part: creating a handle for a kernel
    ([tpb_driver_add_handle]), setting its arguments, environment and wrapper
    chain, copying and releasing handles, and the handle a kernel process builds
    from its command line ([tpb_k_pli_build_handle]). *)

From S2P Require Import Prelude Errors CLib CNum ParmValue TagNorm Driver.
From stdpp Require Import options.

Definition TPB_UATTR_MASK : Z := 0xFFFF000000000000.
Definition TPB_UNAME_MASK : Z := 0x0000FFF000000000.
Definition TPB_UKIND_TIME : Z := 0x0000100000000000.
Definition TPB_UNAME_TIMERTIME : Z := Z.lor 0x0000005000000000 TPB_UKIND_TIME.

Definition with_hargs (args : option (list tpb_rt_arg)) (h : tpb_k_rthdl) : tpb_k_rthdl :=
  mkHdl args (h_envs h) (h_links h) (h_outputs h) (h_kernel h).
Definition with_envs (envs : option (list tpb_env_entry)) (h : tpb_k_rthdl) : tpb_k_rthdl :=
  mkHdl (h_args h) envs (h_links h) (h_outputs h) (h_kernel h).
Definition with_links (links : option (list tpb_wrapper_link)) (h : tpb_k_rthdl) : tpb_k_rthdl :=
  mkHdl (h_args h) (h_envs h) links (h_outputs h) (h_kernel h).
Definition with_value (v : Z) (a : tpb_rt_arg) : tpb_rt_arg :=
  mkArg (arg_name a) (arg_tag a) (arg_note a) v (arg_ctrlbits a) (arg_nlims a) (arg_plims a).

(** ** Access from inside a kernel *)

(** [tpb_k_get_arg]: the value stored through [argptr]. *)
Definition tpb_k_get_arg (name : option bytes) (dtype : Z) : D Z :=
  h ← get_current_hdl;
  match h, name with
  | Some h, Some name =>
      args ← d_elems (h_args h);
      match find (arg_is name) args with
      | None => d_fail TPBE_LIST_NOT_FOUND
      | Some a => match read_value (type_code dtype) (arg_value a) with
                  | Some v => mret v
                  | None => d_fail TPBE_LIST_NOT_FOUND
                  end
      end
  | _, _ => d_fail TPBE_NULLPTR_ARG
  end.

Definition tpb_dtype_elem_size (dtype : Z) (out : bool) : D Z :=
  if out then match elem_size_of (type_code dtype) with
              | Some n => mret n
              | None => d_fail TPBE_LIST_NOT_FOUND
              end
  else d_fail TPBE_NULLPTR_ARG.

Definition with_unit (u : Z) (o : tpb_k_output) : tpb_k_output :=
  mkOut (out_name o) (out_tag o) (out_note o) (out_dtype o) u (out_n o) (out_p o).
Definition with_data (n : Z) (p : option loc) (o : tpb_k_output) : tpb_k_output :=
  mkOut (out_name o) (out_tag o) (out_note o) (out_dtype o) (out_unit o) n p.

Definition timer_units (u : Z) (o : tpb_k_output) : tpb_k_output :=
  if Z.land (out_unit o) TPB_UNAME_MASK =? TPB_UNAME_TIMERTIME then with_unit u o else o.

(** [tpb_k_alloc_output]: the pointer stored through [ptr]. *)
Definition tpb_k_alloc_output (name : option bytes) (n : Z) (ptr : bool) : D loc :=
  h ← get_current_hdl;
  match h, name, ptr with
  | Some h, Some name, true =>
      outs ← d_elems (h_outputs h);
      timer ← d_get d_timer;
      let outs := timer_units (timer_unit timer) <$> outs in
      _ ← put_current_hdl (with_outputs (Some outs) h);
      match find_index (out_is name) outs with
      | None => d_fail TPBE_LIST_NOT_FOUND
      | Some i =>
          o ← d_some (outs !! i);
          size ← d_try (tpb_dtype_elem_size (out_dtype o) true);
          match size with
          | None => d_fail TPBE_LIST_NOT_FOUND
          | Some size =>
              p ← d_alloc (wrap64 (n * size)) (BData (wrap64 (n * size)));
              match p with
              | None =>
                  _ ← put_current_hdl (with_outputs (Some (<[i := with_data (out_n o) None o]> outs)) h);
                  d_fail TPBE_MALLOC_FAIL
              | Some l =>
                  _ ← put_current_hdl (with_outputs (Some (<[i := with_data (swrap 32 n) p o]> outs)) h);
                  mret l
              end
          end
      end
  | _, _, _ => d_fail TPBE_NULLPTR_ARG
  end.

(** ** Creating and releasing handles *)

(** The releases of [tpb_driver_clean_handle] and the handle it leaves. *)
Definition clean_handle (h : tpb_k_rthdl) : D tpb_k_rthdl :=
  outs ← d_elems (h_outputs h);
  _ ← d_iter (λ o, d_free (out_p o)) outs;
  _ ← match h_args h with
      | None => mret tt
      | Some args => d_iter (λ a, d_free (arg_plims a)) args
      end;
  mret (mkHdl (Some []) (Some []) (Some []) (Some []) (h_kernel h)).

Definition tpb_driver_clean_handle (hdl : option hptr) : D unit :=
  match hdl with
  | None => d_fail TPBE_NULLPTR_ARG
  | Some p => h ← get_hdl p; h' ← clean_handle h; put_hdl p h'
  end.

(** [_sf_find_dyn_kernel], [tpb_dl_is_complete] and [tpb_dl_get_exec_path] of
    [tpb-dynloader.c]. *)
Definition _sf_find_dyn_kernel (kernel_name : bytes) (dyn : list dyn_kernel_entry) : option nat :=
  find_index (λ k, strcmp (dyn_name k) kernel_name =? 0) dyn.
Definition tpb_dl_is_complete (kernel_name : option bytes) : D bool :=
  dyn ← d_get d_dyn;
  mret match kernel_name with
       | None => false
       | Some name => match _sf_find_dyn_kernel name dyn with
                      | None => false
                      | Some i => default false (dyn_complete <$> dyn !! i)
                      end
       end.
Definition tpb_dl_get_exec_path (kernel_name : option bytes) : D (option bytes) :=
  dyn ← d_get d_dyn;
  mret match kernel_name with
       | None => None
       | Some name => i ← _sf_find_dyn_kernel name dyn; k ← dyn !! i;
                      if dyn_complete k then Some (dyn_exec_path k) else None
       end.

(** [handle_list = realloc(...)]: the block may move, so the old address of a
    handle is no longer used. *)
Definition grow_handles (hs : list tpb_k_rthdl) : D unit :=
  cur ← d_get d_current_rthdl;
  d_mod (λ s, set_handles (Some hs) (d_nhdl s) (d_ihdl s)
                (match cur with Some (HList _) => Some HDangling | _ => cur end) s).

(** The new element of [handle_list], from the [realloc] on. *)
Definition append_handle (kernel : tpb_kernel) : D unit :=
  nhdl ← d_get d_nhdl;
  ok ← d_malloc_ok (sizeof_rthdl * (Z.of_nat nhdl + 1));
  if negb ok then d_fail TPBE_MALLOC_FAIL
  else
    hs ← d_get d_handle_list;
    let hs := take nhdl (default [] hs) in
    _ ← grow_handles (hs ++ [mkHdl (Some []) (Some []) (Some []) (Some []) kernel]);
    args ← d_elems (k_args kernel);
    ok ← (if decide (args = []) then mret true
          else d_malloc_ok (sizeof_rt_arg * Z.of_nat (length args)));
    if negb ok then d_fail TPBE_MALLOC_FAIL
    else
      d_mod (set_handles
               (Some (hs ++ [mkHdl (Some args) (Some []) (Some []) (Some []) kernel]))
               (S nhdl) (Z.of_nat nhdl) (Some (HList nhdl))).

Definition tpb_driver_add_handle (kernel_name : option bytes) : D unit :=
  match kernel_name with
  | None => d_fail TPBE_NULLPTR_ARG
  | Some name =>
      r ← d_try (_sf_get_kernel_by_name (Some name));
      match r with
      | None => d_fail TPBE_KERNEL_NE_FAIL
      | Some r =>
          kernel ← get_kernel r;
          complete ← (if Z.land (k_kctrl kernel) TPB_KTYPE_MASK =? TPB_KTYPE_PLI
                      then tpb_dl_is_complete (Some name) else mret true);
          if negb complete then d_fail TPBE_KERNEL_INCOMPLETE else append_handle kernel
      end
  end.

(** [tpb_driver_get_kparm_ptr]: the value and the control bits found. *)
Definition tpb_driver_get_kparm_ptr (kernel_name parm_name : option bytes) : D (Z * Z) :=
  match parm_name with
  | None => d_fail TPBE_KARG_NE_FAIL
  | Some parm_name =>
      let search args : D (Z * Z) :=
        match find (arg_is parm_name) args with
        | Some a => mret (arg_value a, arg_ctrlbits a)
        | None => d_fail TPBE_KARG_NE_FAIL
        end in
      match kernel_name with
      | Some name =>
          r ← d_try (_sf_get_kernel_by_name (Some name));
          match r with
          | None => d_fail TPBE_KERNEL_NE_FAIL
          | Some r => k ← get_kernel r; args ← d_elems (k_args k); search args
          end
      | None =>
          h ← get_current_hdl;
          match h with
          | None => d_fail TPBE_NULLPTR_ARG
          | Some h => args ← d_elems (h_args h); search args
          end
      end
  end.

(** ** Setting up the current handle *)

(** [handle_list == NULL || current_rthdl == NULL]; otherwise the current handle. *)
Definition running_handle : D tpb_k_rthdl :=
  hs ← d_get d_handle_list;
  h ← get_current_hdl;
  match hs, h with
  | Some _, Some h => mret h
  | _, _ => d_fail TPBE_ILLEGAL_CALL
  end.

(** The range check of [tpb_driver_set_hdl_karg]. *)
Definition karg_check (a : tpb_rt_arg) (v : Z) : D unit :=
  if (check_mode (arg_ctrlbits a) =? TPB_PARM_RANGE) && bool_decide (is_Some (arg_plims a))
     && (arg_nlims a =? 2)
  then
    lims ← d_lims (arg_plims a);
    lo ← d_some (lims !! 0%nat);
    hi ← d_some (lims !! 1%nat);
    if karg_out_of_range (type_code (arg_ctrlbits a)) v lo hi then d_fail TPBE_KERN_ARG_FAIL
    else mret tt
  else mret tt.

Definition tpb_driver_set_hdl_karg (parm_name v : option bytes) : D unit :=
  match parm_name, v with
  | Some name, Some value_str =>
      h ← running_handle;
      args ← d_elems (h_args h);
      match find_index (arg_is name) args with
      | None => d_fail TPBE_KARG_NE_FAIL
      | Some i =>
          a ← d_some (args !! i);
          junk ← d_get d_junk;
          match parse_value junk (type_code (arg_ctrlbits a)) value_str with
          | None => d_fail TPBE_DTYPE_NOT_SUPPORTED
          | Some parsed =>
              _ ← karg_check a parsed;
              put_current_hdl (with_hargs (Some (<[i := with_value parsed a]> args)) h)
          end
      end
  | _, _ => d_fail TPBE_NULLPTR_ARG
  end.

Definition env_is (name : bytes) (e : tpb_env_entry) : bool := strcmp (Driver.env_name e) name =? 0.
Definition cut_value : bytes → bytes := snprintf_s TPBM_CLI_STR_MAX_LEN.
#[global] Arguments cut_value : simpl never.

Definition tpb_driver_set_hdl_env (name value : option bytes) : D unit :=
  match name, value with
  | Some name, Some value =>
      h ← running_handle;
      envs ← d_elems (h_envs h);
      match find_index (env_is name) envs with
      | Some i =>
          e ← d_some (envs !! i);
          put_current_hdl (with_envs (Some (<[i := mkEnv (Driver.env_name e) (cut_value value)]> envs)) h)
      | None =>
          ok ← d_malloc_ok (sizeof_env_entry * (Z.of_nat (length envs) + 1));
          if negb ok then d_fail TPBE_MALLOC_FAIL
          else put_current_hdl
                 (with_envs (Some (envs ++ [mkEnv (cut_name name) (cut_value value)])) h)
      end
  | _, _ => d_fail TPBE_NULLPTR_ARG
  end.

(** *** Wrapper chains *)

(** [strdup] of the arguments of every link whose arguments satisfy [keep];
    [None]: an allocation failed. *)
Fixpoint dup_links (keep : option bytes → bool) (links : list tpb_wrapper_link)
  : D (option (list tpb_wrapper_link)) :=
  match links with
  | [] => mret (Some [])
  | l :: links' =>
      ok ← match link_args l with
           | Some a => if keep (Some a) then d_malloc_ok (Z.of_nat (length a) + 1) else mret true
           | None => mret true
           end;
      if negb ok then mret None
      else
        rest ← dup_links keep links';
        mret (cons (mkLink (cut_name (link_app l))
                           (if keep (link_args l) then link_args l else None)) <$> rest)
  end.

Definition some_args (a : option bytes) : bool := bool_decide (is_Some a).
Definition nonempty_args (a : option bytes) : bool :=
  match a with Some (_ :: _) => true | _ => false end.

(** [_sf_wrapperpack_copy(dst, src)] with a [dst] that is released first: what
    [dst] holds afterwards, and the status. *)
Definition _sf_wrapperpack_copy (src : option (list tpb_wrapper_link))
  : D (list tpb_wrapper_link * bool) :=
  match src with
  | None | Some [] => mret ([], true)
  | Some links =>
      ok ← d_malloc_ok (sizeof_wrapper_link * Z.of_nat (length links));
      if negb ok then mret ([], false)
      else copy ← dup_links some_args links;
           mret match copy with Some l => (l, true) | None => ([], false) end
  end.

Definition _sf_set_hdl_wrappers_on (hdl : hptr) (links : option (list tpb_wrapper_link)) (nlinks : Z)
  : D unit :=
  let install l := h ← get_hdl hdl; put_hdl hdl (with_links (Some l) h) in
  match links with
  | Some links =>
      if 0 <? nlinks then
        ok ← d_malloc_ok (sizeof_wrapper_link * nlinks);
        if negb ok then d_fail TPBE_MALLOC_FAIL
        else if nlinks <=? Z.of_nat (length links) then
          copy ← dup_links nonempty_args (take (Z.to_nat nlinks) links);
          match copy with
          | None => d_fail TPBE_MALLOC_FAIL
          | Some l => install l
          end
        else d_ub
      else install []
  | None => install []
  end.

Definition tpb_driver_set_hdl_wrappers (links : option (list tpb_wrapper_link)) (nlinks : Z)
  : D unit :=
  hs ← d_get d_handle_list;
  cur ← d_get d_current_rthdl;
  match hs, cur with
  | Some _, Some p => _sf_set_hdl_wrappers_on p links nlinks
  | _, _ => d_fail TPBE_ILLEGAL_CALL
  end.

Definition tpb_driver_set_hdl_wrappers_idx (hdl_idx : Z) (links : option (list tpb_wrapper_link))
    (nlinks : Z) : D unit :=
  hs ← d_get d_handle_list;
  match hs with
  | None => d_fail TPBE_ILLEGAL_CALL
  | Some _ =>
      nhdl ← d_get d_nhdl;
      if (hdl_idx <? 0) || (Z.of_nat nhdl <=? hdl_idx) then d_fail TPBE_KERN_ARG_FAIL
      else _sf_set_hdl_wrappers_on (HList (Z.to_nat hdl_idx)) links nlinks
  end.

(** *** Copying a handle *)

(** The argument loop: the first arguments of the current handle, as many as the
    source has, take the value of the source's argument with the same name. *)
Definition copy_values (cur src : list tpb_rt_arg) : list tpb_rt_arg :=
  imap (λ i a, if (i <? length src)%nat then
                 match find (arg_is (arg_name a)) src with
                 | Some b => with_value (arg_value b) a
                 | None => a
                 end
               else a) cur.

(** [tpb_driver_copy_hdl_from].  When the source is the current handle itself the
    environment block is released before it is read. *)
Definition tpb_driver_copy_hdl_from (src_idx : Z) : D unit :=
  hs ← d_get d_handle_list;
  cur ← d_get d_current_rthdl;
  match hs, cur with
  | Some _, Some p =>
      nhdl ← d_get d_nhdl;
      if (src_idx <? 0) || (Z.of_nat nhdl <=? src_idx) then d_fail TPBE_KERN_ARG_FAIL
      else
        let q := HList (Z.to_nat src_idx) in
        let same := match p with HList i => Nat.eqb i (Z.to_nat src_idx) | _ => false end in
        src ← get_hdl q;
        h ← get_hdl p;
        src_args ← d_elems (h_args src);
        args ← d_elems (h_args h);
        let h := with_hargs (Some (copy_values args src_args)) h in
        _ ← put_hdl p h;
        h ← match h_envs src with
            | Some ((_ :: _) as envs) =>
                ok ← d_malloc_ok (sizeof_env_entry * Z.of_nat (length envs));
                if negb ok then
                  _ ← put_hdl p (with_envs (lost (h_envs h)) h);
                  d_fail TPBE_MALLOC_FAIL
                else if same then d_ub
                else mret (with_envs (Some envs) h)
            | _ => mret h
            end;
        _ ← put_hdl p h;
        copy ← _sf_wrapperpack_copy (if same then Some [] else h_links src);
        _ ← put_hdl p (with_links (Some copy.1) h);
        if (copy.2 : bool) then mret tt
        else d_propagate TPB_MOD_DRIVER (d_fail TPBE_MALLOC_FAIL)
  | _, _ => d_fail TPBE_ILLEGAL_CALL
  end.

Definition tpb_driver_get_current_hdl_idx : D Z := d_get d_ihdl.

Definition tpb_driver_set_dry_run (enabled : Z) : D unit :=
  d_mod (set_dry_run (negb (enabled =? 0))).

Definition tpb_driver_enable_kernel_reg : D unit := d_mod (set_current_rthdl None).
Definition tpb_driver_disable_kernel_reg : D unit := d_mod (set_current_rthdl None).

(** [for (i = 0; i < nhdl; i++) tpb_driver_clean_handle(&handle_list\[i\])]. *)
Definition tpb_driver_reset_handles : D unit :=
  hs ← d_get d_handle_list;
  nhdl ← d_get d_nhdl;
  match hs with
  | None => mret tt
  | Some _ =>
      if (nhdl =? 0)%nat then mret tt
      else
        _ ← d_iter (λ i, tpb_driver_clean_handle (Some (HList i))) (seq 0 nhdl);
        d_mod (set_handles None 0 (-1) None)
  end.

(** ** The handle of a kernel process *)

Definition TPB_UBASE_BASE : Z := 0x0000000100000000.
Definition TPB_UNIT_TIMER : Z := Z.lor (Z.lor 0 TPB_UNAME_TIMERTIME) TPB_UBASE_BASE.

(** The value of one argument from the command line, if it has one for it. *)
Definition argv_value (argv : list bytes) (i : nat) (a : tpb_rt_arg) : Z :=
  match argv !! i with
  | None => arg_value a
  | Some s => default (arg_value a) (parse_value (arg_value a) (type_code (arg_ctrlbits a)) s)
  end.

Definition pli_output (unit_of_timer : Z) (o : tpb_k_output) : tpb_k_output :=
  let base_unit := Z.land (out_unit o) (Z.lnot TPB_UATTR_MASK) in
  let u := if base_unit =? TPB_UNIT_TIMER
           then Z.lor unit_of_timer (Z.land (out_unit o) TPB_UATTR_MASK) else out_unit o in
  mkOut (out_name o) (out_tag o) (out_note o) (out_dtype o) u 0 None.

(** [tpb_k_pli_build_handle]: [argv] holds the [argc] positional arguments. *)
Definition tpb_k_pli_build_handle (handle : bool) (argv : list bytes) : D unit :=
  if negb handle then d_fail TPBE_NULLPTR_ARG
  else
    _ ← d_mod (set_caller hdl0);
    all ← d_get d_kernel_all;
    nkern ← d_get d_nkern;
    if negb all || (nkern =? 0)%nat then d_fail TPBE_KERN_ARG_FAIL
    else
      kernel ← get_kernel (KReg (pred nkern));
      _ ← d_mod (set_caller (mkHdl (Some []) (Some []) (Some []) (Some []) kernel));
      args ← d_elems (k_args kernel);
      ok ← (if decide (args = []) then mret true
            else d_malloc_ok (sizeof_rt_arg * Z.of_nat (length args)));
      if negb ok then d_fail TPBE_MALLOC_FAIL
      else
        let args := imap (λ i a, with_value (argv_value argv i a) a) args in
        _ ← d_mod (set_caller (mkHdl (Some args) (Some []) (Some []) (Some []) kernel));
        timer ← d_get d_timer;
        match k_outs kernel with
        | Some ((_ :: _) as outs) =>
            ok ← d_malloc_ok (sizeof_k_output * Z.of_nat (length outs));
            if negb ok then d_fail TPBE_MALLOC_FAIL
            else
              let outs := pli_output (timer_unit timer) <$> outs in
              _ ← d_mod (set_caller (mkHdl (Some args) (Some []) (Some []) (Some outs) kernel));
              d_mod (set_current_rthdl (Some HCaller))
        | _ => d_mod (set_current_rthdl (Some HCaller))
        end.
