(* ===== verification/Argp.v ===== *)
(** * Parsing kernel arguments

    [src/corelib/tpb-argp.c]: trimming, [key=value] tokens, the merge of a
    kernel's arguments with the common ones, the range and list checks, and the
    selection of the timer by name. *)

From S2P Require Import Prelude Errors CLib CNum ParmValue TagNorm Driver DriverHandle.
From stdpp Require Import options.

(** [TPB_FAIL(TPB_MOD_ARGP, cause, ...)]. *)
Definition argp_fail {A} (cause : Z) : D A := λ s, (TPB_FAIL TPB_MOD_ARGP cause, s).

Definition _sf_trim_whitespace (s : bytes) : bytes :=
  reverse (skip_space (reverse (skip_space s))).

(** -1 is [None]. *)
Definition _sf_find_parm_index (rt_parms : list tpb_rt_arg) (name : bytes) : option nat :=
  find_index (arg_is name) rt_parms.

(** ** Checks *)

Definition _sf_check_arg_range (parm : tpb_rt_arg) (value : Z) : D unit :=
  if negb (bool_decide (is_Some (arg_plims parm))) || negb (arg_nlims parm =? 2)
  then argp_fail TPBE_KERN_ARG_FAIL
  else
    lims ← d_lims (arg_plims parm);
    lo ← d_some (lims !! 0%nat);
    hi ← d_some (lims !! 1%nat);
    if arg_out_of_range (type_code (arg_ctrlbits parm)) value lo hi
    then argp_fail TPBE_KERN_ARG_FAIL else mret tt.

Definition _sf_check_arg_list (parm : tpb_rt_arg) (value : Z) : D unit :=
  if negb (bool_decide (is_Some (arg_plims parm))) || (arg_nlims parm =? 0)
  then argp_fail TPBE_KERN_ARG_FAIL
  else
    lims ← d_lims (arg_plims parm);
    if arg_nlims parm <=? Z.of_nat (length lims) then
      if in_arg_list (type_code (arg_ctrlbits parm)) value (take (Z.to_nat (arg_nlims parm)) lims)
      then mret tt else argp_fail TPBE_KERN_ARG_FAIL
    else d_ub.

(** ** Tokens *)

(** [key=value]: the trimmed parts, or [None] without an equals sign. *)
Definition split_karg (tok : bytes) : option (bytes * bytes) :=
  '(k, v) ← strchr_split (#"=") tok;
  Some (_sf_trim_whitespace k, _sf_trim_whitespace v).

(** One token applied to the arguments. *)
Definition apply_karg_token (warn_unknown : bool) (tok : bytes) (rt_parms : list tpb_rt_arg)
  : D (list tpb_rt_arg) :=
  match split_karg (cut_value tok) with
  | None | Some ([], _) | Some (_, []) => argp_fail TPBE_KERN_ARG_FAIL
  | Some (key, value) =>
      match _sf_find_parm_index rt_parms key with
      | None => mret rt_parms        (* with a warning in the log *)
      | Some i =>
          parm ← d_some (rt_parms !! i);
          junk ← d_get d_junk;
          match parse_value junk (type_code (arg_ctrlbits parm)) value with
          | None => argp_fail TPBE_KERN_ARG_FAIL
          | Some parsed =>
              let mode := check_mode (arg_ctrlbits parm) in
              _ ← (if mode =? TPB_PARM_RANGE
                   then d_propagate TPB_MOD_ARGP (_sf_check_arg_range parm parsed)
                   else if mode =? TPB_PARM_LIST
                   then d_propagate TPB_MOD_ARGP (_sf_check_arg_list parm parsed)
                   else mret tt);
              mret (<[i := with_value parsed parm]> rt_parms)
          end
      end
  end.

Fixpoint apply_karg_loop (warn_unknown : bool) (tokens : list bytes) (rt_parms : list tpb_rt_arg)
  : D (list tpb_rt_arg) :=
  match tokens with
  | [] => mret rt_parms
  | tok :: tokens' =>
      rt_parms' ← apply_karg_token warn_unknown tok rt_parms;
      apply_karg_loop warn_unknown tokens' rt_parms'
  end.

(** [rt_parms] is null when there are no arguments; the status for that case is
    not encoded. *)
Definition _sf_apply_karg_tokens (tokens : option (list bytes)) (ntokens : Z)
    (rt_parms : list tpb_rt_arg) (warn_unknown : bool) : D (list tpb_rt_arg) :=
  if ntokens <=? 0 then mret rt_parms
  else match tokens, rt_parms with
       | None, _ | _, [] =>
           if warn_unknown then λ s, (Err TPBE_KERN_ARG_FAIL, s) else mret rt_parms
       | Some tokens, _ =>
           if ntokens <=? Z.of_nat (length tokens)
           then apply_karg_loop warn_unknown (take (Z.to_nat ntokens) tokens) rt_parms
           else d_ub
       end.

(** ** Merging with the common arguments *)

(** The loop over the common arguments. *)
Definition add_common (rt_parms : list tpb_rt_arg) (c : tpb_rt_arg) : list tpb_rt_arg :=
  match _sf_find_parm_index rt_parms (arg_name c) with
  | Some _ => rt_parms
  | None => rt_parms ++ [c]
  end.

Definition _sf_build_rt_parms (kernel : tpb_kernel) (kernel_common : option tpb_kernel)
  : D (list tpb_rt_arg) :=
  args ← d_elems (k_args kernel);
  common ← match kernel_common with Some c => d_elems (k_args c) | None => mret [] end;
  let max_parms := Z.of_nat (length args) + Z.of_nat (length common) in
  if max_parms =? 0 then mret []
  else
    ok ← d_malloc_ok (sizeof_rt_arg * max_parms);
    if negb ok then argp_fail TPBE_MALLOC_FAIL
    else mret (foldl add_common args common).

(** [tpb_check_kargs]: the arguments delivered through [rt_args_out]. *)
Definition tpb_check_kargs (common_tokens : option (list bytes)) (ncommon : Z)
    (kernel_tokens : option (list bytes)) (nkernel : Z) (kernel : option tpb_kernel)
  : D (list tpb_rt_arg) :=
  match kernel with
  | None => argp_fail TPBE_KERN_ARG_FAIL
  | Some kernel =>
      q ← tpb_query_kernel (-1) (Some common_name) (Some None);
      rt ← d_propagate TPB_MOD_ARGP (_sf_build_rt_parms kernel q.2);
      rt ← d_propagate TPB_MOD_ARGP (_sf_apply_karg_tokens common_tokens ncommon rt false);
      rt ← d_propagate TPB_MOD_ARGP (_sf_apply_karg_tokens kernel_tokens nkernel rt true);
      _ ← match q.2 with Some c => _ ← tpb_free_kernel c; mret tt | None => mret tt end;
      mret rt
  end.

(** ** Arguments of the current handle *)

(** The [strtok_r] loop; the result is the count delivered through [narg]. *)
Fixpoint set_kargs_loop (tokens : list bytes) (narg : Z) : D Z :=
  match tokens with
  | [] => mret narg
  | token :: tokens' =>
      match _sf_trim_whitespace token with
      | [] => argp_fail TPBE_CLI_FAIL
      | trimmed =>
          match split_karg trimmed with
          | None | Some ([], _) | Some (_, []) => argp_fail TPBE_KERN_ARG_FAIL
          | Some (key, value) =>
              _ ← d_propagate TPB_MOD_ARGP (tpb_driver_set_hdl_karg (Some key) (Some value));
              set_kargs_loop tokens' (narg + 1)
          end
      end
  end.

Definition tpb_argp_set_kargs_tokstr (tokstr : option bytes) : D Z :=
  match tokstr with
  | None => argp_fail TPBE_NULLPTR_ARG
  | Some s => set_kargs_loop (strtok COMMA (cut_value s)) 1
  end.

(** ** The timer by name *)

Definition TPB_UNIT_NS : Z := Z.lor (Z.lor 0 (Z.lor 0x0000001000000000 TPB_UKIND_TIME)) TPB_UBASE_BASE.
Definition TPB_UNIT_CY : Z := Z.lor (Z.lor 0 (Z.lor 0x0000002000000000 TPB_UKIND_TIME)) TPB_UBASE_BASE.

(** [x86] says whether the library was built for x86-64. *)
Definition tpb_argp_set_timer (x86 : bool) (timer_name : option bytes) : D unit :=
  match timer_name with
  | None => argp_fail TPBE_NULLPTR_ARG
  | Some name =>
      if strcmp name ($"clock_gettime") =? 0 then
        d_propagate TPB_MOD_ARGP (tpb_driver_set_timer
          (mkTimer (cut_name $"clock_gettime") TPB_UNIT_NS TPB_INT64_T TimerClockGettime))
      else if x86 && (strcmp name ($"tsc_asym") =? 0) then
        d_propagate TPB_MOD_ARGP (tpb_driver_set_timer
          (mkTimer (cut_name $"tsc_asym") TPB_UNIT_CY TPB_INT64_T TimerTscAsym))
      else argp_fail TPBE_CLI_FAIL
  end.

Definition tpb_k_pli_set_timer (x86 : bool) (timer_name : option bytes) : D unit :=
  match timer_name with
  | None => d_fail TPBE_NULLPTR_ARG
  | Some _ => tpb_argp_set_timer x86 timer_name
  end.
