(* ===== verification/DriverInv.v ===== *)
(** * The driver: its invariant

    What holds in every state the driver's API can reach, and which calls can run
    into undefined behaviour.  The invariant is proved call by call with a weakest
    precondition for [D]; [live] selects the part about memory, which holds as
    long as no handle has been released. *)

From S2P Require Import Prelude Errors CLib CNum ParmValue TagNorm Driver DriverHandle Argp.
From stdpp Require Import options.

#[local] Arguments fmap : simpl never.

(** ** Well-formed data *)

(** Everything of an argument but its value. *)
Definition arg_decl (a : tpb_rt_arg) :=
  (arg_name a, arg_tag a, arg_note a, arg_ctrlbits a, arg_nlims a, arg_plims a).

Definition elems {A} (arr : option (list A)) : list A := default [] arr.
#[global] Arguments elems : simpl never.

Definition name_ok (n : bytes) : Prop :=
  n ≠ [] ∧ (length n < TPBM_NAME_STR_MAX_LEN)%nat ∧ COLON ∉ n.
Definition env_tags : bytes := TPB_TAG_INPUT ++ $"," ++ TPB_TAG_ENVVAR.
Definition arg_ok (a : tpb_rt_arg) : Prop :=
  name_ok (arg_name a) ∧ role_tags TPB_TAG_INPUT (arg_tag a)
  ∧ (Z.land (arg_ctrlbits a) TPB_PARM_SOURCE_MASK = TPB_PARM_ENV → role_tags env_tags (arg_tag a)).
Definition out_ok (o : tpb_k_output) : Prop :=
  name_ok (out_name o) ∧ role_tags TPB_TAG_OUTPUT (out_tag o).

Definition kernel_names (k : tpb_kernel) : list bytes :=
  (arg_name <$> elems (k_args k)) ++ (out_name <$> elems (k_outs k)).
Definition kernel_ok (k : tpb_kernel) : Prop :=
  Forall arg_ok (elems (k_args k)) ∧ Forall out_ok (elems (k_outs k)) ∧ NoDup (kernel_names k).

Definition hdl_ok (h : tpb_k_rthdl) : Prop :=
  (elems (h_args h) = []
   ∨ arg_decl <$> elems (h_args h) = arg_decl <$> elems (k_args (h_kernel h)))
  ∧ NoDup (Driver.env_name <$> elems (h_envs h)).

(** The limits of an argument are allocated and as many as it says. *)
Definition lims_ok (heap : gmap loc block) (nlims : Z) (p : option loc) : Prop :=
  match p with
  | None => True
  | Some l => ∃ lims, heap !! l = Some (BLims lims) ∧ nlims ≤ Z.of_nat (length lims)
  end.
Definition arg_live (heap : gmap loc block) (a : tpb_rt_arg) : Prop :=
  lims_ok heap (arg_nlims a) (arg_plims a).
Definition kernel_live (heap : gmap loc block) (k : tpb_kernel) : Prop :=
  is_Some (k_args k) ∧ is_Some (k_outs k) ∧ Forall (arg_live heap) (elems (k_args k)).
Definition hdl_live (heap : gmap loc block) (h : tpb_k_rthdl) : Prop :=
  is_Some (h_args h) ∧ is_Some (h_outputs h) ∧ is_Some (h_envs h)
  ∧ Forall (arg_live heap) (elems (h_args h)).

Record memory_ok (s : driver) : Prop := {
  mem_malloc n : d_malloc s n = true;
  mem_fresh l : is_Some (d_heap s !! l) → (l < d_next s)%positive;
  mem_all : d_nkern s ≠ 0%nat ∨ is_Some (d_current_kernel s) → d_kernel_all s = true;
  mem_common : kernel_live (d_heap s) (d_common s);
  mem_kernels : Forall (kernel_live (d_heap s)) (d_kernel_mem s);
  mem_hdls : Forall (hdl_live (d_heap s)) (elems (d_handle_list s));
  mem_caller : hdl_live (d_heap s) (d_caller s);
  mem_current : d_current_rthdl s ≠ Some HDangling;
}.

Record driver_ok (live : bool) (s : driver) : Prop := {
  ok_nkern : (d_nkern s ≤ length (d_kernel_mem s))%nat;
  ok_pending i : d_current_kernel s = Some i →
    i = d_nkern s ∧ length (d_kernel_mem s) = S (d_nkern s);
  ok_names : NoDup (k_name <$> d_kernel_mem s);
  ok_kernels : Forall kernel_ok (d_kernel_mem s);
  ok_nhdl : (d_nhdl s ≤ length (elems (d_handle_list s)))%nat;
  ok_ihdl : d_nhdl s ≠ 0%nat → d_ihdl s = Z.of_nat (d_nhdl s) - 1;
  ok_rthdl i : d_current_rthdl s = Some (HList i) → (i < d_nhdl s)%nat;
  ok_hdls : Forall hdl_ok (elems (d_handle_list s));
  ok_caller : hdl_ok (d_caller s);
  ok_memory : live = true → memory_ok s;
}.

(** ** Weakest preconditions *)

Definition wp {A} (live : bool) (m : D A) (Φ : A → driver → Prop) (s : driver) : Prop :=
  match m s with
  | (Ok a, s') => Φ a s'
  | (Err _, s') => driver_ok live s'
  | (UB, _) => live = false
  end.

Section Rules.
Context {live : bool}.

Lemma wp_ret {A} (a : A) Φ s : Φ a s → wp live (mret a) Φ s.
Proof. done. Qed.

Lemma wp_bind {A B} (m : D A) (k : A → D B) Φ s :
  wp live m (λ a, wp live (k a) Φ) s → wp live (m ≫= k) Φ s.
Proof. unfold wp, mbind, D_bind. by destruct (m s) as [[a|e|] s']. Qed.

Lemma wp_mono {A} (m : D A) (Φ Ψ : A → driver → Prop) s :
  wp live m Φ s → (∀ a s', Φ a s' → Ψ a s') → wp live m Ψ s.
Proof. unfold wp. destruct (m s) as [[a|e|] s']; auto. Qed.

Lemma wp_fmap {A B} (f : A → B) (m : D A) Φ s :
  wp live m (λ a, Φ (f a)) s → wp live (f <$> m) Φ s.
Proof. intros H. apply wp_bind. eapply wp_mono; [exact H|]. intros a s' Ha. exact Ha. Qed.

Lemma wp_get {A} (f : driver → A) Φ s : Φ (f s) s → wp live (d_get f) Φ s.
Proof. done. Qed.

Lemma wp_mod f Φ s : Φ tt (f s) → wp live (d_mod f) Φ s.
Proof. done. Qed.

Lemma wp_fail {A} c (Φ : A → driver → Prop) s : driver_ok live s → wp live (d_fail c) Φ s.
Proof. done. Qed.

Lemma wp_ub {A} (Φ : A → driver → Prop) s : live = false → wp live d_ub Φ s.
Proof. done. Qed.

Lemma wp_some {A} (o : option A) (Φ : A → driver → Prop) s :
  (live = true → is_Some o) → (∀ a, o = Some a → Φ a s) → wp live (d_some o) Φ s.
Proof.
  intros Hd H. destruct o as [a|]; [by apply wp_ret, H|]. apply wp_ub.
  destruct live; [|done]. by destruct (Hd eq_refl).
Qed.

Lemma wp_propagate {A} md (m : D A) Φ s : wp live m Φ s → wp live (d_propagate md m) Φ s.
Proof.
  unfold wp, d_propagate, TPB_PROPAGATE. destruct (m s) as [[a|e|] s']; [done| |done].
  by destruct (e =? TPBE_EXIT_ON_HELP).
Qed.

Lemma wp_try {A} (m : D A) (Φ : option A → driver → Prop) s :
  wp live m (λ a, Φ (Some a)) s → (∀ s', driver_ok live s' → Φ None s') → wp live (d_try m) Φ s.
Proof. unfold wp, d_try. destruct (m s) as [[a|e|] s']; auto. Qed.

End Rules.

Ltac wp_step :=
  first
    [ apply wp_ret | apply wp_bind | apply wp_get | apply wp_mod | apply wp_fail
    | apply wp_propagate | apply wp_fmap ]; cbn beta.
Ltac wp_steps := repeat wp_step.

(** ** Growing the heap *)

Definition heap_ext (h h' : gmap loc block) : Prop := ∀ l b, h !! l = Some b → h' !! l = Some b.

Lemma heap_ext_refl h : heap_ext h h.
Proof. by intros l b. Qed.
Lemma heap_ext_trans h h' h'' : heap_ext h h' → heap_ext h' h'' → heap_ext h h''.
Proof. intros H H' l b ?. by apply H', H. Qed.

Lemma lims_ok_ext h h' n p : heap_ext h h' → lims_ok h n p → lims_ok h' n p.
Proof.
  intros Hext. unfold lims_ok. destruct p as [l|]; [|done]. intros (lims & Hl & Hn).
  exists lims. split; [by apply Hext|done].
Qed.
Lemma kernel_live_ext h h' k : heap_ext h h' → kernel_live h k → kernel_live h' k.
Proof.
  intros Hext (? & ? & Ha). split_and!; [done..|]. eapply Forall_impl; [exact Ha|].
  intros a. by apply lims_ok_ext.
Qed.
Lemma hdl_live_ext h h' x : heap_ext h h' → hdl_live h x → hdl_live h' x.
Proof.
  intros Hext (? & ? & ? & Ha). split_and!; [done..|]. eapply Forall_impl; [exact Ha|].
  intros a. by apply lims_ok_ext.
Qed.

(** Blocks below [n] are kept, and new ones stay below [n']. *)
Definition heap_grown (h h' : gmap loc block) (n n' : loc) : Prop :=
  heap_ext h h' ∧ (n ≤ n')%positive
  ∧ ((∀ l, is_Some (h !! l) → (l < n)%positive) → ∀ l, is_Some (h' !! l) → (l < n')%positive).

Lemma heap_grown_refl h n : heap_grown h h n n.
Proof. split_and!; [apply heap_ext_refl|lia|done]. Qed.
Lemma heap_grown_trans h h' h'' n n' n'' :
  heap_grown h h' n n' → heap_grown h' h'' n' n'' → heap_grown h h'' n n''.
Proof.
  intros (E & L & F) (E' & L' & F'). split_and!; [by eapply heap_ext_trans|lia|auto].
Qed.

Lemma ok_set_heap live s h n :
  driver_ok live s → (live = true → heap_grown (d_heap s) h (d_next s) n) →
  driver_ok live (set_heap h n s).
Proof.
  intros [] Hg. split; try done. intros Hl. destruct (Hg Hl) as (Hext & _ & Hf).
  destruct (ok_memory0 Hl). split; try done; cbn.
  - auto.
  - by eapply kernel_live_ext.
  - eapply Forall_impl; [done|]. intros k. by apply kernel_live_ext.
  - eapply Forall_impl; [done|]. intros k. by apply hdl_live_ext.
  - by eapply hdl_live_ext.
Qed.

(** Allocating a block and filling it. *)
Lemma heap_grown_alloc h n b :
  (∀ l, is_Some (h !! l) → (l < n)%positive) → heap_grown h (<[n := b]> h) n (Pos.succ n).
Proof.
  intros Hf. split_and!.
  - intros l b' Hl. rewrite lookup_insert_ne; [done|]. intros ->.
    pose proof (Hf l (mk_is_Some _ _ Hl)). lia.
  - lia.
  - intros _ l. destruct (decide (l = n)) as [->|]; [lia|].
    rewrite lookup_insert_ne by done. intros Hl%Hf. lia.
Qed.

Lemma heap_grown_any live s b :
  driver_ok live s → live = true →
  heap_grown (d_heap s) (<[d_next s := b]> (d_heap s)) (d_next s) (Pos.succ (d_next s)).
Proof. intros [] Hl. apply heap_grown_alloc. by destruct (ok_memory0 Hl). Qed.

Section HeapRules.
Context {live : bool}.

Lemma wp_alloc size b Φ s :
  driver_ok live s →
  Φ (Some (d_next s)) (set_heap (<[d_next s := b]> (d_heap s)) (Pos.succ (d_next s)) s) →
  (live = false → Φ None s) →
  wp live (d_alloc size b) Φ s.
Proof.
  intros Hok HS HN. unfold wp, d_alloc. destruct (d_malloc s size) eqn:E; [done|]. apply HN.
  destruct live; [|done]. destruct (ok_memory _ _ Hok eq_refl). congruence.
Qed.

(** Filling the block just allocated. *)
Lemma wp_store l b b' h n Φ s :
  Φ tt (set_heap (<[l := b']> h) n s) → wp live (d_store l b') Φ (set_heap (<[l := b]> h) n s).
Proof.
  intros H. unfold wp, d_store. cbn [d_heap set_heap]. by rewrite lookup_insert_eq, insert_insert_eq.
Qed.

Lemma wp_malloc_ok size Φ s :
  (driver_ok live s → (live = true → Φ true s) ∧ (live = false → ∀ b, Φ b s)) →
  driver_ok live s → wp live (d_malloc_ok size) Φ s.
Proof.
  intros H Hok. apply wp_get. destruct (H Hok) as [HT HF]. destruct live; [|by apply HF].
  destruct (ok_memory _ _ Hok eq_refl) as [-> _ _ _ _ _ _ _]. by apply HT.
Qed.

End HeapRules.

(** ** Kernels and handles *)

Definition kernel_at (r : kref) (s : driver) : option tpb_kernel :=
  match r with KCommon => Some (d_common s) | KReg i => d_kernel_mem s !! i end.
Definition hdl_at (p : hptr) (s : driver) : option tpb_k_rthdl :=
  match p with
  | HList i => elems (d_handle_list s) !! i
  | HCaller => Some (d_caller s)
  | HDangling => None
  end.

Lemma ok_put_mem live s i k k' :
  driver_ok live s → d_kernel_mem s !! i = Some k → k_name k' = k_name k → kernel_ok k' →
  (live = true → kernel_live (d_heap s) k') →
  driver_ok live (set_kernels (d_kernel_all s) (<[i := k']> (d_kernel_mem s)) (d_nkern s)
                              (d_current_kernel s) s).
Proof.
  intros [] Hi Hn Hk Hlive. split; try done; cbn.
  - by rewrite length_insert.
  - intros j Hj. rewrite length_insert. auto.
  - rewrite list_fmap_insert, Hn, list_insert_id; [done|]. by rewrite list_lookup_fmap, Hi.
  - by apply Forall_insert.
  - intros Hl. destruct (ok_memory0 Hl). split; try done. cbn. apply Forall_insert; auto.
Qed.

Lemma ok_set_common live s c :
  driver_ok live s → (live = true → kernel_live (d_heap s) c) → driver_ok live (set_common c s).
Proof.
  intros [] Hc. split; try done. intros Hl. destruct (ok_memory0 Hl). split; try done. auto.
Qed.

Lemma ok_kernel_live live s r k :
  driver_ok live s → kernel_at r s = Some k → live = true → kernel_live (d_heap s) k.
Proof.
  intros Hok Hr Hl. destruct (ok_memory _ _ Hok Hl). destruct r as [|i]; cbn in Hr; [by simplify_eq|].
  by eapply Forall_lookup_1 in mem_kernels0.
Qed.

Lemma ok_kernel_ok live s i k : driver_ok live s → d_kernel_mem s !! i = Some k → kernel_ok k.
Proof. intros [] Hi. by eapply Forall_lookup_1 in ok_kernels0. Qed.

Lemma ok_hdl_ok live s p h : driver_ok live s → hdl_at p s = Some h → hdl_ok h.
Proof.
  intros [] Hp. destruct p; cbn in Hp; [|by simplify_eq|done]. by eapply Forall_lookup_1 in ok_hdls0.
Qed.

Lemma ok_hdl_live live s p h :
  driver_ok live s → hdl_at p s = Some h → live = true → hdl_live (d_heap s) h.
Proof.
  intros Hok Hp Hl. destruct (ok_memory _ _ Hok Hl).
  destruct p; cbn in Hp; [|by simplify_eq|done]. by eapply Forall_lookup_1 in mem_hdls0.
Qed.

(** The state after a write to a handle. *)
Definition put_hdl_state (p : hptr) (h : tpb_k_rthdl) (s : driver) : driver :=
  match p with
  | HList i => set_handles (<[i := h]> <$> d_handle_list s) (d_nhdl s) (d_ihdl s)
                           (d_current_rthdl s) s
  | HCaller => set_caller h s
  | HDangling => s
  end.

Lemma elems_insert {A} i (x : A) arr : elems (<[i := x]> <$> arr) = <[i := x]> (elems arr).
Proof. destruct arr; [done|]. by destruct i. Qed.

Lemma ok_put_hdl live s p h :
  driver_ok live s → hdl_ok h → (live = true → hdl_live (d_heap s) h) →
  driver_ok live (put_hdl_state p h s).
Proof.
  intros [] Hh Hlive. destruct p as [i| |]; [| |by split]; split; try done; cbn; rewrite ?elems_insert.
  - by rewrite length_insert.
  - by apply Forall_insert.
  - intros Hl. destruct (ok_memory0 Hl). split; try done. cbn. rewrite elems_insert.
    apply Forall_insert; auto.
  - intros Hl. destruct (ok_memory0 Hl). split; try done. by auto.
Qed.

Section ObjectRules.
Context {live : bool}.

Lemma wp_registered Φ s :
  driver_ok live s → Φ (take (d_nkern s) (d_kernel_mem s)) s → wp live registered Φ s.
Proof.
  intros Hok H. unfold wp, registered. destruct (d_nkern s) as [|n] eqn:E; [done|].
  rewrite (proj2 (Nat.leb_le _ _)), andb_true_r by (rewrite <- E; apply Hok).
  destruct (d_kernel_all s) eqn:Ea; [done|]. destruct live; [|done].
  destruct (ok_memory _ _ Hok eq_refl). rewrite mem_all0 in Ea; [done|left; congruence].
Qed.

Lemma wp_get_kernel r Φ s :
  (live = true → is_Some (kernel_at r s)) → (∀ k, kernel_at r s = Some k → Φ k s) →
  wp live (get_kernel r) Φ s.
Proof.
  intros Hd H. destruct r as [|i]; [by apply wp_get, H|]. apply wp_bind, wp_get.
  by apply wp_some.
Qed.

Lemma wp_by_name name Φ s :
  driver_ok live s → (∀ r, is_Some (kernel_at r s) → Φ r s) →
  wp live (_sf_get_kernel_by_name (Some name)) Φ s.
Proof.
  intros Hok H. apply wp_bind, wp_get. destruct (name_is name (d_common s)).
  { apply wp_ret, H. by eexists. }
  apply wp_bind, wp_registered; [done|].
  destruct (find_index _ _) as [i|] eqn:E; [|by apply wp_fail]. apply wp_ret, H. cbn.
  assert (∃ k, take (d_nkern s) (d_kernel_mem s) !! i = Some k) as [k Hk].
  { clear H. revert i E. generalize (take (d_nkern s) (d_kernel_mem s)) as l.
    induction l as [|x l IH]; intros i E; cbn in E; [done|].
    destruct (name_is name x); [injection E as <-; by eexists|].
    destruct (find_index _ l) as [j|]; [|done]. injection E as <-. by apply IH. }
  apply lookup_take_Some in Hk as [Hk _]. by eexists.
Qed.

Lemma wp_put_kernel r k k' Φ s :
  driver_ok live s → kernel_at r s = Some k → k_name k' = k_name k →
  k_args k' = k_args k → k_outs k' = k_outs k →
  (∀ s', driver_ok live s' → Φ tt s') → wp live (put_kernel r k') Φ s.
Proof.
  intros Hok Hr Hn Ha Ho H. assert (Hlive : live = true → kernel_live (d_heap s) k').
  { intros Hl. unfold kernel_live. rewrite Ha, Ho. by eapply ok_kernel_live. }
  destruct r as [|i]; apply wp_mod, H.
  - by apply ok_set_common.
  - eapply ok_put_mem; [done..| |done]. unfold kernel_ok, kernel_names. rewrite Ha, Ho.
    by eapply ok_kernel_ok.
Qed.

Lemma wp_current_kernel Φ s :
  driver_ok live s → (d_current_kernel s = None → Φ None s) →
  (∀ k, d_current_kernel s = Some (d_nkern s) → d_kernel_mem s !! d_nkern s = Some k → Φ (Some k) s) →
  wp live get_current_kernel Φ s.
Proof.
  intros Hok HN HS. apply wp_bind, wp_get. destruct (d_current_kernel s) as [i|] eqn:E; [|by apply wp_ret, HN].
  destruct (ok_pending _ _ Hok _ E) as [-> Hl]. apply wp_fmap, wp_get_kernel.
  - intros _. cbn. apply lookup_lt_is_Some. lia.
  - intros k Hk. by apply HS.
Qed.

Lemma wp_put_current_kernel k k' Φ s :
  driver_ok live s → d_current_kernel s = Some (d_nkern s) → d_kernel_mem s !! d_nkern s = Some k →
  k_name k' = k_name k → kernel_ok k' → (live = true → kernel_live (d_heap s) k') →
  (∀ s', driver_ok live s' → Φ tt s') → wp live (put_current_kernel k') Φ s.
Proof.
  intros Hok Hc Hk Hn Hk' Hl H. apply wp_bind, wp_get. rewrite Hc. apply wp_mod, H.
  by eapply ok_put_mem.
Qed.

Lemma wp_get_hdl p Φ s :
  (live = true → is_Some (hdl_at p s)) → (∀ h, hdl_at p s = Some h → Φ h s) →
  wp live (get_hdl p) Φ s.
Proof.
  intros Hd H. destruct p as [i| |].
  - apply wp_bind, wp_get. apply wp_some; cbn in *; destruct (d_handle_list s); cbn in *;
      rewrite ?lookup_nil in Hd; auto.
  - by apply wp_get, H.
  - apply wp_ub. destruct live; [|done]. by destruct (Hd eq_refl).
Qed.

Lemma ok_current_hdl s p :
  driver_ok live s → d_current_rthdl s = Some p → live = true → is_Some (hdl_at p s).
Proof.
  intros Hok Hc Hl. destruct (ok_memory _ _ Hok Hl). destruct p as [i| |]; cbn; [|by eexists|congruence].
  apply lookup_lt_is_Some. pose proof (ok_rthdl _ _ Hok i Hc). pose proof (ok_nhdl _ _ Hok). lia.
Qed.

Lemma wp_current_hdl Φ s :
  driver_ok live s → (d_current_rthdl s = None → Φ None s) →
  (∀ p h, d_current_rthdl s = Some p → hdl_at p s = Some h → Φ (Some h) s) →
  wp live get_current_hdl Φ s.
Proof.
  intros Hok HN HS. apply wp_bind, wp_get. destruct (d_current_rthdl s) as [p|] eqn:E; [|by apply wp_ret, HN].
  apply wp_fmap, wp_get_hdl; [intros Hl; by apply ok_current_hdl|]. intros h Hh. by eapply HS.
Qed.

Lemma wp_put_hdl p h Φ s :
  (live = true → p ≠ HDangling) → driver_ok live (put_hdl_state p h s) → Φ tt (put_hdl_state p h s) →
  wp live (put_hdl p h) Φ s.
Proof.
  intros Hd Hok H. destruct p; [by apply wp_mod..|]. apply wp_ub. destruct live; [|done].
  by destruct (Hd eq_refl).
Qed.

Lemma wp_put_current_hdl p h Φ s :
  driver_ok live s → d_current_rthdl s = Some p → hdl_ok h →
  (live = true → hdl_live (d_heap s) h) →
  (∀ s', s' = put_hdl_state p h s → driver_ok live s' → Φ tt s') → wp live (put_current_hdl h) Φ s.
Proof.
  intros Hok Hc Hh Hl H. apply wp_bind, wp_get. rewrite Hc. apply wp_put_hdl.
  - intros Hlive ->. destruct (ok_memory _ _ Hok Hlive). congruence.
  - by apply ok_put_hdl.
  - by apply H, ok_put_hdl.
Qed.

End ObjectRules.

(** ** Names *)

Lemma strcmp_refl s : strcmp s s = 0.
Proof. induction s as [|c s IH]; cbn; [done|]. by rewrite Z.eqb_refl. Qed.

(** A name that [strcmp] finds nowhere is new. *)
Lemma not_taken {A} (f : A → bytes) name l :
  existsb (λ x, strcmp (f x) name =? 0) l = false → name ∉ f <$> l.
Proof.
  intros H Hin. apply list_elem_of_fmap in Hin as (x & -> & Hx).
  rewrite <- not_true_iff_false, existsb_exists in H. apply H. exists x.
  rewrite strcmp_refl. split; [by apply list_elem_of_In|done].
Qed.

Lemma validated_name name : _sf_validate_header_name (Some name) = true → name_ok name.
Proof.
  unfold _sf_validate_header_name, name_ok, TPBM_NAME_STR_MAX_LEN. destruct name as [|c n]; [done|].
  destruct (Nat.ltb_spec (256 - 1) (length (c :: n))); [done|]. intros Hc. split_and!; [done|lia|].
  intros Hin. apply negb_true_iff in Hc. rewrite <- not_true_iff_false in Hc. apply Hc.
  apply existsb_exists. exists COLON. split; [by apply list_elem_of_In|apply Z.eqb_refl].
Qed.

(** The stored tags, cut to their field, for the roles the system adds. *)
Definition system_tags (sys : bytes) : Prop :=
  sys = TPB_TAG_INPUT ∨ sys = TPB_TAG_OUTPUT ∨ sys = env_tags.

Lemma stored_tags user sys tag :
  is_cstr (default [] user) → system_tags sys →
  _sf_finalize_role_tags true TPBM_NAME_STR_MAX_LEN user (Some sys) = Some tag →
  role_tags sys (cut_name tag).
Proof.
  intros Hu Hsys Hf.
  assert (H : is_cstr sys ∧ sys ≠ [] ∧ (length sys < 64)%nat ∧ COLON ∉ sys).
  { destruct Hsys as [->|[->| ->]]; (split_and!;
      [unfold is_cstr; apply Forall_forall, Forall_forall; vm_compute; repeat constructor
      |discriminate|vm_compute; lia|apply (bool_decide_unpack _); vm_compute; exact I]). }
  destruct H as (? & ? & ? & ?).
  destruct (finalize_role_tags_stored TPBM_NAME_STR_MAX_LEN user sys tag) as [Ht Hl]; [done|done| |done..|].
  { unfold TPBM_NAME_STR_MAX_LEN. lia. }
  by rewrite cut_name_id.
Qed.

Lemma env_tags_input tag : role_tags env_tags tag → role_tags TPB_TAG_INPUT tag.
Proof.
  intros (toks & ? & ? & H). exists toks. split_and!; [done..|]. intros t Ht. apply H.
  revert Ht. vm_compute (tag_tokens TPB_TAG_INPUT). vm_compute (tag_tokens env_tags). set_solver.
Qed.
