(* ===== verification/DriverCalls.v ===== *)
(** * The driver: every call keeps the invariant

    The calls of the driver's API as one type, the states they reach, and two
    theorems: the invariant of [DriverInv] holds in every reachable state, and
    until the first handle is released no call with proper arguments runs into
    undefined behaviour. *)

From S2P Require Import Prelude Errors CLib CNum ParmValue TagNorm Driver DriverHandle Argp.
From S2P Require Import DriverInv.
From stdpp Require Import options.

#[local] Arguments fmap : simpl never.

Section Calls.
Context {live : bool}.

Abbreviation keeps m s := (wp live m (λ _, driver_ok live) s).

Lemma when_live (P : Prop) s : driver_ok live s → (live = true → memory_ok s → P) → live = true → P.
Proof. intros Hok H Hl. apply H; [done|]. by apply (ok_memory live). Qed.

(** ** Registration *)

Lemma ok_register s k :
  driver_ok live s → k_name k ∉ k_name <$> take (d_nkern s) (d_kernel_mem s) → kernel_ok k →
  (live = true → kernel_live (d_heap s) k) →
  driver_ok live (set_kernels true (take (d_nkern s) (d_kernel_mem s) ++ [k]) (d_nkern s)
                              (Some (d_nkern s)) s).
Proof.
  intros [] Hn Hk Hl.
  assert (Hlen : length (take (d_nkern s) (d_kernel_mem s) ++ [k]) = S (d_nkern s)).
  { rewrite length_app, length_take. cbn. lia. }
  split; try done; cbn.
  - lia.
  - intros i [= <-]. by split.
  - rewrite fmap_app. apply NoDup_app. split_and!.
    + rewrite fmap_take. eapply sublist_NoDup; [exact ok_names|apply sublist_take].
    + intros x Hx ->%list_elem_of_singleton. done.
    + apply NoDup_singleton.
  - apply Forall_app. split; [by apply Forall_take|by apply Forall_singleton].
  - intros Hlive. destruct (ok_memory Hlive). split; try done. cbn.
    apply Forall_app. split; [by apply Forall_take|apply Forall_singleton; auto].
Qed.

Definition register_args_ok (note name : option bytes) : Prop :=
  (length (default [] name) < TPBM_NAME_STR_MAX_LEN)%nat
  ∧ ∃ n, note = Some n ∧ (length n < TPBM_NOTE_STR_MAX_LEN)%nat.

Lemma keeps_register name note kctrl s :
  driver_ok live s → (live = true → register_args_ok note name) →
  keeps (tpb_k_register name note kctrl) s.
Proof.
  intros Hok Hargs. destruct name as [name|]; [|by apply wp_fail].
  wp_step. apply wp_registered; [done|].
  destruct (existsb _ _) eqn:Ex; [by apply wp_fail|].
  wp_steps. destruct (d_malloc s _) eqn:Em; cbn [negb].
  - apply wp_bind, wp_some; [intros Hl; destruct (Hargs Hl) as (_ & n & -> & _); by eexists|].
    intros n Hn. destruct (_ && _) eqn:El.
    + apply wp_mod, ok_register; [done|by apply not_taken| |].
      * repeat constructor.
      * intros _. repeat split; try by eexists. constructor.
    + apply wp_ub. destruct live; [|done]. destruct (Hargs eq_refl) as (H1 & n' & Hn' & H2).
      simplify_eq. cbn in H1. apply Nat.ltb_lt in H1, H2. by rewrite H1, H2 in El.
  - wp_steps. destruct Hok. split; try done. intros Hl. destruct (ok_memory Hl). congruence.
Qed.

Lemma wp_name_taken name (Φ : bool → driver → Prop) s :
  driver_ok live s → (∀ b, (b = false → ∀ k, d_current_kernel s = Some (d_nkern s) →
    d_kernel_mem s !! d_nkern s = Some k → name ∉ kernel_names k) → Φ b s) →
  wp live (_sf_name_taken name) Φ s.
Proof.
  intros Hok H. wp_step. apply wp_current_kernel; [done|intros E; apply wp_ret, H; congruence|].
  intros k Hc Hk.
  assert (Hlive : live = true → kernel_live (d_heap s) k).
  { intros Hl. by eapply (ok_kernel_live live s (KReg (d_nkern s))). }
  apply wp_bind, wp_some; [intros Hl; by destruct (Hlive Hl)|]. intros args Ha.
  destruct (existsb _ args) eqn:E1; [by apply wp_ret, H|].
  apply wp_bind, wp_some; [intros Hl; by destruct (Hlive Hl) as (_ & ? & _)|]. intros outs Ho.
  destruct (existsb _ outs) eqn:E2; [by apply wp_ret, H|].
  assert (Hnew : name ∉ kernel_names k).
  { unfold kernel_names. rewrite Ha, Ho, not_elem_of_app. split; by apply not_taken. }
  assert (Hany : ∀ b, Φ b s) by (intros b; apply H; intros _ k' _ ?; by simplify_eq).
  apply wp_bind, wp_current_hdl; [done|intros _; by apply wp_ret|]. intros p h Hp Hh.
  apply wp_bind, wp_some; [|intros; by apply wp_ret].
  intros Hl. by destruct (ok_hdl_live live s p h Hok Hh Hl) as (_ & ? & _).
Qed.

(** *** Limits of a new argument *)

Definition va_ok (dtype : Z) (va : va_args) : Prop :=
  (check_mode dtype = TPB_PARM_RANGE → ∃ lo hi, va = VaRange lo hi)
  ∧ (check_mode dtype = TPB_PARM_LIST → ∃ n src, va = VaList n src ∧ n ≤ Z.of_nat (length src)).

Lemma range_limits_length tc lo hi old lims : range_limits tc lo hi old = Some lims → length lims = 2%nat.
Proof. unfold range_limits. intros H. by repeat case_match; simplify_eq. Qed.

Lemma list_limits_length tc src old : length (list_limits tc src old) = length src.
Proof. unfold list_limits. repeat case_match; by rewrite ?length_fmap. Qed.

Lemma store_grown s b b' :
  driver_ok live s → live = true →
  heap_grown (d_heap s) (<[d_next s := b']> (<[d_next s := b]> (d_heap s))) (d_next s)
             (Pos.succ (d_next s)).
Proof. intros Hok Hl. rewrite insert_insert_eq. by eapply heap_grown_any. Qed.

Lemma wp_make_lims dtype tc va (Φ : Z * option loc → driver → Prop) s :
  driver_ok live s → (live = true → va_ok dtype va) →
  (∀ nl p h n, (live = true → heap_grown (d_heap s) h (d_next s) n) → lims_ok h nl p →
     driver_ok live (set_heap h n s) → Φ (nl, p) (set_heap h n s)) →
  wp live (make_lims dtype tc va) Φ s.
Proof.
  intros Hok Hva H.
  assert (Hdone : ∀ nl p h n, (live = true → heap_grown (d_heap s) h (d_next s) n) →
            lims_ok h nl p → Φ (nl, p) (set_heap h n s)).
  { intros. apply H; [done..|]. by apply ok_set_heap. }
  assert (Hsame : ∀ nl, Φ (nl, None) s).
  { intros nl. destruct s. apply (Hdone nl None d_heap d_next); [|done].
    intros _. apply heap_grown_refl. }
  wp_steps. destruct (Z.eqb_spec (check_mode dtype) TPB_PARM_RANGE) as [Er|_].
  { destruct va as [|lo hi|n src]; try (apply wp_ub; destruct live; [|done];
      destruct (proj1 (Hva eq_refl) Er) as (? & ? & ?); discriminate).
    apply wp_bind, wp_alloc; [done| |intros ->; by apply wp_bind, wp_ub].
    wp_steps. destruct (range_limits _ _ _ _) as [lims|] eqn:El.
    - apply wp_bind, wp_store, wp_ret, Hdone; [intros Hl; by eapply heap_grown_any|].
      exists lims. rewrite lookup_insert_eq. split; [done|].
      by rewrite (range_limits_length _ _ _ _ _ El).
    - apply wp_fail, ok_set_heap; [done|]. intros Hl. by eapply heap_grown_any. }
  destruct (Z.eqb_spec (check_mode dtype) TPB_PARM_LIST) as [El|_]; [|by apply wp_ret].
  destruct va as [|lo hi|n src]; try (apply wp_ub; destruct live; [|done];
    destruct (proj2 (Hva eq_refl) El) as (? & ? & ? & _); discriminate).
  apply wp_bind, wp_alloc; [done| |].
  - destruct (Z.leb_spec n 0) as [Hn|Hn].
    + apply wp_ret, Hdone; [intros Hl; by eapply heap_grown_any|].
      eexists. rewrite lookup_insert_eq. split; [done|cbn; lia].
    + destruct (Z.leb_spec n (Z.of_nat (length src))) as [Hs|Hs].
      * apply wp_bind, wp_some; [done|]. intros l [= <-].
        apply wp_bind, wp_store, wp_ret, Hdone; [intros Hl; by eapply heap_grown_any|].
        eexists. rewrite lookup_insert_eq. split; [done|].
        rewrite list_limits_length, length_take. lia.
      * apply wp_ub. destruct live; [|done].
        destruct (proj2 (Hva eq_refl) El) as (? & ? & [= <- <-] & ?). lia.
  - intros Hlive. destruct (n <=? 0); [by apply wp_ret|].
    destruct (n <=? _); [apply wp_bind|]; by apply wp_ub.
Qed.

(** The control bits keep the source when the timer's type is filled in. *)
Lemma resolve_source timer dtype :
  Z.land (resolve_timer_type timer dtype).1 TPB_PARM_SOURCE_MASK
  = Z.land dtype TPB_PARM_SOURCE_MASK.
Proof.
  unfold resolve_timer_type. destruct (_ =? _); [|done]. cbn.
  rewrite Z.land_lor_distr_l, <- Z.land_assoc. unfold type_code. rewrite <- Z.land_assoc.
  change (Z.land (Z.lnot TPB_PARM_TYPE_MASK) TPB_PARM_SOURCE_MASK) with TPB_PARM_SOURCE_MASK.
  change (Z.land TPB_PARM_TYPE_MASK TPB_PARM_SOURCE_MASK) with 0.
  by rewrite Z.land_0_r, Z.lor_0_r.
Qed.

Lemma kernel_ok_add_arg k args a :
  kernel_ok k → k_args k = Some args → arg_ok a → arg_name a ∉ kernel_names k →
  kernel_ok (with_args (Some (args ++ [a])) k).
Proof.
  intros (Ha & Ho & Hn) E Hok Hnew. unfold kernel_names in *. rewrite E in *.
  split_and!; [apply Forall_app; split; [done|by apply Forall_singleton]|done|].
  unfold kernel_names. cbn. unfold elems in *. cbn in *. rewrite fmap_app, <- app_assoc.
  change (arg_name <$> [a]) with [arg_name a]. cbn [app].
  apply NoDup_app in Hn as (H1 & H2 & H3). rewrite not_elem_of_app in Hnew.
  apply NoDup_app. split_and!; [done| |].
  - intros x Hx. rewrite elem_of_cons. intros [->|Hx']; [by destruct Hnew|by eapply H2].
  - apply NoDup_cons. split; [by destruct Hnew|done].
Qed.

Lemma kernel_ok_add_out k outs o :
  kernel_ok k → k_outs k = Some outs → out_ok o → out_name o ∉ kernel_names k →
  kernel_ok (with_outs (Some (outs ++ [o])) k).
Proof.
  intros (Ha & Ho & Hn) E Hok Hnew. unfold kernel_names in *. rewrite E in *.
  split_and!; [done|apply Forall_app; split; [done|by apply Forall_singleton]|].
  unfold kernel_names. cbn. unfold elems in *. cbn in *. rewrite fmap_app, app_assoc.
  apply NoDup_app. split_and!; [done| |apply NoDup_singleton].
  intros x Hx ->%list_elem_of_singleton. done.
Qed.

Lemma kernel_ok_lost_args k : kernel_ok k → kernel_ok (with_args (lost (k_args k)) k).
Proof.
  intros (Ha & Ho & Hn). unfold kernel_ok, kernel_names. cbn.
  assert (E : elems (lost (k_args k)) = []) by by destruct (k_args k) as [[]|].
  rewrite E. split_and!; [constructor|done|]. by apply NoDup_app in Hn as (_ & _ & Hn).
Qed.

Lemma kernel_ok_lost_outs k : kernel_ok k → kernel_ok (with_outs (lost (k_outs k)) k).
Proof.
  intros (Ha & Ho & Hn). unfold kernel_ok, kernel_names. cbn.
  assert (E : elems (lost (k_outs k)) = []) by by destruct (k_outs k) as [[]|].
  rewrite E, app_nil_r. split_and!; [done|constructor|]. by apply NoDup_app in Hn as (Hn & _ & _).
Qed.

Lemma keeps_add_arg name tag note dv dtype va s :
  driver_ok live s → is_cstr (default [] tag) → (live = true → va_ok dtype va) →
  keeps (tpb_k_add_arg name tag note dv dtype va) s.
Proof.
  intros Hok Htag Hva. wp_step. apply wp_current_kernel; [done|intros _; by apply wp_fail|].
  intros k Hc Hk. wp_steps. destruct (bool_decide _); [by apply wp_fail|].
  destruct name as [name|], dv as [dv|], note as [note|]; try by apply wp_fail.
  destruct (_sf_validate_header_name (Some name)) eqn:Hv; cbn [negb]; [|by apply wp_fail].
  wp_step. apply wp_name_taken; [done|]. intros taken Hfresh.
  destruct taken; [by apply wp_fail|]. specialize (Hfresh eq_refl k Hc Hk).
  set (sys := if _ =? _ then _ else _).
  destruct (_sf_finalize_role_tags _ _ _ _) as [norm|] eqn:Ht; [|by apply wp_fail].
  assert (Hlive : live = true → kernel_live (d_heap s) k).
  { intros Hl. by eapply (ok_kernel_live live s (KReg (d_nkern s))). }
  pose proof (ok_kernel_ok live s _ k Hok Hk) as Hkok.
  apply wp_bind, wp_some; [intros Hl; by destruct (Hlive Hl)|]. intros args Ea.
  wp_steps. destruct (d_malloc s _) eqn:Em; cbn [negb].
  2:{ apply wp_bind. eapply wp_put_current_kernel; [done..|by apply kernel_ok_lost_args| |by intros; apply wp_fail].
      intros Hl. destruct (ok_memory _ _ Hok Hl). congruence. }
  wp_steps. pose proof (resolve_source (timer_dtype (d_timer s)) dtype) as Hsrc.
  destruct (resolve_timer_type _ _) as [ctrl tc]. cbn in Hsrc.
  destruct (default_value tc dv) as [v|]; [|by apply wp_fail].
  wp_step. apply wp_make_lims; [done..|]. intros nl p h n Hg Hlims Hok'.
  eapply wp_put_current_kernel; [exact Hok'|done|done|done| | |by auto].
  - apply kernel_ok_add_arg; [done..| |].
    + unfold arg_ok. cbn. pose proof (validated_name name Hv) as Hn.
      rewrite cut_name_id by apply Hn. rewrite Hsrc. unfold sys in Ht.
      destruct (Z.eqb_spec (Z.land dtype TPB_PARM_SOURCE_MASK)
                 (Z.land TPB_PARM_ENV TPB_PARM_SOURCE_MASK)) as [He|He].
      * assert (role_tags env_tags (cut_name norm)).
        { eapply stored_tags; [done|by right; right|exact Ht]. }
        split_and!; [done|by apply env_tags_input|done].
      * split_and!; [done| |done]. eapply stored_tags; [done|by left|exact Ht].
    + cbn. rewrite cut_name_id; [done|]. by apply (validated_name name Hv).
  - intros Hl. destruct (Hlive Hl) as (_ & ? & Hargs). split_and!; [by eexists|done|]. cbn.
    rewrite Ea in Hargs. apply Forall_app. split; [|by apply Forall_singleton].
    eapply Forall_impl; [exact Hargs|]. intros a. apply lims_ok_ext. by destruct (Hg Hl).
Qed.

Lemma hdl_ok_outputs h o : hdl_ok h → hdl_ok (with_outputs o h).
Proof. done. Qed.

Lemma keeps_add_output name tag note dtype u s :
  driver_ok live s → is_cstr (default [] tag) → keeps (tpb_k_add_output name tag note dtype u) s.
Proof.
  intros Hok Htag. destruct name as [name|], note as [note|]; try by apply wp_fail. unfold tpb_k_add_output.
  destruct (_sf_validate_header_name (Some name)) eqn:Hv; cbn [negb]; [|by apply wp_fail].
  wp_step. apply wp_name_taken; [done|]. intros taken Hfresh.
  destruct taken; [by apply wp_fail|]. specialize (Hfresh eq_refl).
  destruct (_sf_finalize_role_tags _ _ _ _) as [norm|] eqn:Ht; [|by apply wp_fail].
  wp_step. apply wp_current_hdl; [done| |].
  - intros _. wp_step. apply wp_current_kernel; [done|intros _; by apply wp_fail|]. intros k Hc Hk.
    assert (Hlive : live = true → kernel_live (d_heap s) k).
    { intros Hl. by eapply (ok_kernel_live live s (KReg (d_nkern s))). }
    pose proof (ok_kernel_ok live s _ k Hok Hk) as Hkok.
    apply wp_bind, wp_some; [intros Hl; by destruct (Hlive Hl) as (_ & ? & _)|]. intros outs Eo.
    wp_steps. destruct (d_malloc s _) eqn:Em; cbn [negb].
    + eapply wp_put_current_kernel; [done..| | |by auto].
      * pose proof (validated_name name Hv) as Hn. apply kernel_ok_add_out; [done..| |].
        -- split; cbn; [by rewrite cut_name_id by apply Hn|].
           eapply stored_tags; [done|by right; left|exact Ht].
        -- cbn. rewrite cut_name_id by apply Hn. by apply Hfresh.
      * intros Hl. destruct (Hlive Hl) as (? & _ & ?). split_and!; [done|by eexists|done].
    + apply wp_bind. eapply wp_put_current_kernel; [done..|by apply kernel_ok_lost_outs| |by intros; apply wp_fail].
      intros Hl. destruct (ok_memory _ _ Hok Hl). congruence.
  - intros p h Hp Hh. assert (Hlive : live = true → hdl_live (d_heap s) h) by by apply ok_hdl_live with p.
    apply wp_bind, wp_some; [intros Hl; by destruct (Hlive Hl) as (_ & ? & _)|]. intros outs Eo.
    pose proof (ok_hdl_ok _ _ _ _ Hok Hh) as Hhok.
    wp_steps. destruct (d_malloc s _) eqn:Em; cbn [negb].
    + eapply wp_put_current_hdl; [done..| |by auto]. intros Hl.
      destruct (Hlive Hl) as (? & _ & ? & ?). split_and!; [done|by eexists|done|done].
    + apply wp_bind. eapply wp_put_current_hdl; [done..| |by intros; apply wp_fail].
      intros Hl. destruct (ok_memory _ _ Hok Hl). congruence.
Qed.

Lemma keeps_finalize s : driver_ok live s → keeps tpb_k_finalize_pli s.
Proof.
  intros Hok. wp_steps. destruct (d_current_kernel s) as [i|] eqn:Hc; [|by apply wp_fail].
  apply wp_mod. destruct Hok. destruct (ok_pending i Hc) as [-> Hlen].
  split; try done; cbn; [lia|]. intros Hl. destruct (ok_memory Hl). split; try done. cbn.
  intros _. apply mem_all. right. by eexists.
Qed.

Lemma keeps_set_kernel_id name id s : driver_ok live s → keeps (tpb_driver_set_kernel_id name id) s.
Proof.
  intros Hok. destruct name as [name|], id as [id|]; try by apply wp_fail.
  wp_steps. apply wp_by_name; [done|]. intros r Hr.
  wp_step. apply wp_get_kernel; [done|]. intros k Hk. by eapply wp_put_kernel.
Qed.

Lemma keeps_set_record_ok name ok s :
  driver_ok live s → keeps (tpb_driver_set_kernel_record_ok name ok) s.
Proof.
  intros Hok. destruct name as [name|]; [|by apply wp_fail].
  wp_steps. apply wp_by_name; [done|]. intros r Hr.
  wp_step. apply wp_get_kernel; [done|]. intros k Hk. by eapply wp_put_kernel.
Qed.

(** ** State components that the invariant does not constrain *)

Lemma keeps_set_timer t s : driver_ok live s → keeps (tpb_driver_set_timer t) s.
Proof. intros []. split; try done. intros Hl. by destruct (ok_memory Hl). Qed.

Lemma keeps_dry_run b s : driver_ok live s → keeps (tpb_driver_set_dry_run b) s.
Proof. intros []. split; try done. intros Hl. by destruct (ok_memory Hl). Qed.

Lemma keeps_no_current s : driver_ok live s → driver_ok live (set_current_rthdl None s).
Proof. intros []. split; try done. intros Hl. by destruct (ok_memory Hl). Qed.

Lemma keeps_argp_timer x86 name s : driver_ok live s → keeps (tpb_argp_set_timer x86 name) s.
Proof.
  intros Hok. destruct name as [name|]; [|done]. unfold tpb_argp_set_timer.
  destruct (_ =? _); [by apply wp_propagate, keeps_set_timer|].
  destruct (_ && _); [by apply wp_propagate, keeps_set_timer|done].
Qed.

(** ** Releasing blocks *)

Lemma wp_iter {A} (f : A → D unit) (P : driver → Prop) (l : list A) (Φ : unit → driver → Prop) s :
  (∀ x s, x ∈ l → P s → wp live (f x) (λ _, P) s) → P s → (∀ s, P s → Φ tt s) →
  wp live (d_iter f l) Φ s.
Proof.
  intros Hf Hs H. revert s Hs. induction l as [|x l IH]; intros s Hs; cbn [d_iter].
  - by apply wp_ret, H.
  - apply wp_bind. eapply wp_mono; [apply Hf; [by left|exact Hs]|].
    intros [] s' Hs'. apply IH; [|done]. intros y s'' ?. apply Hf. by right.
Qed.

Lemma keeps_free p s : live = false → driver_ok live s → keeps (d_free p) s.
Proof.
  intros Hl Hok. destruct p as [l|]; [|done]. unfold wp, d_free.
  destruct (d_heap s !! l); [|done]. apply ok_set_heap; [done|]. intros E. by rewrite Hl in E.
Qed.

Lemma keeps_iter_free {A} (f : A → option loc) l s :
  live = false → driver_ok live s → keeps (d_iter (λ x, d_free (f x)) l) s.
Proof.
  intros Hl Hok. apply (wp_iter _ (driver_ok live)); [|done|done].
  intros x s' _. by apply keeps_free.
Qed.

(** ** Copies of kernels *)

Lemma wp_copy_args src done (Φ : option (list tpb_rt_arg) → driver → Prop) s :
  driver_ok live s → (live = true → Forall (arg_live (d_heap s)) src) →
  (∀ r s', driver_ok live s' → Φ r s') → wp live (copy_args done src) Φ s.
Proof.
  intros Hok Hsrc H. revert done s Hok Hsrc.
  induction src as [|a src IH]; intros done s Hok Hsrc; cbn [copy_args]; [by apply wp_ret, H|].
  assert (Hsrc' : live = true → Forall (arg_live (d_heap s)) src).
  { intros Hl. by apply Forall_cons in Hsrc as [_ ?]. }
  destruct (has_lims a) eqn:Ha; [|by apply IH].
  apply wp_bind, wp_alloc; [done| |].
  - apply wp_bind. unfold d_lims, wp. cbn [d_heap set_heap].
    destruct (arg_plims a) as [l|] eqn:El; [|destruct live; [|done]; by unfold has_lims in Ha; rewrite El in Ha].
    assert (Hl : live = true → ∃ lims, <[d_next s := BLims []]> (d_heap s) !! l = Some (BLims lims)
                   ∧ arg_nlims a ≤ Z.of_nat (length lims)).
    { intros Hl. pose proof (Hsrc Hl) as Hs. apply Forall_cons in Hs as [Hs _].
      unfold arg_live, lims_ok in Hs. rewrite El in Hs. destruct Hs as (lims & E & Hn).
      exists lims. split; [|done]. by apply (heap_grown_any live s (BLims []) Hok Hl). }
    destruct (_ !! l) as [[lims|]|]; [|destruct live; [|done]; by destruct (Hl eq_refl) as (? & ? & _)..].
    destruct (Z.leb_spec (arg_nlims a) (Z.of_nat (length lims))) as [Hn|Hn].
    + apply wp_bind, wp_store, IH; [apply ok_set_heap; [done|]; intros; by eapply heap_grown_any|].
      intros Hlive. eapply Forall_impl; [exact (Hsrc' Hlive)|]. intros b. apply lims_ok_ext.
      by apply (heap_grown_any live s _ Hok Hlive).
    + apply wp_ub. destruct live; [|done]. destruct (Hl eq_refl) as (? & [= <-] & ?). lia.
  - intros Hl. apply wp_bind. eapply wp_mono; [by apply keeps_iter_free|]. intros [] s' Hs'.
    by apply wp_ret, H.
Qed.

Lemma wp_deep_copy k (Φ : option tpb_kernel → driver → Prop) s :
  driver_ok live s → (live = true → kernel_live (d_heap s) k) →
  (∀ r s', driver_ok live s' → Φ r s') → wp live (_sf_deep_copy_kernel k) Φ s.
Proof.
  intros Hok Hk H. wp_steps. destruct (d_malloc s _); cbn [negb]; [|by apply wp_ret, H].
  assert (Houts : ∀ args s', driver_ok live s' → wp live (copy_outs k args) Φ s').
  { intros args s' Hok'. unfold copy_outs. destruct (k_outs k) as [[|o l]|]; try by apply wp_ret, H.
    wp_steps. destruct (d_malloc s' _) eqn:Em; cbn [negb]; [by apply wp_ret, H|].
    assert (live = false) as Hl.
    { destruct live; [|done]. destruct (ok_memory _ _ Hok' eq_refl). congruence. }
    apply wp_bind. destruct args as [args|]; [|by apply wp_ret, wp_ret, H].
    eapply wp_mono; [by apply keeps_iter_free|]. intros [] s'' Hs''. by apply wp_ret, H. }
  destruct (k_args k) as [[|a args]|] eqn:Ea; try by apply Houts.
  wp_steps. destruct (d_malloc s _); cbn [negb]; [|by apply wp_ret, H].
  apply wp_bind, wp_copy_args; [done| |].
  - intros Hl. destruct (Hk Hl) as (_ & _ & Ha). by rewrite Ea in Ha.
  - intros [l|] s' Hs'; [by apply Houts|by apply wp_ret, H].
Qed.

Lemma keeps_query id name out s :
  driver_ok live s → keeps (_ ← tpb_query_kernel id name out; mret tt) s.
Proof.
  intros Hok. apply wp_bind. unfold tpb_query_kernel, tpb_get_nkern. wp_steps.
  destruct out as [[k|]|]; try by apply wp_ret, wp_ret.
  assert (Hcopy : ∀ r, is_Some (kernel_at r s) → wp live
            (k ← get_kernel r; copy ← _sf_deep_copy_kernel k; mret (Z.of_nat (d_nkern s), copy))
            (λ a, wp live (mret tt) (λ _, driver_ok live)) s).
  { intros r Hr. apply wp_bind, wp_get_kernel; [done|]. intros k Hk.
    apply wp_bind, wp_deep_copy; [done|intros Hl; by eapply ok_kernel_live|].
    intros c s' Hs'. by apply wp_ret, wp_ret. }
  apply wp_bind. destruct (0 <=? id) eqn:Hid.
  - apply wp_try; [|intros s' Hs'; by apply wp_ret, wp_ret]. unfold _sf_get_kernel_by_index. wp_steps.
    destruct (_ || _) eqn:Hr; [by apply wp_fail|]. apply wp_ret. apply Hcopy.
    cbn. apply lookup_lt_is_Some. pose proof (ok_nkern _ _ Hok).
    apply orb_false_iff in Hr as [_ Hr]. apply Z.leb_gt in Hr. lia.
  - destruct name as [name|]; [|by apply wp_ret, wp_ret, wp_ret].
    apply wp_try; [|intros s' Hs'; by apply wp_ret, wp_ret]. apply wp_by_name; [done|]. exact Hcopy.
Qed.

(** ** Handles *)

Lemma arg_live_decl heap l l' :
  arg_decl <$> l' = arg_decl <$> l → Forall (arg_live heap) l → Forall (arg_live heap) l'.
Proof.
  revert l'. induction l as [|a l IH]; intros [|a' l'] E Hl; try done.
  unfold fmap in E. cbn in E. injection E as E1 E2 E3 E4 E5 E6 E.
  apply Forall_cons in Hl as [Ha Hl]. constructor; [|by apply IH].
  unfold arg_live in *. by rewrite E5, E6.
Qed.

Lemma hdl_ok_args h args :
  hdl_ok h → arg_decl <$> args = arg_decl <$> elems (h_args h) → hdl_ok (with_hargs (Some args) h).
Proof.
  intros [Ha He] E. split; [|done]. cbn. change (elems (Some args)) with args.
  destruct Ha as [Ha|Ha]; [left|right; congruence]. rewrite Ha in E. by destruct args.
Qed.

Lemma hdl_live_args heap h args :
  hdl_live heap h → arg_decl <$> args = arg_decl <$> elems (h_args h) →
  hdl_live heap (with_hargs (Some args) h).
Proof.
  intros (? & ? & ? & Ha) E. split_and!; [by eexists|done|done|]. cbn. by eapply arg_live_decl.
Qed.

Lemma decl_insert_value (args : list tpb_rt_arg) (i : nat) a v :
  args !! i = Some a → arg_decl <$> <[i := with_value v a]> args = arg_decl <$> args.
Proof.
  intros Hi. rewrite list_fmap_insert. apply list_insert_id. by rewrite list_lookup_fmap, Hi.
Qed.

Lemma ok_new_handle s h :
  driver_ok live s → hdl_ok h → (live = true → hdl_live (d_heap s) h) →
  driver_ok live (set_handles (Some (take (d_nhdl s) (elems (d_handle_list s)) ++ [h]))
                    (S (d_nhdl s)) (Z.of_nat (d_nhdl s)) (Some (HList (d_nhdl s))) s).
Proof.
  intros [] Hh Hlive. split; try done; cbn; change (elems (Some ?l)) with l.
  - rewrite length_app, length_take. cbn. lia.
  - lia.
  - intros i [= <-]. lia.
  - apply Forall_app. split; [by apply Forall_take|by apply Forall_singleton].
  - intros Hl. destruct (ok_memory Hl). split; try done. cbn. change (elems (Some ?l)) with l.
    apply Forall_app. split; [by apply Forall_take|apply Forall_singleton; auto].
Qed.

Lemma ok_moved_handles s h :
  live = false → driver_ok live s → hdl_ok h →
  driver_ok live (set_handles (Some (take (d_nhdl s) (elems (d_handle_list s)) ++ [h]))
                    (d_nhdl s) (d_ihdl s)
                    (match d_current_rthdl s with
                     | Some (HList _) => Some HDangling | _ => d_current_rthdl s end) s).
Proof.
  intros -> [] Hh. split; try done; cbn; change (elems (Some ?l)) with l.
  - rewrite length_app, length_take. cbn. lia.
  - intros i. by repeat case_match.
  - apply Forall_app. split; [by apply Forall_take|by apply Forall_singleton].
Qed.

Lemma new_hdl_ok args kernel :
  args = [] ∨ arg_decl <$> args = arg_decl <$> elems (k_args kernel) →
  ∀ outs, hdl_ok (mkHdl (Some args) (Some []) (Some []) outs kernel).
Proof. intros H outs. split; [done|apply NoDup_nil_2]. Qed.

Lemma keeps_append_handle r k s :
  driver_ok live s → kernel_at r s = Some k → keeps (append_handle k) s.
Proof.
  intros Hok Hr. pose proof (ok_kernel_live live s r k Hok Hr) as Hlive.
  wp_steps. destruct (d_malloc s _) eqn:Em; cbn [negb]; [|by apply wp_fail].
  unfold grow_handles. wp_steps. apply wp_some; [intros Hl; by destruct (Hlive Hl)|].
  intros args Ea. set (s1 := set_handles _ _ _ _ s).
  assert (Hfin : wp live (d_mod (set_handles
               (Some (take (d_nhdl s) (default [] (d_handle_list s))
                      ++ [mkHdl (Some args) (Some []) (Some []) (Some []) k]))
               (S (d_nhdl s)) (Z.of_nat (d_nhdl s)) (Some (HList (d_nhdl s)))))
               (λ _, driver_ok live) s1).
  { apply wp_mod. refine (ok_new_handle s _ Hok _ _).
    - apply new_hdl_ok. right. by rewrite Ea.
    - intros Hl. destruct (Hlive Hl) as (_ & _ & Ha). rewrite Ea in Ha.
      split_and!; [by eexists..|done]. }
  destruct (decide (args = [])); [by apply wp_bind, wp_ret|]. apply wp_bind, wp_get.
  cbn [d_malloc set_handles s1]. destruct (d_malloc s (sizeof_rt_arg * _)) eqn:Em2; cbn [negb]; [done|].
  apply wp_fail. assert (live = false) as Hl.
  { destruct live; [|done]. destruct (ok_memory _ _ Hok eq_refl). congruence. }
  apply ok_moved_handles; [done..|]. apply new_hdl_ok. by left.
Qed.

Lemma keeps_add_handle name s : driver_ok live s → keeps (tpb_driver_add_handle name) s.
Proof.
  intros Hok. destruct name as [name|]; [|by apply wp_fail].
  wp_step. apply wp_try; [|intros s' Hs'; by apply wp_fail]. apply wp_by_name; [done|]. intros r Hr.
  wp_step. apply wp_get_kernel; [done|]. intros k Hk.
  assert (H : ∀ c : bool, wp live (if negb c then d_fail TPBE_KERNEL_INCOMPLETE else append_handle k)
                 (λ _, driver_ok live) s).
  { intros []; [|by apply wp_fail]. by apply keeps_append_handle with r. }
  apply wp_bind. destruct (_ =? _); [|by apply wp_ret]. unfold tpb_dl_is_complete. wp_steps. apply H.
Qed.

(** *** Setting up the current handle *)

Lemma wp_running (Φ : tpb_k_rthdl → driver → Prop) s :
  driver_ok live s →
  (∀ p h, d_current_rthdl s = Some p → hdl_at p s = Some h → Φ h s) → wp live running_handle Φ s.
Proof.
  intros Hok H. wp_steps. apply wp_current_hdl; [done| |].
  - intros _. destruct (d_handle_list s); by apply wp_fail.
  - intros p h Hp Hh. destruct (d_handle_list s); [by apply wp_ret, (H p)|by apply wp_fail].
Qed.

Lemma wp_karg_check a v (Φ : unit → driver → Prop) s :
  driver_ok live s → (live = true → arg_live (d_heap s) a) → Φ tt s → wp live (karg_check a v) Φ s.
Proof.
  intros Hok Ha H. unfold karg_check. destruct (_ && _) eqn:E; [|by apply wp_ret].
  apply andb_true_iff in E as [E Hn]. apply andb_true_iff in E as [_ Hp].
  apply Z.eqb_eq in Hn. apply bool_decide_eq_true in Hp as [l Hl].
  apply wp_bind. unfold wp, d_lims. rewrite Hl.
  assert (Hlims : live = true → ∃ x y lims, d_heap s !! l = Some (BLims (x :: y :: lims))).
  { intros Hlive. specialize (Ha Hlive). unfold arg_live, lims_ok in Ha. rewrite Hl, Hn in Ha.
    destruct Ha as ([|x [|y lims]] & E & Hlen); cbn in Hlen; [lia|lia|by eauto]. }
  destruct (d_heap s !! l) as [[lims|]|];
    [|destruct live; [|done]; destruct (Hlims eq_refl) as (? & ? & ? & ?); done..].
  apply wp_bind, wp_some.
  { intros Hlive. destruct (Hlims Hlive) as (? & ? & ? & [= ->]). by eexists. }
  intros lo _. apply wp_bind, wp_some.
  { intros Hlive. destruct (Hlims Hlive) as (? & ? & ? & [= ->]). by eexists. }
  intros hi _. destruct (karg_out_of_range _ _ _ _); [by apply wp_fail|by apply wp_ret].
Qed.

Lemma find_index_lookup {A} (p : A → bool) l i :
  find_index p l = Some i → ∃ x, l !! i = Some x ∧ p x = true ∧ Forall (λ y, p y = false) (take i l).
Proof.
  revert i. induction l as [|x l IH]; intros i E; cbn in E; [done|].
  destruct (p x) eqn:Hx; [injection E as <-; exists x; split_and!; [done..|constructor]|].
  destruct (find_index p l) as [j|]; [|done]. injection E as <-.
  destruct (IH j eq_refl) as (y & ? & ? & ?). exists y. split_and!; [done..|]. by constructor.
Qed.

Lemma find_index_None {A} (p : A → bool) l :
  find_index p l = None ↔ existsb p l = false.
Proof.
  induction l as [|x l IH]; cbn; [done|]. destruct (p x); cbn; [done|].
  rewrite <- IH. by destruct (find_index p l).
Qed.

Lemma keeps_set_hdl_karg name v s : driver_ok live s → keeps (tpb_driver_set_hdl_karg name v) s.
Proof.
  intros Hok. destruct name as [name|], v as [v|]; try by apply wp_fail.
  wp_step. apply wp_running; [done|]. intros p h Hp Hh.
  pose proof (ok_hdl_live live s p h Hok Hh) as Hlive. pose proof (ok_hdl_ok _ _ _ _ Hok Hh) as Hhok.
  apply wp_bind, wp_some; [intros Hl; by destruct (Hlive Hl)|]. intros args Ea.
  destruct (find_index _ args) as [i|] eqn:Ei; [|by apply wp_fail].
  destruct (find_index_lookup _ _ _ Ei) as (a & Hi & _).
  apply wp_bind, wp_some; [by intros; eexists|]. intros a' Ha'. simplify_eq. wp_steps.
  destruct (parse_value _ _ _) as [v'|]; [|done].
  apply wp_bind, wp_karg_check; [done| |].
  { intros Hl. destruct (Hlive Hl) as (_ & _ & _ & Hargs). rewrite Ea in Hargs.
    by eapply (Forall_lookup_1 _ args). }
  assert (Hd : arg_decl <$> <[i := with_value v' a]> args = arg_decl <$> elems (h_args h)).
  { rewrite Ea. by apply decl_insert_value. }
  eapply wp_put_current_hdl; [done..|by apply hdl_ok_args| |done].
  intros Hl. apply hdl_live_args; [by apply Hlive|done].
Qed.

Lemma keeps_set_hdl_env name v s :
  driver_ok live s → (length (default [] name) < TPBM_NAME_STR_MAX_LEN)%nat →
  keeps (tpb_driver_set_hdl_env name v) s.
Proof.
  intros Hok Hlen. destruct name as [name|], v as [v|]; try by apply wp_fail.
  wp_step. apply wp_running; [done|]. intros p h Hp Hh.
  pose proof (ok_hdl_live live s p h Hok Hh) as Hlive. pose proof (ok_hdl_ok _ _ _ _ Hok Hh) as [Hd Hnd].
  apply wp_bind, wp_some; [intros Hl; by destruct (Hlive Hl) as (_ & _ & ? & _)|]. intros envs Ee.
  rewrite Ee in Hnd. change (elems (Some envs)) with envs in Hnd.
  assert (Hput : ∀ envs', NoDup (Driver.env_name <$> envs') →
            keeps (put_current_hdl (with_envs (Some envs') h)) s).
  { intros envs' Hnd'. eapply wp_put_current_hdl; [done..| |done].
    intros Hl. destruct (Hlive Hl) as (? & ? & _ & ?). split_and!; [done|done|by eexists|done]. }
  destruct (find_index _ envs) as [i|] eqn:Ei.
  - destruct (find_index_lookup _ _ _ Ei) as (e & Hi & _).
    apply wp_bind, wp_some; [by intros; eexists|]. intros e' He'. simplify_eq. apply Hput.
    rewrite list_fmap_insert, list_insert_id; [done|]. by rewrite list_lookup_fmap, Hi.
  - wp_steps. destruct (d_malloc s _); cbn [negb]; [|by apply wp_fail]. apply Hput.
    rewrite fmap_app. apply NoDup_app. split_and!; [done| |apply NoDup_singleton].
    intros x Hx ->%list_elem_of_singleton. revert Hx. cbn. rewrite cut_name_id by done.
    apply not_taken, find_index_None, Ei.
Qed.

Lemma wp_dup_links keep links (Φ : option (list tpb_wrapper_link) → driver → Prop) s :
  (∀ r, Φ r s) → wp live (dup_links keep links) Φ s.
Proof.
  revert Φ. induction links as [|l links IH]; intros Φ H; cbn [dup_links]; [by apply wp_ret|].
  assert (Hrest : wp live (rest ← dup_links keep links;
      mret (cons (mkLink (cut_name (link_app l))
                         (if keep (link_args l) then link_args l else None)) <$> rest)) Φ s).
  { apply wp_bind, IH. intros r. apply wp_ret, H. }
  apply wp_bind. destruct (link_args l) as [a|]; [|by apply wp_ret].
  destruct (keep (Some a)); [|by apply wp_ret]. apply wp_get.
  destruct (d_malloc s _); [done|by apply wp_ret].
Qed.

Lemma wp_set_wrappers_on p links n s :
  driver_ok live s → (live = true → is_Some (hdl_at p s)) →
  (live = true → n ≤ Z.of_nat (length (default [] links))) →
  keeps (_sf_set_hdl_wrappers_on p links n) s.
Proof.
  intros Hok Hp Hn.
  assert (Hins : ∀ l, keeps (h ← get_hdl p; put_hdl p (with_links (Some l) h)) s).
  { intros l. apply wp_bind, wp_get_hdl; [done|]. intros h Hh.
    assert (driver_ok live (put_hdl_state p (with_links (Some l) h) s)).
    { apply ok_put_hdl; [done|exact (ok_hdl_ok _ _ _ _ Hok Hh)|].
      intros Hl. exact (ok_hdl_live _ _ _ _ Hok Hh Hl). }
    apply wp_put_hdl; [|done..]. intros Hl ->. by destruct (Hp Hl). }
  unfold _sf_set_hdl_wrappers_on. destruct links as [links|]; [|by apply Hins].
  destruct (Z.ltb_spec 0 n); [|by apply Hins]. wp_steps.
  destruct (d_malloc s _); cbn [negb]; [|by apply wp_fail].
  destruct (Z.leb_spec n (Z.of_nat (length links))) as [Hle|Hgt].
  - apply wp_bind, wp_dup_links. intros [l|]; [by apply Hins|by apply wp_fail].
  - apply wp_ub. destruct live; [|done]. specialize (Hn eq_refl). cbn in Hn. lia.
Qed.

Lemma keeps_set_wrappers links n s :
  driver_ok live s → (live = true → n ≤ Z.of_nat (length (default [] links))) →
  keeps (tpb_driver_set_hdl_wrappers links n) s.
Proof.
  intros Hok Hn. wp_steps. destruct (d_handle_list s); [|by apply wp_fail].
  destruct (d_current_rthdl s) as [p|] eqn:Hp; [|by apply wp_fail].
  apply wp_set_wrappers_on; [done| |done]. intros Hl. by apply (ok_current_hdl (live := live)).
Qed.

Lemma keeps_set_wrappers_idx i links n s :
  driver_ok live s → (live = true → n ≤ Z.of_nat (length (default [] links))) →
  keeps (tpb_driver_set_hdl_wrappers_idx i links n) s.
Proof.
  intros Hok Hn. wp_step. wp_step. destruct (d_handle_list s) as [hs|] eqn:Eh; [|by apply wp_fail].
  wp_steps. destruct (_ || _) eqn:Hi; [by apply wp_fail|].
  apply wp_set_wrappers_on; [done| |done]. intros _. cbn. rewrite Eh.
  apply orb_false_iff in Hi as [H0 Hi]. apply Z.leb_gt in Hi. apply Z.ltb_ge in H0.
  pose proof (ok_nhdl _ _ Hok) as Hle. rewrite Eh in Hle. apply lookup_lt_is_Some. lia.
Qed.

Lemma copy_values_decl cur src : arg_decl <$> copy_values cur src = arg_decl <$> cur.
Proof.
  unfold copy_values. apply list_eq. intros i. rewrite !list_lookup_fmap, list_lookup_imap.
  destruct (cur !! i) as [a|]; [|done]. unfold fmap. cbn -[Nat.ltb]. f_equal.
  destruct (i <? _)%nat; [|done]. by destruct (find _ src).
Qed.

Lemma wp_wrapperpack_copy src (Φ : list tpb_wrapper_link * bool → driver → Prop) s :
  (∀ r, Φ r s) → wp live (_sf_wrapperpack_copy src) Φ s.
Proof.
  intros H. destruct src as [[|l links]|]; try by apply wp_ret, H.
  wp_steps. destruct (d_malloc s _); cbn [negb]; [|by apply wp_ret].
  apply wp_bind, wp_dup_links. intros [r|]; by apply wp_ret.
Qed.

(** The source is not the current handle itself. *)
Definition copy_ok (s : driver) (src_idx : Z) : Prop :=
  d_current_rthdl s ≠ Some (HList (Z.to_nat src_idx)).

Lemma keeps_copy_hdl_from i s :
  driver_ok live s → (live = true → copy_ok s i) → keeps (tpb_driver_copy_hdl_from i) s.
Proof.
  intros Hok Hself. wp_steps. destruct (d_handle_list s) as [hs|] eqn:Eh; [|by apply wp_fail].
  destruct (d_current_rthdl s) as [p|] eqn:Hp; [|by apply wp_fail].
  wp_steps. destruct (_ || _) eqn:Hi; [by apply wp_fail|]. set (same := match p with HList _ => _ | _ => _ end).
  assert (Hat : is_Some (hdl_at (HList (Z.to_nat i)) s)).
  { cbn. rewrite Eh. apply orb_false_iff in Hi as [H0 Hi]. apply Z.leb_gt in Hi. apply Z.ltb_ge in H0.
    pose proof (ok_nhdl _ _ Hok) as Hle. rewrite Eh in Hle. apply lookup_lt_is_Some. lia. }
  assert (Hpl : live = true → is_Some (hdl_at p s)) by (intros; by apply (ok_current_hdl (live := live))).
  apply wp_bind, wp_get_hdl; [done|]. intros src Hsrc.
  apply wp_bind, wp_get_hdl; [done|]. intros h Hh.
  pose proof (ok_hdl_live live s p h Hok Hh) as Hlive. pose proof (ok_hdl_ok _ _ _ _ Hok Hh) as Hhok.
  pose proof (ok_hdl_live live s _ src Hok Hsrc) as Hslive.
  pose proof (ok_hdl_ok _ _ _ _ Hok Hsrc) as [_ Hsnd].
  apply wp_bind, wp_some; [intros Hl; by destruct (Hslive Hl)|]. intros sargs _.
  apply wp_bind, wp_some; [intros Hl; by destruct (Hlive Hl)|]. intros args Ea.
  set (h1 := with_hargs _ h).
  assert (Hd : arg_decl <$> copy_values args sargs = arg_decl <$> elems (h_args h)).
  { rewrite Ea. apply copy_values_decl. }
  assert (Hok1 : hdl_ok h1) by by apply hdl_ok_args.
  assert (Hlive1 : live = true → hdl_live (d_heap s) h1).
  { intros Hl. apply hdl_live_args; [by apply Hlive|done]. }
  assert (Hput : ∀ h s', driver_ok live s' → d_heap s' = d_heap s → hdl_ok h →
            (live = true → hdl_live (d_heap s) h) → ∀ Φ : unit → driver → Prop,
            (∀ s'', driver_ok live s'' → d_heap s'' = d_heap s → Φ tt s'') →
            wp live (put_hdl p h) Φ s').
  { intros h' s' Hs' Ehp Hh' Hl' Φ HΦ. assert (driver_ok live (put_hdl_state p h' s')).
    { apply ok_put_hdl; [done|done|]. by rewrite Ehp. }
    apply wp_put_hdl; [|done|].
    - intros Hl ->. by destruct (Hpl Hl).
    - apply HΦ; [done|]. by destruct p. }
  apply wp_bind, Hput; [done..|]. intros s1 Hs1 E1.
  (* the environment, then the wrappers *)
  assert (Hrest : ∀ h2 s2, driver_ok live s2 → d_heap s2 = d_heap s → hdl_ok h2 →
            (live = true → hdl_live (d_heap s) h2) →
            keeps (_ ← put_hdl p h2;
                   copy ← _sf_wrapperpack_copy (if same then Some [] else h_links src);
                   _ ← put_hdl p (with_links (Some copy.1) h2);
                   if (copy.2 : bool) then mret tt
                   else d_propagate TPB_MOD_DRIVER (d_fail TPBE_MALLOC_FAIL)) s2).
  { intros h2 s2 Hs2 E2 Hh2 Hl2. apply wp_bind, Hput; [done..|]. intros s3 Hs3 E3.
    apply wp_bind, wp_wrapperpack_copy. intros [links ok]. apply wp_bind, Hput; [done..|].
    intros s4 Hs4 E4. cbn. destruct ok; [by apply wp_ret|by apply wp_propagate, wp_fail]. }
  apply wp_bind. destruct (h_envs src) as [[|e envs]|] eqn:Eenv; try by apply wp_ret, Hrest.
  wp_steps. destruct (d_malloc s1 _) eqn:Em; cbn [negb].
  - destruct same eqn:Es.
    + apply wp_ub. destruct live; [|done]. destruct (Hself eq_refl). unfold same in Es.
      destruct p as [j| |]; try done. apply Nat.eqb_eq in Es as ->. done.
    + apply wp_ret, Hrest; [done|done| |].
      * split; [apply Hok1|exact Hsnd].
      * intros Hl. destruct (Hlive1 Hl) as (? & ? & _ & ?). split_and!; [done|done|by eexists|done].
  - assert (live = false) as Hl.
    { destruct live; [|done]. destruct (ok_memory _ _ Hs1 eq_refl). congruence. }
    apply wp_bind, Hput; [done|done| |by rewrite Hl|by intros; apply wp_fail].
    split; [apply Hok1|]. cbn. assert (elems (lost (h_envs h)) = []) as ->; [|apply NoDup_nil_2].
    by destruct (h_envs h) as [[]|].
Qed.

Lemma keeps_set_kargs tokens n s : driver_ok live s → keeps (_ ← set_kargs_loop tokens n; mret tt) s.
Proof.
  intros Hok. apply wp_bind. revert n s Hok.
  induction tokens as [|t tokens IH]; intros n s Hok; cbn [set_kargs_loop]; [by apply wp_ret, wp_ret|].
  destruct (_sf_trim_whitespace t) as [|c w]; [done|].
  destruct (split_karg (c :: w)) as [[[|x key] [|y value]]|]; try done.
  apply wp_bind, wp_propagate. eapply wp_mono; [by apply keeps_set_hdl_karg|].
  intros [] s' Hs'. by apply IH.
Qed.

Lemma keeps_set_kargs_tokstr tokstr s :
  driver_ok live s → keeps (_ ← tpb_argp_set_kargs_tokstr tokstr; mret tt) s.
Proof. intros Hok. destruct tokstr as [t|]; [by apply keeps_set_kargs|done]. Qed.

Lemma keeps_alloc_output name n ptr s :
  driver_ok live s → keeps (_ ← tpb_k_alloc_output name n ptr; mret tt) s.
Proof.
  intros Hok. apply wp_bind. wp_step. apply wp_current_hdl; [done|intros _; by apply wp_fail|].
  intros p h Hp Hh. destruct name as [name|]; [|by apply wp_fail]. destruct ptr; [|by apply wp_fail].
  pose proof (ok_hdl_live live s p h Hok Hh) as Hlive. pose proof (ok_hdl_ok _ _ _ _ Hok Hh) as Hhok.
  apply wp_bind, wp_some; [intros Hl; by destruct (Hlive Hl) as (_ & ? & _)|]. intros outs Eo.
  apply wp_bind, wp_get, wp_bind. set (outs1 := timer_units _ <$> outs).
  assert (Hput : ∀ o s', driver_ok live s' → d_current_rthdl s' = Some p →
            (live = true → heap_ext (d_heap s) (d_heap s')) → ∀ Φ : unit → driver → Prop,
            (∀ s'', driver_ok live s'' → d_current_rthdl s'' = Some p → d_heap s'' = d_heap s' →
                    Φ tt s'') →
            wp live (put_current_hdl (with_outputs (Some o) h)) Φ s').
  { intros o s' Hs' Hp' Hx Φ HΦ. eapply wp_put_current_hdl; [done..| |].
    - intros Hl. destruct (Hlive Hl) as (? & _ & ? & ?). split_and!; [done|by eexists|done|].
      eapply Forall_impl; [done|]. intros a. apply lims_ok_ext. auto.
    - intros s'' -> Hs''. apply HΦ; [done| |]; by destruct p. }
  apply Hput; [done|done|by intros _ ? ?|]. intros s1 Hs1 Hp1 E1.
  destruct (find_index _ outs1) as [i|] eqn:Ei; [|by apply wp_fail].
  destruct (find_index_lookup _ _ _ Ei) as (o & Ho & _).
  apply wp_bind, wp_some; [by intros; eexists|]. intros o' Ho'.
  apply wp_bind, wp_try; [|by intros; apply wp_fail]. unfold tpb_dtype_elem_size.
  destruct (elem_size_of _) as [sz|]; [|by apply wp_fail]. apply wp_ret.
  apply wp_bind, wp_alloc; [done| |].
  - apply wp_bind, Hput; [|done| |by intros; apply wp_ret, wp_ret].
    + apply ok_set_heap; [done|]. intros. by eapply heap_grown_any.
    + intros Hl. rewrite <- E1. by apply (heap_grown_any live s1 _ Hs1 Hl).
  - intros Hl. apply wp_bind, Hput; [done|done| |by intros; apply wp_fail]. by rewrite Hl.
Qed.

Lemma ok_set_caller s h :
  driver_ok live s → hdl_ok h → (live = true → hdl_live (d_heap s) h) →
  driver_ok live (set_caller h s).
Proof. apply (ok_put_hdl live s HCaller). Qed.

Lemma ok_current_caller s : driver_ok live s → driver_ok live (set_current_rthdl (Some HCaller) s).
Proof. intros []. split; try done. intros Hl. by destruct (ok_memory Hl). Qed.

Lemma imap_decl (f : nat → tpb_rt_arg → Z) args :
  arg_decl <$> imap (λ i a, with_value (f i a) a) args = arg_decl <$> args.
Proof.
  apply list_eq. intros i. rewrite !list_lookup_fmap, list_lookup_imap. by destruct (args !! i).
Qed.

Lemma keeps_build_handle hdl argv s :
  driver_ok live s → keeps (tpb_k_pli_build_handle hdl argv) s.
Proof.
  intros Hok. unfold tpb_k_pli_build_handle. destruct hdl; cbn [negb]; [|by apply wp_fail].
  assert (Hcaller : ∀ h s', driver_ok live s' → d_heap s' = d_heap s → hdl_ok h →
            (live = true → hdl_live (d_heap s) h) → driver_ok live (set_caller h s')).
  { intros h s' Hs' E Hh Hl. apply ok_set_caller; [done..|]. by rewrite E. }
  assert (Hnew : ∀ args outs k, args = [] ∨ arg_decl <$> args = arg_decl <$> elems (k_args k) →
            (live = true → kernel_live (d_heap s) k) →
            hdl_ok (mkHdl (Some args) (Some []) (Some []) (Some outs) k)
            ∧ (live = true → hdl_live (d_heap s) (mkHdl (Some args) (Some []) (Some []) (Some outs) k))).
  { intros args outs k Ha Hk. split; [by apply new_hdl_ok|]. intros Hl.
    split_and!; [by eexists..|]. change (elems _) with args. destruct Ha as [->|Ha]; [constructor|].
    destruct (Hk Hl) as (_ & _ & Hk'). by eapply arg_live_decl. }
  wp_step. wp_step. set (s0 := set_caller hdl0 s).
  assert (Hs0 : driver_ok live s0).
  { apply Hcaller; [done..| |]; [|intros _]; by repeat split; try apply NoDup_nil_2; eauto. }
  wp_steps. destruct (negb _ || _) eqn:En; [by apply wp_fail|].
  apply wp_bind. apply orb_false_iff in En as [_ En]. apply Nat.eqb_neq in En. cbn in En.
  apply wp_get_kernel.
  { intros _. cbn. apply lookup_lt_is_Some. pose proof (ok_nkern _ _ Hok). lia. }
  intros k Hk. cbn in Hk.
  assert (Hklive : live = true → kernel_live (d_heap s) k).
  { intros Hl. by apply (ok_kernel_live live s (KReg (pred (d_nkern s)))). }
  wp_steps. set (s1 := set_caller _ s0).
  assert (Hs1 : driver_ok live s1) by (by apply Hcaller; [..|apply Hnew; auto|apply Hnew; auto]).
  apply wp_some; [intros Hl; by destruct (Hklive Hl)|]. intros args Ea.
  assert (Hgo : wp live (let args := imap (λ i a, with_value (argv_value argv i a) a) args in
        _ ← d_mod (set_caller (mkHdl (Some args) (Some []) (Some []) (Some []) k));
        timer ← d_get d_timer;
        match k_outs k with
        | Some ((_ :: _) as outs) =>
            ok ← d_malloc_ok (sizeof_k_output * Z.of_nat (length outs));
            if negb ok then d_fail TPBE_MALLOC_FAIL
            else
              let outs := pli_output (timer_unit timer) <$> outs in
              _ ← d_mod (set_caller (mkHdl (Some args) (Some []) (Some []) (Some outs) k));
              d_mod (set_current_rthdl (Some HCaller))
        | _ => d_mod (set_current_rthdl (Some HCaller))
        end) (λ _, driver_ok live) s1).
  { pose proof (imap_decl (argv_value argv) args) as Hd. cbn zeta.
    set (args' := imap _ args) in *.
    assert (Ha : args' = [] ∨ arg_decl <$> args' = arg_decl <$> elems (k_args k)).
    { right. by rewrite Ea. }
    wp_steps. set (s2 := set_caller _ s1).
    assert (Hs2 : driver_ok live s2) by (by apply Hcaller; [..|apply Hnew|apply Hnew]).
    destruct (k_outs k) as [[|o outs]|]; try by apply wp_mod, ok_current_caller.
    wp_steps. destruct (d_malloc s2 _); cbn [negb]; [|by apply wp_fail].
    wp_steps. apply ok_current_caller. by apply Hcaller; [..|apply Hnew|apply Hnew]. }
  destruct (decide (args = [])); [by apply wp_bind, wp_ret|]. apply wp_bind, wp_get.
  destruct (d_malloc s1 _); cbn [negb]; [done|by apply wp_fail].
Qed.

(** ** Releases *)

Lemma keeps_clean_handle p s :
  live = false → driver_ok live s → keeps (tpb_driver_clean_handle p) s.
Proof.
  intros Hl Hok. destruct p as [p|]; [|by apply wp_fail].
  wp_step. apply wp_get_hdl; [by rewrite Hl|]. intros h Hh.
  apply wp_bind. apply wp_bind, wp_some; [by rewrite Hl|]. intros outs _.
  apply wp_bind. eapply wp_mono; [by apply keeps_iter_free|]. intros [] s1 Hs1.
  assert (Hput : ∀ s2, driver_ok live s2 →
    wp live (mret (mkHdl (Some []) (Some []) (Some []) (Some []) (h_kernel h)))
       (λ h', wp live (put_hdl p h') (λ _, driver_ok live)) s2).
  { intros s2 Hs2. apply wp_ret. assert (driver_ok live (put_hdl_state p
      (mkHdl (Some []) (Some []) (Some []) (Some []) (h_kernel h)) s2)).
    { apply ok_put_hdl; [done|apply new_hdl_ok; by left|]. by rewrite Hl. }
    apply wp_put_hdl; [by rewrite Hl|done..]. }
  apply wp_bind. destruct (h_args h) as [args|]; [|by apply wp_ret, Hput].
  eapply wp_mono; [by apply keeps_iter_free|]. intros [] s2 Hs2. by apply Hput.
Qed.

Lemma keeps_reset s : live = false → driver_ok live s → keeps tpb_driver_reset_handles s.
Proof.
  intros Hl Hok. wp_steps. destruct (d_handle_list s); [|by apply wp_ret].
  destruct (_ =? _)%nat; [by apply wp_ret|]. apply wp_bind.
  apply (wp_iter _ (driver_ok live)); [|done|].
  - intros i s' _ Hs'. by apply keeps_clean_handle.
  - intros s' []. apply wp_mod. split; try done; try lia. by rewrite Hl.
Qed.

Lemma keeps_clear s : live = false → driver_ok live s → keeps _sf_clear_kernel_registry s.
Proof.
  intros Hl Hok.
  assert (Hmem : ∀ s' b mem, driver_ok live s' → mem = [] ∨ mem = d_kernel_mem s' →
            driver_ok live (set_kernels b mem 0 None s')).
  { intros s' b mem [] Hm. split; try done; cbn; [lia| | |by rewrite Hl].
    - destruct Hm as [->| ->]; [apply NoDup_nil_2|done].
    - destruct Hm as [->| ->]; [constructor|done]. }
  wp_steps. destruct (d_kernel_all s); [|apply wp_mod, Hmem; auto].
  wp_step. apply wp_registered; [done|]. apply wp_bind, (wp_iter _ (driver_ok live)); [|done|].
  - intros k s' _ Hs'. apply wp_bind. apply wp_bind.
    destruct (k_args k) as [args|]; [|by apply wp_ret, wp_ret, wp_ret].
    eapply wp_mono; [by apply keeps_iter_free|]. intros [] s2 Hs2. by apply wp_ret, wp_ret.
  - intros s' Hs'. apply wp_mod, Hmem; auto.
Qed.

End Calls.

Lemma keeps_register_common live s :
  driver_ok live s → wp live tpb_register_common (λ _, driver_ok live) s.
Proof.
  intros Hok. destruct live.
  - destruct (ok_memory _ _ Hok eq_refl) as [Hm _ _ _ _ _ _ _].
    unfold wp, tpb_register_common, set_common_args, d_malloc_ok, d_alloc, d_get, d_mod, mbind, D_bind.
    repeat first [rewrite Hm | progress cbn [d_malloc set_common set_heap negb d_heap d_next]].
    set (n := d_next s). set (h := d_heap s).
    set (h1 := <[n := BLims [1; 100000]]> h). set (h2 := <[Pos.succ n := BLims [0; 10000]]> h1).
    set (h3 := <[Pos.succ (Pos.succ n) := BLims [strtod $"0.0009765625"; DBL_MAX]]> h2).
    assert (Hg : heap_grown h h3 n (Pos.succ (Pos.succ (Pos.succ n)))).
    { eapply heap_grown_trans; [apply (heap_grown_any true s (BLims [1; 100000]) Hok eq_refl)|].
      assert (Hf : ∀ l, is_Some (h1 !! l) → (l < Pos.succ n)%positive).
      { apply (heap_grown_any true s (BLims [1; 100000]) Hok eq_refl).
        by destruct (ok_memory _ _ Hok eq_refl). }
      assert (Hg2 : heap_grown h1 h2 (Pos.succ n) (Pos.succ (Pos.succ n))) by by apply heap_grown_alloc.
      eapply heap_grown_trans; [exact Hg2|]. apply heap_grown_alloc. by apply Hg2. }
    apply (ok_set_common true (set_heap h3 (Pos.succ (Pos.succ (Pos.succ n))) s)).
    + by apply ok_set_heap.
    + intros _. split_and!; [by eexists..|].
      repeat apply Forall_cons_2; [..|constructor];
        unfold arg_live, lims_ok, h3, h2, h1; cbn -[insert lookup];
        rewrite ?lookup_insert_eq, ?lookup_insert_ne, ?lookup_insert_eq by lia;
        eexists; (split; [done|cbn; lia]).
  - assert (Hc : ∀ c s, driver_ok false s → driver_ok false (set_common c s)).
    { intros c s' Hs'. by apply ok_set_common. }
    assert (Ha : ∀ sz b Φ s, driver_ok false s → (∀ p s', driver_ok false s' → Φ p s') →
              wp false (d_alloc sz b) Φ s).
    { intros sz b Φ s' Hs' H. apply wp_alloc; [done|apply H; by apply ok_set_heap|intros _; by apply H]. }
    unfold tpb_register_common, set_common_args. wp_steps.
    case_match; [apply wp_fail; by apply Hc|]. wp_steps.
    apply Ha; [by repeat apply Hc|]. intros [p0|] s1 Hs1; [|by apply wp_fail]. wp_steps.
    apply Ha; [by apply Hc|]. intros [p1|] s2 Hs2.
    2:{ apply wp_bind. eapply wp_mono; [by apply keeps_free|]. intros [] s' Hs'. by apply wp_fail. }
    wp_steps. apply Ha; [by apply Hc|]. intros [p2|] s3 Hs3; [by apply wp_mod, Hc|].
    apply wp_bind. eapply wp_mono; [by apply keeps_free|]. intros [] s' Hs'.
    apply wp_bind. eapply wp_mono; [by apply keeps_free|]. intros [] s'' Hs''. by apply wp_fail.
Qed.

(** ** Calls and reachable states *)

(** The functions of the driver's interface with their arguments.  The last three
    release limits: [tpb_driver_clean_handle], [tpb_driver_reset_handles], and the
    clearing of the registry when it is built again. *)
Inductive call :=
  | CRegisterCommon
  | CRegister (name note : option bytes) (kctrl : Z)
  | CAddArg (name tag note default_val : option bytes) (dtype : Z) (va : va_args)
  | CAddOutput (name tag note : option bytes) (dtype u : Z)
  | CFinalize
  | CSetKernelId (name id : option bytes)
  | CSetRecordOk (name : option bytes) (ok : Z)
  | CQuery (id : Z) (name : option bytes) (out : option (option tpb_kernel))
  | CSetTimer (x86 : bool) (name : option bytes)
  | CDryRun (enabled : Z)
  | CEnableReg
  | CDisableReg
  | CAddHandle (name : option bytes)
  | CSetKarg (name value : option bytes)
  | CSetKargs (tokstr : option bytes)
  | CSetEnv (name value : option bytes)
  | CSetWrappers (links : option (list tpb_wrapper_link)) (nlinks : Z)
  | CSetWrappersIdx (idx : Z) (links : option (list tpb_wrapper_link)) (nlinks : Z)
  | CCopyFrom (idx : Z)
  | CBuildHandle (handle : bool) (argv : list bytes)
  | CAllocOutput (name : option bytes) (n : Z) (ptr : bool)
  | CCleanHandle (hdl : option hptr)
  | CResetHandles
  | CClearRegistry.

Definition run_call (c : call) : D unit :=
  match c with
  | CRegisterCommon => tpb_register_common
  | CRegister name note kctrl => tpb_k_register name note kctrl
  | CAddArg name tag note dv dtype va => tpb_k_add_arg name tag note dv dtype va
  | CAddOutput name tag note dtype u => tpb_k_add_output name tag note dtype u
  | CFinalize => tpb_k_finalize_pli
  | CSetKernelId name id => tpb_driver_set_kernel_id name id
  | CSetRecordOk name ok => tpb_driver_set_kernel_record_ok name ok
  | CQuery id name out => _ ← tpb_query_kernel id name out; mret tt
  | CSetTimer x86 name => tpb_argp_set_timer x86 name
  | CDryRun b => tpb_driver_set_dry_run b
  | CEnableReg => tpb_driver_enable_kernel_reg
  | CDisableReg => tpb_driver_disable_kernel_reg
  | CAddHandle name => tpb_driver_add_handle name
  | CSetKarg name value => tpb_driver_set_hdl_karg name value
  | CSetKargs tokstr => _ ← tpb_argp_set_kargs_tokstr tokstr; mret tt
  | CSetEnv name value => tpb_driver_set_hdl_env name value
  | CSetWrappers links n => tpb_driver_set_hdl_wrappers links n
  | CSetWrappersIdx idx links n => tpb_driver_set_hdl_wrappers_idx idx links n
  | CCopyFrom idx => tpb_driver_copy_hdl_from idx
  | CBuildHandle handle argv => tpb_k_pli_build_handle handle argv
  | CAllocOutput name n ptr => _ ← tpb_k_alloc_output name n ptr; mret tt
  | CCleanHandle hdl => tpb_driver_clean_handle hdl
  | CResetHandles => tpb_driver_reset_handles
  | CClearRegistry => _sf_clear_kernel_registry
  end.

(** Tags are C strings and environment variables have names that fit. *)
Definition call_args (c : call) : Prop :=
  match c with
  | CAddArg _ tag _ _ _ _ | CAddOutput _ tag _ _ _ => is_cstr (default [] tag)
  | CSetEnv name _ => (length (default [] name) < TPBM_NAME_STR_MAX_LEN)%nat
  | _ => True
  end.

(** What a caller owes for defined behaviour: names and notes that fit, variadic
    arguments that match the type, arrays as long as announced, a copy from
    another handle, and no release. *)
Definition call_safe (s : driver) (c : call) : Prop :=
  call_args c ∧
  match c with
  | CRegister name note _ => register_args_ok note name
  | CAddArg _ _ _ _ dtype va => va_ok dtype va
  | CSetWrappers links n | CSetWrappersIdx _ links n => n ≤ Z.of_nat (length (default [] links))
  | CCopyFrom idx => copy_ok s idx
  | CCleanHandle _ | CResetHandles | CClearRegistry => False
  | _ => True
  end.

Lemma run_call_keeps live c s :
  driver_ok live s → call_args c → (live = true → call_safe s c) →
  wp live (run_call c) (λ _, driver_ok live) s.
Proof.
  intros Hok Ha Hs.
  destruct c; cbn [run_call];
    first
      [ by apply keeps_register_common | by apply keeps_set_kernel_id | by apply keeps_set_record_ok
      | by apply keeps_query | by apply keeps_argp_timer | by apply keeps_dry_run
      | by apply keeps_no_current | by apply keeps_add_handle | by apply keeps_set_hdl_karg
      | by apply keeps_set_kargs_tokstr | by apply keeps_set_hdl_env | by apply keeps_build_handle
      | by apply keeps_alloc_output | by apply keeps_finalize | by apply keeps_add_output
      | apply keeps_register; [done|intros Hl; by apply Hs]
      | apply keeps_add_arg; [done|done|intros Hl; by apply Hs]
      | apply keeps_set_wrappers; [done|intros Hl; by apply Hs]
      | apply keeps_set_wrappers_idx; [done|intros Hl; by apply Hs]
      | apply keeps_copy_hdl_from; [done|intros Hl; by apply Hs]
      | (apply keeps_clean_handle || apply keeps_reset || apply keeps_clear); [|done];
        destruct live; [by destruct (Hs eq_refl)|done] ].
Qed.

(** States after a sequence of calls, each defined and, for [live], safe. *)
Inductive reachable (live : bool) : driver → Prop :=
  | reach_init malloc junk :
      (live = true → ∀ n, malloc n = true) → reachable live (driver_init malloc junk)
  | reach_dyn s dyn full : reachable live s → reachable live (set_dyn dyn full s)
  | reach_call s c r s' :
      reachable live s → call_args c → (live = true → call_safe s c) →
      run_call c s = (r, s') → r ≠ UB → reachable live s'.

Lemma ok_set_dyn live s dyn full : driver_ok live s → driver_ok live (set_dyn dyn full s).
Proof. intros []. split; try done. intros Hl. by destruct (ok_memory Hl). Qed.

Lemma ok_init live malloc junk :
  (live = true → ∀ n, malloc n = true) → driver_ok live (driver_init malloc junk).
Proof.
  intros Hm. split; try done; try constructor; try (by left); try apply NoDup_nil_2.
  - intros n. by apply Hm.
  - intros l [b Hl]. cbn [d_heap driver_init] in Hl. by rewrite lookup_empty in Hl.
  - intros [?|[? ?]]; done.
  - repeat split; try by eexists. constructor.
  - repeat split; try by eexists. constructor.
  - done.
Qed.

Lemma reachable_ok live s : reachable live s → driver_ok live s.
Proof.
  induction 1 as [malloc junk Hm|s dyn full _ IH|s c r s' _ IH Ha Hs Hr Hub].
  - by apply ok_init.
  - by apply ok_set_dyn.
  - pose proof (run_call_keeps live c s IH Ha Hs) as H. unfold wp in H. rewrite Hr in H.
    by destruct r.
Qed.

(** ** A sample session *)

Fixpoint run_calls (cs : list call) (s : driver) : driver :=
  match cs with [] => s | c :: cs' => run_calls cs' (run_call c s).2 end.

(** Every call of the session is allowed and defined. *)
Fixpoint calls_ok (live : bool) (cs : list call) (s : driver) : Prop :=
  match cs with
  | [] => True
  | c :: cs' => call_args c ∧ (live = true → call_safe s c)
                ∧ match (run_call c s).1 with UB => False | _ => True end
                ∧ calls_ok live cs' (run_call c s).2
  end.

Lemma reachable_calls live cs s : reachable live s → calls_ok live cs s → reachable live (run_calls cs s).
Proof.
  revert s. induction cs as [|c cs IH]; intros s Hs; [done|]. intros (Ha & Hc & Hub & Hcs). cbn.
  apply IH; [|done]. apply (reach_call live s c (run_call c s).1); [done..|by destruct (run_call c s)|].
  by destruct ((run_call c s).1).
Qed.

Definition boot : driver := driver_init (λ _, true) 0xAA.
Definition sample_calls : list call :=
  [ CRegisterCommon;
    CRegister (Some $"triad") (Some $"a = b + s * c") TPB_KTYPE_PLI;
    CAddArg (Some $"ntest") (Some $"user") (Some $"Iterations") (Some $"10")
            (Z.lor (Z.lor TPB_PARM_CLI TPB_INT64_T) TPB_PARM_RANGE) (VaRange 1 1000);
    CAddArg (Some $"s") None (Some $"Factor") (Some $"0.42") (Z.lor TPB_PARM_CLI TPB_DOUBLE_T) VaNone;
    CAddOutput (Some $"bandwidth") (Some $"TPBFOM") (Some $"MB/s") TPB_DOUBLE_T 0;
    CFinalize ].
Definition sample_registry : driver :=
  set_dyn [mkDyn ($"triad") ($"/opt/lib/libtpbk_triad.so") true TPB_KTYPE_PLI] true
          (run_calls sample_calls boot).
Definition sample_handle_calls : list call :=
  [ CAddHandle (Some $"triad"); CSetKarg (Some $"ntest") (Some $"500");
    CSetEnv (Some $"OMP_NUM_THREADS") (Some $"4") ].
Definition sample_session : driver := run_calls sample_handle_calls sample_registry.

Lemma is_cstr_check s : forallb (Z.ltb 0) s = true → is_cstr s.
Proof.
  unfold is_cstr. induction s as [|c s IH]; cbn; [constructor|]. intros [Hc Hs]%andb_true_iff.
  constructor; [by apply Z.ltb_lt|by apply IH].
Qed.

Ltac call_side :=
  match goal with
  | |- True => exact I
  | |- is_cstr _ => apply is_cstr_check; vm_compute; reflexivity
  | |- register_args_ok _ _ => split; [vm_compute; lia|eexists; split; [reflexivity|vm_compute; lia]]
  | |- va_ok _ _ =>
      split; intros Hmode;
      first [vm_compute in Hmode; discriminate | do 2 eexists; reflexivity]
  | |- (_ < _)%nat => vm_compute; lia
  | |- match (run_call _ _).1 with _ => _ end => vm_compute; exact I
  | |- _ = true → call_safe _ _ => intros _; split; cbn [call_args]; call_side
  | |- _ ∧ _ => split; call_side
  end.

Lemma sample_registry_reachable live : reachable live sample_registry.
Proof.
  apply reach_dyn, reachable_calls; [by apply reach_init|].
  unfold sample_calls. cbn [calls_ok call_args]. call_side.
Qed.

Lemma sample_session_reachable live : reachable live sample_session.
Proof.
  apply reachable_calls; [apply sample_registry_reachable|].
  unfold sample_handle_calls. cbn [calls_ok call_args]. call_side.
Qed.

(** ** Properties *)




