(* ===== verification/DriverProps.v ===== *)
(** * The driver: what its operations do

    Functional properties of setting arguments and environment variables, of the
    copies of kernels, and of the merge with the common arguments; and the faults
    that the shared limits and the [float] member lead to. *)

From S2P Require Import Prelude Errors CLib CNum ParmValue TagNorm Driver DriverHandle Argp.
From S2P Require Import DriverInv DriverCalls.
From stdpp Require Import options.

(** ** Running on a known handle *)

(** The current handle of a state with a handle list, and its arguments. *)
Record running (s : driver) (p : hptr) (h : tpb_k_rthdl) (args : list tpb_rt_arg) : Prop := {
  run_list : is_Some (d_handle_list s);
  run_current : d_current_rthdl s = Some p;
  run_at : hdl_at p s = Some h;
  run_args : h_args h = Some args;
}.

Lemma get_hdl_eq p h s : hdl_at p s = Some h → get_hdl p s = (Ok h, s).
Proof.
  destruct p as [i| |]; cbn; [|by intros [= <-]|done]. unfold get_hdl, d_get, mbind, D_bind, elems.
  destruct (d_handle_list s) as [l|]; cbn; [|by destruct i]. by intros ->.
Qed.

Lemma current_hdl_eq p h s :
  d_current_rthdl s = Some p → hdl_at p s = Some h → get_current_hdl s = (Ok (Some h), s).
Proof.
  intros Hc Hh. unfold get_current_hdl. unfold mbind, D_bind, d_get. rewrite Hc.
  unfold fmap, D_fmap, mbind, D_bind. by rewrite (get_hdl_eq p h).
Qed.

Lemma running_eq s p h args : running s p h args → running_handle s = (Ok h, s).
Proof.
  intros [[l Hl] Hc Hh _]. unfold running_handle. unfold mbind, D_bind, d_get at 1.
  by rewrite (current_hdl_eq p h), Hl.
Qed.

Lemma put_current_eq p h h' s :
  d_current_rthdl s = Some p → hdl_at p s = Some h →
  put_current_hdl h' s = (Ok tt, put_hdl_state p h' s).
Proof.
  intros Hc Hh. unfold put_current_hdl, mbind, D_bind, d_get. rewrite Hc. by destruct p.
Qed.

Lemma hdl_at_put p h h' s :
  hdl_at p s = Some h → hdl_at p (put_hdl_state p h' s) = Some h'.
Proof.
  destruct p as [i| |]; cbn; [|done|done]. rewrite elems_insert. intros Hi.
  apply list_lookup_insert_eq. by eapply lookup_lt_Some.
Qed.

Lemma d_lims_eq s l lims : d_heap s !! l = Some (BLims lims) → d_lims (Some l) s = (Ok lims, s).
Proof. intros H. unfold d_lims. by rewrite H. Qed.

(** What the call leaves for an argument that is found: the check decides. *)
Lemma set_hdl_karg_eq s p h args name (i : nat) a v value :
  running s p h args → find_index (arg_is name) args = Some i → args !! i = Some a →
  parse_value (d_junk s) (type_code (arg_ctrlbits a)) value = Some v →
  tpb_driver_set_hdl_karg (Some name) (Some value) s
  = match karg_check a v s with
    | (Ok _, s') => put_current_hdl (with_hargs (Some (<[i := with_value v a]> args)) h) s'
    | (Err e, s') => (Err e, s')
    | (UB, s') => (UB, s')
    end.
Proof.
  intros Hrun Hi Ha Hv. unfold tpb_driver_set_hdl_karg.
  unfold mbind, D_bind at 1. rewrite (running_eq _ _ _ _ Hrun), (run_args _ _ _ _ Hrun).
  cbn. unfold D_bind. cbn. rewrite Hi. unfold D_bind. rewrite Ha. cbn. rewrite Hv. done.
Qed.

Lemma karg_check_range s a l lo hi v :
  check_mode (arg_ctrlbits a) = TPB_PARM_RANGE → arg_nlims a = 2 → arg_plims a = Some l →
  d_heap s !! l = Some (BLims [lo; hi]) →
  karg_check a v s = (if karg_out_of_range (type_code (arg_ctrlbits a)) v lo hi
                      then TPB_FAIL TPB_MOD_DRIVER TPBE_KERN_ARG_FAIL else Ok tt, s).
Proof.
  intros Hm Hn Hp Hl. unfold karg_check. rewrite Hm, Hn, Hp. cbn.
  unfold mbind, D_bind at 1. rewrite (d_lims_eq s l [lo; hi]) by done. cbn.
  unfold D_bind. cbn. by destruct (karg_out_of_range _ _ _ _).
Qed.

(** The value a kernel reads. *)
Lemma get_arg_eq s p h args name (a : tpb_rt_arg) dtype :
  d_current_rthdl s = Some p → hdl_at p s = Some h → h_args h = Some args →
  find (arg_is name) args = Some a →
  tpb_k_get_arg (Some name) dtype s
  = (match read_value (type_code dtype) (arg_value a) with
     | Some v => Ok v | None => TPB_FAIL TPB_MOD_DRIVER TPBE_LIST_NOT_FOUND end, s).
Proof.
  intros Hc Hh Ha Hf. unfold tpb_k_get_arg. unfold mbind, D_bind at 1.
  rewrite (current_hdl_eq p h), Ha by done. cbn. rewrite Hf. by destruct (read_value _ _).
Qed.

Lemma find_index_find {A} (p : A → bool) l (i : nat) x :
  find_index p l = Some i → l !! i = Some x → find p l = Some x.
Proof.
  revert i. induction l as [|y l IH]; intros i E Hi; [done|]. cbn in *.
  destruct (p y); [by simplify_eq|]. destruct (find_index p l) as [j|]; [|done].
  injection E as <-. by apply (IH j).
Qed.

Lemma find_insert {A} (p : A → bool) l (i : nat) x y :
  find_index p l = Some i → l !! i = Some x → p y = true → find p (<[i := y]> l) = Some y.
Proof.
  revert i. induction l as [|z l IH]; intros i E Hi Hy; [done|]. cbn in E.
  destruct (p z) eqn:Hz; [injection E as <-; cbn; by rewrite Hy|].
  destruct (find_index p l) as [j|] eqn:Ej; [|done]. injection E as <-. cbn. rewrite Hz.
  by apply (IH j).
Qed.

Lemma find_index_true {A} (p : A → bool) l (i : nat) x :
  find_index p l = Some i → l !! i = Some x → p x = true.
Proof. intros E Hi. destruct (find_index_lookup _ _ _ E) as (y & ? & ? & _). congruence. Qed.

(** ** Properties *)

(** C13: setting an integer argument with a range on the current handle.  The text
    is read as a saturated decimal integer; it is accepted exactly when it lies
    within the limits, the only change then is the value of that argument, and the
    kernel reads back that integer; otherwise the call reports
    [TPBE_KERN_ARG_FAIL] and nothing changes. *)
Theorem set_hdl_karg_int s p h args name (i : nat) a l lo hi value :
  running s p h args → find_index (arg_is name) args = Some i → args !! i = Some a →
  is_int_t (type_code (arg_ctrlbits a)) = true →
  check_mode (arg_ctrlbits a) = TPB_PARM_RANGE → arg_nlims a = 2 →
  arg_plims a = Some l → d_heap s !! l = Some (BLims [lo; hi]) →
  let n := strtoll value in
  let r := tpb_driver_set_hdl_karg (Some name) (Some value) s in
  (as_i64 lo ≤ n ≤ as_i64 hi →
     r = (Ok tt, put_hdl_state p
                   (with_hargs (Some (<[i := with_value (wrap64 n) a]> args)) h) s)
     ∧ (tpb_k_get_arg (Some name) TPB_INT64_T r.2).1 = Ok n)
  ∧ (¬ as_i64 lo ≤ n ≤ as_i64 hi → r = (TPB_FAIL TPB_MOD_DRIVER TPBE_KERN_ARG_FAIL, s)).
Proof.
  intros Hrun Hi Ha Ht Hm Hn Hp Hl n r. subst r.
  rewrite (set_hdl_karg_eq s p h args name i a (wrap64 n) value) by
    first [done|by rewrite parse_value_int].
  rewrite (karg_check_range s a l lo hi), out_of_range_int, as_i64_wrap by
    first [done|apply strtoll_bounds].
  destruct Hrun as [_ Hc Hh Hargs]. split; intros Hr.
  - assert ((as_i64 lo <=? n) && (n <=? as_i64 hi) = true) as -> by lia. cbn [negb].
    rewrite (put_current_eq p h) by done. split; [done|].
    erewrite get_arg_eq; [|by destruct p|by apply hdl_at_put with h|done|
      eapply find_insert; [done..|exact (find_index_true _ _ _ _ Hi Ha)]].
    cbn [fst arg_value with_value]. unfold read_value. cbn -[as_i64 wrap64 n].
    rewrite as_i64_wrap; [done|apply strtoll_bounds].
  - assert ((as_i64 lo <=? n) && (n <=? as_i64 hi) = false) as -> by lia. done.
Qed.

Definition sample_hdl : tpb_k_rthdl := default hdl0 (hdl_at (HList 0) sample_session).
Definition sample_args : list tpb_rt_arg := elems (h_args sample_hdl).

Lemma sample_running : running sample_session (HList 0) sample_hdl sample_args.
Proof. split; vm_compute; [by eexists|reflexivity..]. Qed.

Lemma set_hdl_karg_int_witness :
  (tpb_k_get_arg (Some $"ntest") TPB_INT64_T
     (tpb_driver_set_hdl_karg (Some $"ntest") (Some $" 1000x") sample_session).2).1 = Ok 1000
  ∧ tpb_driver_set_hdl_karg (Some $"ntest") (Some $"0") sample_session
    = (TPB_FAIL TPB_MOD_DRIVER TPBE_KERN_ARG_FAIL, sample_session).
Proof.
  split.
  - refine (proj2 (proj1 (set_hdl_karg_int sample_session (HList 0) sample_hdl sample_args ($"ntest") 0
      (default arg0 (sample_args !! 0%nat)) 4%positive 1 1000 ($" 1000x") sample_running _ _ _ _ _ _ _) _));
      vm_compute; first [reflexivity|split; congruence].
  - refine (proj2 (set_hdl_karg_int sample_session (HList 0) sample_hdl sample_args ($"ntest") 0
      (default arg0 (sample_args !! 0%nat)) 4%positive 1 1000 ($"0") sample_running _ _ _ _ _ _ _) _);
      vm_compute; first [reflexivity|intros [H _]; congruence].
Defined.

(** ** Environment variables *)

(** The variables of a handle as a map. *)
Definition env_map (h : tpb_k_rthdl) : gmap bytes bytes :=
  list_to_map ((λ e, (Driver.env_name e, env_value e)) <$> elems (h_envs h)).

Lemma list_to_map_update (l : list (bytes * bytes)) i k v v0 :
  NoDup l.*1 → l !! i = Some (k, v0) →
  (list_to_map (<[i := (k, v)]> l) : gmap bytes bytes) = <[k := v]> (list_to_map l).
Proof.
  intros Hnd Hi. apply list_elem_of_split_length in Hi as (l1 & l2 & -> & ->).
  rewrite insert_app_r_alt, Nat.sub_diag by done. cbn [insert list_insert].
  rewrite fmap_app in Hnd. apply NoDup_app in Hnd as (_ & Hk & _).
  assert (Hk' : (list_to_map l1 : gmap bytes bytes) !! k = None).
  { apply not_elem_of_list_to_map. intros Hin. apply (Hk k Hin). by left. }
  rewrite !list_to_map_app. cbn [list_to_map foldr uncurry].
  cbn. by rewrite insert_union_r, insert_insert_eq by done || rewrite <- !insert_union_r by done.
Qed.

Lemma find_index_name_None {A} (f : A → bytes) name l :
  find_index (λ x, strcmp (f x) name =? 0) l = None → name ∉ f <$> l.
Proof. intros H. by apply not_taken, find_index_None. Qed.

Definition env_names (envs : list tpb_env_entry) : list bytes := Driver.env_name <$> envs.

Lemma env_map_names envs :
  ((λ e, (Driver.env_name e, env_value e)) <$> envs).*1 = env_names envs.
Proof. by rewrite <- list_fmap_compose. Qed.

Lemma set_hdl_env_step s p h args envs n v :
  running s p h args → h_envs h = Some envs → NoDup (env_names envs) →
  Forall is_cstr (env_names envs) → is_cstr n →
  (length n < TPBM_NAME_STR_MAX_LEN)%nat → (∀ size, d_malloc s size = true) →
  ∃ envs', tpb_driver_set_hdl_env (Some n) (Some v) s
           = (Ok tt, put_hdl_state p (with_envs (Some envs') h) s)
    ∧ NoDup (env_names envs') ∧ Forall is_cstr (env_names envs')
    ∧ env_map (with_envs (Some envs') h) = <[n := cut_value v]> (env_map h).
Proof.
  intros Hrun He Hnd Hcs Hcn Hn Hm. pose proof (running_eq _ _ _ _ Hrun) as Er.
  assert (Hput : ∀ h', put_current_hdl h' s = (Ok tt, put_hdl_state p h' s)).
  { intros h'. destruct Hrun. by eapply put_current_eq. }
  unfold tpb_driver_set_hdl_env, env_map. rewrite He. unfold mbind, D_bind at 1. rewrite Er, He. cbn.
  unfold D_bind at 1. cbn. destruct (find_index _ envs) as [i|] eqn:Ei.
  - destruct (find_index_lookup _ _ _ Ei) as (e & Hi & Hs & _). rewrite Hi. unfold D_bind. cbn.
    rewrite Hput. eexists. split; [done|].
    assert (Hni : env_names envs !! i = Some (Driver.env_name e)).
    { unfold env_names. by rewrite list_lookup_fmap, Hi. }
    assert (Driver.env_name e = n) as <-.
    { apply Z.eqb_eq, strcmp_eq in Hs; [done| |done]. by eapply (Forall_lookup_1 _ _ _ _ Hcs). }
    assert (Hsame : env_names (<[i := mkEnv (Driver.env_name e) (cut_value v)]> envs) = env_names envs).
    { unfold env_names in *. rewrite list_fmap_insert. by apply list_insert_id. }
    rewrite Hsame. split_and!; [done..|]. unfold elems. cbn. rewrite list_fmap_insert.
    eapply list_to_map_update; [by rewrite env_map_names|]. by rewrite list_lookup_fmap, Hi.
  - unfold D_bind, d_malloc_ok, d_get. rewrite Hm. cbn. rewrite Hput. eexists. split; [done|].
    assert (Hnew : n ∉ env_names envs) by by apply find_index_name_None.
    rewrite cut_name_id by done. unfold elems, env_names in *. cbn. rewrite !fmap_app. split_and!.
    + apply NoDup_app. split_and!; [done| |apply NoDup_singleton]. intros x Hx ->%list_elem_of_singleton. done.
    + apply Forall_app. split; [done|by apply Forall_singleton].
    + apply list_to_map_snoc. by rewrite env_map_names.
Qed.

Lemma put_hdl_twice p h h' s : put_hdl_state p h' (put_hdl_state p h s) = put_hdl_state p h' s.
Proof.
  destruct p as [i| |]; [|done|done]. unfold put_hdl_state, set_handles. cbn. f_equal.
  destruct (d_handle_list s) as [l|]; cbn; [|done]. by rewrite list_insert_insert_eq.
Qed.

Lemma running_put s p h args h' args' :
  running s p h args → h_args h' = Some args' → running (put_hdl_state p h' s) p h' args'.
Proof.
  intros [[l Hl] Hc Hh Ha] Ha'. split; [| |by eapply hdl_at_put|done].
  - destruct p; cbn; rewrite ?Hl; by eexists.
  - by destruct p.
Qed.

(** C14: the environment of a handle is a map: for any sequence of settings on the
    current handle, with allocations granted and names that fit, every call
    succeeds, exactly that handle's variables change, each name maps to the last
    value set (cut to its field) and the others keep theirs, and no name is there
    twice. *)
Theorem set_hdl_env_map kvs s p h args envs :
  running s p h args → h_envs h = Some envs → NoDup (env_names envs) →
  Forall is_cstr (env_names envs) → (∀ size, d_malloc s size = true) →
  Forall (λ kv, is_cstr kv.1 ∧ (length kv.1 < TPBM_NAME_STR_MAX_LEN)%nat) kvs →
  ∃ envs', d_iter (λ kv, tpb_driver_set_hdl_env (Some kv.1) (Some kv.2)) kvs s
           = (Ok tt, put_hdl_state p (with_envs (Some envs') h) s)
    ∧ NoDup (env_names envs')
    ∧ env_map (with_envs (Some envs') h)
      = foldl (λ m kv, <[kv.1 := cut_value kv.2]> m) (env_map h) kvs.
Proof.
  intros Hrun He Hnd Hcs Hm Hkvs.
  revert s h envs Hrun He Hnd Hcs Hm. induction Hkvs as [|[n v] kvs [Hcn Hn] _ IH];
    intros s h envs Hrun He Hnd Hcs Hm; cbn [d_iter foldl].
  - exists envs. assert (with_envs (Some envs) h = h) as -> by (destruct h; cbn in *; by subst).
    split_and!; [|done|done]. f_equal. destruct Hrun as [_ _ Hh _].
    destruct p as [i| |]; cbn in Hh |- *; [| |done].
    + destruct s; cbn in *. unfold set_handles; cbn. f_equal. destruct d_handle_list; cbn in *; [|done].
      by rewrite list_insert_id.
    + injection Hh as <-. by destruct s.
  - destruct (set_hdl_env_step s p h args envs n v Hrun He Hnd Hcs Hcn Hn Hm)
      as (envs1 & E1 & Hnd1 & Hcs1 & Hmap1).
    unfold mbind, D_bind. cbn [fst snd]. rewrite E1.
    destruct (IH (put_hdl_state p (with_envs (Some envs1) h) s) (with_envs (Some envs1) h) envs1)
      as (envs2 & E2 & Hnd2 & Hmap2); [|done..| |].
    + exact (running_put s p h args (with_envs (Some envs1) h) args Hrun (run_args _ _ _ _ Hrun)).
    + intros size. destruct p; apply Hm.
    + exists envs2. rewrite E2, put_hdl_twice. split_and!; [done..|].
      cbn [fst snd]. rewrite <- Hmap1. exact Hmap2.
Qed.

Lemma set_hdl_env_map_witness :
  ∃ envs', d_iter (λ kv, tpb_driver_set_hdl_env (Some kv.1) (Some kv.2))
             [($"LANG", $"C"); ($"OMP_NUM_THREADS", $"8"); ($"LANG", $"en")] sample_session
           = (Ok tt, put_hdl_state (HList 0) (with_envs (Some envs') sample_hdl) sample_session)
    ∧ NoDup (env_names envs')
    ∧ env_map (with_envs (Some envs') sample_hdl)
      = <[ $"LANG" := $"en" ]> (<[ $"OMP_NUM_THREADS" := $"8" ]> (<[ $"LANG" := $"C" ]> (env_map sample_hdl))).
Proof.
  destruct (set_hdl_env_map [($"LANG", $"C"); ($"OMP_NUM_THREADS", $"8"); ($"LANG", $"en")]
           sample_session (HList 0) sample_hdl sample_args (elems (h_envs sample_hdl)) sample_running)
    as (envs' & E & N & M).
  - vm_compute. reflexivity.
  - apply (bool_decide_unpack _). vm_compute. exact I.
  - apply (bool_decide_unpack _). vm_compute. exact I.
  - reflexivity.
  - repeat constructor; vm_compute; first [reflexivity|lia].
  - exists envs'. split_and!; [exact E|exact N|]. rewrite M. reflexivity.
Defined.

(** ** Faults *)

(** The limits of an argument belong to the kernel and to each of its handles:
    releasing two handles of one kernel frees them twice, *)
Example reset_two_handles_double_free :
  (tpb_driver_reset_handles (run_calls [CAddHandle (Some $"triad")] sample_session)).1 = UB.
Proof. vm_compute. reflexivity. Qed.
(** and after a reset a new handle of the kernel has limits that are gone. *)
Example reset_then_use_after_free :
  let s := (tpb_driver_reset_handles sample_session).2 in
  (tpb_driver_reset_handles sample_session).1 = Ok tt
  ∧ (run_call (CSetKarg (Some $"ntest") (Some $"500")) (run_call (CAddHandle (Some $"triad")) s).2).1 = UB.
Proof. split; vm_compute; reflexivity. Qed.

(** A [float] argument set to 1.5 is stored as a [double] and read as 0. *)
Example float_argument_reads_zero :
  parse_value 0 TPB_FLOAT_T $"1.5" = Some 0x3ff8000000000000
  ∧ read_value TPB_FLOAT_T 0x3ff8000000000000 = Some 0.
Proof. split; vm_compute; reflexivity. Qed.

(** The default of [total_memsize] is the integer 32, as a [double] a subnormal. *)
Example total_memsize_default :
  type_code (arg_ctrlbits common_total_memsize) = TPB_DOUBLE_T
  ∧ f64_lt (arg_value common_total_memsize) (strtod $"1e-300") = true.
Proof. split; vm_compute; reflexivity. Qed.
