(* ===== verification/CliArgp.v ===== *)
(** * The command-line parser of [tpbcli]

    [src/tpbcli/argp/tpbcli-argp.c]: a tree of subcommands, options and flags, and
    the stack machine that walks it along [argv].

    A node is addressed by the indices of its ancestors among their siblings; the
    stack of the parser always holds the nodes on the way from the root to its top,
    so it is such a path, innermost index first.  The callbacks stored in the nodes
    are functions on the state [U] of the application; they do not touch the tree.
    Text printed for help and errors has no model. *)

From S2P Require Import Prelude Errors CLib.
From stdpp Require Import options.

Inductive tpbcli_arg_type := TPBCLI_ARG_CMD | TPBCLI_ARG_OPT | TPBCLI_ARG_FLAG.

Definition TPBCLI_ARGF_EXCLUSIVE : Z := 1.
Definition TPBCLI_ARGF_MANDATORY : Z := 2.
Definition TPBCLI_ARGF_PRESET : Z := 4.
Definition TPBCLI_ARGF_DELEGATE_SUBCMD : Z := 8.
Definition TPBCLI_ARGP_STACK_MAX : nat := 128.

(** ** Nodes *)

(** The fields of [tpbcli_argconf_t] the parser reads; the handlers are [None] when
    the pointer is null, [conf_conflicts] is the list before the final null. *)
Record tpbcli_argconf (U : Type) := mkConf {
  conf_name : option bytes; conf_short : option bytes; conf_type : tpbcli_arg_type;
  conf_flags : Z; conf_max : Z;
  conf_parse : option (option bytes → U → outcome unit * U);
  conf_help : option (U → outcome unit * U);
  conf_preset : option bytes; conf_conflicts : list bytes;
}.
Arguments mkConf {U}.
Arguments conf_name {U}.
Arguments conf_short {U}.
Arguments conf_type {U}.
Arguments conf_flags {U}.
Arguments conf_max {U}.
Arguments conf_parse {U}.
Arguments conf_help {U}.
Arguments conf_preset {U}.
Arguments conf_conflicts {U}.

Inductive tpbcli_argnode (U : Type) :=
  Node (conf : tpbcli_argconf U) (is_set : bool) (chosen_count : Z) (parsed_value : option bytes)
       (children : list (tpbcli_argnode U)).
Arguments Node {U}.

Section Tree.
Context {U : Type}.
Abbreviation argconf := (tpbcli_argconf U).
Abbreviation argnode := (tpbcli_argnode U).

Definition node_conf (n : argnode) : argconf := let 'Node c _ _ _ _ := n in c.
Definition is_set (n : argnode) : bool := let 'Node _ b _ _ _ := n in b.
Definition chosen_count (n : argnode) : Z := let 'Node _ _ k _ _ := n in k.
Definition parsed_value (n : argnode) : option bytes := let 'Node _ _ _ v _ := n in v.
Definition children (n : argnode) : list argnode := let 'Node _ _ _ _ cs := n in cs.
Definition with_children (cs : list argnode) (n : argnode) : argnode :=
  let 'Node c b k v _ := n in Node c b k v cs.

Definition has_flag (f : Z) (n : argnode) : bool := negb (Z.land (conf_flags (node_conf n)) f =? 0).

Definition opt_is (o : option bytes) (token : bytes) : bool :=
  match o with Some s => strcmp s token =? 0 | None => false end.
Definition named (token : bytes) (c : argnode) : bool := opt_is (conf_name (node_conf c)) token.
(** By name or short name. *)
Definition token_is (token : bytes) (c : argnode) : bool :=
  named token c || opt_is (conf_short (node_conf c)) token.

(** The position of the first child that satisfies [p]. *)
Fixpoint find_pos (p : argnode → bool) (cs : list argnode) : option nat :=
  match cs with
  | [] => None
  | c :: cs' => if p c then Some 0%nat else S <$> find_pos p cs'
  end.

Definition _sf_find_child (parent : argnode) (token : bytes) : option nat :=
  find_pos (token_is token) (children parent).
(** The siblings are those of [parent], which is null for the root. *)
Definition _sf_find_child_by_name (parent : option argnode) (name : bytes) : option argnode :=
  parent ← parent; find (named name) (children parent).
Definition _sf_find_max_chosen_zero_child (opt : argnode) (token : bytes) : option nat :=
  find_pos (λ c, (conf_max (node_conf c) =? 0) && token_is token c) (children opt).

(** ** Building the tree *)

Definition new_node (conf : argconf) : argnode := Node conf false 0 None [].

(** [alloc]: whether [calloc] succeeds. *)
Definition tpbcli_argtree_create (alloc : bool) (prog_name : option bytes) : option argnode :=
  name ← prog_name;
  if alloc then Some (new_node (mkConf (Some name) None TPBCLI_ARG_CMD 0 1 None None None []))
  else None.

(** The parent with the new child appended, or [None] where the code returns null
    and adds nothing. *)
Definition tpbcli_add_arg (alloc : bool) (parent : argnode) (conf : argconf) : option argnode :=
  name ← conf_name conf;
  match _sf_find_child_by_name (Some parent) name with
  | Some _ => None
  | None => if alloc then Some (with_children (children parent ++ [new_node conf]) parent) else None
  end.

(** ** Walking the tree *)

Fixpoint _sf_reset_parse_state (n : argnode) : argnode :=
  let 'Node c _ _ _ cs := n in Node c false 0 None (map _sf_reset_parse_state cs).

(** Every name in [conflict_opts] is a sibling's. *)
Fixpoint _sf_resolve_conflict_opts_validate (parent : option argnode) (n : argnode) : bool :=
  let 'Node c _ _ _ cs := n in
  forallb (λ nm, bool_decide (is_Some (_sf_find_child_by_name parent nm))) (conf_conflicts c)
  && forallb (_sf_resolve_conflict_opts_validate (Some n)) cs.

(** The node at a path whose innermost index is first. *)
Fixpoint node_at (root : argnode) (path : list nat) : option argnode :=
  match path with
  | [] => Some root
  | i :: path' => n ← node_at root path'; children n !! i
  end.

(** The tree with the node at the end of a path, outermost index first, replaced. *)
Fixpoint update_down (f : argnode → argnode) (path : list nat) (n : argnode) : argnode :=
  match path with
  | [] => f n
  | i :: path' => with_children (alter (update_down f path') i (children n)) n
  end.
Definition update_at (f : argnode → argnode) (path : list nat) (root : argnode) : argnode :=
  update_down f (reverse path) root.

(** [is_set = 1; chosen_count++]. *)
Definition mark (n : argnode) : argnode :=
  let 'Node c _ k v cs := n in Node c true (k + 1) v cs.
Definition set_value (value : bytes) (n : argnode) : argnode :=
  let 'Node c b k _ cs := n in Node c b k (Some value) cs.

(** ** Checks before a selection *)

Definition set_exclusive (match_ : argnode) (s : argnode) : bool :=
  is_set s && (has_flag TPBCLI_ARGF_EXCLUSIVE match_ || has_flag TPBCLI_ARGF_EXCLUSIVE s).

(** Whether a sibling other than the [i]-th one conflicts with it. *)
Definition _sf_sibling_exclusive_conflict (siblings : list argnode) (i : nat) (match_ : argnode) : bool :=
  existsb (set_exclusive match_) (take i siblings ++ drop (S i) siblings).

Definition _sf_sibling_conflict_opts_hit (parent : argnode) (match_ : argnode) : bool :=
  existsb (λ nm, match _sf_find_child_by_name (Some parent) nm with
                 | Some other => is_set other
                 | None => false
                 end) (conf_conflicts (node_conf match_)).

(** ** The parser *)

(** The tree, the stack and the application. *)
Record pstate := mkP { ps_root : argnode; ps_path : list nat; ps_user : U }.

Definition P (A : Type) : Type := pstate → outcome A * pstate.
#[export] Instance P_ret : MRet P := λ A a s, (Ok a, s).
#[export] Instance P_bind : MBind P := λ A B k m s,
  match m s with
  | (Ok a, s') => k a s'
  | (Err e, s') => (Err e, s')
  | (UB, s') => (UB, s')
  end.

Definition cli_fail {A} : P A := λ s, (TPB_FAIL TPB_MOD_CLI_MISC TPBE_CLI_FAIL, s).
Definition p_propagate {A} (m : P A) : P A := λ s,
  let '(r, s') := m s in (TPB_PROPAGATE TPB_MOD_CLI_MISC r, s').
(** [return TPBE_EXIT_ON_HELP]. *)
Definition exit_on_help {A} : P A := λ s, (Err TPBE_EXIT_ON_HELP, s).

Definition edit (f : argnode → argnode) (path : list nat) : P unit := λ s,
  (Ok tt, mkP (update_at f path (ps_root s)) (ps_path s) (ps_user s)).
Definition set_path (path : list nat) : P unit := λ s, (Ok tt, mkP (ps_root s) path (ps_user s)).
Definition get_path : P (list nat) := λ s, (Ok (ps_path s), s).
Definition get_node (path : list nat) : P argnode := λ s,
  (match node_at (ps_root s) path with Some n => Ok n | None => UB end, s).

(** A call through a pointer of a node, with its own status. *)
Definition run_fn (f : U → outcome unit * U) : P unit := λ s,
  let '(r, u) := f (ps_user s) in (r, mkP (ps_root s) (ps_path s) u).
(** [err = parse_fn(node, value); if (err != 0) TPB_FAIL(...)]; nothing for a null
    pointer. *)
Definition run_parse_fn (n : argnode) (value : option bytes) : P unit :=
  match conf_parse (node_conf n) with
  | None => mret tt
  | Some f => λ s, match run_fn (f value) s with
                   | (Err _, s') => cli_fail s'
                   | r => r
                   end
  end.

(** The checks on the [i]-th child of [parent]. *)
Definition _sf_validate_pre_increment (parent : argnode) (i : nat) (match_ : argnode) : P unit :=
  if _sf_sibling_exclusive_conflict (children parent) i match_ then cli_fail
  else if _sf_sibling_conflict_opts_hit parent match_ then cli_fail
  else if conf_max (node_conf match_) =? 0 then
    match conf_help (node_conf match_) with
    | Some help_fn => _ ← run_fn help_fn; exit_on_help
    | None => cli_fail
    end
  else if (0 <? conf_max (node_conf match_))
          && (conf_max (node_conf match_) <=? chosen_count match_) then cli_fail
  else mret tt.

(** [stack[stack_sz++] = match], with the check before it. *)
Definition push (path : list nat) (i : nat) : P unit :=
  if (TPBCLI_ARGP_STACK_MAX <=? S (length path))%nat then cli_fail else set_path (i :: path).

(** From [retry]: the top is searched for the token, and popped while it has no
    such child; popping resets the children of what is popped. *)
Fixpoint find_match (path : list nat) (tok : bytes) : P nat :=
  top ← get_node path;
  match _sf_find_child top tok with
  | Some i => mret i
  | None =>
      match path with
      | [] => cli_fail
      | _ :: path' =>
          _ ← edit (λ n, with_children (map _sf_reset_parse_state (children n)) n) path;
          _ ← set_path path';
          find_match path' tok
      end
  end.

(** The value of an option: a child that cannot be chosen, such as its help, or the
    argument of its own handler. *)
Definition select_opt (path : list nat) (i : nat) (match_ : argnode) (value : bytes) : P unit :=
  match _sf_find_max_chosen_zero_child match_ value with
  | Some j =>
      hchild ← get_node (j :: i :: path);
      match conf_parse (node_conf hchild) with
      | Some _ =>
          _ ← run_parse_fn hchild None;
          _ ← edit mark (j :: i :: path);
          edit mark (i :: path)
      | None => p_propagate (_sf_validate_pre_increment match_ j hchild)
      end
  | None =>
      _ ← run_parse_fn match_ (Some value);
      _ ← edit (set_value value) (i :: path);
      _ ← edit mark (i :: path);
      match children match_ with
      | [] => mret tt
      | _ => push path i
      end
  end.

(** The loop over [argv\[1..\]]. *)
Fixpoint parse_loop (argv : list bytes) : P unit :=
  match argv with
  | [] => mret tt
  | tok :: rest =>
      path ← get_path;
      i ← find_match path tok;
      path ← get_path;
      parent ← get_node path;
      match_ ← get_node (i :: path);
      _ ← p_propagate (_sf_validate_pre_increment parent i match_);
      match conf_type (node_conf match_) with
      | TPBCLI_ARG_CMD =>
          _ ← edit mark (i :: path);
          _ ← push path i;
          if has_flag TPBCLI_ARGF_DELEGATE_SUBCMD match_ then mret tt else parse_loop rest
      | TPBCLI_ARG_FLAG =>
          _ ← run_parse_fn match_ None;
          _ ← edit mark (i :: path);
          parse_loop rest
      | TPBCLI_ARG_OPT =>
          match rest with
          | [] => cli_fail
          | value :: rest' =>
              _ ← select_opt path i match_ value;
              parse_loop rest'
          end
      end
  end.

(** ** After the loop *)

Definition missing (c : argnode) : bool :=
  has_flag TPBCLI_ARGF_MANDATORY c && negb (is_set c) && negb (has_flag TPBCLI_ARGF_PRESET c).
Definition _sf_mandatory_fail (parent : argnode) : P unit :=
  if existsb missing (children parent) then cli_fail else mret tt.

Fixpoint check_stack (path : list nat) : P unit :=
  n ← get_node path;
  _ ← p_propagate (_sf_mandatory_fail n);
  match path with [] => mret tt | _ :: path' => check_stack path' end.

(** The innermost subcommand with a handler, the root excepted. *)
Fixpoint run_subcommand (path : list nat) : P unit :=
  match path with
  | [] => mret tt
  | _ :: path' =>
      n ← get_node path;
      match conf_type (node_conf n), conf_parse (node_conf n) with
      | TPBCLI_ARG_CMD, Some f => run_fn (f None)
      | _, _ => run_subcommand path'
      end
  end.

Definition _sf_post_loop : P unit :=
  root ← get_node [];
  if negb (bool_decide (children root = [])) && negb (existsb is_set (children root))
  then exit_on_help
  else
    path ← get_path;
    _ ← check_stack path;
    run_subcommand path.

(** The status and the tree on return, and the application; [argv] is the array
    with the name of the program first, and the tree and it are not null. *)
Definition tpbcli_parse_args (root : argnode) (argv : list bytes) (u : U) : outcome unit * pstate :=
  let root := _sf_reset_parse_state root in
  let s := mkP root [] u in
  if _sf_resolve_conflict_opts_validate None root
  then (_ ← parse_loop (tail argv); _sf_post_loop) s
  else cli_fail s.

(** The path of the first node in pre-order at depth [target] that has the name;
    [depth] is that of [n]. *)
Fixpoint _sf_find_arg_dfs (n : argnode) (depth target : nat) (name : bytes) : option (list nat) :=
  let 'Node c _ _ _ cs := n in
  if (depth =? target)%nat && (opt_is (conf_name c) name || opt_is (conf_short c) name) then Some []
  else (fix search (i : nat) (l : list argnode) : option (list nat) :=
          match l with
          | [] => None
          | c :: l' =>
              match _sf_find_arg_dfs c (S depth) target name with
              | Some p => Some (i :: p)
              | None => search (S i) l'
              end
          end) 0%nat cs.

Definition tpbcli_find_arg (start : argnode) (start_depth : nat) (name : bytes) (offset : nat)
  : option (list nat) :=
  _sf_find_arg_dfs start start_depth (start_depth + offset) name.

End Tree.
