(* ===== verification/CliArgpProps.v ===== *)
(** * Properties of the command-line parser

    An invariant of the marks of the tree that every run of [tpbcli_parse_args]
    keeps, whatever [argv] and the handlers do, and what holds on success. *)

From S2P Require Import Prelude Errors CLib CliArgp.
From stdpp Require Import options.

#[local] Arguments bool_decide : simpl never.

(** ** Trees *)

Section Props.
Context {U : Type}.
Abbreviation argconf := (tpbcli_argconf U).
Abbreviation argnode := (tpbcli_argnode U).
Implicit Types (n a b c : argnode) (cs : list argnode) (p : list nat).

Lemma argnode_nested_ind (R : argnode → Prop) :
  (∀ (conf : argconf) s k v cs, Forall R cs → R (Node conf s k v cs)) → ∀ n, R n.
Proof.
  intros H. fix IH 1. intros [c s k v cs]. apply H.
  induction cs as [|x cs IHcs]; constructor; [apply IH|apply IHcs].
Qed.

(** A property of the children of every node. *)
Inductive every (Q : list argnode → Prop) : argnode → Prop :=
  every_node n : Q (children n) → Forall (every Q) (children n) → every Q n.

(** Equal up to the value and what is below. *)
Definition same_marks a b : Prop :=
  node_conf a = node_conf b ∧ is_set a = is_set b ∧ chosen_count a = chosen_count b.
Lemma same_marks_refl a : same_marks a a.
Proof. done. Qed.
#[local] Hint Resolve same_marks_refl : core.

Lemma with_children_marks cs n : same_marks n (with_children cs n).
Proof. by destruct n. Qed.
Lemma children_with_children cs n : children (with_children cs n) = cs.
Proof. by destruct n. Qed.
Lemma with_children_id n : with_children (children n) n = n.
Proof. by destruct n. Qed.

(** A child by its path, outermost index first. *)
Fixpoint node_down n p : option argnode :=
  match p with
  | [] => Some n
  | i :: p' => c ← children n !! i; node_down c p'
  end.
Lemma node_down_snoc n p i :
  node_down n (p ++ [i]) = c ← node_down n p; children c !! i.
Proof.
  revert n. induction p as [|j p IH]; intros n; cbn.
  - by destruct (children n !! i).
  - destruct (children n !! j) as [c|]; cbn; [apply IH|done].
Qed.
Lemma node_at_down root p : node_at root p = node_down root (reverse p).
Proof.
  induction p as [|i p IH]; [done|]. rewrite reverse_cons, node_down_snoc, <- IH. done.
Qed.

Lemma alter_eq (f g : argnode → argnode) i cs : (∀ c, f c = g c) → alter f i cs = alter g i cs.
Proof.
  intros Hf. revert i. induction cs as [|c cs IH]; intros [|i]; [done..|by cbn; rewrite Hf|].
  cbn. f_equal. apply IH.
Qed.
Lemma update_down_snoc f p i n :
  update_down f (p ++ [i]) n = update_down (λ c, with_children (alter f i (children c)) c) p n.
Proof.
  revert n. induction p as [|j p IH]; intros n; cbn; [done|].
  f_equal. apply alter_eq, IH.
Qed.
Lemma update_at_cons f i p root :
  update_at f (i :: p) root = update_at (λ c, with_children (alter f i (children c)) c) p root.
Proof. unfold update_at. by rewrite reverse_cons, update_down_snoc. Qed.

(** An update that keeps the marks of its node changes no child list above it but
    for what is below the marks. *)
Lemma update_down_marks f p n :
  (∀ c, same_marks c (f c)) → same_marks n (update_down f p n).
Proof. intros Hf. destruct p as [|i p]; [apply Hf|]. apply with_children_marks. Qed.
Lemma alter_marks f i cs :
  (∀ c, same_marks c (f c)) → Forall2 same_marks cs (alter f i cs).
Proof.
  intros Hf. revert i. induction cs as [|c cs IH]; intros [|i]; cbn; constructor; [apply Hf| |done|apply IH].
  by apply Forall_Forall2_diag, Forall_true.
Qed.

Section Every.
Context (Q : list argnode → Prop).
Hypothesis Q_marks : ∀ cs cs', Forall2 same_marks cs cs' → Q cs → Q cs'.

Lemma every_update_down f p n :
  (∀ c, same_marks c (f c)) →
  (∀ c, node_down n p = Some c → every Q c → every Q (f c)) →
  every Q n → every Q (update_down f p n).
Proof using Type*.
  intros Hf. revert n. induction p as [|i p IH]; intros n Hc Hn; cbn; [by apply Hc|].
  inversion_clear Hn as [? Hq Hcs]. constructor; rewrite children_with_children.
  - eapply Q_marks; [|done]. apply alter_marks. intros c. by apply update_down_marks.
  - apply Forall_alter; [done|]. intros c Ei Hev. apply IH; [|done].
    intros d Hd. apply Hc. cbn. by rewrite Ei.
Qed.
End Every.

(** The nodes along a path below [n] are selected. *)
Fixpoint selected_down n p : Prop :=
  match p with
  | [] => True
  | i :: p' => ∃ c, children n !! i = Some c ∧ is_set c = true ∧ selected_down c p'
  end.
Definition selected_path root p : Prop := selected_down root (reverse p).

Lemma selected_down_app n p i :
  selected_down n (p ++ [i]) ↔
  selected_down n p ∧ ∃ d, node_down n p = Some d ∧ ∃ c, children d !! i = Some c ∧ is_set c = true.
Proof.
  revert n. induction p as [|j p IH]; intros n; cbn; [naive_solver|].
  setoid_rewrite IH. split.
  - intros (c & Ej & Hs & Hp & d & Hd & Hc). split; [by exists c|]. exists d. by rewrite Ej.
  - intros [(c & Ej & Hs & Hp) (d & Hd & Hc)]. exists c. rewrite Ej in Hd. cbn in Hd. naive_solver.
Qed.
Lemma selected_path_cons root i p :
  selected_path root (i :: p) ↔
  selected_path root p ∧ ∃ d, node_at root p = Some d ∧ ∃ c, children d !! i = Some c ∧ is_set c = true.
Proof. unfold selected_path. rewrite reverse_cons, node_at_down. apply selected_down_app. Qed.
Lemma selected_node root p : selected_path root p → is_Some (node_at root p).
Proof.
  destruct p as [|i p]; [by eexists|]. intros (_ & d & Hd & c & Hc & _)%selected_path_cons. exists c.
  cbn. by rewrite Hd.
Qed.

Lemma node_down_update f p n : node_down (update_down f p n) p = f <$> node_down n p.
Proof.
  revert n. induction p as [|i p IH]; intros n; cbn; [done|].
  rewrite children_with_children, list_lookup_alter_eq. destruct (children n !! i) as [c|]; cbn; [apply IH|done].
Qed.
Lemma node_at_update (f : argnode → argnode) p root : node_at (update_at f p root) p = f <$> node_at root p.
Proof. rewrite !node_at_down. apply node_down_update. Qed.

Lemma selected_down_update f p n :
  (∀ c, same_marks c (f c)) → selected_down n p → selected_down (update_down f p n) p.
Proof.
  intros Hf. revert n. induction p as [|i p IH]; intros n; cbn; [done|].
  intros (c & Ei & Hs & Hp). rewrite children_with_children, list_lookup_alter_eq, Ei. cbn.
  eexists. split; [done|]. split; [|by apply IH].
  destruct (update_down_marks f p c Hf) as (_ & <- & _). done.
Qed.
Lemma selected_path_update f p root :
  (∀ c, same_marks c (f c)) → selected_path root p → selected_path (update_at f p root) p.
Proof. apply selected_down_update. Qed.

(** ** The invariant *)

(** [a] lists the name of [b] among its conflicts. *)
Definition lists_name a b : Prop := Exists (λ nm, named nm b = true) (conf_conflicts (node_conf a)).
(** No name is that of two children. *)
Definition named_apart cs : Prop :=
  ∀ nm i j a b, cs !! i = Some a → cs !! j = Some b → named nm a = true → named nm b = true → i = j.
Definition handlers_defined c : Prop :=
  (∀ f v u, conf_parse (node_conf c) = Some f → (f v u).1 ≠ UB)
  ∧ (∀ f u, conf_help (node_conf c) = Some f → (f u).1 ≠ UB).

Definition child_ok c : Prop :=
  0 ≤ chosen_count c ∧ (is_set c = true ↔ 0 < chosen_count c)
  ∧ (0 < conf_max (node_conf c) → chosen_count c ≤ conf_max (node_conf c))
  ∧ (conf_max (node_conf c) = 0 → conf_parse (node_conf c) = None → is_set c = false).
Definition compatible a b : Prop :=
  has_flag TPBCLI_ARGF_EXCLUSIVE a = false ∧ has_flag TPBCLI_ARGF_EXCLUSIVE b = false
  ∧ ¬ (lists_name a b ∧ lists_name b a).
(** No two children that exclude each other are selected. *)
Definition children_ok cs : Prop :=
  Forall child_ok cs
  ∧ ∀ i j a b, i ≠ j → cs !! i = Some a → cs !! j = Some b → is_set a = true → is_set b = true →
      conf_max (node_conf a) ≠ 0 → conf_max (node_conf b) ≠ 0 → compatible a b.

Lemma named_conf nm a b : node_conf a = node_conf b → named nm a = named nm b.
Proof. unfold named. by intros ->. Qed.
Lemma lists_name_conf a b a' b' :
  node_conf a = node_conf a' → node_conf b = node_conf b' → lists_name a b → lists_name a' b'.
Proof.
  intros Ha Hb. unfold lists_name. rewrite Ha. intros H. eapply Exists_impl; [exact H|]. intros nm Hn. cbn in *. by rewrite <- (named_conf nm b b').
Qed.
Lemma compatible_conf a b a' b' :
  node_conf a = node_conf a' → node_conf b = node_conf b' → compatible a b → compatible a' b'.
Proof.
  intros Ha Hb (H1 & H2 & H3). unfold compatible, has_flag in *. rewrite <- Ha, <- Hb. split_and!; [done..|].
  intros [H4 H5]. apply H3. split; eapply lists_name_conf; [| |exact H4| | |exact H5]; done.
Qed.
Lemma compatible_sym a b : compatible a b → compatible b a.
Proof. intros (?&?&?). repeat split; [done..|]. naive_solver. Qed.

Lemma named_apart_confs cs cs' :
  Forall2 (λ a b, node_conf a = node_conf b) cs cs' → named_apart cs → named_apart cs'.
Proof.
  intros H Hap nm i j a b Hi Hj Ha Hb.
  destruct (Forall2_lookup_r _ _ _ _ _ H Hi) as (a' & Hi' & Ea).
  destruct (Forall2_lookup_r _ _ _ _ _ H Hj) as (b' & Hj' & Eb).
  apply (Hap nm i j a' b'); [done..| |]; [by rewrite (named_conf nm a' a)|by rewrite (named_conf nm b' b)].
Qed.

Section Invariant.
(** Whether all handlers are defined. *)
Context (safe : bool).

Definition Q cs : Prop :=
  named_apart cs ∧ (safe = true → Forall handlers_defined cs) ∧ children_ok cs.

Lemma Q_marks cs cs' : Forall2 same_marks cs cs' → Q cs → Q cs'.
Proof.
  intros H (Hap & Hd & Hok & Hpair).
  assert (Hl : ∀ i a', cs' !! i = Some a' → ∃ a, cs !! i = Some a ∧ same_marks a a').
  { intros i a' Hi. destruct (Forall2_lookup_r _ _ _ _ _ H Hi) as (a & ? & ?). by exists a. }
  split; [|split; [|split]].
  - eapply named_apart_confs; [|done]. eapply Forall2_impl; [done|]. by intros ?? [? _].
  - intros Hs. apply Forall_lookup. intros i a' (a & Hi & Ha & _)%Hl.
    pose proof (Forall_lookup_1 _ _ _ _ (Hd Hs) Hi) as Hda. unfold handlers_defined in *. by rewrite <- Ha.
  - apply Forall_lookup. intros i a' (a & Hi & Ha & Hs & Hc)%Hl.
    pose proof (Forall_lookup_1 _ _ _ _ Hok Hi) as Hka. unfold child_ok in *. by rewrite <- Ha, <- Hs, <- Hc.
  - intros i j a' b' Hij (a & Hi & Ha & Hsa & _)%Hl (b & Hj & Hb & Hsb & _)%Hl.
    rewrite <- Hsa, <- Hsb, <- Ha, <- Hb. intros. eapply compatible_conf; [done..|]. by eapply (Hpair i j).
Qed.

(** What the checks before a selection leave. *)
Definition selectable cs (i : nat) m : Prop :=
  _sf_sibling_exclusive_conflict cs i m = false
  ∧ Forall (λ nm, match find (named nm) cs with Some o => is_set o = false | None => True end)
           (conf_conflicts (node_conf m))
  ∧ conf_max (node_conf m) ≠ 0
  ∧ (0 < conf_max (node_conf m) → chosen_count m < conf_max (node_conf m)).

Lemma not_exclusive cs i j m b :
  _sf_sibling_exclusive_conflict cs i m = false → i ≠ j → cs !! j = Some b → is_set b = true →
  has_flag TPBCLI_ARGF_EXCLUSIVE m = false ∧ has_flag TPBCLI_ARGF_EXCLUSIVE b = false.
Proof.
  unfold _sf_sibling_exclusive_conflict. intros He Hij Hj Hb.
  assert (Hin : b ∈ take i cs ++ drop (S i) cs).
  { apply elem_of_app. destruct (decide (j < i)%nat).
    - left. apply list_elem_of_lookup. exists j. by rewrite lookup_take_lt.
    - right. apply list_elem_of_lookup. exists (j - S i)%nat. rewrite lookup_drop.
      by replace (S i + (j - S i))%nat with j by lia. }
  apply not_true_iff_false in He. rewrite existsb_exists in He.
  assert (Hx : set_exclusive m b ≠ true).
  { intros Hx. apply He. exists b. split; [by apply list_elem_of_In|done]. }
  unfold set_exclusive in Hx. rewrite Hb in Hx. cbn in Hx.
  by destruct (has_flag _ m), (has_flag _ b).
Qed.

Lemma not_listed cs j m b :
  named_apart cs →
  Forall (λ nm, match find (named nm) cs with Some o => is_set o = false | None => True end)
         (conf_conflicts (node_conf m)) →
  cs !! j = Some b → is_set b = true → ¬ lists_name m b.
Proof.
  intros Hap Hc Hj Hb Hl. unfold lists_name in Hl. apply Exists_exists in Hl as (nm & Hnm & Hn).
  rewrite Forall_forall in Hc. specialize (Hc nm Hnm). destruct (find (named nm) cs) as [o|] eqn:Ef.
  - apply find_some in Ef as [Hin Ho]. apply list_elem_of_In, list_elem_of_lookup in Hin as [k Hk].
    assert (k = j) as -> by by eapply Hap. rewrite Hj in Hk. injection Hk as <-. congruence.
  - assert (Hin : In b cs) by by apply list_elem_of_In, list_elem_of_lookup; eexists.
    pose proof (find_none _ _ Ef b Hin). congruence.
Qed.

Lemma child_ok_mark m :
  child_ok m →
  (conf_max (node_conf m) = 0 → conf_parse (node_conf m) ≠ None) →
  (0 < conf_max (node_conf m) → chosen_count m < conf_max (node_conf m)) → child_ok (mark m).
Proof.
  destruct m as [c b k v cs]. unfold child_ok. cbn. intros (H1 & H2 & H3 & H4) Hz Hm.
  split_and!; [lia| |intros; specialize (Hm ltac:(done)); lia|].
  - split; [lia|done].
  - intros Hmax Hp. by destruct (Hz Hmax).
Qed.

Lemma Q_alter f i cs m :
  Q cs → cs !! i = Some m → node_conf (f m) = node_conf m → child_ok (f m) →
  (∀ j b, i ≠ j → cs !! j = Some b → is_set b = true → is_set (f m) = true →
     conf_max (node_conf m) ≠ 0 → conf_max (node_conf b) ≠ 0 → compatible m b) →
  Q (alter f i cs).
Proof.
  intros (Hap & Hd & Hok & Hpair) Hi Hconf Hm Hnew.
  assert (Hl : ∀ j b', alter f i cs !! j = Some b' →
                 (i = j ∧ b' = f m) ∨ (i ≠ j ∧ cs !! j = Some b')).
  { intros j b'. destruct (decide (i = j)) as [<-|Hij].
    - rewrite list_lookup_alter_eq, Hi. intros [= <-]. by left.
    - rewrite list_lookup_alter_ne by done. by right. }
  split; [|split; [|split]].
  - eapply named_apart_confs; [|exact Hap]. apply Forall2_same_length_lookup_2; [by rewrite length_alter|].
    intros j a b' Ha [[<- ->]|[_ Hb]]%Hl; [|by simplify_eq]. rewrite Hi in Ha. by injection Ha as <-.
  - intros Hs. apply Forall_lookup. intros j b' [[<- ->]|[_ Hb]]%Hl.
    + unfold handlers_defined. rewrite Hconf. by apply (Forall_lookup_1 _ _ _ _ (Hd Hs) Hi).
    + by apply (Forall_lookup_1 _ _ _ _ (Hd Hs) Hb).
  - apply Forall_lookup. intros j b' [[<- ->]|[_ Hb]]%Hl; [done|by apply (Forall_lookup_1 _ _ _ _ Hok Hb)].
  - intros j k a b Hjk [[<- ->]|[Hj Ha]]%Hl [[<- ->]|[Hk Hb]]%Hl Hsa Hsb Hma Hmb; [done| | |by apply (Hpair j k)].
    + eapply compatible_conf; [symmetry; exact Hconf|done|]. rewrite Hconf in Hma. by eapply Hnew.
    + eapply compatible_conf; [done|symmetry; exact Hconf|]. apply compatible_sym. rewrite Hconf in Hmb.
      by eapply Hnew.
Qed.

(** Selecting a child that passed the checks. *)
Lemma Q_mark_selectable cs i m : Q cs → cs !! i = Some m → selectable cs i m → Q (alter mark i cs).
Proof.
  intros Hq Hi (He & Hc & Hz & Hm). destruct Hq as (Hap & Hd & Hok & Hpair).
  eapply Q_alter; [done|exact Hi|by destruct m| |].
  - apply child_ok_mark; [by apply (Forall_lookup_1 _ _ _ _ Hok Hi)|done|done].
  - intros j b Hij Hj Hb _ _ _. destruct (not_exclusive cs i j m b) as [H1 H2]; [done..|].
    split_and!; [done..|]. intros [H3 _]. by eapply (not_listed cs j m b).
Qed.
(** Selecting a child that cannot be chosen but has a handler. *)
Lemma Q_mark_zero cs j h :
  Q cs → cs !! j = Some h → conf_max (node_conf h) = 0 → conf_parse (node_conf h) ≠ None →
  Q (alter mark j cs).
Proof.
  intros Hq Hj Hz Hp. destruct Hq as (Hap & Hd & Hok & Hpair).
  eapply Q_alter; [done|exact Hj|by destruct h| |done].
  apply child_ok_mark; [by apply (Forall_lookup_1 _ _ _ _ Hok Hj)|done|lia].
Qed.

(** Resetting. *)
Lemma every_reset_weak n :
  every (λ cs, named_apart cs ∧ (safe = true → Forall handlers_defined cs)) n →
  every Q (_sf_reset_parse_state n).
Proof.
  induction n as [conf s k v cs IH] using argnode_nested_ind. intros Hn. inversion_clear Hn as [? [Hap Hd] Hcs].
  cbn [children _sf_reset_parse_state] in *.
  assert (Hl : ∀ i c', map _sf_reset_parse_state cs !! i = Some c' →
                 ∃ c, cs !! i = Some c ∧ node_conf c' = node_conf c ∧ is_set c' = false ∧ chosen_count c' = 0).
  { intros i c'. rewrite list_lookup_fmap. destruct (cs !! i) as [[c b k' v' cs']|]; [|done].
    intros [= <-]. eexists. split; done. }
  constructor; cbn [children].
  - split; [|split; [|split]].
    + eapply named_apart_confs; [|exact Hap]. apply Forall2_same_length_lookup_2; [by rewrite length_map|].
      intros i a a' Ha (c & Hc & -> & _)%Hl. rewrite Ha in Hc. by injection Hc as <-.
    + intros Hs. apply Forall_lookup. intros i c' (c & Hc & He & _)%Hl. unfold handlers_defined. rewrite He.
      by apply (Forall_lookup_1 _ _ _ _ (Hd Hs) Hc).
    + apply Forall_lookup. intros i c' (c & Hc & He & Hb & Hk)%Hl. unfold child_ok. rewrite Hb, Hk.
      split_and!; [lia| |lia|done]. split; [done|lia].
    + intros i j a b _ (? & _ & _ & Hs & _)%Hl. congruence.
  - apply Forall_map, Forall_lookup. intros i c Hc. apply (Forall_lookup_1 _ _ _ _ IH Hc).
    by apply (Forall_lookup_1 _ _ _ _ Hcs Hc).
Qed.
Lemma every_mono (Q1 Q2 : list argnode → Prop) n : (∀ cs, Q1 cs → Q2 cs) → every Q1 n → every Q2 n.
Proof.
  intros H. induction n as [conf s k v cs IH] using argnode_nested_ind. intros Hn.
  inversion_clear Hn as [? Hq Hcs]. constructor; [by apply H|]. cbn [children] in *.
  apply Forall_lookup. intros i c Hc.
  apply (Forall_lookup_1 _ _ _ _ IH Hc). by apply (Forall_lookup_1 _ _ _ _ Hcs Hc).
Qed.
Lemma every_reset n : every Q n → every Q (_sf_reset_parse_state n).
Proof. intros Hn. apply every_reset_weak. eapply every_mono; [|exact Hn]. by intros cs (? & ? & _). Qed.
Lemma every_reset_children n :
  every Q n → every Q (with_children (map _sf_reset_parse_state (children n)) n).
Proof.
  intros Hn. destruct n as [conf s k v cs]. pose proof (every_reset _ Hn) as Hr.
  inversion_clear Hr as [? Hq Hcs]. by constructor.
Qed.
Lemma every_node_at root p n : every Q root → node_at root p = Some n → every Q n.
Proof.
  intros Hr. rewrite node_at_down. generalize (reverse p). intros q. revert root Hr.
  induction q as [|i q IH]; intros root Hr; cbn; [by intros [= <-]|].
  destruct (children root !! i) as [c|] eqn:Ei; [|done]. cbn. apply IH.
  inversion_clear Hr as [? _ Hcs]. by apply (Forall_lookup_1 _ _ _ _ Hcs Ei).
Qed.
Lemma every_mark m : every Q m → every Q (mark m).
Proof. destruct m. intros Hm. inversion_clear Hm. by constructor. Qed.
Lemma every_alter f i n :
  (∀ c, children n !! i = Some c → every Q c → every Q (f c)) → Q (alter f i (children n)) → every Q n →
  every Q (with_children (alter f i (children n)) n).
Proof.
  intros Hf Hq Hn. inversion_clear Hn as [? _ Hcs]. constructor; rewrite children_with_children; [done|].
  apply Forall_alter; [done|]. intros c. apply Hf.
Qed.

(** ** Runs of the parser *)

Definition parse_ok (s : pstate) : Prop := every Q (ps_root s) ∧ selected_path (ps_root s) (ps_path s).

(** Every result of [m] from [s] keeps the invariant, and [Φ] holds of the normal
    ones; it is undefined only when a handler may be. *)
Definition pwp {A} (m : P A) (Φ : A → pstate → Prop) (s : pstate) : Prop :=
  match m s with
  | (Ok x, s') => parse_ok s' ∧ Φ x s'
  | (Err _, s') => parse_ok s'
  | (UB, s') => parse_ok s' ∧ safe = false
  end.

Lemma pwp_ret {A} (x : A) (Φ : A → pstate → Prop) s : parse_ok s → Φ x s → pwp (mret x) Φ s.
Proof. done. Qed.
Lemma pwp_bind {A B} (m : P A) (k : A → P B) Φ s :
  pwp m (λ x s', parse_ok s' → pwp (k x) Φ s') s → pwp (m ≫= k) Φ s.
Proof. unfold pwp, mbind, P_bind. destruct (m s) as [[a|e|] s']; [|done..]. intros [? H]. by apply H. Qed.
Lemma pwp_mono {A} (m : P A) (Φ Ψ : A → pstate → Prop) s :
  pwp m Φ s → (∀ x s', parse_ok s' → Φ x s' → Ψ x s') → pwp m Ψ s.
Proof. unfold pwp. destruct (m s) as [[a|e|] s']; naive_solver. Qed.
Lemma pwp_fail {A} (Φ : A → pstate → Prop) s : parse_ok s → pwp cli_fail Φ s.
Proof. done. Qed.
Lemma pwp_exit {A} (Φ : A → pstate → Prop) s : parse_ok s → pwp exit_on_help Φ s.
Proof. done. Qed.
Lemma pwp_propagate {A} (m : P A) Φ s : pwp m Φ s → pwp (p_propagate m) Φ s.
Proof.
  unfold pwp, p_propagate. destruct (m s) as [[x|e|] s1]; [done| |done]. cbn. by destruct (e =? _).
Qed.
Lemma pwp_get_path (Φ : list nat → pstate → Prop) s : parse_ok s → Φ (ps_path s) s → pwp get_path Φ s.
Proof. done. Qed.
Lemma pwp_get_node p n (Φ : argnode → pstate → Prop) s :
  parse_ok s → node_at (ps_root s) p = Some n → Φ n s → pwp (get_node p) Φ s.
Proof. unfold pwp, get_node. by intros ? ->. Qed.
Lemma pwp_set_path p (Φ : unit → pstate → Prop) s :
  parse_ok s → selected_path (ps_root s) p → Φ tt (mkP (ps_root s) p (ps_user s)) → pwp (set_path p) Φ s.
Proof. intros [? ?] ? ?. by split; [split|]. Qed.

(** Edits at the top of the stack. *)
Lemma pwp_edit f (Φ : unit → pstate → Prop) s n :
  parse_ok s → node_at (ps_root s) (ps_path s) = Some n → (∀ c, same_marks c (f c)) →
  every Q (f n) → Φ tt (mkP (update_at f (ps_path s) (ps_root s)) (ps_path s) (ps_user s)) →
  pwp (edit f (ps_path s)) Φ s.
Proof.
  intros [Hr Hp] Hn Hf Hq HΦ. split; [|done]. split; cbn; [|by apply selected_path_update].
  apply every_update_down; [exact Q_marks|done| |done]. intros c. rewrite <- node_at_down, Hn.
  by intros [= <-].
Qed.
(** Edits at one of its children. *)
Lemma pwp_edit_child f i (Φ : unit → pstate → Prop) s n :
  parse_ok s → node_at (ps_root s) (ps_path s) = Some n →
  (∀ c, children n !! i = Some c → every Q c → every Q (f c)) → Q (alter f i (children n)) →
  Φ tt (mkP (update_at f (i :: ps_path s) (ps_root s)) (ps_path s) (ps_user s)) →
  pwp (edit f (i :: ps_path s)) Φ s.
Proof.
  intros Hs Hn Hf Hq HΦ. rewrite update_at_cons in HΦ. unfold pwp, edit. rewrite update_at_cons.
  apply (pwp_edit (λ c, with_children (alter f i (children c)) c) Φ s n); [done..| | |done].
  - intros c. apply with_children_marks.
  - apply every_alter; [done..|]. destruct Hs. by eapply every_node_at.
Qed.

(** Callbacks only change the application. *)
Lemma pwp_run_fn f (Φ : unit → pstate → Prop) s :
  parse_ok s → (safe = true → ∀ u, (f u).1 ≠ UB) →
  (∀ u, Φ tt (mkP (ps_root s) (ps_path s) u)) → pwp (run_fn f) Φ s.
Proof.
  intros [Hr Hp] Hf HΦ. unfold pwp, run_fn.
  destruct (f (ps_user s)) as [r u] eqn:E. destruct r as [[]|e|]; split; [done|apply HΦ|done..|].
  destruct safe eqn:Es; [|done]. specialize (Hf eq_refl (ps_user s)). by rewrite E in Hf.
Qed.
Lemma pwp_run_parse n v (Φ : unit → pstate → Prop) s :
  parse_ok s → (safe = true → handlers_defined n) →
  (∀ u, Φ tt (mkP (ps_root s) (ps_path s) u)) → pwp (run_parse_fn n v) Φ s.
Proof.
  intros Hs Hh HΦ. unfold run_parse_fn. destruct (conf_parse (node_conf n)) as [f|] eqn:Ef.
  - assert (Hw : pwp (run_fn (f v)) Φ s).
    { apply pwp_run_fn; [done| |done]. intros Hsafe u. by apply (proj1 (Hh Hsafe)). }
    unfold pwp in *. by destruct (run_fn (f v) s) as [[a|e|] s'].
  - apply pwp_ret; [done|]. destruct s. apply HΦ.
Qed.

Lemma at_child s n i m :
  parse_ok s → node_at (ps_root s) (ps_path s) = Some n → children n !! i = Some m →
  Q (children n) ∧ every Q m ∧ (safe = true → handlers_defined m)
  ∧ node_at (ps_root s) (i :: ps_path s) = Some m.
Proof.
  intros [Hr _] Hn Hi. pose proof (every_node_at _ _ _ Hr Hn) as Hq. inversion_clear Hq as [? Hqn Hcs].
  split_and!; [done|by apply (Forall_lookup_1 _ _ _ _ Hcs Hi)| |cbn; by rewrite Hn].
  intros Hs. by apply (Forall_lookup_1 _ _ _ _ (proj1 (proj2 Hqn) Hs) Hi).
Qed.

Lemma pwp_validate n i m (Φ : unit → pstate → Prop) s :
  parse_ok s → (safe = true → handlers_defined m) →
  (selectable (children n) i m → Φ tt s) → pwp (_sf_validate_pre_increment n i m) Φ s.
Proof.
  intros Hs Hh HΦ. unfold _sf_validate_pre_increment.
  destruct (_sf_sibling_exclusive_conflict _ _ _) eqn:He; [done|].
  destruct (_sf_sibling_conflict_opts_hit _ _) eqn:Hc; [done|].
  destruct (Z.eqb_spec (conf_max (node_conf m)) 0) as [Hz|Hz].
  { destruct (conf_help (node_conf m)) as [h|] eqn:Eh; [|done].
    apply pwp_bind, pwp_run_fn; [done| |]; [intros Hsafe u; by apply (proj2 (Hh Hsafe))|by intros u ?]. }
  destruct ((0 <? _) && _) eqn:Hm; [done|]. apply pwp_ret; [done|]. apply HΦ. split_and!; [done| |done|lia].
  unfold _sf_sibling_conflict_opts_hit in Hc. apply not_true_iff_false in Hc. rewrite existsb_exists in Hc.
  apply Forall_forall. intros nm Hnm. apply list_elem_of_In in Hnm.
  destruct (find (named nm) (children n)) as [o|] eqn:Ef; [|done]. apply not_true_iff_false. intros Ho.
  apply Hc. exists nm. split; [done|]. cbn. by rewrite Ef.
Qed.

Lemma find_pos_Some (f : argnode → bool) cs i : find_pos f cs = Some i → ∃ c, cs !! i = Some c ∧ f c = true.
Proof.
  revert i. induction cs as [|c cs IH]; intros i; cbn; [done|]. destruct (f c) eqn:E; [intros [= <-]; eauto|].
  destruct (find_pos f cs) as [j|]; [|done]. intros [= <-]. by apply IH.
Qed.

Lemma pwp_find_match tok (Φ : nat → pstate → Prop) s :
  parse_ok s →
  (∀ s' i n m, parse_ok s' → node_at (ps_root s') (ps_path s') = Some n → children n !! i = Some m →
     Φ i s') →
  pwp (find_match (ps_path s) tok) Φ s.
Proof.
  destruct s as [root path u]. cbn. revert root.
  induction path as [|k path IH]; intros root Hs HΦ; cbn [find_match];
    (destruct (selected_node _ _ (proj2 Hs)) as [n Hn]; cbn in Hn);
    (apply pwp_bind, (pwp_get_node _ n); [done..|]; intros _);
    (destruct (_sf_find_child n tok) as [i|] eqn:Ei;
     [apply pwp_ret; [done|]; apply find_pos_Some in Ei as (m & Hm & _); by eapply HΦ|]);
    [by apply pwp_fail|].
  apply pwp_bind, (pwp_edit _ _ (mkP root (k :: path) u) n); [done|done| | |].
  { intros c. apply with_children_marks. }
  { apply every_reset_children. destruct Hs. by apply (every_node_at root (k :: path)). }
  cbn. intros Hs'. apply pwp_bind, pwp_set_path; [done| |].
  { by apply (selected_path_cons _ k path), (proj2 Hs'). }
  cbn. intros Hs''. by apply IH.
Qed.

Lemma pwp_push i n m (Φ : unit → pstate → Prop) s :
  parse_ok s → node_at (ps_root s) (ps_path s) = Some n → children n !! i = Some m → is_set m = true →
  Φ tt (mkP (ps_root s) (i :: ps_path s) (ps_user s)) → pwp (push (ps_path s) i) Φ s.
Proof.
  intros Hs Hn Hi Hm HΦ. unfold push. destruct (_ <=? _)%nat; [by apply pwp_fail|].
  apply pwp_set_path; [done| |done]. apply selected_path_cons. split; [by destruct Hs|].
  exists n. split; [done|]. by exists m.
Qed.

Lemma selectable_marks cs cs' i m m' :
  Forall2 same_marks cs cs' → same_marks m m' → selectable cs i m → selectable cs' i m'.
Proof.
  intros H (Hc & Hs & Hk) (He & Hn & Hz). unfold selectable. rewrite <- Hc, <- Hk.
  split; [|split; [|done]].
  - unfold _sf_sibling_exclusive_conflict, set_exclusive, has_flag in *. rewrite <- Hc.
    assert (Hx : Forall2 same_marks (take i cs ++ drop (S i) cs) (take i cs' ++ drop (S i) cs')).
    { apply Forall2_app; [by apply Forall2_take|by apply Forall2_drop]. }
    rewrite <- He. clear -Hx. induction Hx as [|a b l l' (Ha & Hb & _) _ IH]; [done|]. cbn. by rewrite Ha, Hb, IH.
  - eapply Forall_impl; [exact Hn|]. intros nm. cbn. clear -H.
    induction H as [|a b l l' (Ha & Hb & _) _ IH]; [done|]. cbn. rewrite (named_conf nm a b Ha).
    destruct (named nm b); [by rewrite Hb|done].
Qed.

(** The state after the marks of the [i]-th child of the top are set. *)
Definition marked (i : nat) (s : pstate (U := U)) : pstate :=
  mkP (update_at mark (i :: ps_path s) (ps_root s)) (ps_path s) (ps_user s).
Lemma marked_top i n s :
  node_at (ps_root s) (ps_path s) = Some n →
  node_at (ps_root (marked i s)) (ps_path (marked i s)) = Some (with_children (alter mark i (children n)) n).
Proof. intros Hn. unfold marked. cbn [ps_root ps_path]. by rewrite update_at_cons, node_at_update, Hn. Qed.

Lemma pwp_mark i n m (Φ : unit → pstate → Prop) s :
  parse_ok s → node_at (ps_root s) (ps_path s) = Some n → children n !! i = Some m →
  selectable (children n) i m → Φ tt (marked i s) → pwp (edit mark (i :: ps_path s)) Φ s.
Proof.
  intros Hs Hn Hi Hsel HΦ. destruct (at_child _ _ _ _ Hs Hn Hi) as (Hq & _ & _ & _).
  apply (pwp_edit_child mark i Φ s n); [done|done|intros c _; apply every_mark| |exact HΦ].
  by eapply Q_mark_selectable.
Qed.

(** Marking, then entering, a child. *)
Lemma pwp_mark_push i n m (Φ : unit → pstate → Prop) s :
  parse_ok s → node_at (ps_root s) (ps_path s) = Some n → children n !! i = Some m →
  selectable (children n) i m → (∀ s', Φ tt s') →
  pwp (_ ← edit mark (i :: ps_path s); push (ps_path s) i) Φ s.
Proof.
  intros Hs Hn Hi Hsel HΦ. apply pwp_bind, (pwp_mark i n m); [done..|]. intros Hs'.
  apply (pwp_push i (with_children (alter mark i (children n)) n) (mark m) Φ (marked i s)); [done|by apply marked_top| |by destruct m|done].
  by rewrite children_with_children, list_lookup_alter_eq, Hi.
Qed.

Lemma pwp_select_opt i n m value (Φ : unit → pstate → Prop) s :
  parse_ok s → node_at (ps_root s) (ps_path s) = Some n → children n !! i = Some m →
  selectable (children n) i m → (∀ s', Φ tt s') →
  pwp (select_opt (ps_path s) i m value) Φ s.
Proof.
  intros Hs Hn Hi Hsel HΦ. destruct (at_child _ _ _ _ Hs Hn Hi) as (Hq & Hm & Hh & Hat).
  unfold select_opt. destruct (_sf_find_max_chosen_zero_child m value) as [j|] eqn:Ej.
  - apply find_pos_Some in Ej as (h & Hj & [Hz _]%andb_true_iff). apply Z.eqb_eq in Hz.
    assert (Hath : node_at (ps_root s) (j :: i :: ps_path s) = Some h).
    { change (node_at (ps_root s) (j :: i :: ps_path s)) with
        (node_at (ps_root s) (i :: ps_path s) ≫= λ c, children c !! j). by rewrite Hat. }
    inversion_clear Hm as [? Hqm Hcm].
    assert (Hhd : safe = true → handlers_defined h).
    { intros Hsafe. by apply (Forall_lookup_1 _ _ _ _ (proj1 (proj2 Hqm) Hsafe) Hj). }
    apply pwp_bind, (pwp_get_node _ h); [done..|]. intros _.
    destruct (conf_parse (node_conf h)) as [f|] eqn:Ef.
    + apply pwp_bind, pwp_run_parse; [done..|]. intros u Hs1.
      assert (Hmark : every Q (with_children (alter mark j (children m)) m)).
      { apply every_alter; [intros c _; apply every_mark| |by constructor].
        apply (Q_mark_zero _ j h); [done..|congruence]. }
      set (g := λ c, with_children (alter mark j (children c)) c).
      assert (Heq : ∀ Φ' s1, pwp (edit g (i :: ps_path s)) Φ' s1 → pwp (edit mark (j :: i :: ps_path s)) Φ' s1).
      { intros Φ' s1. unfold pwp, edit. by rewrite (update_at_cons mark j (i :: ps_path s)). }
      apply pwp_bind, Heq, (pwp_edit_child g i _ (mkP (ps_root s) (ps_path s) u) n); [done|done| | |].
      * intros c Hc. cbn in Hc. rewrite Hi in Hc. by injection Hc as <-.
      * eapply Q_marks; [|exact Hq]. apply alter_marks. intros c. apply with_children_marks.
      * intros Hs2.
        apply (pwp_mark i (with_children (alter g i (children n)) n) (g m) _
                 (mkP (update_at g (i :: ps_path s) (ps_root s)) (ps_path s) u)); [done| | | |apply HΦ].
        -- cbn [ps_root ps_path]. by rewrite update_at_cons, node_at_update, Hn.
        -- by rewrite children_with_children, list_lookup_alter_eq, Hi.
        -- rewrite children_with_children. eapply selectable_marks; [| |exact Hsel].
           ++ apply alter_marks. intros c. apply with_children_marks.
           ++ apply with_children_marks.
    + apply pwp_propagate, pwp_validate; [done..|]. intros (_ & _ & Hz' & _). by destruct Hz'.
  - apply pwp_bind, pwp_run_parse; [done..|]. intros u Hs1.
    assert (Hv : ∀ c, same_marks c (set_value value c)) by by intros [].
    apply pwp_bind, (pwp_edit_child (set_value value) i _ (mkP (ps_root s) (ps_path s) u) n); [done|done| | |].
    { intros [] _ Hc. inversion_clear Hc. by constructor. }
    { eapply Q_marks; [|exact Hq]. by apply alter_marks. }
    intros Hs2. set (s2 := mkP _ _ _).
    assert (Hn2 : node_at (ps_root s2) (ps_path s2) = Some (with_children (alter (set_value value) i (children n)) n)).
    { unfold s2. cbn [ps_root ps_path]. by rewrite update_at_cons, node_at_update, Hn. }
    assert (Hi2 : children (with_children (alter (set_value value) i (children n)) n) !! i = Some (set_value value m)).
    { by rewrite children_with_children, list_lookup_alter_eq, Hi. }
    assert (Hsel2 : selectable (children (with_children (alter (set_value value) i (children n)) n)) i (set_value value m)).
    { rewrite children_with_children. eapply selectable_marks; [by apply alter_marks|apply Hv|exact Hsel]. }
    destruct (children m).
    + apply pwp_bind, (pwp_mark i _ _ _ s2 Hs2 Hn2 Hi2 Hsel2). intros Hs3. apply pwp_ret; [done|apply HΦ].
    + exact (pwp_mark_push i _ _ Φ s2 Hs2 Hn2 Hi2 Hsel2 HΦ).
Qed.

Lemma pwp_parse_loop_fuel k argv s :
  (length argv ≤ k)%nat → parse_ok s → pwp (parse_loop argv) (λ _ _, True) s.
Proof.
  revert argv s. induction k as [|k IH]; intros [|tok rest] s Hk Hs; cbn in Hk; try lia;
    [by apply pwp_ret..|]. cbn [parse_loop].
  apply pwp_bind, pwp_get_path; [done|]. intros _. apply pwp_bind, pwp_find_match; [done|].
  clear s Hs. intros s i n m Hs Hn Hi _. apply pwp_bind, pwp_get_path; [done|]. intros _.
  apply pwp_bind, (pwp_get_node _ n); [done..|]. intros _.
  destruct (at_child _ _ _ _ Hs Hn Hi) as (Hq & Hm & Hh & Hat).
  apply pwp_bind, (pwp_get_node _ m); [done..|]. intros _.
  apply pwp_bind, pwp_propagate, pwp_validate; [done..|]. intros Hsel _.
  destruct (conf_type (node_conf m)).
  - apply pwp_bind, (pwp_mark i n m); [done..|]. intros Hs1.
    apply pwp_bind, (pwp_push i (with_children (alter mark i (children n)) n) (mark m) _ (marked i s)); [done|by apply marked_top| |by destruct m|].
    { by rewrite children_with_children, list_lookup_alter_eq, Hi. }
    intros Hs2. destruct (has_flag _ m); [by apply pwp_ret|]. apply IH; [lia|done].
  - destruct rest as [|value rest]; [by apply pwp_fail|]. cbn in Hk.
    apply pwp_bind, (pwp_select_opt i n m); [done..|]. intros s' Hs'. apply IH; [lia|done].
  - apply pwp_bind, pwp_run_parse; [done..|]. intros u Hs1.
    apply pwp_bind, (pwp_mark i n m _ (mkP (ps_root s) (ps_path s) u)); [done..|]. intros Hs2.
    apply IH; [lia|done].
Qed.

(** What holds of the stack when nothing mandatory is missing. *)
Definition complete_path root (path : list nat) : Prop :=
  ∀ p, p `suffix_of` path → ∃ n, node_at root p = Some n ∧ Forall (λ c, missing c = false) (children n).

Lemma selected_suffix root path p : p `suffix_of` path → selected_path root path → selected_path root p.
Proof.
  intros [q ->]. induction q as [|i q IH]; [done|]. cbn. intros [H _]%selected_path_cons. by apply IH.
Qed.

Lemma pwp_check_stack path s :
  parse_ok s → selected_path (ps_root s) path →
  pwp (check_stack path) (λ _ s', s' = s ∧ complete_path (ps_root s) path) s.
Proof.
  intros Hs. induction path as [|i path IH]; intros Hp; cbn [check_stack];
    (destruct (selected_node _ _ Hp) as [n Hn]);
    (apply pwp_bind, (pwp_get_node _ n); [done..|]; intros _);
    (apply pwp_bind, pwp_propagate; unfold _sf_mandatory_fail;
     destruct (existsb missing (children n)) eqn:Em; [by apply pwp_fail|]; apply pwp_ret; [done|]; intros _);
    (assert (Hmiss : Forall (λ c, missing c = false) (children n));
     [apply not_true_iff_false in Em; rewrite existsb_exists in Em; apply Forall_forall;
      intros c Hc%list_elem_of_In; apply not_true_iff_false; intros Hx; by apply Em; exists c|]).
  - apply pwp_ret; [done|]. split; [done|]. intros p Hsuf. apply suffix_nil_inv in Hsuf as ->. by exists n.
  - eapply pwp_mono; [apply IH; by apply selected_path_cons in Hp as [? _]|].
    intros _ s' _ [-> Hc]. split; [done|]. intros p [[|x q] Hq]; cbn in Hq.
    + subst p. by exists n.
    + injection Hq as -> ->. apply Hc. by exists q.
Qed.

Lemma pwp_run_subcommand path s :
  parse_ok s → selected_path (ps_root s) path →
  pwp (run_subcommand path) (λ _ s', ps_root s' = ps_root s ∧ ps_path s' = ps_path s) s.
Proof.
  intros Hs. induction path as [|i path IH]; intros Hp; cbn [run_subcommand]; [by apply pwp_ret|].
  destruct (selected_node _ _ Hp) as [m Hm]. apply pwp_bind, (pwp_get_node _ m); [done..|]. intros _.
  assert (Hh : safe = true → handlers_defined m).
  { intros Hsafe. apply selected_path_cons in Hp as (_ & d & Hd & c & Hc & _).
    pose proof (every_node_at _ _ _ (proj1 Hs) Hd) as Hq. inversion_clear Hq as [? (_ & Hall & _) _].
    assert (c = m) as -> by (cbn in Hm; rewrite Hd in Hm; cbn in Hm; congruence).
    by apply (Forall_lookup_1 _ _ _ _ (Hall Hsafe) Hc). }
  assert (Hrest : pwp (run_subcommand path) (λ _ s', ps_root s' = ps_root s ∧ ps_path s' = ps_path s) s).
  { apply IH. by apply selected_path_cons in Hp as [? _]. }
  destruct (conf_type _); [|done..]. destruct (conf_parse (node_conf m)) as [f|] eqn:Ef; [|done].
  apply pwp_run_fn; [done| |done]. intros Hsafe u. by apply (proj1 (Hh Hsafe)).
Qed.

Lemma pwp_parse_args root argv u :
  every (λ cs, named_apart cs ∧ (safe = true → Forall handlers_defined cs)) root →
  pwp (λ _, tpbcli_parse_args root argv u) (λ _ s', complete_path (ps_root s') (ps_path s'))
      (mkP (_sf_reset_parse_state root) [] u).
Proof.
  intros Hroot. assert (Hs : parse_ok (mkP (_sf_reset_parse_state root) [] u)).
  { split; [by apply every_reset_weak|done]. }
  set (s0 := mkP _ _ _) in *.
  unfold pwp, tpbcli_parse_args. fold s0. destruct (_sf_resolve_conflict_opts_validate _ _); [|done].
  apply (pwp_bind (parse_loop (tail argv)) (λ _, _sf_post_loop)).
  eapply pwp_mono; [by apply (pwp_parse_loop_fuel (length (tail argv)))|]. clear Hs. intros _ s Hs _ _.
  unfold _sf_post_loop. apply pwp_bind, (pwp_get_node _ (ps_root s)); [done..|]. intros _.
  destruct (negb _ && negb _); [by apply pwp_exit|].
  apply pwp_bind, pwp_get_path; [done|]. intros _.
  apply pwp_bind. eapply pwp_mono; [apply pwp_check_stack; [done|by destruct Hs]|].
  intros _ s' _ [-> Hc] _. eapply pwp_mono; [apply pwp_run_subcommand; [done|by destruct Hs]|].
  intros _ s'' _ [-> ->]. done.
Qed.
End Invariant.

(** ** Trees made with the library's calls *)

(** The tree after [tpbcli_argtree_create] and calls of [tpbcli_add_arg] on its
    nodes; the names are C strings. *)
Inductive built : argnode → Prop :=
  | built_create name root : tpbcli_argtree_create true (Some name) = Some root → built root
  | built_add root path parent parent' conf :
      built root → node_at root path = Some parent →
      (∀ nm, conf_name conf = Some nm → is_cstr nm) →
      tpbcli_add_arg true parent conf = Some parent' →
      built (update_at (λ n, with_children (children parent') n) path root).

Lemma strcmp_same (a b nm : bytes) : is_cstr a → is_cstr b → strcmp a nm = 0 → strcmp b nm = 0 → a = b.
Proof.
  unfold is_cstr. revert b nm. induction a as [|x a IH]; intros [|y b] [|z nm]; cbn; rewrite ?Forall_cons;
    try lia; try done.
  - intros _ [? _]. destruct (Z.eqb_spec y z); lia.
  - intros [? _] _. destruct (Z.eqb_spec x z); lia.
  - intros [? Ha] [? Hb]. destruct (Z.eqb_spec x z), (Z.eqb_spec y z); try lia. subst.
    intros. f_equal. by eapply IH.
Qed.

Definition names_ok cs : Prop :=
  named_apart cs ∧ Forall (λ c, ∃ nm, conf_name (node_conf c) = Some nm ∧ is_cstr nm) cs.

Lemma names_ok_marks cs cs' : Forall2 same_marks cs cs' → names_ok cs → names_ok cs'.
Proof.
  intros H [Hap Hn]. split.
  - eapply named_apart_confs; [|exact Hap]. eapply Forall2_impl; [exact H|]. by intros ?? [? _].
  - apply Forall_lookup. intros i c Hi. destruct (Forall2_lookup_r _ _ _ _ _ H Hi) as (c' & Hi' & E & _).
    rewrite <- E. apply (Forall_lookup_1 _ _ _ _ Hn Hi').
Qed.

Lemma names_ok_add parent conf parent' :
  names_ok (children parent) → (∀ nm, conf_name conf = Some nm → is_cstr nm) →
  tpbcli_add_arg true parent conf = Some parent' →
  names_ok (children parent') ∧ children parent' = children parent ++ [new_node conf].
Proof.
  intros [Hap Hn] Hc. unfold tpbcli_add_arg. destruct (conf_name conf) as [name|] eqn:En; [|done].
  specialize (Hc name eq_refl). cbn.
  destruct (find (named name) (children parent)) as [o|] eqn:Ef; [done|]. intros [= <-].
  rewrite children_with_children. split; [split|done].
  - assert (Hdiff : ∀ nm c, c ∈ children parent → named nm c = true → named nm (new_node conf) = true → False).
    { intros nm c Hin. pose proof (find_none _ _ Ef c ltac:(by apply list_elem_of_In)) as Hno.
      rewrite Forall_forall in Hn. destruct (Hn c Hin) as (cn & Hcn & Hcs).
      unfold named, new_node, opt_is in *. cbn. rewrite En, Hcn in *. intros H1%Z.eqb_eq H2%Z.eqb_eq.
      rewrite (strcmp_same cn name nm) in Hno by done.
      rewrite (proj2 (strcmp_eq name name Hc Hc) eq_refl) in Hno. done. }
    intros nm i j a b [Ha|[Hi Ha]]%lookup_app_Some [Hb|[Hj Hb]]%lookup_app_Some H1 H2.
    + by eapply Hap.
    + apply list_lookup_singleton_Some in Hb as [? <-]. destruct (Hdiff nm a); [|done..].
      by apply list_elem_of_lookup_2 in Ha.
    + apply list_lookup_singleton_Some in Ha as [? <-]. destruct (Hdiff nm b); [|done..].
      by apply list_elem_of_lookup_2 in Hb.
    + apply list_lookup_singleton_Some in Ha as [? _], Hb as [? _]. lia.
  - apply Forall_app. split; [done|]. apply Forall_singleton. by exists name.
Qed.

Lemma built_names root : built root → every names_ok root.
Proof.
  induction 1 as [name root Hroot|root path parent parent' conf _ IH Hp Hc Ha].
  - injection Hroot as <-. constructor; cbn; [|done]. split; [|done]. by intros ? [].
  - apply every_update_down; [exact names_ok_marks|intros c; apply with_children_marks| |done].
    intros c. rewrite <- node_at_down, Hp. intros [= <-] Hev. inversion_clear Hev as [? Hn Hcs].
    destruct (names_ok_add _ _ _ Hn Hc Ha) as [Hok ->]. constructor; rewrite children_with_children.
    + by destruct (names_ok_add _ _ _ Hn Hc Ha) as [_ <-].
    + apply Forall_app. split; [done|]. apply Forall_singleton. constructor; cbn; [|done]. split; [|done].
      by intros ? [].
Qed.

(** ** Properties *)

(** C17: the selections a command line leaves in the tree are consistent, for every
    tree built with the library, every [argv] and whatever the handlers do.  On
    return, with any status: no node was chosen more often than it may be; a node
    is set exactly when it was chosen; a node that may not be chosen is set only if
    it has a handler of its own; no two selectable siblings are set of which one is
    exclusive or which list each other as conflicts; and the nodes on the stack are
    set.  On success no mandatory child of a node on the stack is missing.  And if
    no handler has undefined behaviour, the parser has none. *)
Theorem cli_selection_invariant root argv u :
  built root →
  let '(r, s) := tpbcli_parse_args root argv u in
  every children_ok (ps_root s)
  ∧ selected_path (ps_root s) (ps_path s)
  ∧ (r = Ok tt → complete_path (ps_root s) (ps_path s))
  ∧ (every (Forall handlers_defined) root → r ≠ UB).
Proof.
  intros Hb%built_names.
  assert (Hw : ∀ safe : bool, (safe = true → every (Forall handlers_defined) root) →
    pwp safe (λ _, tpbcli_parse_args root argv u) (λ _ s', complete_path (ps_root s') (ps_path s'))
        (mkP (_sf_reset_parse_state root) [] u)).
  { intros safe Hsafe. apply pwp_parse_args. destruct safe.
    - specialize (Hsafe eq_refl). clear argv u. induction root as [c b k v cs IH] using argnode_nested_ind.
      inversion_clear Hb as [? [Hap _] Hcs]. inversion_clear Hsafe as [? Hd Hds]. constructor; [done|].
      cbn [children] in *. apply Forall_lookup. intros i x Hi. apply (Forall_lookup_1 _ _ _ _ IH Hi).
      + by apply (Forall_lookup_1 _ _ _ _ Hcs Hi).
      + by apply (Forall_lookup_1 _ _ _ _ Hds Hi).
    - eapply every_mono; [|exact Hb]. intros cs [Hap _]. done. }
  pose proof (Hw false ltac:(done)) as H1. unfold pwp in H1.
  destruct (tpbcli_parse_args root argv u) as [r s] eqn:E.
  assert (Hok : parse_ok false s ∧ (r = Ok tt → complete_path (ps_root s) (ps_path s))).
  { destruct r as [[]|e|]; [by destruct H1|done|by destruct H1]. }
  destruct Hok as [[Hev Hsel] Hc]. split_and!; [|done..|].
  - eapply every_mono; [|exact Hev]. by intros cs (_ & _ & ?).
  - intros Hd Hr. specialize (Hw true (λ _, Hd)). unfold pwp in Hw. cbn beta in Hw. rewrite Hr in Hw. by destruct Hw.
Qed.
End Props.

(** ** A sample tree *)

(** The handlers log their values. *)
Definition log_value (v : option bytes) (log : list bytes) : outcome unit * list bytes :=
  (Ok tt, log ++ [default [] v]).
Definition sample_conf (name : bytes) (short : option bytes) (ty : tpbcli_arg_type) (flags max : Z)
    (conflicts : list bytes) : tpbcli_argconf (list bytes) :=
  mkConf (Some name) short ty flags max (Some log_value) None None conflicts.

Definition add_at (path : list nat) (conf : tpbcli_argconf (list bytes))
    (root : option (tpbcli_argnode (list bytes))) : option (tpbcli_argnode (list bytes)) :=
  root ← root; parent ← node_at root path; parent' ← tpbcli_add_arg true parent conf;
  Some (update_at (λ n, with_children (children parent') n) path root).

Definition sample_tree : option (tpbcli_argnode (list bytes)) :=
  add_at [0%nat] (sample_conf ($"--dry-run") (Some ($"-d")) TPBCLI_ARG_FLAG 0 1 [])
    (add_at [0%nat; 0%nat] (sample_conf ($"--override-global") (Some ($"-og")) TPBCLI_ARG_FLAG 0 1 [])
      (add_at [0%nat] (sample_conf ($"--kernel") (Some ($"-k")) TPBCLI_ARG_OPT TPBCLI_ARGF_MANDATORY (-1) [])
        (add_at [] (sample_conf ($"list") None TPBCLI_ARG_CMD TPBCLI_ARGF_EXCLUSIVE 1 [])
          (add_at [] (sample_conf ($"run") None TPBCLI_ARG_CMD TPBCLI_ARGF_EXCLUSIVE 1 [])
            (tpbcli_argtree_create true (Some ($"tpbcli"))))))).

Lemma built_add_at path conf root root' :
  (∀ r, root = Some r → built r) → (∀ nm, conf_name conf = Some nm → is_cstr nm) →
  add_at path conf root = Some root' → built root'.
Proof.
  intros Hb Hc. destruct root as [r|]; [|done]. unfold add_at. cbn.
  destruct (node_at r path) as [n|] eqn:Hn; [|done]. cbn.
  destruct (tpbcli_add_arg true n conf) as [n'|] eqn:Ha; [|done]. intros [= <-].
  eapply built_add; [by apply Hb|done..].
Qed.

Definition sample_root : tpbcli_argnode (list bytes) :=
  default (new_node (sample_conf [] None TPBCLI_ARG_CMD 0 0 [])) sample_tree.
Definition sample_argv : list bytes :=
  [ $"tpbcli"; $"run"; $"--kernel"; $"triad"; $"-og"; $"--dry-run"; $"-k"; $"sum" ].

Lemma sample_built : built sample_root.
Proof.
  assert (H : ∀ r, sample_tree = Some r → built r).
  { unfold sample_tree. intros r.
    repeat (apply built_add_at; [clear r; intros r| by intros nm [= <-]; repeat constructor; vm_compute; reflexivity]).
    apply built_create. }
  apply H. reflexivity.
Qed.

Lemma cli_selection_invariant_witness :
  (tpbcli_parse_args sample_root sample_argv []).1 = Ok tt
  ∧ ps_user (tpbcli_parse_args sample_root sample_argv []).2 = [ $"triad"; []; []; $"sum"; [] ]
  ∧ every children_ok (ps_root (tpbcli_parse_args sample_root sample_argv []).2)
  ∧ complete_path (ps_root (tpbcli_parse_args sample_root sample_argv []).2)
                  (ps_path (tpbcli_parse_args sample_root sample_argv []).2).
Proof.
  pose proof (cli_selection_invariant sample_root sample_argv [] sample_built) as H.
  destruct (tpbcli_parse_args sample_root sample_argv []) as [r s] eqn:E.
  destruct H as (H1 & _ & H2 & _). assert (Er : r = Ok tt).
  { replace r with (tpbcli_parse_args sample_root sample_argv []).1 by by rewrite E. vm_compute. reflexivity. }
  split_and!; [exact Er| |exact H1|by apply H2].
  change (ps_user (r, s).2 = [ $"triad"; []; []; $"sum"; [] ]). rewrite <- E. vm_compute. reflexivity.
Defined.
