(* ===== verification/CliArgpUser.v ===== *)
(** * The command-line parser and its application

    What every handler of a tree keeps true of the application, a run of
    [tpbcli_parse_args] keeps true, whatever [argv] and however it ends. *)

From S2P Require Import Prelude Errors CLib CliArgp CliArgpProps.
From stdpp Require Import options.

Create HintDb keeps.

Section User.
Context {U : Type} (I : U → Prop).
Abbreviation argconf := (tpbcli_argconf U).
Abbreviation argnode := (tpbcli_argnode U).
Implicit Types (n c : argnode) (p : list nat).

(** The handlers of a node keep [I]. *)
Definition conf_keeps (conf : argconf) : Prop :=
  (∀ f v u, conf_parse conf = Some f → I u → I (f v u).2)
  ∧ (∀ f u, conf_help conf = Some f → I u → I (f u).2).

Inductive tree_keeps : argnode → Prop :=
  tree_keeps_node n : conf_keeps (node_conf n) → Forall tree_keeps (children n) → tree_keeps n.

Lemma tree_keeps_conf n : tree_keeps n → conf_keeps (node_conf n).
Proof. by inversion 1. Qed.
Lemma tree_keeps_child n c (i : nat) : tree_keeps n → children n !! i = Some c → tree_keeps c.
Proof. inversion 1. intros Hi. by eapply (Forall_lookup_1 _ _ _ c); [|exact Hi]. Qed.

Lemma tree_keeps_at root p n : tree_keeps root → node_at root p = Some n → tree_keeps n.
Proof.
  revert n. induction p as [|i p IH]; intros n Hr; cbn; [by intros [= <-]|].
  destruct (node_at root p) as [m|]; [|done]. cbn. apply tree_keeps_child. by apply IH.
Qed.

Lemma tree_keeps_with cs n : tree_keeps n → Forall tree_keeps cs → tree_keeps (with_children cs n).
Proof. destruct n. inversion 1. by constructor. Qed.

Lemma tree_keeps_reset n : tree_keeps n → tree_keeps (_sf_reset_parse_state n).
Proof.
  induction n as [conf s k v cs IH] using argnode_nested_ind. inversion 1 as [? Hc Hcs]. constructor; [done|].
  cbn in *. apply Forall_map, Forall_lookup. intros i c Hi.
  apply (Forall_lookup_1 _ _ _ _ IH Hi). by apply (Forall_lookup_1 _ _ _ _ Hcs Hi).
Qed.

Lemma tree_keeps_update f p root :
  (∀ n, tree_keeps n → tree_keeps (f n)) → tree_keeps root → tree_keeps (update_at f p root).
Proof.
  intros Hf. unfold update_at. generalize (reverse p). intros q. revert root.
  induction q as [|i q IH]; intros root Hr; cbn; [by apply Hf|].
  apply tree_keeps_with; [done|]. inversion Hr. apply Forall_alter; [done|].
  intros c Hi Hc. by apply IH.
Qed.

Lemma tree_keeps_mark n : tree_keeps n → tree_keeps (mark n).
Proof. destruct n. inversion 1. by constructor. Qed.
Lemma tree_keeps_value v n : tree_keeps n → tree_keeps (set_value v n).
Proof. destruct n. inversion 1. by constructor. Qed.
Lemma tree_keeps_new conf : conf_keeps conf → tree_keeps (new_node conf).
Proof. intros H. by constructor. Qed.

(** ** Runs *)

Definition user_ok (s : pstate (U := U)) : Prop := tree_keeps (ps_root s) ∧ I (ps_user s).

(** [m] keeps the invariant, and its result has [Φ]. *)
Definition keeps {A} (m : P A) (Φ : A → Prop) : Prop :=
  ∀ s, user_ok s → user_ok (m s).2 ∧ ∀ a, (m s).1 = Ok a → Φ a.

Lemma keeps_ret {A} (a : A) (Φ : A → Prop) : Φ a → keeps (mret a) Φ.
Proof. intros H s Hs. split; [done|]. by intros ? [= <-]. Qed.
Lemma keeps_bind {A B} (m : P A) (f : A → P B) Φ Ψ :
  keeps m Φ → (∀ a, Φ a → keeps (f a) Ψ) → keeps (m ≫= f) Ψ.
Proof.
  intros Hm Hf s Hs. destruct (Hm s Hs) as [H1 H2]. unfold mbind, P_bind.
  destruct (m s) as [[a|e|] s']; [|done..]. by apply (Hf a (H2 a eq_refl)).
Qed.
Lemma keeps_fail {A} (Φ : A → Prop) : keeps cli_fail Φ.
Proof. done. Qed.
Lemma keeps_exit {A} (Φ : A → Prop) : keeps exit_on_help Φ.
Proof. done. Qed.
Lemma keeps_propagate {A} (m : P A) Φ : keeps m Φ → keeps (p_propagate m) Φ.
Proof.
  intros Hm s Hs. destruct (Hm s Hs) as [H1 H2]. unfold p_propagate.
  destruct (m s) as [[a|e|] s']; cbn in *; (split; [done|]); [done| |done].
  by destruct (e =? _).
Qed.
Lemma keeps_path : keeps get_path (λ _, True).
Proof. done. Qed.
Lemma keeps_set_path p : keeps (set_path p) (λ _, True).
Proof. done. Qed.
Lemma keeps_node p : keeps (get_node p) tree_keeps.
Proof.
  intros s [Hr Hu]. split; [done|]. intros n. cbn. destruct (node_at _ p) as [m|] eqn:E; [|done].
  intros [= <-]. by eapply tree_keeps_at.
Qed.
Lemma keeps_edit f p : (∀ n, tree_keeps n → tree_keeps (f n)) → keeps (edit f p) (λ _, True).
Proof. intros Hf s [Hr Hu]. split; [|done]. split; [by apply tree_keeps_update|done]. Qed.

Lemma keeps_run_fn f : (∀ u, I u → I (f u).2) → keeps (run_fn f) (λ _, True).
Proof. intros Hf s [Hr Hu]. specialize (Hf _ Hu). unfold run_fn. by destruct (f (ps_user s)) as [r u]. Qed.
Lemma keeps_run_parse n v : tree_keeps n → keeps (run_parse_fn n v) (λ _, True).
Proof.
  intros Hn s Hs. unfold run_parse_fn. destruct (conf_parse _) as [f|] eqn:E; [|done].
  destruct (keeps_run_fn (f v)) with (s := s) as [H _]; [|done|].
  { intros u. by apply (proj1 (tree_keeps_conf n Hn)). }
  destruct (run_fn (f v) s) as [[a|e|] s']; by split.
Qed.

#[local] Hint Resolve keeps_ret keeps_fail keeps_exit keeps_propagate keeps_path keeps_set_path keeps_node
  keeps_run_parse tree_keeps_mark tree_keeps_value keeps_edit : keeps.
Ltac keeps_step := eapply keeps_bind; [by eauto with keeps|intros ? ?].

Lemma keeps_validate parent (i : nat) m : tree_keeps m → keeps (_sf_validate_pre_increment parent i m) (λ _, True).
Proof.
  intros Hm. unfold _sf_validate_pre_increment. destruct (_sf_sibling_exclusive_conflict _ _ _); [done|].
  destruct (_sf_sibling_conflict_opts_hit _ _); [done|].
  destruct (_ =? 0); [|by destruct (_ && _)]. destruct (conf_help _) as [f|] eqn:E; [|done].
  eapply keeps_bind; [|by intros]. apply keeps_run_fn. intros u. by apply (proj2 (tree_keeps_conf m Hm)).
Qed.
Lemma keeps_push p (i : nat) : keeps (push p i) (λ _, True).
Proof. unfold push. by destruct (_ <=? _)%nat. Qed.
#[local] Hint Resolve keeps_validate keeps_push : keeps.

Lemma keeps_find_match p tok : keeps (find_match p tok) (λ _, True).
Proof.
  induction p as [|j p IH]; cbn [find_match]; keeps_step; destruct (_sf_find_child _ _); try by eauto with keeps.
  eapply keeps_bind.
  - apply keeps_edit. intros n Hn. apply tree_keeps_with; [done|]. inversion Hn.
    apply Forall_map. eapply Forall_impl; [done|]. apply tree_keeps_reset.
  - intros _ _. by keeps_step.
Qed.

Lemma keeps_select p (i : nat) m v : tree_keeps m → keeps (select_opt p i m v) (λ _, True).
Proof.
  intros Hm. unfold select_opt. destruct (_sf_find_max_chosen_zero_child m v) as [j|].
  - keeps_step. destruct (conf_parse _); [|by eauto with keeps]. do 2 keeps_step. by eauto with keeps.
  - do 3 keeps_step. destruct (children m); by eauto with keeps.
Qed.
#[local] Hint Resolve keeps_find_match keeps_select : keeps.

Lemma keeps_loop argv : keeps (parse_loop argv) (λ _, True).
Proof.
  revert argv. fix IH 1. intros [|tok rest]; cbn [parse_loop]; [by eauto with keeps|].
  do 6 keeps_step. destruct (conf_type _).
  - do 2 keeps_step. destruct (has_flag _ _); [by eauto with keeps|apply IH].
  - destruct rest as [|v rest']; [by eauto with keeps|]. keeps_step. apply IH.
  - do 2 keeps_step. apply IH.
Qed.

Lemma keeps_check_stack p : keeps (check_stack p) (λ _, True).
Proof.
  induction p as [|i p IH]; cbn [check_stack]; keeps_step;
    (eapply keeps_bind with (Φ := λ _, True);
      [apply keeps_propagate; unfold _sf_mandatory_fail; destruct (existsb _ _); by eauto with keeps|]);
    intros _ _; by eauto with keeps.
Qed.

Lemma keeps_run_subcommand p : keeps (run_subcommand p) (λ _, True).
Proof.
  induction p as [|i p IH]; cbn [run_subcommand]; [by eauto with keeps|].
  eapply keeps_bind; [by apply keeps_node|]. intros n Hn. destruct (conf_type _); [|done..].
  destruct (conf_parse _) as [f|] eqn:E; [|done]. apply keeps_run_fn. intros u.
  by apply (proj1 (tree_keeps_conf n Hn)).
Qed.
#[local] Hint Resolve keeps_check_stack keeps_run_subcommand : keeps.

Lemma keeps_post : keeps _sf_post_loop (λ _, True).
Proof.
  unfold _sf_post_loop. keeps_step. destruct (_ && _); [by eauto with keeps|].
  do 2 keeps_step. by eauto with keeps.
Qed.

Lemma parse_args_keeps root argv u :
  tree_keeps root → I u → I (ps_user (tpbcli_parse_args root argv u).2).
Proof.
  intros Hr Hu. unfold tpbcli_parse_args. destruct (_sf_resolve_conflict_opts_validate _ _); [|done].
  destruct (keeps_bind _ (λ _, _sf_post_loop) _ _ (keeps_loop (tail argv)) (λ _ _, keeps_post)
    (mkP (_sf_reset_parse_state root) [] u)) as [[_ H] _]; [|exact H].
  split; [by apply tree_keeps_reset|done].
Qed.

(** ** Building *)

Lemma tree_keeps_add root parent_path (conf : argconf) n n' :
  tree_keeps root → conf_keeps conf → node_at root parent_path = Some n → tpbcli_add_arg true n conf = Some n' →
  tree_keeps (update_at (λ _, n') parent_path root).
Proof.
  intros Hr Hc Hn Ha. pose proof (tree_keeps_at _ _ _ Hr Hn) as Hk. apply tree_keeps_update; [|done]. intros _ _.
  unfold tpbcli_add_arg in Ha. destruct (conf_name conf); [|done]. cbn in Ha.
  destruct (find _ _); [done|]. injection Ha as <-. apply tree_keeps_with; [done|].
  inversion Hk. apply Forall_app. split; [done|]. constructor; [|done]. by apply tree_keeps_new.
Qed.

End User.
