(* ===== verification/RunDim.v ===== *)
(** * Dimension sweeps

    [src/tpbcli/run/tpbcli-run-dim.c]: the argument of [--kargs-dim] and
    [--kenvs-dim], an explicit list of values or a recurrence, and the values it
    stands for.

    [alloc] says which sizes [malloc] and [strdup] grant.  Doubles are their 64-bit
    patterns; [pow] is that of libm, a parameter. *)

From S2P Require Import Prelude Errors CLib CNum ParmValue TagNorm Driver DriverHandle.
From stdpp Require Import options.

Definition TPBM_DIM_MAX_VALUES : Z := 4096.

(** ** Data *)

Inductive tpb_dim_op := TPB_DIM_OP_ADD | TPB_DIM_OP_SUB | TPB_DIM_OP_MUL | TPB_DIM_OP_DIV | TPB_DIM_OP_POW.

(** [type] and [spec]; a list is its strings with their numeric readings. *)
Inductive dim_spec :=
  | TPB_DIM_LIST (list_values : list (bytes * Z)) (is_string : bool)
  | TPB_DIM_RECUR (op : tpb_dim_op) (x st min max nlim : Z).

Record tpb_dim_config := mkDim { dim_parm_name : bytes; dim_spec_of : dim_spec }.

(** [n] is the length of [vals_values]; [str_values] is null for a recurrence. *)
Record tpb_dim_values := mkDimValues {
  vals_parm_name : bytes; vals_values : list Z; vals_str_values : option (list bytes);
  vals_is_string : bool;
}.
Definition vals_n (v : tpb_dim_values) : Z := Z.of_nat (length (vals_values v)).

Definition run_fail {A} (cause : Z) : outcome A := TPB_FAIL TPB_MOD_CLI_RUN cause.

(** ** Scanning *)

Definition trim_whitespace_dim (s : bytes) : bytes :=
  reverse (skip_space (reverse (skip_space s))).

(** The text before the matching bracket and the text after it; [depth] is that of
    the open brackets. *)
Fixpoint find_matching_bracket (opening closing : Z) (depth : Z) (s : bytes) : option (bytes * bytes) :=
  match s with
  | [] => None
  | c :: s' =>
      let depth := if c =? opening then depth + 1 else if c =? closing then depth - 1 else depth in
      if 0 <? depth then
        '(a, b) ← find_matching_bracket opening closing depth s'; Some (c :: a, b)
      else Some ([], s')
  end.

Definition is_numeric_string (s : bytes) : bool :=
  match s with
  | [] => false
  | _ => match skip_space (strtod_end s) with [] => true | _ => false end
  end.

Section Dim.
Context (alloc : Z → bool) (pow : Z → Z → Z).

(** ** Explicit lists *)

(** The loop over the tokens: the values read so far and the capacity of the two
    arrays, whose elements have 8 bytes each. *)
Fixpoint list_tokens (toks : list bytes) (cap : Z) (acc : list (bytes * Z)) (is_string : bool)
  : outcome (list (bytes * Z) * bool) :=
  match toks with
  | [] => Ok (acc, is_string)
  | tok :: toks' =>
      let trimmed := trim_whitespace_dim tok in
      let full := cap <=? Z.of_nat (length acc) in
      let cap := if full then cap * 2 else cap in
      if full && negb (alloc (8 * cap)) then run_fail TPBE_MALLOC_FAIL
      else if negb (alloc (Z.of_nat (length trimmed) + 1)) then run_fail TPBE_MALLOC_FAIL
      else list_tokens toks' cap (acc ++ [(trimmed, strtod trimmed)])
             (is_string || negb (is_numeric_string trimmed))
  end.

(** The part of the configuration the function fills. *)
Definition tpb_argp_parse_list (spec : bytes) : outcome dim_spec :=
  match trim_whitespace_dim (cut_value spec) with
  | c :: p =>
      if c =? (#"[") then
        match find_matching_bracket (#"[") (#"]") 1 p with
        | None => run_fail TPBE_CLI_FAIL
        | Some (inside, _) =>
            if negb (alloc (8 * 16)) then run_fail TPBE_MALLOC_FAIL
            else
              '(vals, is_string) ← list_tokens (strtok COMMA inside) 16 [] false;
              if (length vals =? 0)%nat then run_fail TPBE_CLI_FAIL
              else Ok (TPB_DIM_LIST vals is_string)
        end
      else run_fail TPBE_CLI_FAIL
  | [] => run_fail TPBE_CLI_FAIL
  end.

(** ** Recurrences *)

Definition dim_op_of (op_name : bytes) : option tpb_dim_op :=
  if strcmp op_name ($"add") =? 0 then Some TPB_DIM_OP_ADD
  else if strcmp op_name ($"sub") =? 0 then Some TPB_DIM_OP_SUB
  else if strcmp op_name ($"mul") =? 0 then Some TPB_DIM_OP_MUL
  else if strcmp op_name ($"div") =? 0 then Some TPB_DIM_OP_DIV
  else if strcmp op_name ($"pow") =? 0 then Some TPB_DIM_OP_POW
  else None.

(** [op(@,x)]: the operator, the operand, and what follows. *)
Definition recur_head (p : bytes) : option (tpb_dim_op * Z * bytes) :=
  '(op_name, p) ← strchr_split (#"(") p;
  if (16 <=? length op_name)%nat then None
  else
    op ← dim_op_of op_name;
    '(inside, rest) ← find_matching_bracket (#"(") (#")") 1 p;
    '(at_part, x_part) ← strchr_split COMMA inside;
    if strcmp (trim_whitespace_dim at_part) ($"@") =? 0
    then Some (op, strtod (trim_whitespace_dim x_part), rest)
    else None.

(** [(st,min,max,nlim)]. *)
Definition recur_params (rest : bytes) : option (Z * Z * Z * Z) :=
  match trim_whitespace_dim rest with
  | c :: p =>
      if c =? (#"(") then
        '(inside, _) ← find_matching_bracket (#"(") (#")") 1 p;
        match strtok COMMA inside with
        | st :: min :: max :: nlim :: _ =>
            let num t := strtod (trim_whitespace_dim t) in
            Some (num st, num min, num max, swrap 32 (strtoll (trim_whitespace_dim nlim)))
        | _ => None
        end
      else None
  | [] => None
  end.

Definition tpb_argp_parse_dim_recur (spec : bytes) : outcome dim_spec :=
  match recur_head (trim_whitespace_dim (cut_value spec)) with
  | None => run_fail TPBE_CLI_FAIL
  | Some (op, x, rest) =>
      match recur_params rest with
      | None => run_fail TPBE_CLI_FAIL
      | Some (st, min, max, nlim) =>
          if f64_lt max min then run_fail TPBE_CLI_FAIL
          else if f64_lt st min || f64_lt max st then run_fail TPBE_CLI_FAIL
          else Ok (TPB_DIM_RECUR op x st min max nlim)
      end
  end.

(** ** The whole argument *)

Definition sizeof_dim_config : Z := 312.
Definition sizeof_dim_values : Z := 288.

Definition tpb_argp_parse_dim (argstr : bytes) : outcome tpb_dim_config :=
  if negb (alloc sizeof_dim_config) then run_fail TPBE_MALLOC_FAIL
  else
    match strchr_split (#"=") (trim_whitespace_dim (cut_value argstr)) with
    | None => run_fail TPBE_CLI_FAIL
    | Some (parm_name, spec) =>
        let parm_name := cut_name (trim_whitespace_dim parm_name) in
        let spec := trim_whitespace_dim spec in
        if bool_decide (is_Some (strchr_split (#"{") spec)) then run_fail TPBE_CLI_FAIL
        else
          let parsed :=
            match spec with
            | c :: _ =>
                if c =? (#"(") then Err TPBE_CLI_FAIL
                else if c =? (#"[") then tpb_argp_parse_list spec
                else if isalpha c then tpb_argp_parse_dim_recur spec
                else Err TPBE_CLI_FAIL
            | [] => Err TPBE_CLI_FAIL
            end in
          d ← TPB_PROPAGATE TPB_MOD_CLI_RUN parsed;
          Ok (mkDim parm_name d)
    end.

(** ** Values *)

(** The next value; a division by zero stops the loop. *)
Definition dim_next (op : tpb_dim_op) (x current : Z) : option Z :=
  match op with
  | TPB_DIM_OP_ADD => Some (f64_add current x)
  | TPB_DIM_OP_SUB => Some (f64_sub current x)
  | TPB_DIM_OP_MUL => Some (f64_mul current x)
  | TPB_DIM_OP_DIV => if f64_eq x 0 then None else Some (f64_div current x)
  | TPB_DIM_OP_POW => Some (pow current x)
  end.

Definition out_of_bounds (min max v : Z) : bool := f64_lt v min || f64_lt max v.

(** The loop: [n] counts the values stored and [fuel] is [cap - n]. *)
Fixpoint recur_loop (op : tpb_dim_op) (x min max nlim : Z) (fuel : nat) (n : Z) (current : Z) : list Z :=
  match fuel with
  | O => []
  | S fuel' =>
      if out_of_bounds min max current then []
      else
        current ::
        (if (0 <? nlim) && (nlim <=? n + 1) then []
         else match dim_next op x current with
              | None => []
              | Some next => recur_loop op x min max nlim fuel' (n + 1) next
              end)
  end.

Definition recur_cap (nlim : Z) : Z := if 0 <? nlim then nlim else TPBM_DIM_MAX_VALUES.

Definition tpb_dim_generate_values (cfg : tpb_dim_config) : outcome tpb_dim_values :=
  if negb (alloc sizeof_dim_values) then run_fail TPBE_MALLOC_FAIL
  else
    let name := cut_name (dim_parm_name cfg) in
    match dim_spec_of cfg with
    | TPB_DIM_LIST vals is_string =>
        if negb (alloc (8 * Z.of_nat (length vals))) then run_fail TPBE_MALLOC_FAIL
        else if forallb (λ v, alloc (Z.of_nat (length v.1) + 1)) vals
        then Ok (mkDimValues name vals.*2 (Some vals.*1) is_string)
        else run_fail TPBE_MALLOC_FAIL
    | TPB_DIM_RECUR op x st min max nlim =>
        let cap := recur_cap nlim in
        if negb (alloc (8 * cap)) then run_fail TPBE_MALLOC_FAIL
        else Ok (mkDimValues name (recur_loop op x min max nlim (Z.to_nat cap) 0 st) None false)
    end.

Definition tpb_dim_get_total_count (cfg : tpb_dim_config) : Z :=
  match dim_spec_of cfg with
  | TPB_DIM_LIST vals _ => Z.of_nat (length vals)
  | TPB_DIM_RECUR _ _ _ _ _ _ =>
      match tpb_dim_generate_values cfg with Ok v => vals_n v | _ => 1 end
  end.

End Dim.

(** ** Trimming and brackets *)

(** Neither end is blank. *)
Definition trimmed (t : bytes) : Prop :=
  t ≠ [] ∧ (∀ c, head t = Some c → isspace c = false) ∧ (∀ c, last t = Some c → isspace c = false).
Definition blank (s : bytes) : Prop := Forall (λ c, isspace c = true) s.

Lemma skip_blank_app a s : blank a → skip_space (a ++ s) = skip_space s.
Proof. induction 1 as [|c a Hc _ IH]; cbn; [done|]. by rewrite Hc. Qed.
Lemma skip_space_id s : (∀ c, head s = Some c → isspace c = false) → skip_space s = s.
Proof. destruct s as [|c s]; [done|]. intros H. cbn. by rewrite (H c). Qed.

Lemma trim_pads a t b : trimmed t → blank a → blank b → trim_whitespace_dim (a ++ t ++ b) = t.
Proof.
  intros (Hne & Hh & Hl) Ha Hb. unfold trim_whitespace_dim. rewrite skip_blank_app by done.
  rewrite (skip_space_id (t ++ b)).
  - rewrite reverse_app, skip_blank_app by by apply Forall_reverse.
    rewrite skip_space_id; [by rewrite reverse_involutive|]. intros c. rewrite head_reverse. apply Hl.
  - intros c. destruct t; [done|]. apply Hh.
Qed.
Lemma trim_trimmed_dim t : trimmed t → trim_whitespace_dim t = t.
Proof. intros Ht. rewrite <- (trim_pads [] t []) at 2 by (done || constructor). cbn. by rewrite app_nil_r. Qed.

Lemma matching_plain o c s r :
  o ∉ s → c ∉ s → o ≠ c → find_matching_bracket o c 1 (s ++ c :: r) = Some (s, r).
Proof.
  intros Ho Hc Hoc. induction s as [|x s IH]; cbn [app find_matching_bracket].
  - rewrite (proj2 (Z.eqb_neq c o)), Z.eqb_refl by done. done.
  - rewrite (proj2 (Z.eqb_neq x o)), (proj2 (Z.eqb_neq x c)) by set_solver. cbn.
    by rewrite IH by set_solver.
Qed.

(** A value of a list with the blanks around it. *)
Definition padded : Type := bytes * bytes * bytes.
Definition padded_text (w : padded) : bytes := w.1.1 ++ w.1.2 ++ w.2.
Definition padded_value (w : padded) : bytes := w.1.2.
Definition LBRACK := #"[".
Definition RBRACK := #"]".
Definition padded_ok (w : padded) : Prop :=
  blank w.1.1 ∧ blank w.2 ∧ trimmed (padded_value w)
  ∧ COMMA ∉ padded_value w ∧ LBRACK ∉ padded_value w ∧ RBRACK ∉ padded_value w ∧ #"{" ∉ padded_value w.

Lemma blank_not c s : isspace c = false → blank s → c ∉ s.
Proof. intros Hc Hs Hin. unfold blank in Hs. rewrite Forall_forall in Hs. specialize (Hs c Hin). congruence. Qed.
Lemma padded_not c w : padded_ok w → isspace c = false → c ∉ padded_value w → c ∉ padded_text w.
Proof.
  intros (Ha & Hb & _) Hc Hv. unfold padded_text. rewrite !not_elem_of_app.
  split_and!; [by apply blank_not|done|by apply blank_not].
Qed.
Lemma not_in_join c ts : c ≠ COMMA → Forall (λ t, c ∉ t) ts → c ∉ join [COMMA] ts.
Proof.
  intros Hc Hts. destruct Hts as [|t ts Ht Hts]; [set_solver|]. unfold join. rewrite not_elem_of_app.
  split; [done|]. induction Hts as [|u ts Hu _ IH]; cbn [map concat]; [set_solver|].
  rewrite not_elem_of_app. split; [set_solver|done].
Qed.

(** ** Properties *)

Section Properties.
Context (alloc : Z → bool) (pow : Z → Z → Z).

(** The [k]-th term of a recurrence, while no division by zero stops it. *)
Fixpoint dim_term (op : tpb_dim_op) (x st : Z) (k : nat) : option Z :=
  match k with
  | O => Some st
  | S k' => current ← dim_term op x st k'; dim_next pow op x current
  end.

Lemma dim_term_shift op x st next k :
  dim_next pow op x st = Some next → dim_term op x next k = dim_term op x st (S k).
Proof.
  intros Hn. induction k as [|k IH]; [by cbn|]. cbn [dim_term] in *. by rewrite IH.
Qed.

Lemma recur_loop_spec op x min max nlim fuel n st :
  0 ≤ n → (0 < nlim → n + Z.of_nat fuel = nlim) →
  let vs := recur_loop pow op x min max nlim fuel n st in
  (length vs ≤ fuel)%nat
  ∧ (∀ k v, vs !! k = Some v → dim_term op x st k = Some v ∧ out_of_bounds min max v = false)
  ∧ ((length vs < fuel)%nat →
     dim_term op x st (length vs) = None
     ∨ ∃ v, dim_term op x st (length vs) = Some v ∧ out_of_bounds min max v = true).
Proof.
  revert n st. induction fuel as [|fuel IH]; intros n st Hn Hlim; cbn [recur_loop].
  { cbn. split_and!; [lia|done|lia]. }
  destruct (out_of_bounds min max st) eqn:Eo.
  { cbn. split_and!; [lia|done|]. right. by exists st. }
  destruct ((0 <? nlim) && (nlim <=? n + 1)) eqn:El.
  { assert (fuel = 0%nat) as -> by lia. cbn. split_and!; [lia| |lia].
    intros [|k] v; cbn; [|done]. by intros [= <-]. }
  destruct (dim_next pow op x st) as [next|] eqn:Enext.
  - destruct (IH (n + 1) next) as (H1 & H2 & H3); [lia|lia|]. cbn [length].
    split_and!; [lia| |].
    + intros [|k] v; cbn [lookup list_lookup]; [by intros [= <-]|]. intros Hv.
      rewrite <- (dim_term_shift op x st next) by done. by apply H2.
    + intros Hl. rewrite <- (dim_term_shift op x st next) by done. apply H3. lia.
  - cbn. split_and!; [lia| |intros _; by left]. intros [|k] v; cbn; [|done]. by intros [= <-].
Qed.


Lemma list_tokens_all ws cap acc b :
  (∀ n, alloc n = true) → Forall padded_ok ws →
  list_tokens alloc (map padded_text ws) cap acc b
  = Ok (acc ++ map (λ w, (padded_value w, strtod (padded_value w))) ws,
        b || existsb (λ w, negb (is_numeric_string (padded_value w))) ws).
Proof.
  intros Hal Hws. revert cap acc b. induction Hws as [|w ws Hw _ IH]; intros cap acc b; cbn [map list_tokens existsb].
  { by rewrite app_nil_r, orb_false_r. }
  assert (trim_whitespace_dim (padded_text w) = padded_value w) as ->.
  { destruct Hw as (Ha & Hb & Ht & _). by apply trim_pads. }
  rewrite !Hal, andb_false_r. cbn [negb]. rewrite IH. by rewrite <- app_assoc, orb_assoc.
Qed.

(** C29: an explicit list is read back.  For a parameter name without an equals
    sign and values without commas, brackets and braces, written with any blanks
    around them, [--kargs-dim] and then the generation of values give exactly
    these values in order, as strings and as the numbers they read as; the list is
    one of strings as soon as one of them is not a number.  Memory is granted, and
    the argument and the name fit their buffers. *)
Theorem dim_list_roundtrip name ws :
  (∀ n, alloc n = true) → trimmed name → #"=" ∉ name → (length name < TPBM_NAME_STR_MAX_LEN)%nat →
  ws ≠ [] → Forall padded_ok ws →
  let argstr := name ++ $"=[" ++ join [COMMA] (map padded_text ws) ++ $"]" in
  (length argstr < TPBM_CLI_STR_MAX_LEN)%nat →
  ∃ cfg, tpb_argp_parse_dim alloc argstr = Ok cfg
    ∧ tpb_dim_generate_values alloc pow cfg
      = Ok (mkDimValues name (map (strtod ∘ padded_value) ws) (Some (map padded_value ws))
              (existsb (λ w, negb (is_numeric_string (padded_value w))) ws)).
Proof.
  intros Hal Hname Heq Hlen Hne Hws argstr Hfit.
  set (body := join [COMMA] (map padded_text ws)) in *.
  assert (Hin : ∀ c, isspace c = false → c ≠ COMMA → (∀ w, padded_ok w → c ∉ padded_value w) → c ∉ body).
  { intros c Hc Hcc Hv. apply not_in_join; [done|]. apply Forall_map. eapply Forall_impl; [exact Hws|].
    intros w Hw. apply padded_not; [done..|by apply Hv]. }
  assert (Hspec : trimmed (LBRACK :: body ++ [RBRACK])).
  { split_and!; [done|by intros c [= <-]|]. intros c. rewrite app_comm_cons, last_snoc. by intros [= <-]. }
  assert (Harg : trimmed argstr).
  { destruct Hname as (Hn0 & Hn1 & _). unfold argstr. split_and!.
    - by destruct name.
    - intros c. destruct name; [done|]. apply Hn1.
    - intros c. rewrite !app_assoc. change ($"]") with [RBRACK]. rewrite last_snoc. by intros [= <-]. }
  assert (Hcut : cut_value argstr = argstr) by by apply take_ge; lia.
  unfold tpb_argp_parse_dim. rewrite Hal. cbn [negb]. rewrite Hcut, trim_trimmed_dim by done.
  rewrite (proj2 (strchr_split_Some (#"=") argstr name (LBRACK :: body ++ [RBRACK]))) by done.
  rewrite (trim_trimmed_dim name), cut_name_id, (trim_trimmed_dim (LBRACK :: _)) by done.
  rewrite bool_decide_eq_false_2; [|].
  2: { intros [[a b] [Hab _]%strchr_split_Some]. assert (Hbr : #"{" ∈ LBRACK :: body ++ [RBRACK]) by (rewrite Hab; set_solver).
       apply elem_of_cons in Hbr as [?|[Hbr|Hbr]%elem_of_app]; [done| |by apply list_elem_of_singleton in Hbr].
       revert Hbr. apply Hin; [done..|]. by intros w (_ & _ & _ & _ & _ & _ & ?). }
  assert (Hcut2 : cut_value (LBRACK :: body ++ [RBRACK]) = LBRACK :: body ++ [RBRACK]).
  { apply take_ge. unfold argstr in Hfit. rewrite !length_app in Hfit.
    change (length ($"=[")) with 2%nat in Hfit. change (length ($"]")) with 1%nat in Hfit.
    cbn [length]. rewrite length_app. cbn [length]. lia. }
  assert (Hlist : tpb_argp_parse_list alloc (LBRACK :: body ++ [RBRACK])
    = Ok (TPB_DIM_LIST (map (λ w, (padded_value w, strtod (padded_value w))) ws)
            (existsb (λ w, negb (is_numeric_string (padded_value w))) ws))).
  { unfold tpb_argp_parse_list. rewrite Hcut2, trim_trimmed_dim by done.
    change (LBRACK =? #"[") with true. cbn iota.
    rewrite matching_plain; [|apply Hin; [done..|by intros w (_ & _ & _ & _ & ? & _)]
      |apply Hin; [done..|by intros w (_ & _ & _ & _ & _ & ? & _)]|done].
    rewrite Hal. cbn [negb]. unfold body. rewrite strtok_join.
    - rewrite list_tokens_all by done. cbn. rewrite length_map. by destruct ws.
    - apply Forall_map. eapply Forall_impl; [exact Hws|]. intros w Hw. split.
      + destruct Hw as (_ & _ & (Hv & _) & _). unfold padded_text. intros H.
        apply app_eq_nil in H as [_ [H _]%app_eq_nil]. done.
      + apply padded_not; [done..|by destruct Hw as (_ & _ & _ & ? & _)]. }
  change (LBRACK =? #"(") with false. change (LBRACK =? #"[") with true. cbn iota.
  rewrite Hlist. cbn [TPB_PROPAGATE mbind outcome_bind]. eexists. split; [done|].
  unfold tpb_dim_generate_values. cbn [dim_parm_name dim_spec_of]. rewrite !Hal. cbn [negb].
  rewrite cut_name_id by done.
  rewrite (proj2 (forallb_forall _ _)) by by intros. f_equal. f_equal.
  - by rewrite <- list_fmap_compose.
  - f_equal. by rewrite <- list_fmap_compose.
Qed.
End Properties.


Definition sample_values : list padded :=
  [ ([], $"double", []); ($" ", $"float", $" "); ($" ", $"iso-fp16", []) ].

Lemma trimmed_check t :
  match t, last t with c :: _, Some d => negb (isspace c) && negb (isspace d) | _, _ => false end = true →
  trimmed t.
Proof.
  destruct t as [|c t]; [done|]. destruct (last (c :: t)) as [d|] eqn:E; [|done].
  intros [Hc Hd]%andb_true_iff. split_and!; [done|intros ? [= <-]; by apply negb_true_iff|].
  rewrite E. intros ? [= <-]. by apply negb_true_iff.
Qed.

Lemma dim_list_roundtrip_witness :
  let argstr := $"dtype=[double, float , iso-fp16]" in
  ∃ cfg, tpb_argp_parse_dim (λ _, true) argstr = Ok cfg
    ∧ tpb_dim_generate_values (λ _, true) (λ a _, a) cfg
      = Ok (mkDimValues ($"dtype") (map strtod [ $"double"; $"float"; $"iso-fp16" ])
              (Some [ $"double"; $"float"; $"iso-fp16" ]) true).
Proof.
  apply (dim_list_roundtrip (λ _, true) (λ a _, a) ($"dtype") sample_values).
  - reflexivity.
  - apply trimmed_check. reflexivity.
  - apply (bool_decide_unpack _). vm_compute. exact I.
  - vm_compute. lia.
  - discriminate.
  - repeat constructor; try (apply (bool_decide_unpack _); vm_compute; exact I);
      try (by intros ? [= <-]); vm_compute; discriminate.
  - vm_compute. lia.
Defined.
