(* ===== verification/Run.v ===== *)
(** * The run subcommand

    [src/tpbcli/run/tpbcli-run.c]: the handlers of the options of [tpbcli run],
    the expansion of dimension sweeps into handles, the wrapper chains, and the
    part of [tpbcli_run] from the argument tree to the handles that are ready to
    run.  The registration of kernels before it, and the batch record and the
    execution after it, are not here.

    [pow] is that of libm; [x86] says whether the library was built for x86-64. *)

From S2P Require Import Prelude Errors CLib CNum ParmValue TagNorm Driver DriverHandle Argp.
From S2P Require Import CliArgp RunDim.
From stdpp Require Import options.

Definition MAX_DIM_CONFIGS : nat := 16.
Definition MAX_WRAPPER_LINKS : nat := 32.

(** ** State *)

Record local_wrapper := mkWrapper { lw_app : bytes; lw_args : bytes }.

(** A wrapper array up to its count, with the flag of an open link. *)
Record chain := mkChain { chain_links : list local_wrapper; chain_open : bool }.

(** The static variables of the file, with the driver and the output settings. *)
Record run_state := mkRun {
  rs_driver : driver;
  g_dry_run : bool;
  g_kernel_parsed_for_help : bool;
  g_pending_dims : list tpb_dim_config;
  g_pending_kernel_name : bytes;
  g_global : chain;
  g_segment : chain;
  g_seen_first_kernel : bool;
  g_pending_override_global : bool;
  g_outargs : option (Z * Z);     (* the last call of tpb_set_outargs *)
}.

Definition with_driver (d : driver) (s : run_state) : run_state :=
  mkRun d (g_dry_run s) (g_kernel_parsed_for_help s) (g_pending_dims s) (g_pending_kernel_name s)
    (g_global s) (g_segment s) (g_seen_first_kernel s) (g_pending_override_global s) (g_outargs s).
Definition with_dry_run (b : bool) (s : run_state) : run_state :=
  mkRun (rs_driver s) b (g_kernel_parsed_for_help s) (g_pending_dims s) (g_pending_kernel_name s)
    (g_global s) (g_segment s) (g_seen_first_kernel s) (g_pending_override_global s) (g_outargs s).
Definition with_help (b : bool) (s : run_state) : run_state :=
  mkRun (rs_driver s) (g_dry_run s) b (g_pending_dims s) (g_pending_kernel_name s)
    (g_global s) (g_segment s) (g_seen_first_kernel s) (g_pending_override_global s) (g_outargs s).
Definition with_dims (l : list tpb_dim_config) (s : run_state) : run_state :=
  mkRun (rs_driver s) (g_dry_run s) (g_kernel_parsed_for_help s) l (g_pending_kernel_name s)
    (g_global s) (g_segment s) (g_seen_first_kernel s) (g_pending_override_global s) (g_outargs s).
Definition with_kernel (name : bytes) (s : run_state) : run_state :=
  mkRun (rs_driver s) (g_dry_run s) true (g_pending_dims s) name
    (g_global s) (g_segment s) true (g_pending_override_global s) (g_outargs s).
Definition with_global (c : chain) (s : run_state) : run_state :=
  mkRun (rs_driver s) (g_dry_run s) (g_kernel_parsed_for_help s) (g_pending_dims s)
    (g_pending_kernel_name s) c (g_segment s) (g_seen_first_kernel s) (g_pending_override_global s)
    (g_outargs s).
Definition with_segment (c : chain) (s : run_state) : run_state :=
  mkRun (rs_driver s) (g_dry_run s) (g_kernel_parsed_for_help s) (g_pending_dims s)
    (g_pending_kernel_name s) (g_global s) c (g_seen_first_kernel s) (g_pending_override_global s)
    (g_outargs s).
Definition with_override (b : bool) (s : run_state) : run_state :=
  mkRun (rs_driver s) (g_dry_run s) (g_kernel_parsed_for_help s) (g_pending_dims s)
    (g_pending_kernel_name s) (g_global s) (g_segment s) (g_seen_first_kernel s) b (g_outargs s).
Definition with_outargs (o : Z * Z) (s : run_state) : run_state :=
  mkRun (rs_driver s) (g_dry_run s) (g_kernel_parsed_for_help s) (g_pending_dims s)
    (g_pending_kernel_name s) (g_global s) (g_segment s) (g_seen_first_kernel s)
    (g_pending_override_global s) (Some o).

Definition empty_chain : chain := mkChain [] false.

(** The assignments at the start of [tpbcli_run]. *)
Definition run_reset (s : run_state) : run_state :=
  mkRun (rs_driver s) false false [] [] empty_chain empty_chain false false (g_outargs s).

(** ** Computations *)

Definition R (A : Type) : Type := run_state → outcome A * run_state.
#[export] Instance R_ret : MRet R := λ A a s, (Ok a, s).
#[export] Instance R_bind : MBind R := λ A B k m s,
  match m s with
  | (Ok a, s') => k a s'
  | (Err e, s') => (Err e, s')
  | (UB, s') => (UB, s')
  end.

Definition r_fail {A} (cause : Z) : R A := λ s, (TPB_FAIL TPB_MOD_CLI_RUN cause, s).
Definition r_ub {A} : R A := λ s, (UB, s).
Definition r_get {A} (f : run_state → A) : R A := λ s, (Ok (f s), s).
Definition r_mod (f : run_state → run_state) : R unit := λ s, (Ok tt, f s).
Definition r_propagate {A} (m : R A) : R A := λ s,
  let '(r, s') := m s in (TPB_PROPAGATE TPB_MOD_CLI_RUN r, s').
Definition lift {A} (m : D A) : R A := λ s,
  let '(r, d) := m (rs_driver s) in (r, with_driver d s).
Definition pure_call {A} (f : (Z → bool) → outcome A) : R A := λ s, (f (d_malloc (rs_driver s)), s).
(** [err = m]: the status as a value. *)
Definition status_of {A} (m : R A) : R Z := λ s,
  match m s with
  | (Ok _, s') => (Ok TPBE_SUCCESS, s')
  | (Err e, s') => (Ok e, s')
  | (UB, s') => (UB, s')
  end.
(** [TPB_PROPAGATE(TPB_MOD_CLI_RUN, err, NULL)] of a status. *)
Definition propagate_status (err : Z) : R unit :=
  if err =? TPBE_SUCCESS then mret tt else r_propagate (λ s, (Err err, s)).

Section Run.
Context (pow : Z → Z → Z) (x86 : bool).

(** ** Wrapper chains *)

(** The content of a quoted argument; [None]: no memory. *)
Definition _sf_unquote_argstr (arg : bytes) : R (option bytes) :=
  match arg with
  | [] => mret (Some [])
  | quote_char :: rest =>
      if ((quote_char =? #"'") || (quote_char =? 34)) && (2 <=? length arg)%nat
         && bool_decide (last arg = Some quote_char)
      then
        let content := take (length arg - 2) rest in
        ok ← r_get (λ s, d_malloc (rs_driver s) (Z.of_nat (length content) + 1));
        mret (if ok : bool then Some content else None)
      else mret (Some arg)
  end.

(** A link as the driver takes it. *)
Definition local_link (w : local_wrapper) : tpb_wrapper_link :=
  mkLink (cut_name (lw_app w)) (match lw_args w with [] => None | a => Some a end).

(** The array [links] has [MAX_WRAPPER_LINKS] elements. *)
Definition _sf_bind_wrappers_to_handle (hdl_idx : Z) : R unit :=
  override ← r_get g_pending_override_global;
  global ← r_get (chain_links ∘ g_global);
  segment ← r_get (chain_links ∘ g_segment);
  let links := map local_link ((if override : bool then [] else global) ++ segment) in
  if (MAX_WRAPPER_LINKS <? length links)%nat then r_ub
  else
    _ ← r_propagate (lift (tpb_driver_set_hdl_wrappers_idx hdl_idx (Some links)
                             (Z.of_nat (length links))));
    _ ← r_mod (with_segment empty_chain);
    r_mod (with_override false).

(** The chain the wrapper options work on, and writing it back. *)
Definition get_chain : R chain := r_get (λ s, if g_seen_first_kernel s then g_segment s else g_global s).
Definition put_chain (c : chain) : R unit :=
  r_mod (λ s, if g_seen_first_kernel s then with_segment c s else with_global c s).

Definition _sf_parse_wrapper (value : option bytes) : R unit :=
  match value with
  | None | Some [] => r_fail TPBE_CLI_FAIL
  | Some value =>
      c ← get_chain;
      if (MAX_WRAPPER_LINKS <=? length (chain_links c))%nat then r_fail TPBE_CLI_FAIL
      else put_chain (mkChain (chain_links c ++ [mkWrapper (cut_name value) []]) true)
  end.

(** The arguments of a link after one more piece. *)
Definition append_args (args content : bytes) : bytes :=
  match args with
  | [] => snprintf_s TPBM_CLI_STR_MAX_LEN content
  | _ => args ++ snprintf_s (TPBM_CLI_STR_MAX_LEN - length args) ($" " ++ content)
  end.

Definition _sf_parse_wrapper_args (value : option bytes) : R unit :=
  c ← get_chain;
  match last (chain_links c) with
  | None => r_fail TPBE_CLI_FAIL
  | Some w =>
      if negb (chain_open c) then r_fail TPBE_CLI_FAIL
      else
        content ← match value with Some v => _sf_unquote_argstr v | None => mret None end;
        match content with
        | None => r_fail TPBE_MALLOC_FAIL
        | Some content =>
            put_chain (mkChain (take (length (chain_links c) - 1) (chain_links c)
                                ++ [mkWrapper (lw_app w) (append_args (lw_args w) content)]) true)
        end
  end.

Definition _sf_parse_override_global (value : option bytes) : R unit := r_mod (with_override true).

(** ** Output settings *)

Definition atoi (s : bytes) : Z := swrap 32 (strtoll s).

Fixpoint outargs_loop (toks : list bytes) (unit_cast sigbit_trim : Z) : R (Z * Z) :=
  match toks with
  | [] => mret (unit_cast, sigbit_trim)
  | tok :: toks' =>
      match strchr_split (#"=") (skip_blank tok) with
      | None => outargs_loop toks' unit_cast sigbit_trim
      | Some (key, value) =>
          let key := trim_token key in
          let value := skip_blank value in
          if strcmp key ($"unit_cast") =? 0 then outargs_loop toks' (atoi value) sigbit_trim
          else if strcmp key ($"sigbit_trim") =? 0 then outargs_loop toks' unit_cast (atoi value)
          else r_fail TPBE_CLI_FAIL
      end
  end.

Definition parse_outargs_string (outargs_str : bytes) : R unit :=
  ok ← r_get (λ s, d_malloc (rs_driver s) (Z.of_nat (length outargs_str) + 1));
  if negb ok then r_fail TPBE_MALLOC_FAIL
  else o ← outargs_loop (strtok COMMA outargs_str) 0 5; r_mod (with_outargs o).

(** ** Values of a dimension *)

(** The text of the [index]-th value, for a buffer of [sz] bytes; the conversion to
    [int64_t] is undefined when the value does not fit. *)
Definition dim_value_text (sz : nat) (v : tpb_dim_values) (index : nat) : option bytes :=
  match vals_is_string v, vals_str_values v with
  | true, Some strs => strs !! index
  | _, _ =>
      val ← vals_values v !! index;
      i ← f64_to_i64 val;
      Some (snprintf_s sz (if f64_eq val (f64_of_int i) then fmt_d i else fmt_g15 val))
  end.

Definition apply_dim_value (v : tpb_dim_values) (index : Z) : R unit :=
  if (index <? 0) || (vals_n v <=? index) then r_fail TPBE_KERN_ARG_FAIL
  else match dim_value_text 256 v (Z.to_nat index) with
       | Some t => lift (tpb_driver_set_hdl_karg (Some (vals_parm_name v)) (Some t))
       | None => r_ub
       end.

Definition apply_env_dim_value (v : tpb_dim_values) (index : Z) : R unit :=
  if (index <? 0) || (vals_n v <=? index) then r_fail TPBE_KERN_ARG_FAIL
  else match dim_value_text TPBM_CLI_STR_MAX_LEN v (Z.to_nat index) with
       | Some t => lift (tpb_driver_set_hdl_env (Some (vals_parm_name v)) (Some t))
       | None => r_ub
       end.

(** ** Expansion into handles *)

(** A new handle that takes over the settings of handle [orig]. *)
Definition clone_handle (kernel_name : bytes) (orig : Z) : R unit :=
  _ ← lift (tpb_driver_add_handle (Some kernel_name));
  lift (tpb_driver_copy_hdl_from orig).

(** The loop over the values, from index [i]. *)
Fixpoint expand_loop (apply : Z → R unit) (kernel_name : bytes) (orig : Z) (i : Z) (fuel : nat) : R unit :=
  match fuel with
  | O => mret tt
  | S fuel' =>
      _ ← r_propagate (if i =? 0 then apply i
                       else (_ ← clone_handle kernel_name orig; apply i));
      expand_loop apply kernel_name orig (i + 1) fuel'
  end.

Definition expand_dim_handles (dim_cfg : tpb_dim_config) (kernel_name : bytes) : R unit :=
  vals ← r_propagate (pure_call (λ alloc, tpb_dim_generate_values alloc pow dim_cfg));
  orig_hdl_idx ← lift tpb_driver_get_current_hdl_idx;
  expand_loop (apply_dim_value vals) kernel_name orig_hdl_idx 0 (length (vals_values vals)).

Definition expand_env_dim_handles (dim_cfg : tpb_dim_config) (kernel_name : bytes) : R unit :=
  vals ← r_propagate (pure_call (λ alloc, tpb_dim_generate_values alloc pow dim_cfg));
  orig_hdl_idx ← lift tpb_driver_get_current_hdl_idx;
  expand_loop (apply_env_dim_value vals) kernel_name orig_hdl_idx 0 (length (vals_values vals)).

(** [for (d = ndims - 1; d >= 0; d--)]: the dimensions from the last; the status of
    the last call. *)
Fixpoint apply_dims (rev_vals : list tpb_dim_values) (rem : Z) (err : Z) : R Z :=
  match rev_vals with
  | [] => mret err
  | v :: rest =>
      err ← status_of (apply_dim_value v (rem mod vals_n v));
      apply_dims rest (rem / vals_n v) err
  end.

(** The loop over the combinations from [c]; a failed clone ends it. *)
Fixpoint cartesian_loop (vals : list tpb_dim_values) (orig c : Z) (fuel : nat) (err : Z) : R Z :=
  match fuel with
  | O => mret err
  | S fuel' =>
      name ← r_get g_pending_kernel_name;
      err ← (if 0 <? c then status_of (clone_handle name orig) else mret err);
      if (0 <? c) && negb (err =? TPBE_SUCCESS) then mret err
      else
        err ← apply_dims (reverse vals) c err;
        cartesian_loop vals orig (c + 1) fuel' err
  end.

(** The values of every dimension; [total] is their product so far, an [int]. *)
Fixpoint generate_all (dims : list tpb_dim_config) (total : Z) : R (list tpb_dim_values) :=
  match dims with
  | [] => mret []
  | d :: dims' =>
      v ← r_propagate (pure_call (λ alloc, tpb_dim_generate_values alloc pow d));
      if total * vals_n v <? 2 ^ 31 then
        vs ← generate_all dims' (total * vals_n v);
        mret (v :: vs)
      else r_ub
  end.

Definition total_count (vals : list tpb_dim_values) : Z := foldl (λ t v, t * vals_n v) 1 vals.

Definition _sf_expand_cartesian_kargs : R unit :=
  dims ← r_get g_pending_dims;
  match dims with
  | [] => mret tt
  | _ =>
      vals ← generate_all dims 1;
      orig_hdl_idx ← lift tpb_driver_get_current_hdl_idx;
      err ← cartesian_loop vals orig_hdl_idx 0 (Z.to_nat (total_count vals)) TPBE_SUCCESS;
      propagate_status err
  end.

(** A failure is only logged. *)
Definition _sf_flush_pending_dims : R unit :=
  dims ← r_get g_pending_dims;
  match dims with
  | [] => mret tt
  | [d] => name ← r_get g_pending_kernel_name; _ ← status_of (expand_dim_handles d name); r_mod (with_dims [])
  | _ => _ ← status_of _sf_expand_cartesian_kargs; r_mod (with_dims [])
  end.

(** ** The handlers of the options *)

Definition _sf_parse_kernel (value : option bytes) : R unit :=
  nhdl ← lift tpb_get_nhdl;
  _ ← (if 0 <? nhdl then r_propagate (_sf_bind_wrappers_to_handle (nhdl - 1)) else mret tt);
  _ ← _sf_flush_pending_dims;
  _ ← r_propagate (lift (tpb_driver_add_handle value));
  match value with
  | Some name => r_mod (with_kernel (cut_name name))
  | None => r_ub
  end.

Definition _sf_parse_kargs (value : option bytes) : R unit :=
  match value with
  | Some _ => _ ← lift (tpb_argp_set_kargs_tokstr value); mret tt
  | None => r_ub
  end.

Definition _sf_parse_kargs_dim (value : option bytes) : R unit :=
  dims ← r_get g_pending_dims;
  if (MAX_DIM_CONFIGS <=? length dims)%nat then r_fail TPBE_CLI_FAIL
  else match value with
       | None => r_fail TPBE_NULLPTR_ARG
       | Some v =>
           cfg ← r_propagate (pure_call (λ alloc, tpb_argp_parse_dim alloc v));
           r_mod (with_dims (dims ++ [cfg]))
       end.

(** The [KEY=VALUE] tokens. *)
Fixpoint kenvs_loop (toks : list bytes) : R unit :=
  match toks with
  | [] => mret tt
  | tok :: toks' =>
      match strchr_split (#"=") (skip_blank tok) with
      | None => r_fail TPBE_CLI_FAIL
      | Some (key, value) =>
          match trim_token key with
          | [] => r_fail TPBE_CLI_FAIL
          | key =>
              _ ← r_propagate (lift (tpb_driver_set_hdl_env (Some key) (Some (skip_blank value))));
              kenvs_loop toks'
          end
      end
  end.
Definition parse_kenvs_tokstr (tokstr : option bytes) : R unit :=
  match tokstr with
  | None => r_fail TPBE_NULLPTR_ARG
  | Some s => kenvs_loop (strtok COMMA (cut_value s))
  end.
Definition _sf_parse_kenvs : option bytes → R unit := parse_kenvs_tokstr.

Definition _sf_parse_kenvs_dim (value : option bytes) : R unit :=
  match value with
  | None => r_fail TPBE_NULLPTR_ARG
  | Some v =>
      cfg ← r_propagate (pure_call (λ alloc, tpb_argp_parse_dim alloc v));
      name ← r_get g_pending_kernel_name;
      r_propagate (expand_env_dim_handles cfg name)
  end.

Definition _sf_parse_timer (value : option bytes) : R unit :=
  r_propagate (lift (tpb_argp_set_timer x86 value)).

Definition _sf_parse_outargs (value : option bytes) : R unit :=
  match value with Some v => parse_outargs_string v | None => r_ub end.

Definition _sf_parse_dry_run (value : option bytes) : R unit := r_mod (with_dry_run true).

(** The state [_sf_help_kernel_children] leaves; the copy it prints is released. *)
Definition _sf_help_kernel_children : R unit :=
  parsed ← r_get g_kernel_parsed_for_help;
  if parsed : bool then
    _ ← r_mod (with_help false);
    name ← r_get g_pending_kernel_name;
    q ← lift (tpb_query_kernel (-1) (Some name) (Some None));
    match q.2 with
    | None => mret tt
    | Some k => _ ← lift (tpb_free_kernel k); mret tt
    end
  else mret tt.

(** ** Names of the kernels to register *)

Definition _sf_run_kernel_value (arg : bytes) : bool :=
  match arg with
  | [] => false
  | c :: _ => if (strcmp arg ($"--help") =? 0) || (strcmp arg ($"-h") =? 0) then false
              else negb (c =? #"-")
  end.

(** The loop over [argv]; [names] are those found so far. *)
Fixpoint _sf_collect_run_kernel_names (argv names : list bytes) : outcome (list bytes) :=
  match argv with
  | [] => Ok names
  | a :: rest =>
      if (strcmp a ($"--kernel") =? 0) || (strcmp a ($"-k") =? 0) then
        match rest with
        | [] => _sf_collect_run_kernel_names rest names
        | v :: _ =>
            if negb (_sf_run_kernel_value v) then _sf_collect_run_kernel_names rest names
            else if existsb (λ n, strcmp n v =? 0) names then _sf_collect_run_kernel_names rest names
            else if (MAX_DIM_CONFIGS <=? length names)%nat then run_fail TPBE_CLI_FAIL
            else _sf_collect_run_kernel_names rest (names ++ [cut_name v])
        end
      else _sf_collect_run_kernel_names rest names
  end.

(** ** The argument tree *)

Definition conf (name : bytes) (short : option bytes) (ty : tpbcli_arg_type) (flags max : Z)
    (parse_fn : option (option bytes → R unit)) (help_fn : option (R unit)) (preset : option bytes)
  : tpbcli_argconf run_state :=
  mkConf (Some name) short ty flags max parse_fn help_fn preset [].

(** [tpbcli_add_arg] on the node at a path; a failure that the code does not check
    leaves the tree as it is. *)
Definition add_to (path : list nat) (c : tpbcli_argconf run_state) (root : tpbcli_argnode run_state)
  : tpbcli_argnode run_state :=
  match node_at root path ≫= λ n, tpbcli_add_arg true n c with
  | Some n' => update_at (λ _, n') path root
  | None => root
  end.

(** Paths, innermost index first. *)
Definition run_cmd : list nat := [0%nat].
Definition kernel_opt : list nat := [0%nat; 0%nat].
Definition wrapper_opt : list nat := [1%nat; 0%nat].

(** The tree when the allocations succeed. *)
Definition run_tree (prog : bytes) : tpbcli_argnode run_state :=
  let root := new_node (mkConf (Some prog) None TPBCLI_ARG_CMD 0 1 None None None []) in
  let opt name parse_fn := conf name None TPBCLI_ARG_OPT 0 (-1) (Some parse_fn) None None in
  let help help_fn := conf ($"--help") (Some ($"-h")) TPBCLI_ARG_FLAG 0 0 None (Some help_fn) None in
  let root := add_to [] (conf ($"run") (Some ($"r")) TPBCLI_ARG_CMD TPBCLI_ARGF_EXCLUSIVE 1 None None None) root in
  let root := add_to run_cmd (conf ($"--kernel") (Some ($"-k")) TPBCLI_ARG_OPT TPBCLI_ARGF_MANDATORY (-1)
                                (Some _sf_parse_kernel) None None) root in
  let root := add_to kernel_opt (opt ($"--kargs") _sf_parse_kargs) root in
  let root := add_to kernel_opt (opt ($"--kargs-dim") _sf_parse_kargs_dim) root in
  let root := add_to kernel_opt (opt ($"--kenvs") _sf_parse_kenvs) root in
  let root := add_to kernel_opt (opt ($"--kenvs-dim") _sf_parse_kenvs_dim) root in
  let root := add_to kernel_opt (conf ($"--override-global") (Some ($"-og")) TPBCLI_ARG_FLAG 0 1
                                   (Some _sf_parse_override_global) None None) root in
  let root := add_to kernel_opt (help _sf_help_kernel_children) root in
  let root := add_to run_cmd (opt ($"--wrapper") _sf_parse_wrapper) root in
  let root := add_to wrapper_opt (opt ($"--wrapper-args") _sf_parse_wrapper_args) root in
  let root := add_to run_cmd (conf ($"--timer") None TPBCLI_ARG_OPT TPBCLI_ARGF_PRESET 1
                                (Some _sf_parse_timer) None (Some ($"clock_gettime"))) root in
  let root := add_to run_cmd (conf ($"--outargs") None TPBCLI_ARG_OPT 0 1 (Some _sf_parse_outargs) None None) root in
  let root := add_to run_cmd (conf ($"--dry-run") (Some ($"-d")) TPBCLI_ARG_FLAG 0 1
                                (Some _sf_parse_dry_run) None None) root in
  add_to run_cmd (help (mret tt)) root.

Definition sizeof_argnode : Z := 128.

(** After a successful parse: the last sweep, and the wrappers of the last handle. *)
Definition run_finish : R unit :=
  _ ← _sf_flush_pending_dims;
  nhdl ← lift tpb_get_nhdl;
  if 0 <? nhdl then r_propagate (_sf_bind_wrappers_to_handle (nhdl - 1)) else mret tt.

(** From the creation of the tree to the binding of the last handle's wrappers;
    [argv] has at least the name of the program. *)
Definition tpbcli_run_prepare (argv : list bytes) : R unit :=
  ok ← r_get (λ s, d_malloc (rs_driver s) sizeof_argnode);
  if negb ok then r_fail TPBE_MALLOC_FAIL
  else
    r ← (λ s, let '(r, p) := tpbcli_parse_args (run_tree (default ($"tpbcli") (head argv))) argv s in
              (Ok r, ps_user p));
    match r with
    | Ok _ => run_finish
    | Err e => _ ← r_mod (with_dims []); r_propagate (λ s, (Err e, s))
    | UB => r_ub
    end.

End Run.
