(* ===== verification/RunState.v ===== *)
(** * The run subcommand: its state fits

    The static arrays of [tpbcli-run.c] are never overrun by the option handlers,
    for any command line. *)

From S2P Require Import Prelude Errors CLib CNum ParmValue TagNorm Driver DriverHandle Argp.
From S2P Require Import CliArgp CliArgpProps CliArgpUser RunDim Run.
From stdpp Require Import options.

(** ** The type of the static variables *)

Definition wrapper_fits (w : local_wrapper) : Prop :=
  (length (lw_app w) < TPBM_NAME_STR_MAX_LEN)%nat ∧ (length (lw_args w) < TPBM_CLI_STR_MAX_LEN)%nat.
Definition chain_fits (c : chain) : Prop :=
  (length (chain_links c) ≤ MAX_WRAPPER_LINKS)%nat ∧ Forall wrapper_fits (chain_links c)
  ∧ (chain_open c = true → chain_links c ≠ []).
Definition dim_fits (d : tpb_dim_config) : Prop :=
  (length (dim_parm_name d) < TPBM_NAME_STR_MAX_LEN)%nat
  ∧ match dim_spec_of d with
    | TPB_DIM_LIST vals _ => (1 ≤ length vals ≤ Z.to_nat TPBM_DIM_MAX_VALUES)%nat
    | TPB_DIM_RECUR _ _ st min max _ => f64_lt max min = false ∧ out_of_bounds min max st = false
    end.

Record run_fits (s : run_state) : Prop := {
  fits_dims : (length (g_pending_dims s) ≤ MAX_DIM_CONFIGS)%nat ∧ Forall dim_fits (g_pending_dims s);
  fits_name : (length (g_pending_kernel_name s) < TPBM_NAME_STR_MAX_LEN)%nat;
  fits_global : chain_fits (g_global s);
  fits_segment : chain_fits (g_segment s);
}.

Lemma snprintf_length sz s : (0 < sz)%nat → (length (snprintf_s sz s) < sz)%nat.
Proof. intros H. unfold snprintf_s. rewrite length_take. lia. Qed.
Lemma cut_name_length n : (length (cut_name n) < TPBM_NAME_STR_MAX_LEN)%nat.
Proof. apply snprintf_length. unfold TPBM_NAME_STR_MAX_LEN. lia. Qed.

Lemma append_args_length args content :
  (length args < TPBM_CLI_STR_MAX_LEN)%nat → (length (append_args args content) < TPBM_CLI_STR_MAX_LEN)%nat.
Proof.
  intros H. unfold append_args. destruct args as [|c args].
  - apply snprintf_length. unfold TPBM_CLI_STR_MAX_LEN. lia.
  - rewrite length_app. pose proof (snprintf_length (TPBM_CLI_STR_MAX_LEN - length (c :: args)) ($" " ++ content)).
    lia.
Qed.

Lemma chain_fits_empty : chain_fits empty_chain.
Proof. split; [cbn; lia|]. by split. Qed.

Lemma chain_fits_add c app :
  chain_fits c → (length (chain_links c) < MAX_WRAPPER_LINKS)%nat →
  chain_fits (mkChain (chain_links c ++ [mkWrapper (cut_name app) []]) true).
Proof.
  intros (_ & Hw & _) Hlen. split; [cbn; rewrite length_app; cbn; lia|]. split; [|by destruct (chain_links c)].
  apply Forall_app. split; [done|]. constructor; [|done]. split; [apply cut_name_length|].
  cbn. unfold TPBM_CLI_STR_MAX_LEN. lia.
Qed.

Lemma chain_fits_args c w content :
  chain_fits c → last (chain_links c) = Some w →
  chain_fits (mkChain (take (length (chain_links c) - 1) (chain_links c)
                       ++ [mkWrapper (lw_app w) (append_args (lw_args w) content)]) true).
Proof.
  intros (Hlen & Hw & _) Hl. split; [|split].
  - cbn. rewrite length_app, length_take. cbn. destruct (chain_links c); [done|]. cbn in *. lia.
  - apply Forall_app. split; [by apply Forall_take|]. constructor; [|done].
    apply last_Some in Hl as (l' & E). rewrite E in Hw. apply Forall_app in Hw as [_ [[Ha Hb] _]%Forall_cons].
    split; [done|]. by apply append_args_length.
  - intros _. by destruct (take _ _).
Qed.

(** ** Handlers *)

Definition fits {A} (m : R A) : Prop := ∀ s, run_fits s → run_fits (m s).2.

Lemma fits_ret {A} (a : A) : fits (mret a).
Proof. by intros s. Qed.
Lemma fits_bind {A B} (m : R A) (f : A → R B) : fits m → (∀ a, fits (f a)) → fits (m ≫= f).
Proof.
  intros Hm Hf s Hs. specialize (Hm s Hs). unfold mbind, R_bind. destruct (m s) as [[a|e|] s']; [|done..].
  by apply Hf.
Qed.
Lemma fits_fail {A} c : fits (@r_fail A c).
Proof. by intros s. Qed.
Lemma fits_ub {A} : fits (@r_ub A).
Proof. by intros s. Qed.
Lemma fits_get {A} (f : run_state → A) : fits (r_get f).
Proof. by intros s. Qed.
Lemma fits_pure {A} (f : (Z → bool) → outcome A) : fits (pure_call f).
Proof. by intros s. Qed.
Lemma fits_propagate {A} (m : R A) : fits m → fits (r_propagate m).
Proof. intros Hm s Hs. specialize (Hm s Hs). unfold r_propagate. by destruct (m s). Qed.
Lemma fits_status {A} (m : R A) : fits m → fits (status_of m).
Proof. intros Hm s Hs. specialize (Hm s Hs). unfold status_of. by destruct (m s) as [[?|?|] ?]. Qed.
Lemma fits_lift {A} (m : D A) : fits (lift m).
Proof. intros s [? ? ? ?]. unfold lift. destruct (m (rs_driver s)) as [r d]. by split. Qed.
Lemma fits_mod f : (∀ s, run_fits s → run_fits (f s)) → fits (r_mod f).
Proof. intros H s Hs. by apply H. Qed.
Lemma fits_propagate_status e : fits (propagate_status e).
Proof. unfold propagate_status. destruct (_ =? _); [apply fits_ret|]. by intros s. Qed.

Create HintDb fits.
#[local] Hint Resolve fits_ret fits_fail fits_ub fits_get fits_pure fits_propagate fits_status fits_lift
  fits_propagate_status : fits.
(** Decompose binds, matches and conditionals. *)
Ltac fits_auto :=
  repeat first
    [ progress cbn beta iota
    | solve [eauto with fits]
    | apply fits_bind; [|intros ?]
    | apply fits_propagate | apply fits_status
    | match goal with
      | |- fits (match ?x with _ => _ end) => destruct x
      | |- fits (if ?x then _ else _) => destruct x
      end ].

Ltac fits_record :=
  apply fits_mod; intros ? [? ? ? ?]; split; cbn; auto using chain_fits_empty, cut_name_length.

Section Handlers.
Context (pow : Z → Z → Z) (x86 : bool).

Lemma fits_with_dims_nil : fits (r_mod (with_dims [])).
Proof. fits_record. split; [cbn; lia|done]. Qed.
Lemma fits_with_segment : fits (r_mod (with_segment empty_chain)).
Proof. fits_record. Qed.
Lemma fits_with_override b : fits (r_mod (with_override b)).
Proof. fits_record. Qed.
Lemma fits_with_kernel n : fits (r_mod (with_kernel (cut_name n))).
Proof. fits_record. Qed.
Lemma fits_with_outargs o : fits (r_mod (with_outargs o)).
Proof. fits_record. Qed.
Lemma fits_with_help b : fits (r_mod (with_help b)).
Proof. fits_record. Qed.
Lemma fits_with_dry_run b : fits (r_mod (with_dry_run b)).
Proof. fits_record. Qed.
#[local] Hint Resolve fits_with_dims_nil fits_with_segment fits_with_override fits_with_kernel
  fits_with_outargs fits_with_help fits_with_dry_run : fits.

Lemma fits_bind_wrappers i : fits (_sf_bind_wrappers_to_handle i).
Proof. unfold _sf_bind_wrappers_to_handle. fits_auto. Qed.
Lemma fits_apply_dim v i : fits (apply_dim_value v i).
Proof. unfold apply_dim_value. fits_auto. Qed.
Lemma fits_apply_env v i : fits (apply_env_dim_value v i).
Proof. unfold apply_env_dim_value. fits_auto. Qed.
Lemma fits_clone n i : fits (clone_handle n i).
Proof. unfold clone_handle. fits_auto. Qed.
#[local] Hint Resolve fits_bind_wrappers fits_apply_dim fits_apply_env fits_clone : fits.

Lemma fits_expand_loop apply n orig i fuel :
  (∀ j, fits (apply j)) → fits (expand_loop apply n orig i fuel).
Proof. intros H. revert i. induction fuel as [|fuel IH]; intros i; cbn [expand_loop]; fits_auto. Qed.
Lemma fits_apply_dims vs rem err : fits (apply_dims vs rem err).
Proof. revert rem err. induction vs as [|v vs IH]; intros; cbn [apply_dims]; fits_auto. Qed.
#[local] Hint Resolve fits_expand_loop fits_apply_dims : fits.
Lemma fits_cartesian_loop vals orig c fuel err : fits (cartesian_loop vals orig c fuel err).
Proof. revert c err. induction fuel as [|fuel IH]; intros; cbn [cartesian_loop]; fits_auto. Qed.
Lemma fits_generate_all dims t : fits (generate_all pow dims t).
Proof. revert t. induction dims as [|d dims IH]; intros; cbn [generate_all]; fits_auto. Qed.
#[local] Hint Resolve fits_cartesian_loop fits_generate_all : fits.

Lemma fits_expand_dim d n : fits (expand_dim_handles pow d n).
Proof. unfold expand_dim_handles. fits_auto. Qed.
Lemma fits_expand_env d n : fits (expand_env_dim_handles pow d n).
Proof. unfold expand_env_dim_handles. fits_auto. Qed.
Lemma fits_expand_cartesian : fits (_sf_expand_cartesian_kargs pow).
Proof. unfold _sf_expand_cartesian_kargs. fits_auto. Qed.
#[local] Hint Resolve fits_expand_dim fits_expand_env fits_expand_cartesian : fits.
Lemma fits_flush : fits (_sf_flush_pending_dims pow).
Proof. unfold _sf_flush_pending_dims. fits_auto. Qed.
#[local] Hint Resolve fits_flush : fits.

Lemma fits_parse_kernel v : fits (_sf_parse_kernel pow v).
Proof. unfold _sf_parse_kernel. fits_auto. Qed.
Lemma fits_parse_kargs v : fits (_sf_parse_kargs v).
Proof. unfold _sf_parse_kargs. fits_auto. Qed.
Lemma fits_kenvs_loop toks : fits (kenvs_loop toks).
Proof. induction toks as [|t toks IH]; cbn [kenvs_loop]; fits_auto. Qed.
#[local] Hint Resolve fits_kenvs_loop : fits.
Lemma fits_parse_kenvs v : fits (_sf_parse_kenvs v).
Proof. unfold _sf_parse_kenvs, parse_kenvs_tokstr. fits_auto. Qed.
Lemma fits_parse_kenvs_dim v : fits (_sf_parse_kenvs_dim pow v).
Proof. unfold _sf_parse_kenvs_dim. fits_auto. Qed.
Lemma fits_outargs_loop toks u b : fits (outargs_loop toks u b).
Proof. revert u b. induction toks as [|t toks IH]; intros; cbn [outargs_loop]; fits_auto. Qed.
#[local] Hint Resolve fits_outargs_loop : fits.
Lemma fits_parse_outargs v : fits (_sf_parse_outargs v).
Proof. unfold _sf_parse_outargs, parse_outargs_string. fits_auto. Qed.
Lemma fits_parse_timer v : fits (_sf_parse_timer x86 v).
Proof. unfold _sf_parse_timer. fits_auto. Qed.
Lemma fits_kernel_help : fits _sf_help_kernel_children.
Proof. unfold _sf_help_kernel_children. fits_auto. Qed.

End Handlers.

(** ** Parsed dimensions *)

Lemma strtok_acc_length d s cur : (length (strtok_acc d s cur) ≤ length s + length cur)%nat.
Proof.
  revert cur. induction s as [|x s IH]; intros cur; cbn [strtok_acc].
  - destruct cur; cbn; lia.
  - destruct (x =? d); [|specialize (IH (cur ++ [x])); rewrite length_app in IH; cbn in *; lia].
    specialize (IH []). destruct cur; cbn in *; lia.
Qed.

Lemma skip_space_length s : (length (skip_space s) ≤ length s)%nat.
Proof. induction s as [|c s IH]; cbn; [lia|]. destruct (isspace c); cbn; lia. Qed.
Lemma trim_length s : (length (trim_whitespace_dim s) ≤ length s)%nat.
Proof.
  unfold trim_whitespace_dim. rewrite length_reverse.
  pose proof (skip_space_length (reverse (skip_space s))) as H. rewrite length_reverse in H.
  pose proof (skip_space_length s). lia.
Qed.

Lemma matching_length o c depth s a b :
  find_matching_bracket o c depth s = Some (a, b) → (length a ≤ length s)%nat.
Proof.
  revert depth a b. induction s as [|x s IH]; intros depth a b; cbn [find_matching_bracket]; [done|].
  destruct (0 <? _); [|by intros [= <- <-]; cbn; lia].
  destruct (find_matching_bracket o c _ s) as [[a' b']|] eqn:E; [|done]. cbn. intros [= <- <-].
  cbn. apply IH in E. lia.
Qed.

Lemma list_tokens_length alloc toks cap acc b vals b' :
  list_tokens alloc toks cap acc b = Ok (vals, b') → length vals = (length acc + length toks)%nat.
Proof.
  revert cap acc b. induction toks as [|t toks IH]; intros cap acc b; cbn [list_tokens].
  - intros [= <- <-]. cbn. lia.
  - destruct (_ && _); [done|]. destruct (negb _); [done|]. intros H%IH.
    rewrite H, length_app. cbn. lia.
Qed.

Lemma cut_value_length s : (length (cut_value s) < TPBM_CLI_STR_MAX_LEN)%nat.
Proof. apply snprintf_length. unfold TPBM_CLI_STR_MAX_LEN. lia. Qed.

Lemma parse_list_fits alloc spec d name : tpb_argp_parse_list alloc spec = Ok d → (length name < TPBM_NAME_STR_MAX_LEN)%nat →
  dim_fits (mkDim name d).
Proof.
  unfold tpb_argp_parse_list. intros H Hn. split; [done|]. cbn [dim_spec_of].
  pose proof (trim_length (cut_value spec)) as Hl. pose proof (cut_value_length spec) as Hc.
  destruct (trim_whitespace_dim (cut_value spec)) as [|c p]; [done|]. destruct (c =? _); [|done].
  destruct (find_matching_bracket _ _ 1 p) as [[inside rest]|] eqn:Em; [|done].
  apply matching_length in Em. destruct (negb _); [done|].
  destruct (list_tokens alloc _ 16 [] false) as [[vals b]|e|] eqn:Et; [|done..]. cbn in H.
  apply list_tokens_length in Et. destruct (length vals =? 0)%nat eqn:E0; [done|]. injection H as <-.
  pose proof (strtok_acc_length COMMA inside []) as Hs. fold (strtok COMMA inside) in Hs.
  apply Nat.eqb_neq in E0. cbn in Et, Hs, Hl. unfold TPBM_CLI_STR_MAX_LEN in Hc. unfold TPBM_DIM_MAX_VALUES. lia.
Qed.

Lemma parse_recur_fits spec d name : tpb_argp_parse_dim_recur spec = Ok d → (length name < TPBM_NAME_STR_MAX_LEN)%nat →
  dim_fits (mkDim name d).
Proof.
  unfold tpb_argp_parse_dim_recur. intros H Hn. split; [done|]. cbn [dim_spec_of].
  destruct (recur_head _) as [[[op x] rest]|]; [|done].
  destruct (recur_params rest) as [[[[st min] max] nlim]|]; [|done].
  destruct (f64_lt max min) eqn:E1; [done|]. destruct (_ || _) eqn:E2; [done|]. by injection H as <-.
Qed.

Lemma parse_dim_fits alloc v cfg : tpb_argp_parse_dim alloc v = Ok cfg → dim_fits cfg.
Proof.
  unfold tpb_argp_parse_dim. destruct (negb _); [done|].
  destruct (strchr_split _ _) as [[name spec]|]; [|done]. destruct (bool_decide _); [done|].
  set (parsed := match trim_whitespace_dim spec with [] => _ | _ => _ end).
  destruct parsed as [d|e|] eqn:E; [|cbn; by destruct (e =? _)|done]. cbn. intros [= <-].
  subst parsed. destruct (trim_whitespace_dim spec) as [|c rest]; [done|].
  destruct (c =? _); [done|]. destruct (c =? _).
  - eapply parse_list_fits; [exact E|apply cut_name_length].
  - destruct (isalpha c); [|done]. eapply parse_recur_fits; [exact E|apply cut_name_length].
Qed.

Lemma fits_parse_kargs_dim v : fits (_sf_parse_kargs_dim v).
Proof.
  intros s Hs. unfold _sf_parse_kargs_dim, mbind, R_bind at 1, r_get.
  destruct (_ <=? _)%nat eqn:Hlen; [done|]. apply Nat.leb_gt in Hlen.
  destruct v as [v|]; [|done]. unfold R_bind, r_propagate, pure_call.
  destruct (tpb_argp_parse_dim _ v) as [cfg|e|] eqn:E; [|cbn; by destruct (e =? _)|done].
  cbn. destruct Hs as [[_ Hd] ? ? ?]. split; cbn; [|done..]. split; [rewrite length_app; cbn; lia|].
  apply Forall_app. split; [done|]. constructor; [|done]. by eapply parse_dim_fits.
Qed.

(** ** Wrapper options *)

Lemma fits_put_chain c : chain_fits c → fits (put_chain c).
Proof.
  intros Hc. unfold put_chain. apply fits_mod. intros s [? ? ? ?]. destruct (g_seen_first_kernel s); by split.
Qed.
Lemma fits_get_chain s : run_fits s → ∃ c, get_chain s = (Ok c, s) ∧ chain_fits c.
Proof. intros [_ _ ? ?]. eexists. split; [done|]. by destruct (g_seen_first_kernel s). Qed.

Lemma fits_parse_wrapper v : fits (_sf_parse_wrapper v).
Proof.
  destruct v as [[|b v]|]; [by intros s|..|by intros s]. intros s Hs.
  destruct (fits_get_chain s Hs) as (c & E & Hc). unfold _sf_parse_wrapper, mbind, R_bind. rewrite E.
  destruct (_ <=? _)%nat eqn:Hlen; [done|]. apply Nat.leb_gt in Hlen.
  by apply fits_put_chain; [apply chain_fits_add|].
Qed.

Lemma fits_unquote v : fits (_sf_unquote_argstr v).
Proof. unfold _sf_unquote_argstr. fits_auto. Qed.

Lemma fits_parse_wrapper_args v : fits (_sf_parse_wrapper_args v).
Proof.
  intros s Hs. destruct (fits_get_chain s Hs) as (c & E & Hc).
  unfold _sf_parse_wrapper_args, mbind, R_bind at 1. rewrite E.
  destruct (last (chain_links c)) as [w|] eqn:El; [|done]. destruct (negb _); [done|].
  apply fits_bind; [|intros [content|]; [|apply fits_fail]|done].
  - destruct v; [apply fits_unquote|apply fits_ret].
  - by apply fits_put_chain, chain_fits_args.
Qed.

(** ** The whole command *)

Section Prepare.
Context (pow : Z → Z → Z) (x86 : bool).

Lemma conf_fits name short ty flags max parse help preset :
  (∀ f v, parse = Some f → fits (f v)) → (∀ f, help = Some f → fits f) →
  conf_keeps run_fits (conf name short ty flags max parse help preset).
Proof. intros Hp Hh. split; cbn; intros; [by apply Hp|by apply Hh]. Qed.

Lemma add_to_fits path c root :
  tree_keeps run_fits root → conf_keeps run_fits c → tree_keeps run_fits (add_to path c root).
Proof.
  intros Hr Hc. unfold add_to. destruct (node_at root path) as [n|] eqn:En; [|done]. cbn.
  destruct (tpbcli_add_arg true n c) as [n'|] eqn:Ea; [|done]. by eapply tree_keeps_add.
Qed.

Lemma run_tree_fits prog : tree_keeps run_fits (run_tree pow x86 prog).
Proof.
  unfold run_tree. cbv zeta.
  repeat (apply add_to_fits; [|apply conf_fits; intros ?; [intros ?|]; intros [= <-];
    first [apply fits_parse_kernel | apply fits_parse_kargs | apply fits_parse_kargs_dim
          | apply fits_parse_kenvs | apply fits_parse_kenvs_dim | apply fits_with_override
          | apply fits_kernel_help | apply fits_parse_wrapper | apply fits_parse_wrapper_args
          | apply fits_parse_timer | apply fits_parse_outargs | apply fits_with_dry_run
          | apply fits_ret]]).
  by apply tree_keeps_new.
Qed.

Lemma run_reset_fits s : run_fits (run_reset s).
Proof.
  split; cbn; [split; [lia|constructor]|unfold TPBM_NAME_STR_MAX_LEN; lia|apply chain_fits_empty..].
Qed.

Lemma fits_run_finish : fits (run_finish pow).
Proof.
  unfold run_finish. apply fits_bind; [apply fits_flush|]. intros _. apply fits_bind; [apply fits_lift|].
  intros n. destruct (0 <? n); [apply fits_propagate, fits_bind_wrappers|apply fits_ret].
Qed.

(** C16: the static state of [tpbcli run] is well-formed whatever the command line is:
    after any [argv], with any allocations refused and however parsing ends, there
    are at most 16 pending dimensions, each an explicit list of 1 to 4096 values or
    a recurrence whose start lies within its limits, at most 32 links in each of the
    two wrapper chains, a chain with an open link is not empty, and every name and
    argument string is shorter than its array. *)
Theorem run_state_fits argv s : run_fits (tpbcli_run_prepare pow x86 argv (run_reset s)).2.
Proof.
  pose proof (run_reset_fits s) as Hs. unfold tpbcli_run_prepare.
  apply fits_bind; [apply fits_get|intros ok|done].
  destruct (negb ok); [apply fits_fail|].
  apply fits_bind.
  - intros u Hu.
    pose proof (parse_args_keeps run_fits (run_tree pow x86 (default ($"tpbcli") (head argv))) argv u
                  (run_tree_fits _) Hu) as H.
    by destruct (tpbcli_parse_args _ argv u) as [r p].
  - intros [[]|e|]; [apply fits_run_finish| |apply fits_ub].
    apply fits_bind; [apply fits_with_dims_nil|]. intros _. apply fits_propagate. by intros u.
Qed.

End Prepare.
