(* ===== verification/RunSweep.v ===== *)
(** * The run subcommand: sweeps

    What the expansion of dimension sweeps means, and that both of its
    implementations, the loop for one dimension and the Cartesian one, do it: one
    handle for every combination of values, in row-major order, each with the
    settings of the handle that was expanded. *)

From S2P Require Import Prelude Errors CLib CNum ParmValue TagNorm Driver DriverHandle Argp.
From S2P Require Import DriverInv DriverCalls DriverProps CliArgp RunDim Run.
From stdpp Require Import options.

(** ** Specification *)

(** The index and the value a setting [kv] stands for in an argument list. *)
Definition karg_slot (junk : Z) (args : list tpb_rt_arg) (kv : bytes * bytes) : option (nat * Z) :=
  i ← find_index (arg_is kv.1) args;
  a ← args !! i;
  v ← parse_value junk (type_code (arg_ctrlbits a)) kv.2;
  Some (i, v).

Definition set_slot (slot : nat * Z) (args : list tpb_rt_arg) : list tpb_rt_arg :=
  alter (with_value slot.2) slot.1 args.

(** One setting; of an assignment, the first of several settings of a name holds. *)
Definition set_karg (junk : Z) (kv : bytes * bytes) (args : list tpb_rt_arg) : list tpb_rt_arg :=
  match karg_slot junk args kv with
  | Some slot => set_slot slot args
  | None => args
  end.
Definition set_kargs (junk : Z) (kvs : list (bytes * bytes)) (args : list tpb_rt_arg)
  : list tpb_rt_arg := foldr (set_karg junk) args kvs.

(** The settings of a dimension. *)
Definition dim_points (v : tpb_dim_values) : list (bytes * bytes) :=
  (λ i, (vals_parm_name v, default [] (dim_value_text 256 v i))) <$> seq 0 (length (vals_values v)).

(** All combinations, the last dimension the fastest. *)
Fixpoint combos (vals : list tpb_dim_values) : list (list (bytes * bytes)) :=
  match vals with
  | [] => [[]]
  | v :: vals' => flat_map (λ kv, cons kv <$> combos vals') (dim_points v)
  end.

(** The handles of a sweep over a handle. *)
Definition sweep_handles (junk : Z) (vals : list tpb_dim_values) (h : tpb_k_rthdl) : list tpb_k_rthdl :=
  (λ kvs, with_hargs (Some (set_kargs junk kvs (elems (h_args h)))) h) <$> combos vals.

(** ** Combinations *)

Lemma length_flat_map_const {A B} (f : A → list B) l n :
  (∀ x, x ∈ l → length (f x) = n) → length (flat_map f l) = (length l * n)%nat.
Proof.
  induction l as [|x l IH]; intros H; [done|]. cbn. rewrite length_app, IH, H; [done|by left|].
  intros y Hy. apply H. by right.
Qed.

Lemma lookup_flat_map_const {A B} (f : A → list B) l n (i j : nat) x :
  (∀ x, length (f x) = n) → l !! i = Some x → (j < n)%nat →
  flat_map f l !! (i * n + j)%nat = f x !! j.
Proof.
  intros Hn. revert i. induction l as [|y l IH]; intros i Hi Hj; [done|]. cbn.
  destruct i as [|i]; cbn in Hi.
  - injection Hi as ->. rewrite lookup_app_l; [done|]. rewrite Hn. lia.
  - rewrite lookup_app_r by (rewrite Hn; lia). rewrite Hn.
    replace (S i * n + j - n)%nat with (i * n + j)%nat by lia. by apply IH.
Qed.

Lemma length_dim_points v : length (dim_points v) = length (vals_values v).
Proof. unfold dim_points. by rewrite length_fmap, length_seq. Qed.

Lemma flat_map_flat_map {A B C} (f : A → list B) (g : B → list C) l :
  flat_map g (flat_map f l) = flat_map (λ x, flat_map g (f x)) l.
Proof. induction l as [|x l IH]; cbn; [done|]. by rewrite flat_map_app, IH. Qed.

Lemma flat_map_fmap {A B C} (f : A → B) (g : B → list C) l :
  flat_map g (f <$> l) = flat_map (λ x, g (f x)) l.
Proof. induction l as [|x l IH]; cbn; [done|]. by rewrite <- IH. Qed.

Lemma fmap_flat_map {A B C} (f : A → list B) (g : B → C) l :
  g <$> flat_map f l = flat_map (λ x, g <$> f x) l.
Proof. induction l as [|x l IH]; cbn; [done|]. by rewrite fmap_app, IH. Qed.

(** The last dimension first. *)
Lemma combos_snoc vals v :
  combos (vals ++ [v]) = flat_map (λ c, (λ kv, c ++ [kv]) <$> dim_points v) (combos vals).
Proof.
  induction vals as [|u vals IH]; cbn.
  - rewrite app_nil_r. induction (dim_points v) as [|kv l IH]; cbn; [done|]. by rewrite IH.
  - rewrite flat_map_flat_map. apply flat_map_ext. intros kv.
    rewrite IH, fmap_flat_map, flat_map_fmap. apply flat_map_ext. intros c.
    by rewrite <- list_fmap_compose.
Qed.

Lemma total_count_snoc vals v : total_count (vals ++ [v]) = total_count vals * vals_n v.
Proof. unfold total_count. by rewrite foldl_app. Qed.

Lemma length_combos vals : Z.of_nat (length (combos vals)) = total_count vals.
Proof.
  induction vals as [|v vals IH] using rev_ind; [done|].
  rewrite combos_snoc, total_count_snoc, (length_flat_map_const _ _ (length (vals_values v))).
  - rewrite Nat2Z.inj_mul, IH. done.
  - intros c _. by rewrite length_fmap, length_dim_points.
Qed.

Lemma combos_digit vals v (q r : nat) c kv :
  combos vals !! q = Some c → dim_points v !! r = Some kv →
  combos (vals ++ [v]) !! (q * length (vals_values v) + r)%nat = Some (c ++ [kv]).
Proof.
  intros Hc Hkv. rewrite combos_snoc.
  rewrite (lookup_flat_map_const _ _ (length (vals_values v)) q r c); [|..].
  - by rewrite list_lookup_fmap, Hkv.
  - intros x. by rewrite length_fmap, length_dim_points.
  - done.
  - rewrite <- (length_dim_points v). by eapply lookup_lt_Some.
Qed.

Lemma combos_names vals c : c ∈ combos vals → c.*1 = vals_parm_name <$> vals.
Proof.
  revert c. induction vals as [|v vals IH]; cbn; intros c Hc.
  - by apply list_elem_of_singleton in Hc as ->.
  - apply list_elem_of_In, in_flat_map in Hc as (kv & Hkv & Hc).
    apply list_elem_of_In, list_elem_of_fmap in Hkv as (i & -> & _).
    apply list_elem_of_In, list_elem_of_fmap in Hc as (c' & -> & Hc'). cbn. by rewrite (IH c').
Qed.

(** ** Settings *)

Implicit Types (l args : list tpb_rt_arg).

Lemma arg_is_decl name a a' : arg_decl a = arg_decl a' → arg_is name a = arg_is name a'.
Proof. unfold arg_decl, arg_is. intros H. simplify_eq. congruence. Qed.

Lemma find_index_decl name l l' :
  arg_decl <$> l = arg_decl <$> l' → find_index (arg_is name) l = find_index (arg_is name) l'.
Proof.
  revert l'. induction l as [|a l IH]; intros [|a' l'] H; try done.
  rewrite !fmap_cons in H. injection H as H1 H2. cbn.
  assert (Hd : arg_decl a = arg_decl a') by (unfold arg_decl; congruence).
  rewrite (arg_is_decl name a a' Hd). by rewrite (IH l').
Qed.

Lemma lookup_decl l l' (i : nat) a :
  arg_decl <$> l = arg_decl <$> l' → l !! i = Some a →
  ∃ a', l' !! i = Some a' ∧ arg_decl a = arg_decl a'.
Proof.
  intros H Hi. assert ((arg_decl <$> l') !! i = Some (arg_decl a)) as Hi'.
  { by rewrite <- H, list_lookup_fmap, Hi. }
  apply list_lookup_fmap_Some in Hi' as (a' & E & Ha'). eauto.
Qed.

Lemma decl_code a a' : arg_decl a = arg_decl a' → arg_ctrlbits a = arg_ctrlbits a'.
Proof. unfold arg_decl. intros H. by simplify_eq. Qed.

Lemma karg_slot_decl junk l l' kv :
  arg_decl <$> l = arg_decl <$> l' → karg_slot junk l kv = karg_slot junk l' kv.
Proof.
  intros H. unfold karg_slot. rewrite (find_index_decl kv.1 l l' H).
  destruct (find_index _ l') as [i|]; [|done]. cbn.
  destruct (l !! i) as [a|] eqn:Ea.
  - destruct (lookup_decl _ _ _ _ H Ea) as (a' & -> & Hd). cbn. by rewrite (decl_code a a' Hd).
  - destruct (l' !! i) as [a'|] eqn:Ea'; [|done].
    destruct (lookup_decl l' l i a') as (b & ? & _); [done..|]. congruence.
Qed.

Lemma with_value_decl v a : arg_decl (with_value v a) = arg_decl a.
Proof. done. Qed.

Lemma set_slot_decl slot l : arg_decl <$> set_slot slot l = arg_decl <$> l.
Proof.
  apply list_eq. intros j. unfold set_slot. rewrite !list_lookup_fmap.
  destruct (decide (slot.1 = j)) as [->|?]; [|by rewrite list_lookup_alter_ne].
  rewrite list_lookup_alter_eq. by destruct (l !! j).
Qed.

Lemma set_karg_decl junk kv l : arg_decl <$> set_karg junk kv l = arg_decl <$> l.
Proof. unfold set_karg. destruct (karg_slot junk l kv); [apply set_slot_decl|done]. Qed.

Lemma set_kargs_decl junk kvs l : arg_decl <$> set_kargs junk kvs l = arg_decl <$> l.
Proof. induction kvs as [|kv kvs IH]; [done|]. cbn. by rewrite set_karg_decl. Qed.

Lemma decl_with_value v a a' : arg_decl a = arg_decl a' → with_value v a = with_value v a'.
Proof. destruct a, a'. unfold arg_decl, with_value. cbn. intros H. by simplify_eq. Qed.

(** The slots depend on the declarations only. *)
Lemma set_kargs_slots junk kvs l l' :
  arg_decl <$> l' = arg_decl <$> l → set_kargs junk kvs l' = foldr set_slot l' (omap (karg_slot junk l) kvs).
Proof.
  intros H. induction kvs as [|kv kvs IH]; [done|].
  assert (Hc : omap (karg_slot junk l) (kv :: kvs)
               = from_option (.:: omap (karg_slot junk l) kvs) (omap (karg_slot junk l) kvs) (karg_slot junk l kv)).
  { cbn. by destruct (karg_slot junk l kv). }
  rewrite Hc. unfold set_kargs in *. cbn [foldr]. unfold set_karg at 1. rewrite IH.
  rewrite <- IH at 1. rewrite (karg_slot_decl junk (foldr (set_karg junk) l' kvs) l)
    by (rewrite <- H; apply set_kargs_decl).
  by destruct (karg_slot junk l kv).
Qed.

(** The value the slots give to an index. *)
Fixpoint slot_value (slots : list (nat * Z)) (j : nat) : option Z :=
  match slots with
  | [] => None
  | (i, v) :: slots' => if decide (i = j) then Some v else slot_value slots' j
  end.

Lemma slots_lookup slots l (j : nat) :
  foldr set_slot l slots !! j
  = match slot_value slots j with Some v => with_value v <$> l !! j | None => l !! j end.
Proof.
  induction slots as [|[i v] slots IH]; [done|]. cbn [foldr slot_value].
  change (set_slot (i, v) ?x) with (alter (with_value v) i x).
  destruct (decide (i = j)) as [->|Hne]; [|by rewrite list_lookup_alter_ne].
  rewrite list_lookup_alter_eq, IH.
  destruct (slot_value slots j), (l !! j); done.
Qed.

Lemma slot_value_None slots (j : nat) : slot_value slots j = None ↔ j ∉ slots.*1.
Proof.
  induction slots as [|[i v] slots IH]; cbn; [split; [intros _; apply not_elem_of_nil|done]|].
  rewrite not_elem_of_cons. destruct (decide (i = j)); naive_solver.
Qed.

Lemma karg_slot_name junk l kv kv' i v :
  kv.1 = kv'.1 → karg_slot junk l kv = Some (i, v) → is_Some (karg_slot junk l kv') →
  fst <$> karg_slot junk l kv' = Some i.
Proof.
  unfold karg_slot. intros -> H. destruct (find_index _ l) as [k|]; [|done]. cbn in *.
  destruct (l !! k) as [a|]; [|done]. cbn in *.
  destruct (parse_value _ _ kv.2); [|done]. cbn in *. simplify_eq.
  destruct (parse_value _ _ kv'.2); [done|]. by intros [? ?].
Qed.

(** An assignment overwrites an earlier one of the same names. *)
Lemma set_kargs_over junk kvs kvs0 l :
  kvs0.*1 = kvs.*1 → Forall (λ kv, is_Some (karg_slot junk l kv)) kvs →
  set_kargs junk kvs (set_kargs junk kvs0 l) = set_kargs junk kvs l.
Proof.
  intros Hn Hok. rewrite !(set_kargs_slots junk _ l) by (done || apply set_kargs_decl).
  apply list_eq. intros j. rewrite !slots_lookup.
  destruct (slot_value (omap _ kvs) j) as [v|] eqn:Ev; 
    [by destruct (slot_value (omap _ kvs0) j), (l !! j)|].
  destruct (slot_value (omap _ kvs0) j) as [v|] eqn:Ev0; [|done]. exfalso.
  assert (j ∈ (omap (karg_slot junk l) kvs0).*1) as ([i0 v0] & -> & Hin0)%list_elem_of_fmap.
  { apply dec_stable. intros Hx%slot_value_None. congruence. }
  apply list_elem_of_omap in Hin0 as (kv0 & Hin0 & Hs0).
  assert (kv0.1 ∈ kvs.*1) as (kv & Hk & Hin)%list_elem_of_fmap by (rewrite <- Hn; by apply list_elem_of_fmap_2).
  pose proof (proj1 (Forall_forall _ _) Hok kv Hin) as Hs.
  pose proof (karg_slot_name _ _ _ _ _ _ Hk Hs0 Hs) as Hi.
  apply slot_value_None in Ev. apply Ev. destruct Hs as [[i w] Hs]. rewrite Hs in Hi. injection Hi as ->.
  apply list_elem_of_fmap. exists (i0, w). split; [done|]. apply list_elem_of_omap. by exists kv.
Qed.

(** ** Steps on the driver *)

Definition with_hs (hs : list tpb_k_rthdl) (d : driver) : driver :=
  set_handles (Some hs) (length hs) (Z.of_nat (length hs) - 1) (Some (HList (length hs - 1))) d.

Definition kernel_ready (d : driver) (name : bytes) (k : tpb_kernel) : Prop :=
  ∃ r, _sf_get_kernel_by_name (Some name) d = (Ok r, d) ∧ get_kernel r d = (Ok k, d)
    ∧ (Z.land (k_kctrl k) TPB_KTYPE_MASK = TPB_KTYPE_PLI →
       tpb_dl_is_complete (Some name) d = (Ok true, d)).

(** The driver accepts a setting for an argument list. *)
Definition karg_accepted (d : driver) (args : list tpb_rt_arg) (kv : bytes * bytes) : Prop :=
  ∃ (i : nat) a v, find_index (arg_is kv.1) args = Some i ∧ args !! i = Some a
    ∧ parse_value (d_junk d) (type_code (arg_ctrlbits a)) kv.2 = Some v
    ∧ (karg_check a v d).1 = Ok tt.

Lemma kernel_ready_hs d name k hs : kernel_ready d name k → kernel_ready (with_hs hs d) name k.
Proof.
  intros (r & Hr & Hk & Hc). exists r. split_and!.
  - revert Hr. unfold _sf_get_kernel_by_name, mbind, D_bind, d_get. cbn.
    destruct (name_is name _); [by intros [= <-]|].
    unfold registered. cbn. destruct (d_nkern d) as [|n]; [done|]. destruct (_ && _); [|done].
    cbn. destruct (find_index _ _); [|done]. by intros [= <-].
  - revert Hk. destruct r as [|i]; cbn; [by intros [= <-]|].
    unfold get_kernel, mbind, D_bind, d_get. cbn. destruct (d_kernel_mem d !! i); [|done]. by intros [= ->].
  - intros Hp. change (tpb_dl_is_complete (Some name) (with_hs hs d))
      with ((tpb_dl_is_complete (Some name) d).1, with_hs hs d). by rewrite (Hc Hp).
Qed.

Lemma karg_check_frame a a' v d d' :
  arg_decl a = arg_decl a' → d_heap d = d_heap d' → karg_check a' v d' = ((karg_check a v d).1, d').
Proof.
  intros Hd Hh. unfold karg_check. assert (arg_plims a = arg_plims a' ∧ arg_nlims a = arg_nlims a') as [-> ->].
  { unfold arg_decl in Hd. by simplify_eq. }
  rewrite (decl_code a a' Hd). destruct (_ && _); [|done].
  unfold mbind, D_bind, d_lims. destruct (arg_plims a') as [l|]; [|done]. rewrite Hh.
  destruct (d_heap d' !! l) as [[[|lo [|hi ?]]|]|]; try done. cbn.
  unfold D_bind. cbn. by destruct (karg_out_of_range _ _ _ _).
Qed.

Lemma karg_accepted_decl d l l' kv :
  arg_decl <$> l = arg_decl <$> l' → karg_accepted d l kv → karg_accepted d l' kv.
Proof.
  intros H (i & a & v & Hi & Ha & Hv & Hc).
  destruct (lookup_decl _ _ _ _ H Ha) as (a' & Ha' & Hd). exists i, a', v. split_and!; [|done|..].
  - by rewrite <- (find_index_decl kv.1 l l').
  - by rewrite <- (decl_code a a').
  - by rewrite (karg_check_frame a a' v d d).
Qed.

Lemma karg_accepted_slot d l kv : karg_accepted d l kv → is_Some (karg_slot (d_junk d) l kv).
Proof.
  intros (i & a & v & Hi & Ha & Hv & _). unfold karg_slot. rewrite Hi. cbn. rewrite Ha. cbn.
  rewrite Hv. by eexists.
Qed.

Lemma running_hs hs h args d : h_args h = Some args → running (with_hs (hs ++ [h]) d) (HList (length hs)) h args.
Proof.
  intros Ha. split; [by eexists| |..|done]; cbn.
  - rewrite length_app, Nat.add_sub. done.
  - unfold elems. cbn. by rewrite lookup_app_r, Nat.sub_diag by lia.
Qed.

Lemma put_hs hs h h' d : put_hdl_state (HList (length hs)) h' (with_hs (hs ++ [h]) d) = with_hs (hs ++ [h']) d.
Proof.
  unfold put_hdl_state, with_hs, set_handles. cbn. rewrite !length_app. f_equal.
  f_equal. by rewrite insert_app_r_alt, Nat.sub_diag by lia.
Qed.

(** A setting of the last handle. *)
Lemma set_karg_hs hs h args d kv :
  h_args h = Some args → karg_accepted d args kv →
  tpb_driver_set_hdl_karg (Some kv.1) (Some kv.2) (with_hs (hs ++ [h]) d)
  = (Ok tt, with_hs (hs ++ [with_hargs (Some (set_karg (d_junk d) kv args)) h]) d).
Proof.
  intros Ha (i & a & v & Hi & Hai & Hv & Hc). pose proof (running_hs hs h args d Ha) as Hrun.
  rewrite (set_hdl_karg_eq _ _ _ _ _ i a v kv.2 Hrun) by done.
  rewrite (karg_check_frame a a v d) by done. rewrite Hc.
  rewrite (put_current_eq (HList (length hs)) h) by apply Hrun. rewrite put_hs.
  do 4 f_equal. unfold with_hargs. f_equal. f_equal. unfold set_karg, karg_slot. rewrite Hi. cbn.
  rewrite Hai. cbn. rewrite Hv. unfold set_slot. cbn. symmetry.
  apply list_eq. intros j. destruct (decide (i = j)) as [->|].
  - by rewrite list_lookup_alter_eq, Hai, list_lookup_insert_eq by (by eapply lookup_lt_Some).
  - by rewrite list_lookup_alter_ne, list_lookup_insert_ne.
Qed.

(** ** A new handle with the settings of another *)

Definition grants (d : driver) : Prop := ∀ size, d_malloc d size = true.
Definition link_cut (l : tpb_wrapper_link) : Prop := cut_name (link_app l) = link_app l.
Definition named_args (args : list tpb_rt_arg) : Prop :=
  NoDup (arg_name <$> args) ∧ Forall (λ a, is_cstr (arg_name a)) args.

Lemma find_named args (i : nat) a :
  named_args args → args !! i = Some a → find (arg_is (arg_name a)) args = Some a.
Proof.
  intros [Hnd Hcs] Hi. revert i Hi. induction args as [|b args IH]; intros i Hi; [done|].
  rewrite fmap_cons in Hnd. apply NoDup_cons in Hnd as [Hb Hnd]. apply Forall_cons in Hcs as [Hcb Hcs].
  destruct i as [|i]; cbn in Hi |- *.
  - injection Hi as ->. unfold arg_is. by rewrite strcmp_refl.
  - destruct (arg_is (arg_name a) b) eqn:E; [|by apply (IH Hnd Hcs i)].
    exfalso. apply Hb. apply Z.eqb_eq, strcmp_eq in E as ->; [|done|by eapply (Forall_lookup_1 _ _ _ _ Hcs)].
    apply list_elem_of_fmap. exists a. split; [done|]. by eapply list_elem_of_lookup_2.
Qed.

Lemma copy_values_same kargs args :
  arg_decl <$> kargs = arg_decl <$> args → named_args args → copy_values kargs args = args.
Proof.
  intros H Hn. assert (Hlen : length kargs = length args).
  { rewrite <- (length_fmap arg_decl kargs), H. by rewrite length_fmap. }
  unfold copy_values. apply list_eq. intros j. rewrite list_lookup_imap.
  destruct (kargs !! j) as [a|] eqn:Ea.
  - destruct (lookup_decl _ _ _ _ H Ea) as (b & Hb & Hd). rewrite Hb. unfold fmap. cbn -[Nat.ltb].
    assert ((j <? length args)%nat = true) as -> by (apply Nat.ltb_lt; by eapply lookup_lt_Some).
    assert (arg_name a = arg_name b) as -> by (unfold arg_decl in Hd; by simplify_eq).
    rewrite (find_named args j b Hn Hb). f_equal.
    rewrite (decl_with_value _ a b Hd). by destruct b.
  - cbn. apply lookup_ge_None in Ea. symmetry. apply lookup_ge_None. lia.
Qed.

Lemma dup_links_all links d :
  grants d → Forall link_cut links → dup_links some_args links d = (Ok (Some links), d).
Proof.
  intros Hm. induction 1 as [|[app args] links Hl _ IH]; [done|]. cbn [dup_links].
  unfold mbind, D_bind at 1. unfold link_cut in Hl. cbn in Hl.
  destruct args as [a|]; cbn -[Z.of_nat]; unfold d_malloc_ok, d_get, D_bind; rewrite ?Hm; cbn;
    rewrite IH; cbn; by rewrite Hl.
Qed.

Lemma wrapperpack_copy_all links d :
  grants d → Forall link_cut links → _sf_wrapperpack_copy (Some links) d = (Ok (links, true), d).
Proof.
  intros Hm Hl. destruct links as [|l links]; [done|]. unfold _sf_wrapperpack_copy.
  unfold mbind, D_bind at 1, d_malloc_ok, d_get. rewrite Hm. cbn [negb].
  unfold D_bind. by rewrite dup_links_all.
Qed.

Lemma add_handle_hs hs d name k kargs :
  grants d → kernel_ready d name k → k_args k = Some kargs →
  tpb_driver_add_handle (Some name) (with_hs hs d)
  = (Ok tt, with_hs (hs ++ [mkHdl (Some kargs) (Some []) (Some []) (Some []) k]) d).
Proof.
  intros Hm Hk Ha. destruct (kernel_ready_hs d name k hs Hk) as (r & Hr & Hg & Hc).
  unfold tpb_driver_add_handle, mbind, D_bind at 1, d_try. rewrite Hr. unfold D_bind at 1. rewrite Hg.
  assert (Hc' : (if Z.land (k_kctrl k) TPB_KTYPE_MASK =? TPB_KTYPE_PLI
                 then tpb_dl_is_complete (Some name) else mret true) (with_hs hs d)
                = (Ok true, with_hs hs d)).
  { destruct (_ =? _) eqn:E; [|done]. by apply Hc, Z.eqb_eq. }
  unfold D_bind at 1. rewrite Hc'. cbn [negb].
  unfold append_handle. unfold mbind, D_bind at 1, d_get at 1. cbn -[sizeof_rthdl Z.of_nat].
  unfold D_bind at 1, d_malloc_ok, d_get. cbn -[sizeof_rthdl Z.of_nat]. rewrite Hm. cbn [negb].
  unfold D_bind at 1. cbn. unfold D_bind at 1, grow_handles, mbind, D_bind at 1. cbn.
  unfold D_bind. rewrite Ha. cbn. rewrite firstn_all.
  assert (Hend : set_handles (Some (hs ++ [mkHdl (Some kargs) (Some []) (Some []) (Some []) k]))
            (S (length hs)) (Z.of_nat (length hs)) (Some (HList (length hs))) d
          = with_hs (hs ++ [mkHdl (Some kargs) (Some []) (Some []) (Some []) k]) d).
  { unfold with_hs. rewrite length_app, Nat.add_comm. cbn -[Z.of_nat]. f_equal; [lia|].
    do 2 f_equal. lia. }
  destruct (decide (kargs = [])) as [->|]; cbn -[sizeof_rt_arg Z.of_nat]; [|rewrite Hm]; cbn -[Z.of_nat];
    by rewrite <- Hend.
Qed.

Lemma d_bind_ok {A B} (m : D A) (f : A → D B) s a s' :
  m s = (Ok a, s') → (m ≫= f) s = f a s'.
Proof. intros H. unfold mbind, D_bind. by rewrite H. Qed.

Lemma get_hs hs d (i : nat) h :
  hs !! i = Some h → get_hdl (HList i) (with_hs hs d) = (Ok h, with_hs hs d).
Proof. intros H. by apply get_hdl_eq. Qed.

Lemma put_hdl_hs hs h h' d :
  put_hdl (HList (length hs)) h' (with_hs (hs ++ [h]) d) = (Ok tt, with_hs (hs ++ [h']) d).
Proof. rewrite <- (put_hs hs h h' d). done. Qed.

Lemma copy_hs hs d (orig : nat) args envs links outs kargs k :
  grants d → hs !! orig = Some (mkHdl (Some args) (Some envs) (Some links) outs k) →
  arg_decl <$> kargs = arg_decl <$> args → named_args args → Forall link_cut links →
  tpb_driver_copy_hdl_from (Z.of_nat orig)
    (with_hs (hs ++ [mkHdl (Some kargs) (Some []) (Some []) (Some []) k]) d)
  = (Ok tt, with_hs (hs ++ [mkHdl (Some args) (Some envs) (Some links) (Some []) k]) d).
Proof.
  intros Hm Hsrc Hd Hn Hl. pose proof (lookup_lt_Some _ _ _ Hsrc) as Hlt.
  set (h := mkHdl (Some kargs) _ _ _ _).
  assert (Hcur : d_current_rthdl (with_hs (hs ++ [h]) d) = Some (HList (length hs))).
  { cbn. by rewrite length_app, Nat.add_sub. }
  assert (Hnh : d_nhdl (with_hs (hs ++ [h]) d) = S (length hs)) by (cbn; rewrite length_app; cbn; lia).
  assert (Hso : (hs ++ [h]) !! orig = Some (mkHdl (Some args) (Some envs) (Some links) outs k))
    by by rewrite lookup_app_l.
  assert (Hh : (hs ++ [h]) !! length hs = Some h) by by rewrite lookup_app_r, Nat.sub_diag by lia.
  unfold tpb_driver_copy_hdl_from.
  rewrite (d_bind_ok _ _ _ (Some (hs ++ [h])) (with_hs (hs ++ [h]) d)) by done.
  rewrite (d_bind_ok _ _ _ (Some (HList (length hs))) (with_hs (hs ++ [h]) d))
    by (unfold d_get; by rewrite Hcur).
  cbn beta iota.
  rewrite (d_bind_ok _ _ _ (S (length hs)) (with_hs (hs ++ [h]) d)) by (unfold d_get; by rewrite Hnh).
  assert ((Z.of_nat orig <? 0) || (Z.of_nat (S (length hs)) <=? Z.of_nat orig) = false) as ->
    by (apply orb_false_iff; split; [apply Z.ltb_ge|apply Z.leb_gt]; lia).
  rewrite Nat2Z.id. assert ((length hs =? orig)%nat = false) as -> by (apply Nat.eqb_neq; lia).
  rewrite (d_bind_ok _ _ _ _ _ (get_hs _ _ _ _ Hso)), (d_bind_ok _ _ _ _ _ (get_hs _ _ _ _ Hh)).
  rewrite (d_bind_ok _ _ _ args (with_hs (hs ++ [h]) d)) by done.
  rewrite (d_bind_ok _ _ _ kargs (with_hs (hs ++ [h]) d)) by done.
  rewrite (copy_values_same kargs args Hd Hn).
  rewrite (d_bind_ok _ _ _ _ _ (put_hdl_hs _ _ _ _)).
  set (h1 := mkHdl (Some args) (Some envs) (Some []) (Some []) k).
  rewrite (d_bind_ok _ _ _ h1 (with_hs (hs ++ [with_hargs (Some args) h]) d)).
  2:{ cbn [h_envs]. destruct envs as [|e envs]; [done|].
      rewrite (d_bind_ok _ _ _ true (with_hs (hs ++ [with_hargs (Some args) h]) d)); [done|].
      unfold d_malloc_ok, d_get. cbn -[sizeof_env_entry Z.of_nat]. by rewrite Hm. }
  rewrite (d_bind_ok _ _ _ _ _ (put_hdl_hs _ _ _ _)).
  rewrite (d_bind_ok _ _ _ _ _ (wrapperpack_copy_all links (with_hs (hs ++ [h1]) d) Hm Hl)).
  by rewrite (d_bind_ok _ _ _ _ _ (put_hdl_hs _ _ _ _)).
Qed.
