(* ===== verification/RunProps.v ===== *)
(** * The run subcommand: what it prepares

    The expansion of sweeps implements its specification, and which handles the
    wrapper chains reach. *)

From S2P Require Import Prelude Errors CLib CNum ParmValue TagNorm Driver DriverHandle Argp.
From S2P Require Import DriverInv DriverCalls DriverProps CliArgp RunDim Run RunSweep.
From stdpp Require Import options.

Lemma r_bind_ok {A B} (m : R A) (f : A → R B) s a s' :
  m s = (Ok a, s') → (m ≫= f) s = f a s'.
Proof. intros H. unfold mbind, R_bind. by rewrite H. Qed.

Lemma lift_eq {A} (m : D A) s r d : m (rs_driver s) = (r, d) → lift m s = (r, with_driver d s).
Proof. intros H. unfold lift. by rewrite H. Qed.

Lemma with_driver_twice d d' s : with_driver d' (with_driver d s) = with_driver d' s.
Proof. done. Qed.

(** ** Sweeps *)

(** The last handle is the current one, its kernel can be instantiated again with
    the same arguments, and memory is granted. *)
Record sweep_ready (s : run_state) (pre : list tpb_k_rthdl) (h : tpb_k_rthdl) : Prop := {
  sweep_list : d_handle_list (rs_driver s) = Some (pre ++ [h]);
  sweep_nhdl : d_nhdl (rs_driver s) = S (length pre);
  sweep_ihdl : d_ihdl (rs_driver s) = Z.of_nat (length pre);
  sweep_current : d_current_rthdl (rs_driver s) = Some (HList (length pre));
  sweep_args : is_Some (h_args h) ∧ is_Some (h_envs h);
  sweep_links : ∃ links, h_links h = Some links ∧ Forall link_cut links;
  sweep_outputs : h_outputs h = Some [];
  sweep_kernel : kernel_ready (rs_driver s) (g_pending_kernel_name s) (h_kernel h);
  sweep_decl : ∃ kargs, k_args (h_kernel h) = Some kargs
                        ∧ arg_decl <$> kargs = arg_decl <$> elems (h_args h);
  sweep_named : named_args (elems (h_args h));
  sweep_memory : grants (rs_driver s);
}.

(** Every value has a text, and the driver accepts it for the current handle. *)
Definition values_accepted (s : run_state) (v : tpb_dim_values) : Prop :=
  1 ≤ vals_n v
  ∧ Forall (λ i, is_Some (dim_value_text 256 v i)) (seq 0 (length (vals_values v)))
  ∧ Forall (λ kv, (tpb_driver_set_hdl_karg (Some kv.1) (Some kv.2) (rs_driver s)).1 = Ok tt) (dim_points v).

Lemma accepted_of_ok s pre h kv :
  sweep_ready s pre h →
  (tpb_driver_set_hdl_karg (Some kv.1) (Some kv.2) (rs_driver s)).1 = Ok tt →
  karg_accepted (rs_driver s) (elems (h_args h)) kv.
Proof.
  intros [Hl _ _ Hc [[args Ha] _] _ _ _ _ _ _] H. rewrite Ha.
  assert (Hrun : running (rs_driver s) (HList (length pre)) h args).
  { split; [by rewrite Hl|done| |done]. cbn. rewrite Hl. unfold elems. cbn.
    by rewrite lookup_app_r, Nat.sub_diag by lia. }
  unfold tpb_driver_set_hdl_karg in H. rewrite (d_bind_ok _ _ _ _ _ (running_eq _ _ _ _ Hrun)) in H.
  rewrite (d_bind_ok _ _ _ args (rs_driver s)) in H by (by rewrite Ha). unfold elems. cbn.
  destruct (find_index _ args) as [i|] eqn:Ei; [|done].
  destruct (find_index_lookup _ _ _ Ei) as (a & Hi & _). unfold karg_accepted. exists i, a.
  rewrite (d_bind_ok _ _ _ a (rs_driver s)) in H by (by rewrite Hi).
  rewrite (d_bind_ok _ _ _ (d_junk (rs_driver s)) (rs_driver s)) in H by done.
  destruct (parse_value _ _ _) as [v|]; [|done]. exists v. split_and!; try done.
  unfold mbind, D_bind in H. destruct (karg_check a v _) as [[[]| |] ?]; done.
Qed.

Section Sweep.
Context (s0 : run_state) (pre : list tpb_k_rthdl) (args0 : list tpb_rt_arg)
  (envs : list tpb_env_entry) (links : list tpb_wrapper_link) (k : tpb_kernel).

Definition base (args : list tpb_rt_arg) : tpb_k_rthdl :=
  mkHdl (Some args) (Some envs) (Some links) (Some []) k.
Definition st (hs : list tpb_k_rthdl) : run_state := with_driver (with_hs hs (rs_driver s0)) s0.

Context (Hready : sweep_ready s0 pre (base args0)).

Abbreviation junk := (d_junk (rs_driver s0)).
Abbreviation accepts := (karg_accepted (rs_driver s0) args0).

(** A dimension whose settings are all accepted. *)
Definition dim_ok (v : tpb_dim_values) : Prop :=
  1 ≤ vals_n v
  ∧ Forall (λ i, is_Some (dim_value_text 256 v i)) (seq 0 (length (vals_values v)))
  ∧ Forall accepts (dim_points v).

Lemma dim_points_lookup v (i : nat) :
  dim_ok v → (i < length (vals_values v))%nat →
  ∃ t, dim_value_text 256 v i = Some t ∧ dim_points v !! i = Some (vals_parm_name v, t)
       ∧ accepts (vals_parm_name v, t).
Proof using Type.
  intros (_ & Ht & Ha) Hi.
  destruct (proj1 (Forall_forall _ _) Ht i) as [t Et]; [apply elem_of_seq; lia|].
  assert (Hp : dim_points v !! i = Some (vals_parm_name v, t)).
  { unfold dim_points. rewrite list_lookup_fmap, lookup_seq_lt by done. unfold fmap. cbn. by rewrite Et. }
  exists t. split_and!; [done..|]. by eapply (Forall_lookup_1 _ _ _ _ Ha).
Qed.

Lemma apply_st v (i : nat) t hs args :
  dim_value_text 256 v i = Some t → (i < length (vals_values v))%nat →
  accepts (vals_parm_name v, t) → arg_decl <$> args0 = arg_decl <$> args →
  apply_dim_value v (Z.of_nat i) (st (hs ++ [base args]))
  = (Ok tt, st (hs ++ [base (set_karg junk (vals_parm_name v, t) args)])).
Proof using Type.
  intros Ht Hi Hacc Hd. unfold apply_dim_value, vals_n. rewrite Nat2Z.id, Ht.
  assert ((Z.of_nat i <? 0) || (Z.of_nat (length (vals_values v)) <=? Z.of_nat i) = false) as ->
    by (apply orb_false_iff; split; [apply Z.ltb_ge|apply Z.leb_gt]; lia).
  erewrite lift_eq; [|apply (set_karg_hs hs (base args) args (rs_driver s0) (vals_parm_name v, t)); [done|]].
  - done.
  - by eapply karg_accepted_decl.
Qed.

Lemma clone_st hs args :
  hs !! length pre = Some (base args) → arg_decl <$> args0 = arg_decl <$> args →
  clone_handle (g_pending_kernel_name s0) (Z.of_nat (length pre)) (st hs) = (Ok tt, st (hs ++ [base args])).
Proof using Hready.
  intros Hh Hd. destruct Hready as [_ _ _ _ _ (ls & Hls & Hcut) _ Hk (kargs & Hka & Hkd) Hn Hm].
  injection Hls as <-. unfold elems in *. cbn in Hkd, Hn.
  unfold clone_handle. rewrite (r_bind_ok _ _ _ _ _
    (lift_eq _ (st hs) _ _ (add_handle_hs hs (rs_driver s0) _ k kargs Hm Hk Hka))).
  erewrite lift_eq; [|eapply (copy_hs hs (rs_driver s0)); [done|exact Hh|..|exact Hcut]].
  - done.
  - by rewrite <- Hd.
  - destruct Hn as [Hn1 Hn2]. assert (Hnames : arg_name <$> args = arg_name <$> args0).
    { change (arg_name <$> args) with ((λ a, (arg_decl a).1.1.1.1.1) <$> args).
      rewrite (list_fmap_compose arg_decl (λ x, x.1.1.1.1.1)), <- Hd, <- list_fmap_compose. done. }
    split; [by rewrite Hnames|]. apply Forall_fmap. rewrite Hnames. by apply Forall_fmap.
Qed.

(** The first [c] handles of a sweep. *)
Definition swept (cs : list (list (bytes * bytes))) : list tpb_k_rthdl :=
  pre ++ ((λ kvs, base (set_kargs junk kvs args0)) <$> cs).

Lemma swept_snoc cs c : swept (cs ++ [c]) = swept cs ++ [base (set_kargs junk c args0)].
Proof using Type. unfold swept. by rewrite fmap_app, app_assoc. Qed.

(** Cloning the first handle of the sweep, which has the first combination already,
    and setting a combination gives that combination. *)
Lemma swept_first c cs : swept (c :: cs) !! length pre = Some (base (set_kargs junk c args0)).
Proof using Type. unfold swept. by rewrite lookup_app_r, Nat.sub_diag by lia. Qed.

Lemma swept_over c c0 :
  c0.*1 = c.*1 → Forall accepts c → set_kargs junk c (set_kargs junk c0 args0) = set_kargs junk c args0.
Proof using Type.
  intros Hn Ha. apply set_kargs_over; [done|]. eapply Forall_impl; [exact Ha|].
  intros kv. apply karg_accepted_slot.
Qed.

(** *** One dimension *)

Lemma combos_one v : combos [v] = (λ kv, [kv]) <$> dim_points v.
Proof using Type. cbn. induction (dim_points v) as [|kv l IH]; cbn; [done|]. by rewrite IH. Qed.

Lemma take_S_snoc {A} (l : list A) (i : nat) x : l !! i = Some x → take (S i) l = take i l ++ [x].
Proof using Type. intros H. by apply take_S_r. Qed.

Lemma base_first : st (pre ++ [base args0]) = s0.
Proof using Hready.
  destruct Hready as [Hl Hn Hi Hc _ _ _ _ _ _ _]. unfold st, with_hs. rewrite length_app, Nat.add_sub.
  assert (set_handles (Some (pre ++ [base args0])) (length pre + length [base args0])
            (Z.of_nat (length pre + length [base args0]) - 1) (Some (HList (length pre)))
            (rs_driver s0) = rs_driver s0) as ->.
  { destruct (rs_driver s0). unfold set_handles. cbn in *. subst. f_equal; lia. }
  by destruct s0.
Qed.

Lemma expand_loop_st v (i fuel : nat) :
  dim_ok v → (1 ≤ i)%nat → (i + fuel)%nat = length (vals_values v) →
  expand_loop (apply_dim_value v) (g_pending_kernel_name s0) (Z.of_nat (length pre)) (Z.of_nat i) fuel
    (st (swept (take i (combos [v])))) = (Ok tt, st (swept (combos [v]))).
Proof using Hready.
  intros Hv. revert i. induction fuel as [|fuel IH]; intros i Hi Hlen.
  - cbn [expand_loop]. rewrite take_ge; [done|]. rewrite combos_one, length_fmap, length_dim_points. lia.
  - destruct (dim_points_lookup v i Hv) as (t & Ht & Hp & Ha); [lia|].
    destruct (dim_points_lookup v 0 Hv) as (t0 & _ & Hp0 & _); [lia|].
    cbn [expand_loop]. assert ((Z.of_nat i =? 0) = false) as -> by lia.
    assert (Hc : combos [v] !! i = Some [(vals_parm_name v, t)])
      by (rewrite combos_one, list_lookup_fmap, Hp; done).
    assert (Hfirst : take i (combos [v]) = [(vals_parm_name v, t0)] :: tail (take i (combos [v]))).
    { rewrite combos_one. destruct i as [|i]; [lia|]. by destruct (dim_points v); [|injection Hp0 as ->]. }
    rewrite (r_bind_ok _ _ _ tt (st (swept (take (S i) (combos [v]))))).
    + replace (Z.of_nat i + 1) with (Z.of_nat (S i)) by lia. apply IH; lia.
    + unfold r_propagate. rewrite (r_bind_ok _ _ _ _ _
        (clone_st _ (set_kargs junk [(vals_parm_name v, t0)] args0)
           (eq_trans (f_equal (λ l, swept l !! length pre) Hfirst) (swept_first _ _))
           (eq_sym (set_kargs_decl _ _ _)))).
      rewrite (apply_st v i t) by (done || lia || (symmetry; apply set_kargs_decl)).
      rewrite (take_S_snoc _ _ _ Hc), swept_snoc.
      change (set_karg junk ?kv ?l) with (set_kargs junk [kv] l).
      rewrite (swept_over [_] [_]); [done..|by apply Forall_singleton].
Qed.

Lemma expand_dim_st pow cfg v :
  tpb_dim_generate_values (d_malloc (rs_driver s0)) pow cfg = Ok v → dim_ok v →
  expand_dim_handles pow cfg (g_pending_kernel_name s0) s0 = (Ok tt, st (swept (combos [v]))).
Proof using Hready.
  intros Hg Hv. unfold expand_dim_handles.
  rewrite (r_bind_ok _ _ _ v s0) by (unfold r_propagate, pure_call; by rewrite Hg).
  rewrite (r_bind_ok _ _ _ (Z.of_nat (length pre)) s0).
  2:{ erewrite lift_eq by done. unfold lift, tpb_driver_get_current_hdl_idx, d_get. f_equal.
      - by rewrite (sweep_ihdl _ _ _ Hready).
      - by destruct s0. }
  destruct (dim_points_lookup v 0 Hv) as (t & Ht & Hp & Ha).
  { destruct Hv as [Hn _]. unfold vals_n in Hn. lia. }
  destruct (length (vals_values v)) as [|n] eqn:En.
  { destruct Hv as [Hn _]. unfold vals_n in Hn. lia. }
  cbn [expand_loop]. rewrite (r_bind_ok _ _ _ tt (st (swept (take 1 (combos [v]))))).
  - apply (expand_loop_st v 1 n); [done|lia|lia].
  - pose proof (apply_st v 0 t pre args0 Ht ltac:(lia) Ha eq_refl) as E. rewrite base_first in E.
    cbn [Z.eqb]. unfold r_propagate. change (apply_dim_value v 0) with (apply_dim_value v (Z.of_nat 0)).
    rewrite E. cbn. do 2 f_equal.
    destruct (dim_points v) as [|kv l] eqn:Ep; [done|]. injection Hp as ->. done.
Qed.

(** *** Several dimensions *)

Lemma combos_accepted vals c : Forall dim_ok vals → c ∈ combos vals → Forall accepts c.
Proof using Type.
  intros H. revert c. induction H as [|v vals (_ & _ & Ha) _ IH]; intros c Hc.
  - by apply list_elem_of_singleton in Hc as ->.
  - cbn in Hc. apply list_elem_of_In, in_flat_map in Hc as (kv & Hkv%list_elem_of_In & Hc%list_elem_of_In).
    apply list_elem_of_fmap in Hc as (c' & -> & Hc'). constructor; [|by apply IH].
    by apply (proj1 (Forall_forall _ _) Ha).
Qed.

Lemma combos_split vals v (c : nat) cb :
  1 ≤ vals_n v → combos (vals ++ [v]) !! c = Some cb →
  ∃ (q r : nat) cq, Z.of_nat q = Z.of_nat c / vals_n v ∧ Z.of_nat r = Z.of_nat c mod vals_n v
    ∧ (r < length (vals_values v))%nat ∧ combos vals !! q = Some cq
    ∧ ∃ kv, dim_points v !! r = Some kv ∧ cb = cq ++ [kv].
Proof using Type.
  unfold vals_n. intros Hn Hc. set (n := length (vals_values v)) in *.
  pose proof (Nat.div_mod_eq c n) as Hdm. pose proof (Nat.mod_upper_bound c n) as Hr.
  assert (Hlen : (c < length (combos vals) * n)%nat).
  { apply lookup_lt_Some in Hc. rewrite combos_snoc, (length_flat_map_const _ _ n) in Hc; [done|].
    intros x _. by rewrite length_fmap, length_dim_points. }
  destruct (lookup_lt_is_Some_2 (combos vals) (c / n)) as [cq Hq].
  { apply Nat.Div0.div_lt_upper_bound. lia. }
  destruct (lookup_lt_is_Some_2 (dim_points v) (c mod n)) as [kv Hkv].
  { rewrite length_dim_points. fold n. lia. }
  exists (c / n)%nat, (c mod n)%nat, cq. rewrite Nat2Z.inj_div, Nat2Z.inj_mod. split_and!; [done..|lia|done|].
  exists kv. split; [done|]. pose proof (combos_digit vals v _ _ _ _ Hq Hkv) as Hd. fold n in Hd.
  replace (c / n * n + c mod n)%nat with c in Hd by lia. congruence.
Qed.

Lemma apply_dims_st vals hs :
  Forall dim_ok vals → ∀ (c : nat) cb args err, arg_decl <$> args0 = arg_decl <$> args →
  combos vals !! c = Some cb →
  apply_dims (reverse vals) (Z.of_nat c) err (st (hs ++ [base args]))
  = (Ok (match vals with [] => err | _ => TPBE_SUCCESS end), st (hs ++ [base (set_kargs junk cb args)])).
Proof using Type.
  induction vals as [|v vals IH] using rev_ind; intros Hok c cb args err Hd Hc.
  - destruct c as [|c]; [|done]. injection Hc as <-. done.
  - apply Forall_app in Hok as [Hok [Hv _]%Forall_cons].
    destruct (combos_split vals v c cb) as (q & r & cq & Hq & Hr & Hlt & Hcq & kv & Hkv & ->); [apply Hv|done|].
    destruct (dim_points_lookup v r Hv Hlt) as (t & Ht & Hp & Ha).
    assert (kv = (vals_parm_name v, t)) as -> by congruence.
    rewrite reverse_snoc. cbn [apply_dims]. rewrite <- Hr, <- Hq.
    rewrite (r_bind_ok _ _ _ TPBE_SUCCESS (st (hs ++ [base (set_karg junk (vals_parm_name v, t) args)]))).
    + rewrite (IH Hok q cq) by (done || by rewrite set_karg_decl). unfold set_kargs. rewrite foldr_app.
      cbn [foldr]. destruct vals; done.
    + unfold status_of. by rewrite (apply_st v r t).
Qed.

Lemma cartesian_loop_st vals (c fuel : nat) :
  vals ≠ [] → Forall dim_ok vals → (1 ≤ c)%nat → (c + fuel)%nat = length (combos vals) →
  cartesian_loop vals (Z.of_nat (length pre)) (Z.of_nat c) fuel TPBE_SUCCESS
    (st (swept (take c (combos vals)))) = (Ok TPBE_SUCCESS, st (swept (combos vals))).
Proof using Hready.
  intros Hne Hok. revert c. induction fuel as [|fuel IH]; intros c Hc Hlen.
  - cbn [cartesian_loop]. by rewrite take_ge by lia.
  - destruct (lookup_lt_is_Some_2 (combos vals) c) as [cb Hcb]; [lia|].
    destruct (combos vals) as [|c0 cs] eqn:Ecs; [done|]. rewrite <- Ecs in *.
    assert (Hfirst : take c (combos vals) = c0 :: tail (take c (combos vals))).
    { rewrite Ecs. by destruct c; [lia|]. }
    assert (Hc0 : c0 ∈ combos vals) by (rewrite Ecs; by left).
    assert (Hin : cb ∈ combos vals) by by eapply list_elem_of_lookup_2.
    cbn [cartesian_loop]. assert ((0 <? Z.of_nat c) = true) as -> by lia.
    rewrite (r_bind_ok _ _ _ (g_pending_kernel_name s0) (st (swept (take c (combos vals))))) by done.
    rewrite (r_bind_ok _ _ _ TPBE_SUCCESS
      (st (swept (take c (combos vals)) ++ [base (set_kargs junk c0 args0)]))).
    2:{ unfold status_of. rewrite (clone_st _ (set_kargs junk c0 args0)); [done| |by rewrite set_kargs_decl].
        rewrite Hfirst. apply swept_first. }
    cbn [andb Z.eqb negb TPBE_SUCCESS].
    erewrite r_bind_ok; [|apply (apply_dims_st vals _ Hok c cb); [by rewrite set_kargs_decl|done]].
    rewrite swept_over; [|by rewrite (combos_names vals c0), (combos_names vals cb)|by eapply combos_accepted].
    rewrite <- swept_snoc, <- (take_S_snoc _ _ _ Hcb).
    replace (Z.of_nat c + 1) with (Z.of_nat (S c)) by lia.
    destruct vals as [|v vals]; [done|]. apply IH; lia.
Qed.

Lemma cartesian_st vals :
  vals ≠ [] → Forall dim_ok vals →
  cartesian_loop vals (Z.of_nat (length pre)) 0 (Z.to_nat (total_count vals)) TPBE_SUCCESS s0
  = (Ok TPBE_SUCCESS, st (swept (combos vals))).
Proof using Hready.
  intros Hne Hok. rewrite <- length_combos, Nat2Z.id.
  destruct (combos vals) as [|c0 cs] eqn:Ecs.
  { exfalso. pose proof (length_combos vals) as Hl. rewrite Ecs in Hl. cbn in Hl.
    assert (Hpos : 1 ≤ total_count vals); [|lia]. clear -Hok.
    induction vals as [|v vals IH] using rev_ind; [done|].
    apply Forall_app in Hok as [Hok [[Hv _] _]%Forall_cons]. rewrite total_count_snoc.
    specialize (IH Hok). nia. }
  cbn [cartesian_loop length]. rewrite (r_bind_ok _ _ _ (g_pending_kernel_name s0) s0) by done.
  rewrite (r_bind_ok _ _ _ TPBE_SUCCESS s0) by done.
  change ((0 <? 0) && negb (TPBE_SUCCESS =? TPBE_SUCCESS)) with false. cbn iota.
  assert (H0 : combos vals !! 0%nat = Some c0) by by rewrite Ecs.
  pose proof (apply_dims_st vals pre Hok 0 c0 args0 TPBE_SUCCESS eq_refl H0) as Ed.
  rewrite base_first in Ed. change (Z.of_nat 0) with 0 in Ed. rewrite (r_bind_ok _ _ _ _ _ Ed).
  destruct vals as [|v vals]; [done|]. rewrite <- Ecs.
  change (0 + 1) with (Z.of_nat 1). replace (pre ++ [base (set_kargs junk c0 args0)])
    with (swept (take 1 (combos (v :: vals)))) by by rewrite Ecs.
  apply cartesian_loop_st; [done|done|lia|]. rewrite Ecs. done.
Qed.

End Sweep.

(** *** Generating the values *)

Lemma total_count_from vals t : foldl (λ t v, t * vals_n v) t vals = t * total_count vals.
Proof.
  unfold total_count. revert t. induction vals as [|v vals IH]; intros t; cbn [foldl]; [lia|].
  rewrite IH, (IH (1 * vals_n v)). lia.
Qed.

Lemma total_count_cons v vals : total_count (v :: vals) = vals_n v * total_count vals.
Proof. unfold total_count at 1. cbn [foldl]. rewrite total_count_from. lia. Qed.

Lemma total_count_pos vals : Forall (λ v, 1 ≤ vals_n v) vals → 1 ≤ total_count vals.
Proof. induction 1 as [|v vals Hv _ IH]; [done|]. rewrite total_count_cons. nia. Qed.

Lemma generate_all_ok pow dims vals s t :
  Forall2 (λ c v, tpb_dim_generate_values (d_malloc (rs_driver s)) pow c = Ok v) dims vals →
  Forall (λ v, 1 ≤ vals_n v) vals → 1 ≤ t → t * total_count vals < 2 ^ 31 →
  generate_all pow dims t s = (Ok vals, s).
Proof.
  intros H. revert t. induction H as [|c v dims vals Hc _ IH]; intros t Hpos Ht Hlt; [done|].
  apply Forall_cons in Hpos as [Hv Hpos]. rewrite total_count_cons in Hlt.
  pose proof (total_count_pos vals Hpos) as Htp. cbn [generate_all].
  rewrite (r_bind_ok _ _ _ v s) by (unfold r_propagate, pure_call; by rewrite Hc).
  assert ((t * vals_n v <? 2 ^ 31) = true) as -> by (apply Z.ltb_lt; nia).
  rewrite (r_bind_ok _ _ _ vals s); [done|]. apply IH; [done|nia|lia].
Qed.

Lemma swept_sweep s pre args envs links k vals :
  swept s pre args envs links k (combos vals)
  = pre ++ sweep_handles (d_junk (rs_driver s)) vals (base envs links k args).
Proof. done. Qed.

Lemma expand_cartesian_st pow s pre args envs links k vals :
  sweep_ready s pre (base envs links k args) → g_pending_dims s ≠ [] →
  Forall2 (λ c v, tpb_dim_generate_values (d_malloc (rs_driver s)) pow c = Ok v) (g_pending_dims s) vals →
  Forall (dim_ok s args) vals → total_count vals < 2 ^ 31 →
  _sf_expand_cartesian_kargs pow s = (Ok tt, st s (swept s pre args envs links k (combos vals))).
Proof.
  intros Hr Hne Hgen Hok Htot. assert (Hv : vals ≠ []) by (intros ->; by inversion Hgen).
  unfold _sf_expand_cartesian_kargs. rewrite (r_bind_ok _ _ _ (g_pending_dims s) s) by done.
  destruct (g_pending_dims s) as [|c dims] eqn:Ed; [done|]. rewrite <- Ed in *.
  rewrite (r_bind_ok _ _ _ vals s).
  2:{ apply generate_all_ok; [done| |lia|lia]. eapply Forall_impl; [exact Hok|]. by intros v [? _]. }
  rewrite (r_bind_ok _ _ _ (Z.of_nat (length pre)) s).
  2:{ unfold lift, tpb_driver_get_current_hdl_idx, d_get. rewrite (sweep_ihdl _ _ _ Hr). by destruct s. }
  by rewrite (r_bind_ok _ _ _ _ _ (cartesian_st _ _ _ _ _ _ Hr vals Hv Hok)).
Qed.

Lemma flush_st pow s pre h vals :
  sweep_ready s pre h →
  Forall2 (λ c v, tpb_dim_generate_values (d_malloc (rs_driver s)) pow c = Ok v) (g_pending_dims s) vals →
  Forall (dim_ok s (elems (h_args h))) vals → total_count vals < 2 ^ 31 →
  _sf_flush_pending_dims pow s
  = (Ok tt, with_dims [] (st s (pre ++ sweep_handles (d_junk (rs_driver s)) vals h))).
Proof.
  intros Hr Hgen Hdims Htot.
  destruct h as [[args|] [envs|] links outs k];
    [|by destruct (sweep_args _ _ _ Hr) as [[? ?] [? ?]]..].
  destruct (sweep_links _ _ _ Hr) as (ls & Hls & _). pose proof (sweep_outputs _ _ _ Hr) as Ho.
  cbn in Hls, Ho. subst links outs.
  change (mkHdl _ _ _ _ k) with (base envs ls k args) in *. change (elems _) with args in Hdims.
  rewrite <- swept_sweep.
  unfold _sf_flush_pending_dims. rewrite (r_bind_ok _ _ _ (g_pending_dims s) s) by done.
  destruct (g_pending_dims s) as [|c [|c' dims]] eqn:Ed.
  - inversion Hgen; subst. change (swept _ _ _ _ _ _ _) with (pre ++ [base envs ls k args]).
    rewrite (base_first _ _ _ _ _ _ Hr). destruct s; cbn in *; by subst.
  - inversion Hgen as [|? v ? ? Hc Hnil]; inversion Hnil; subst. inversion Hdims; subst.
    rewrite (r_bind_ok _ _ _ (g_pending_kernel_name s) s) by done.
    rewrite (r_bind_ok _ _ _ TPBE_SUCCESS (st s (swept s pre args envs ls k (combos [v])))); [done|].
    unfold status_of. by rewrite (expand_dim_st _ _ _ _ _ _ Hr pow c v).
  - rewrite (r_bind_ok _ _ _ TPBE_SUCCESS (st s (swept s pre args envs ls k (combos vals)))); [done|].
    unfold status_of. rewrite (expand_cartesian_st _ _ pre args envs ls k vals); try done; by rewrite Ed.
Qed.

Lemma values_accepted_ok s pre h vals :
  sweep_ready s pre h → Forall (values_accepted s) vals → Forall (dim_ok s (elems (h_args h))) vals.
Proof.
  intros Hr Hacc. eapply Forall_impl; [exact Hacc|]. intros v (Hn & Ht & Ha). split_and!; [done..|].
  eapply Forall_impl; [exact Ha|]. intros kv. by eapply accepted_of_ok.
Qed.


(** ** Wrapper chains *)

(** The chain a handle is given. *)
Definition bound_links (s : run_state) : list tpb_wrapper_link :=
  map local_link ((if g_pending_override_global s then [] else chain_links (g_global s))
                  ++ chain_links (g_segment s)).

Lemma cut_name_twice n : cut_name (cut_name n) = cut_name n.
Proof. unfold cut_name, snprintf_s. by rewrite take_take, Nat.min_id. Qed.

Lemma bound_links_cut s : Forall link_cut (bound_links s).
Proof.
  unfold bound_links. apply Forall_forall. intros l (w & <- & _)%list_elem_of_In%in_map_iff.
  unfold link_cut, local_link. cbn. apply cut_name_twice.
Qed.

Lemma dup_links_local ws d :
  grants d → dup_links nonempty_args (map local_link ws) d = (Ok (Some (map local_link ws)), d).
Proof.
  intros Hm. induction ws as [|[app args] ws IH]; [done|]. cbn [map dup_links local_link link_args lw_app lw_args].
  destruct args as [|c args]; cbn [nonempty_args].
  - rewrite (d_bind_ok _ _ _ true d) by done. cbn [negb].
    rewrite (d_bind_ok _ _ _ (Some (map local_link ws)) d) by done. cbn. by rewrite cut_name_twice.
  - rewrite (d_bind_ok _ _ _ true d) by (unfold d_malloc_ok, d_get; by rewrite Hm). cbn [negb].
    rewrite (d_bind_ok _ _ _ (Some (map local_link ws)) d) by done. cbn. by rewrite cut_name_twice.
Qed.

(** The segment chain is used up. *)
Definition chain_used (s : run_state) : run_state := with_override false (with_segment empty_chain s).

Lemma bind_wrappers_st s hs h :
  grants (rs_driver s) → (length (bound_links s) ≤ MAX_WRAPPER_LINKS)%nat →
  _sf_bind_wrappers_to_handle (Z.of_nat (length hs)) (st s (hs ++ [h]))
  = (Ok tt, chain_used (st s (hs ++ [with_links (Some (bound_links s)) h]))).
Proof.
  intros Hm Hlen. unfold _sf_bind_wrappers_to_handle.
  rewrite (r_bind_ok _ _ _ (g_pending_override_global s) (st s (hs ++ [h]))) by done.
  rewrite (r_bind_ok _ _ _ (chain_links (g_global s)) (st s (hs ++ [h]))) by done.
  rewrite (r_bind_ok _ _ _ (chain_links (g_segment s)) (st s (hs ++ [h]))) by done.
  fold (bound_links s). assert ((MAX_WRAPPER_LINKS <? length (bound_links s))%nat = false) as ->
    by (apply Nat.ltb_ge; lia).
  rewrite (r_bind_ok _ _ _ tt (st s (hs ++ [with_links (Some (bound_links s)) h]))); [done|].
  unfold r_propagate.
  rewrite (lift_eq _ _ (Ok tt) (with_hs (hs ++ [with_links (Some (bound_links s)) h]) (rs_driver s))); [done|].
  change (rs_driver (st s (hs ++ [h]))) with (with_hs (hs ++ [h]) (rs_driver s)).
  unfold tpb_driver_set_hdl_wrappers_idx.
  rewrite (d_bind_ok _ _ _ (Some (hs ++ [h])) (with_hs (hs ++ [h]) (rs_driver s))) by done.
  rewrite (d_bind_ok _ _ _ (length (hs ++ [h])) (with_hs (hs ++ [h]) (rs_driver s))) by done.
  rewrite length_app. cbn [length].
  assert ((Z.of_nat (length hs) <? 0) || (Z.of_nat (length hs + 1) <=? Z.of_nat (length hs)) = false) as ->
    by (apply orb_false_iff; split; [apply Z.ltb_ge|apply Z.leb_gt]; lia).
  rewrite Nat2Z.id. unfold _sf_set_hdl_wrappers_on.
  assert (Hg : get_hdl (HList (length hs)) (with_hs (hs ++ [h]) (rs_driver s)) = (Ok h, with_hs (hs ++ [h]) (rs_driver s)))
    by (apply get_hs; by rewrite lookup_app_r, Nat.sub_diag by lia).
  destruct (0 <? Z.of_nat (length (bound_links s))) eqn:E0.
  - rewrite (d_bind_ok _ _ _ true (with_hs (hs ++ [h]) (rs_driver s)))
      by (unfold d_malloc_ok, d_get; cbn -[sizeof_wrapper_link Z.of_nat]; by rewrite Hm).
    cbn [negb]. rewrite Z.leb_refl, Nat2Z.id, firstn_all.
    rewrite (d_bind_ok _ _ _ (Some (bound_links s)) (with_hs (hs ++ [h]) (rs_driver s)))
      by by apply dup_links_local.
    rewrite (d_bind_ok _ _ _ _ _ Hg). apply put_hdl_hs.
  - rewrite (d_bind_ok _ _ _ _ _ Hg), put_hdl_hs.
    assert (bound_links s = []) as -> by (apply length_zero_iff_nil; apply Z.ltb_ge in E0; lia). done.
Qed.

Lemma sweep_state s pre h : sweep_ready s pre h → st s (pre ++ [h]) = s.
Proof.
  intros Hr. destruct h as [[args|] [envs|] links outs k];
    [|by destruct (sweep_args _ _ _ Hr) as [[? ?] [? ?]]..].
  destruct (sweep_links _ _ _ Hr) as (ls & Hls & _). pose proof (sweep_outputs _ _ _ Hr) as Ho.
  cbn in Hls, Ho. subst links outs. by apply base_first.
Qed.

Lemma sweep_nhdl_lift s pre h : sweep_ready s pre h → lift tpb_get_nhdl s = (Ok (Z.of_nat (S (length pre))), s).
Proof. intros Hr. unfold lift, tpb_get_nhdl, d_get. rewrite (sweep_nhdl _ _ _ Hr). by destruct s. Qed.

(** The state after the wrappers of the current handle are bound. *)
Definition bound_state (s : run_state) (pre : list tpb_k_rthdl) (h : tpb_k_rthdl) : run_state :=
  chain_used (st s (pre ++ [with_links (Some (bound_links s)) h])).

Lemma bound_ready s pre h :
  sweep_ready s pre h → sweep_ready (bound_state s pre h) pre (with_links (Some (bound_links s)) h).
Proof.
  intros [Hl Hn Hi Hc Ha Hk Ho Hr Hd Hna Hm]. split; try done.
  - cbn. rewrite length_app. cbn. lia.
  - cbn. rewrite length_app. cbn. lia.
  - cbn. by rewrite length_app, Nat.add_sub.
  - eexists. split; [done|]. apply bound_links_cut.
  - by apply kernel_ready_hs.
Qed.

Lemma bound_dim_ok s pre h args v : dim_ok s args v → dim_ok (bound_state s pre h) args v.
Proof.
  intros (Hn & Ht & Ha). split_and!; [done..|]. eapply Forall_impl; [exact Ha|].
  intros kv (i & a & x & Hi & Hai & Hx & Hc). exists i, a, x. split_and!; [done..|].
  by rewrite (karg_check_frame a a x (rs_driver s) (rs_driver (bound_state s pre h))).
Qed.

Lemma sweep_links_all junk vals h :
  h_links <$> sweep_handles junk vals h = replicate (length (combos vals)) (h_links h).
Proof.
  unfold sweep_handles. rewrite <- list_fmap_compose.
  induction (combos vals) as [|c cs IH]; [done|]. rewrite fmap_cons, IH. done.
Qed.

(** The wrapper chains of the handles a computation leaves. *)
Definition links_after {A} (r : outcome A * run_state) : list (option (list tpb_wrapper_link)) :=
  h_links <$> elems (d_handle_list (rs_driver r.2)).

Lemma sweep_last junk vals h :
  Forall (λ v, 1 ≤ vals_n v) vals →
  ∃ hs h', sweep_handles junk vals h = hs ++ [h']
    ∧ h_links <$> hs = replicate (length (combos vals) - 1) (h_links h).
Proof.
  intros Hpos. pose proof (sweep_links_all junk vals h) as Hl. pose proof (total_count_pos vals Hpos) as Hp.
  rewrite <- length_combos in Hp.
  destruct (sweep_handles junk vals h) as [|h' hs _] eqn:E using rev_ind.
  - apply (f_equal length) in E. unfold sweep_handles in E. rewrite length_fmap in E. cbn in E. lia.
  - exists hs, h'. split; [done|]. destruct (length (combos vals)) as [|n]; [lia|].
    replace (S n - 1)%nat with n by lia. rewrite fmap_app in Hl.
    replace (S n) with (n + 1)%nat in Hl by lia. rewrite replicate_add in Hl.
    by apply app_inj_2 in Hl as [? _].
Qed.

Lemma run_finish_st pow s pre h vals :
  sweep_ready s pre h →
  Forall2 (λ c v, tpb_dim_generate_values (d_malloc (rs_driver s)) pow c = Ok v) (g_pending_dims s) vals →
  Forall (dim_ok s (elems (h_args h))) vals → total_count vals < 2 ^ 31 →
  (length (bound_links s) ≤ MAX_WRAPPER_LINKS)%nat →
  ∃ hs h', sweep_handles (d_junk (rs_driver s)) vals h = hs ++ [h']
    ∧ h_links <$> hs = replicate (length (combos vals) - 1) (h_links h)
    ∧ run_finish pow s = (Ok tt, chain_used (st (with_dims [] s)
                                   (pre ++ hs ++ [with_links (Some (bound_links s)) h']))).
Proof.
  intros Hr Hgen Hdims Htot Hlen.
  destruct (sweep_last (d_junk (rs_driver s)) vals h) as (hs & h' & Hs & Hlinks).
  { eapply Forall_impl; [exact Hdims|]. by intros v [? _]. }
  exists hs, h'. split_and!; [done..|]. unfold run_finish.
  rewrite (r_bind_ok _ _ _ _ _ (flush_st pow s pre h vals Hr Hgen Hdims Htot)), Hs, app_assoc.
  change (with_dims [] (st s ?l)) with (st (with_dims [] s) l).
  rewrite (r_bind_ok _ _ _ (Z.of_nat (length (pre ++ hs) + 1)) (st (with_dims [] s) ((pre ++ hs) ++ [h']))).
  2:{ unfold lift, tpb_get_nhdl, d_get. cbn -[Z.of_nat]. by rewrite (length_app (pre ++ hs)). }
  assert ((0 <? Z.of_nat (length (pre ++ hs) + 1)) = true) as -> by (apply Z.ltb_lt; lia).
  replace (Z.of_nat (length (pre ++ hs) + 1) - 1) with (Z.of_nat (length (pre ++ hs))) by lia.
  unfold r_propagate. rewrite bind_wrappers_st; [|apply (sweep_memory _ _ _ Hr)|done].
  by rewrite (app_assoc pre hs).
Qed.

Lemma parse_kernel_st pow s pre h vals next k kargs :
  sweep_ready s pre h →
  Forall2 (λ c v, tpb_dim_generate_values (d_malloc (rs_driver s)) pow c = Ok v) (g_pending_dims s) vals →
  Forall (dim_ok s (elems (h_args h))) vals → total_count vals < 2 ^ 31 →
  (length (bound_links s) ≤ MAX_WRAPPER_LINKS)%nat →
  kernel_ready (rs_driver s) next k → k_args k = Some kargs →
  _sf_parse_kernel pow (Some next) s
  = (Ok tt, with_kernel (cut_name next) (st (with_dims [] (bound_state s pre h))
       ((pre ++ sweep_handles (d_junk (rs_driver s)) vals (with_links (Some (bound_links s)) h))
        ++ [mkHdl (Some kargs) (Some []) (Some []) (Some []) k]))).
Proof.
  intros Hr Hgen Hdims Htot Hlen Hk Hka. unfold _sf_parse_kernel.
  rewrite (r_bind_ok _ _ _ _ _ (sweep_nhdl_lift _ _ _ Hr)).
  rewrite (r_bind_ok _ _ _ tt (bound_state s pre h)).
  2:{ assert ((0 <? Z.of_nat (S (length pre))) = true) as -> by (apply Z.ltb_lt; lia).
      replace (Z.of_nat (S (length pre)) - 1) with (Z.of_nat (length pre)) by lia.
      unfold r_propagate. rewrite <- (sweep_state _ _ _ Hr) at 1.
      rewrite bind_wrappers_st; [done|apply (sweep_memory _ _ _ Hr)|done]. }
  assert (Hdims' : Forall (dim_ok (bound_state s pre h) (elems (h_args h))) vals).
  { eapply Forall_impl; [exact Hdims|]. intros v. apply bound_dim_ok. }
  rewrite (r_bind_ok _ _ _ _ _ (flush_st pow _ pre _ vals (bound_ready s pre h Hr) Hgen Hdims' Htot)).
  set (hs := pre ++ sweep_handles _ vals _).
  rewrite (r_bind_ok _ _ _ tt (st (with_dims [] (bound_state s pre h))
             (hs ++ [mkHdl (Some kargs) (Some []) (Some []) (Some []) k]))); [done|].
  unfold r_propagate. erewrite lift_eq; [|apply (add_handle_hs hs (rs_driver (bound_state s pre h)) next k kargs)].
  - done.
  - apply (sweep_memory _ _ _ Hr).
  - by apply kernel_ready_hs.
  - done.
Qed.

(** C26: which handles of a sweep get the wrapper chain.  When another kernel follows on
    the command line, every handle of the sweep of the kernel before it runs under
    the chain of that kernel, the global wrappers (unless overridden) and its own.
    At the end of the command line only the last handle of the sweep does: the
    sweep is expanded first there, and the others keep the chain of the handle that
    was expanded, none as it was added. *)
Theorem sweep_wrappers pow s pre h vals next k kargs :
  sweep_ready s pre h →
  Forall2 (λ c v, tpb_dim_generate_values (d_malloc (rs_driver s)) pow c = Ok v) (g_pending_dims s) vals →
  Forall (values_accepted s) vals → total_count vals < 2 ^ 31 →
  (length (bound_links s) ≤ MAX_WRAPPER_LINKS)%nat →
  kernel_ready (rs_driver s) next k → k_args k = Some kargs →
  let n := Z.to_nat (total_count vals) in
  let more := _sf_parse_kernel pow (Some next) s in
  let fin := run_finish pow s in
  (more.1 = Ok tt
   ∧ links_after more = (h_links <$> pre) ++ replicate n (Some (bound_links s)) ++ [Some []])
  ∧ (fin.1 = Ok tt
     ∧ links_after fin = (h_links <$> pre) ++ replicate (n - 1) (h_links h) ++ [Some (bound_links s)]).
Proof.
  intros Hr Hgen Hacc%(values_accepted_ok s pre h vals Hr) Htot Hlen Hk Hka n more fin.
  assert (Hn : n = length (combos vals)) by (unfold n; rewrite <- length_combos; lia).
  subst more fin. rewrite (parse_kernel_st pow s pre h vals next k kargs) by done.
  destruct (run_finish_st pow s pre h vals) as (hs & h' & Hs & Hlinks & ->); [done..|].
  unfold links_after, elems. cbn. rewrite Hn, <- Hlinks, !fmap_app, sweep_links_all, <- !app_assoc. done.
Qed.

(** C28: binding the wrappers of the last handle stays within the 32 links of its local
    array exactly when the global and the segment chain together do; then the handle
    gets both, in that order, and the segment is used up.  Each chain alone may have
    32 links, and with more than 32 in both the array is overrun. *)
Theorem bind_wrappers_bounds s hs h :
  d_handle_list (rs_driver s) = Some (hs ++ [h]) → d_nhdl (rs_driver s) = S (length hs) →
  d_ihdl (rs_driver s) = Z.of_nat (length hs) →
  d_current_rthdl (rs_driver s) = Some (HList (length hs)) → grants (rs_driver s) →
  let r := _sf_bind_wrappers_to_handle (Z.of_nat (length hs)) s in
  (r.1 = UB ↔ (MAX_WRAPPER_LINKS < length (bound_links s))%nat)
  ∧ ((length (bound_links s) ≤ MAX_WRAPPER_LINKS)%nat →
     r.1 = Ok tt
     ∧ d_handle_list (rs_driver r.2) = Some (hs ++ [with_links (Some (bound_links s)) h])
     ∧ bound_links r.2 = map local_link (chain_links (g_global s))).
Proof.
  intros Hl Hn Hi Hc Hm r.
  assert (Hst : st s (hs ++ [h]) = s).
  { unfold st, with_hs. rewrite length_app, Nat.add_sub. cbn [length].
    assert (set_handles (Some (hs ++ [h])) (length hs + 1) (Z.of_nat (length hs + 1) - 1)
              (Some (HList (length hs))) (rs_driver s) = rs_driver s) as ->.
    { destruct (rs_driver s). unfold set_handles. cbn in *. subst. f_equal; lia. }
    by destruct s. }
  assert (Hfit : (length (bound_links s) ≤ MAX_WRAPPER_LINKS)%nat →
    r = (Ok tt, chain_used (st s (hs ++ [with_links (Some (bound_links s)) h])))).
  { intros Hle. unfold r. rewrite <- Hst at 1. by apply bind_wrappers_st. }
  split.
  - split.
    + intros HU. destruct (decide (length (bound_links s) ≤ MAX_WRAPPER_LINKS)%nat) as [Hle|]; [|lia].
      by rewrite (Hfit Hle) in HU.
    + intros Hlt. unfold r, _sf_bind_wrappers_to_handle, mbind, R_bind, r_get. cbn beta iota.
      change (map local_link _) with (bound_links s).
      assert ((MAX_WRAPPER_LINKS <? length (bound_links s))%nat = true) as -> by by apply Nat.ltb_lt. done.
  - intros Hle. rewrite (Hfit Hle). split_and!; [done..|]. unfold bound_links. cbn. by rewrite app_nil_r.
Qed.

(** ** Samples *)

Definition run_start (d : driver) : run_state :=
  mkRun d false false [] [] empty_chain empty_chain false false None.
(** A stand-in for [pow] where it is not called. *)
Definition sample_pow (x y : Z) : Z := x.

(** [--wrapper mpirun --kernel triad --kargs-dim ntest=... --kargs-dim s=...]. *)
Definition sample_run : run_state :=
  snd ((_ ← _sf_parse_wrapper (Some $"mpirun");
        _ ← _sf_parse_kernel sample_pow (Some $"triad");
        _ ← _sf_parse_kargs_dim (Some $"ntest=[10, 20]");
        _sf_parse_kargs_dim (Some $"s=mul(@,2)(0.5,0.5,3,0)")) (run_start sample_registry)).
Definition sample_vals : list tpb_dim_values :=
  match generate_all sample_pow (g_pending_dims sample_run) 1 sample_run with (Ok v, _) => v | _ => [] end.
Definition sample_swept_hdl : tpb_k_rthdl := default hdl0 (hdl_at (HList 0) (rs_driver sample_run)).

Example sample_vals_texts :
  map (map (λ kv, kv.2)) (combos sample_vals)
  = [ [ $"10"; $"0.5" ]; [ $"10"; $"1" ]; [ $"10"; $"2" ];
      [ $"20"; $"0.5" ]; [ $"20"; $"1" ]; [ $"20"; $"2" ] ].
Proof. vm_compute. reflexivity. Qed.

Lemma sample_kernel_ready : kernel_ready (rs_driver sample_run) ($"triad") (h_kernel sample_swept_hdl).
Proof. exists (KReg 0). split; [|split; [|intros _]]; vm_compute; reflexivity. Qed.

Lemma sample_sweep_ready : sweep_ready sample_run [] sample_swept_hdl.
Proof.
  split.
  1-4: vm_compute; reflexivity.
  - split; vm_compute; by eexists.
  - exists []. split; [vm_compute; reflexivity|constructor].
  - vm_compute. reflexivity.
  - exact sample_kernel_ready.
  - exists (elems (k_args (h_kernel sample_swept_hdl))). split; vm_compute; reflexivity.
  - split; [apply (bool_decide_unpack _); vm_compute; exact I|].
    apply Forall_forall. intros a Ha. apply is_cstr_check.
    revert a Ha. apply Forall_forall. unfold sample_swept_hdl. vm_compute. repeat constructor.
  - intros size. reflexivity.
Qed.

Lemma Forall2_map_Ok {A B} (f : A → outcome B) l vs : map f l = map Ok vs → Forall2 (λ c v, f c = Ok v) l vs.
Proof.
  revert vs. induction l as [|c l IH]; intros [|v vs]; try done. cbn. intros [= H1 H2].
  constructor; [done|by apply IH].
Qed.

Lemma sample_generated :
  Forall2 (λ c v, tpb_dim_generate_values (d_malloc (rs_driver sample_run)) sample_pow c = Ok v)
    (g_pending_dims sample_run) sample_vals.
Proof. apply Forall2_map_Ok. vm_compute. reflexivity. Qed.

Lemma sample_accepted : Forall (values_accepted sample_run) sample_vals.
Proof.
  apply Forall_forall. intros v Hv.
  assert (Hb : forallb (λ v, (1 <=? vals_n v)
                 && forallb (λ i, bool_decide (is_Some (dim_value_text 256 v i))) (seq 0 (length (vals_values v)))
                 && forallb (λ kv, match (tpb_driver_set_hdl_karg (Some kv.1) (Some kv.2) (rs_driver sample_run)).1 with
                                   | Ok _ => true | _ => false end) (dim_points v)) sample_vals = true)
    by (vm_compute; reflexivity).
  rewrite forallb_forall in Hb. specialize (Hb v (proj1 (list_elem_of_In _ _) Hv)).
  apply andb_true_iff in Hb as [[Hn Ht]%andb_true_iff Ha].
  rewrite forallb_forall in Ht, Ha. split; [by apply Z.leb_le|]. split; apply Forall_forall.
  - intros i Hi%list_elem_of_In. specialize (Ht i Hi). by apply bool_decide_eq_true in Ht.
  - intros kv Hkv%list_elem_of_In. specialize (Ha kv Hkv). by destruct (_.1) as [[]| |].
Qed.


Lemma sweep_wrappers_witness :
  let mpirun := mkLink ($"mpirun") None in
  links_after (_sf_parse_kernel sample_pow (Some $"triad") sample_run) = replicate 6 (Some [mpirun]) ++ [Some []]
  ∧ links_after (run_finish sample_pow sample_run) = replicate 5 (Some []) ++ [Some [mpirun]].
Proof.
  destruct (sweep_wrappers sample_pow sample_run [] sample_swept_hdl sample_vals ($"triad")
              (h_kernel sample_swept_hdl) (elems (k_args (h_kernel sample_swept_hdl)))
              sample_sweep_ready sample_generated sample_accepted) as [[_ H1] [_ H2]].
  - vm_compute. reflexivity.
  - vm_compute. lia.
  - exact sample_kernel_ready.
  - vm_compute. reflexivity.
  - split; [etransitivity; [exact H1|]|etransitivity; [exact H2|]]; vm_compute; reflexivity.
Defined.

(** 20 global wrappers and 20 of the kernel. *)
Definition crowded_run : run_state :=
  let ws := replicate 20 (mkWrapper ($"env") []) in
  with_segment (mkChain ws true) (with_global (mkChain ws true) (with_dims [] sample_run)).

Lemma bind_wrappers_bounds_witness : (_sf_bind_wrappers_to_handle 0 crowded_run).1 = UB.
Proof.
  refine (proj2 (proj1 (bind_wrappers_bounds crowded_run [] sample_swept_hdl _ _ _ _ _)) _).
  1-4: vm_compute; reflexivity.
  - intros size. reflexivity.
  - vm_compute. lia.
Defined.

(** A command line that does it: 20 links before the first kernel and 13 after it. *)
Definition crowded_argv : list bytes :=
  [ $"tpbcli"; $"run" ] ++ concat (replicate 20 [ $"--wrapper"; $"env" ])
  ++ [ $"--kernel"; $"triad" ] ++ concat (replicate 13 [ $"--wrapper"; $"env" ]).
Example crowded_argv_overruns :
  (tpbcli_run_prepare sample_pow true crowded_argv (run_start sample_registry)).1 = UB.
Proof. vm_compute. reflexivity. Qed.
(** The example of the manual: a global wrapper and a sweep; one handle gets it. *)
Definition swept_argv : list bytes :=
  [ $"tpbcli"; $"run"; $"--wrapper"; $"mpirun"; $"--kernel"; $"triad"; $"--kargs-dim"; $"ntest=[10,20]" ].
Example swept_argv_links :
  links_after (tpbcli_run_prepare sample_pow true swept_argv (run_start sample_registry))
  = [ Some []; Some [mkLink ($"mpirun") None] ].
Proof. vm_compute. reflexivity. Qed.
