(* ===== verification/FileIO.v ===== *)
(** * Buffered file streams and the file system

    A model of the C stdio calls the record database uses ([fopen], [fread],
    [fwrite], [fseek], [fflush], [fclose]) and of the directory tree they act
    on.  A stream keeps the bytes already on the device apart from the bytes
    [fwrite] accepted but did not flush yet, and the device may refuse to grow a
    file beyond a capacity (a full disk or a quota), so that short writes, and
    errors that only show when the stream is closed, are behaviours of the
    model. *)

From S2P Require Import Prelude Errors.
From stdpp Require Import options.

Record FILE := mkFILE {
  f_disk : bytes;    (* the bytes of the file on the device *)
  f_buf : bytes;     (* accepted by fwrite, not yet flushed *)
  f_boff : nat;      (* file offset of f_buf *)
  f_pos : nat;       (* the file position of the stream *)
  f_bufsz : nat;     (* size of the stdio buffer; 0 after setvbuf(_IONBF) *)
  f_cap : nat;       (* no byte can be stored at or after this offset *)
}.

(** The write-back of the stdio buffer: the device accepts the bytes below its
    capacity; the call succeeds when it accepted all of them. *)
Definition fflush (f : FILE) : bool * FILE :=
  let acc := take (f_cap f - f_boff f) (f_buf f) in
  (Nat.eqb (length acc) (length (f_buf f)),
   mkFILE (match acc with [] => f_disk f | _ => overlay (f_disk f) (f_boff f) acc end)
          [] (f_pos f) (f_pos f) (f_bufsz f) (f_cap f)).

(** [fclose]: whether it succeeded, and the file it leaves on the device. *)
Definition fclose (f : FILE) : bool * bytes :=
  let '(ok, f') := fflush f in (ok, f_disk f').

(** Computations on a stream that may fail, in the style of a C function whose
    callers test the result of every call and leave on the first error. *)
Definition IO (A : Type) : Type := FILE → outcome A * FILE.

#[export] Instance IO_ret : MRet IO := λ A a f, (Ok a, f).
#[export] Instance IO_bind : MBind IO := λ A B k m f,
  match m f with
  | (Ok a, f') => k a f'
  | (Err e, f') => (Err e, f')
  | (UB, f') => (UB, f')
  end.

(** The [return -1] of the primitive helpers and the [goto fail] of callers. *)
Definition io_fail {A} : IO A := λ f, (Err (-1), f).
Definition io_ub {A} : IO A := λ f, (UB, f).
Definition io_guard (b : bool) : IO unit := if b then mret tt else io_fail.

(** [if (fwrite(p, 1, n, fp) != n) fail], with [bs] the [n] bytes at [p]. *)
Definition fwrite (bs : bytes) : IO unit := λ f,
  let boff := match f_buf f with [] => f_pos f | _ => f_boff f end in
  let f1 := mkFILE (f_disk f) (f_buf f ++ bs) boff (f_pos f + length bs)
                   (f_bufsz f) (f_cap f) in
  if (length (f_buf f1) <=? f_bufsz f)%nat then (Ok tt, f1)
  else let '(ok, f2) := fflush f1 in
       if ok then (Ok tt, f2) else (Err (-1), f2).

(** [if (fread(p, 1, n, fp) != n) fail].  Reading after writing without a
    [fseek] or [fflush] in between is undefined. *)
Definition fread (n : nat) : IO bytes := λ f,
  match f_buf f with
  | [] =>
      let bs := take n (drop (f_pos f) (f_disk f)) in
      let f' := mkFILE (f_disk f) [] (f_boff f) (f_pos f + length bs)
                       (f_bufsz f) (f_cap f) in
      if Nat.eqb (length bs) n then (Ok bs, f') else (Err (-1), f')
  | _ => (UB, f)
  end.

(** [if (fseek(fp, off, whence) != 0) fail].  A negative target is refused. *)
Definition fseek_to (target : Z) : IO unit := λ f,
  let '(ok, f1) := fflush f in
  if ok && (0 <=? target) then
    (Ok tt, mkFILE (f_disk f1) [] (Z.to_nat target) (Z.to_nat target)
                   (f_bufsz f1) (f_cap f1))
  else (Err (-1), f1).
Definition fseek_set (off : Z) : IO unit := fseek_to off.
Definition fseek_cur (off : Z) : IO unit := λ f,
  fseek_to (Z.of_nat (f_pos f) + off) f.

(** A failing return with the code [e]; any failure of [m] turned into [e]. *)
Definition io_throw {A} (e : Z) : IO A := λ f, (Err e, f).
Definition io_else {A} (e : Z) (m : IO A) : IO A := λ f,
  match m f with
  | (Err _, f') => (Err e, f')
  | r => r
  end.

(** A result that must fit a C [long]: signed overflow is undefined. *)
Definition io_long (v : Z) : IO Z :=
  if (- 2 ^ 63 <=? v) && (v <? 2 ^ 63) then mret v else io_ub.

(** [if (fflush(fp) != 0) fail]. *)
Definition fflush_io : IO unit := λ f,
  let '(ok, f') := fflush f in if ok then (Ok tt, f') else (Err (-1), f').

(** [setvbuf(fp, NULL, _IONBF, 0)]. *)
Definition set_unbuffered (f : FILE) : FILE :=
  mkFILE (f_disk f) (f_buf f) (f_boff f) (f_pos f) 0 (f_cap f).

(** The world the record database runs in: the regular files by path, which
    paths can be opened for writing or created, the device capacity and stdio
    buffer size, and which allocation sizes [malloc]/[calloc] grant. *)
Record world := mkWorld {
  w_files : gmap bytes bytes;
  w_can_write : bytes → bool;
  w_cap : nat;
  w_bufsz : nat;
  w_malloc : Z → bool;
}.

Definition set_file (p d : bytes) (w : world) : world :=
  mkWorld (<[p := d]> (w_files w)) (w_can_write w) (w_cap w) (w_bufsz w) (w_malloc w).

Lemma set_file_twice p d d' w : set_file p d' (set_file p d w) = set_file p d' w.
Proof. unfold set_file; cbn. by rewrite insert_insert_eq. Qed.

Definition open_on (d : bytes) (w : world) : FILE :=
  mkFILE d [] 0 0 (w_bufsz w) (w_cap w).

(** [fopen(path, "wb")], [fopen(path, "rb")], [fopen(path, "r+b")]. *)
Definition fopen_wb (p : bytes) (w : world) : option FILE :=
  if w_can_write w p then Some (open_on [] w) else None.
Definition fopen_rb (p : bytes) (w : world) : option FILE :=
  d ← w_files w !! p; Some (open_on d w).
Definition fopen_rpb (p : bytes) (w : world) : option FILE :=
  d ← w_files w !! p; if w_can_write w p then Some (open_on d w) else None.

(** Run [m] on an open stream, close it ignoring the result of [fclose], and
    turn any failure into the error [e]: the shape of the record functions. *)
Definition run_close {A} (p : bytes) (e : outcome A) (m : IO A) (f : FILE) (w : world)
  : outcome A * world :=
  let '(r, f') := m f in
  (match r with Err _ => e | _ => r end, set_file p (snd (fclose f')) w).

(** ** Writing: what a computation appends *)

(** A stream that has written [W] from offset [o] on, over a file that held [D]:
    part of [W] is on the device, the rest in the buffer. *)
Definition writing (D : bytes) (o : nat) (W : bytes) (f : FILE) : Prop :=
  ∃ F, W = F ++ f_buf f ∧ f_disk f = overlay D o F
     ∧ f_pos f = (o + length W)%nat
     ∧ (f_buf f ≠ [] → f_boff f = (o + length F)%nat)
     ∧ (o + length F ≤ f_cap f)%nat ∧ (o ≤ length D)%nat.

Definition same_device (f f' : FILE) : Prop :=
  f_cap f' = f_cap f ∧ f_bufsz f' = f_bufsz f.

(** [m] appends [bs] and returns [a], or fails because the device is full, in
    which case the file holds as much of the output as fits. *)
Definition emits {A} (m : IO A) (bs : bytes) (a : A) : Prop :=
  ∀ D o W f, writing D o W f → ∃ f', same_device f f' ∧
    ((m f = (Ok a, f') ∧ writing D o (W ++ bs) f')
     ∨ (∃ e, m f = (Err e, f') ∧ f_buf f' = []
          ∧ f_disk f' = overlay D o (take (f_cap f - o) (W ++ bs))
          ∧ (f_cap f < o + length (W ++ bs))%nat)).

Lemma same_device_trans f g h : same_device f g → same_device g h → same_device f h.
Proof. unfold same_device. intros [-> ->] [-> ->]. done. Qed.

Lemma emits_eq {A} (m : IO A) bs bs' a : emits m bs a → bs = bs' → emits m bs' a.
Proof. by intros ? <-. Qed.

Lemma emits_ret {A} (a : A) : emits (mret a) [] a.
Proof.
  intros D o W f Hf. exists f. split; [done|]. left. split; [done|].
  by rewrite app_nil_r.
Qed.

Lemma writing_cap D o W f :
  writing D o W f → (o ≤ f_cap f)%nat.
Proof. intros (F & _ & _ & _ & _ & ? & _). lia. Qed.

Lemma emits_bind {A B} (m : IO A) (k : A → IO B) b1 b2 a b :
  emits m b1 a → emits (k a) b2 b → emits (m ≫= k) (b1 ++ b2) b.
Proof.
  intros Hm Hk D o W f Hf. destruct (Hm D o W f Hf) as (f1 & Hd1 & H1).
  unfold mbind, IO_bind. destruct H1 as [(-> & Hf1)|(e & -> & Hb & Hdisk & Hlen)].
  - destruct (Hk D o _ f1 Hf1) as (f2 & Hd2 & H2). exists f2.
    split; [by eapply same_device_trans|].
    destruct Hd1 as [Hc1 _]. rewrite Hc1, <- app_assoc in H2.
    destruct H2 as [(-> & ?)|(e & -> & ?)]; [by left|right; eauto].
  - exists f1. split; [done|]. right. exists e.
    split; [done|]. split; [done|]. rewrite app_assoc, length_app.
    split; [|lia]. rewrite take_app_le by lia. done.
Qed.

(** Flushing a sequentially written stream stores what fits. *)
Lemma fflush_writing D o W f :
  writing D o W f → ∃ ok f',
    fflush f = (ok, f') ∧ same_device f f' ∧ f_buf f' = []
    ∧ f_disk f' = overlay D o (take (f_cap f - o) W)
    ∧ if ok then (o + length W ≤ f_cap f)%nat ∧ writing D o W f'
      else (f_cap f < o + length W)%nat.
Proof.
  destruct f as [d b bo p bz c]. intros (F & HW & Hd & Hp & Ho & Hc & HD). cbn in *.
  subst W d. rewrite length_app in Hp.
  eexists _, _. split; [unfold fflush; cbn; reflexivity|]. cbn.
  assert (Hdisk : match take (c - bo) b with [] => overlay D o F
                  | _ => overlay (overlay D o F) bo (take (c - bo) b) end
                  = overlay D o (take (c - o) (F ++ b))).
  { destruct (decide (b = [])) as [->|Hb].
    - by rewrite take_nil, app_nil_r, take_ge by lia.
    - rewrite (Ho Hb), take_app, (take_ge F), <- overlay_overlay by lia.
      replace (c - (o + length F))%nat with (c - o - length F)%nat by lia.
      destruct (take _ b); [|done].
      by rewrite overlay_overlay, app_nil_r. }
  split; [done|]. split; [done|]. split; [apply Hdisk|].
  rewrite length_take, length_app.
  assert (Hok : ∀ x : nat, (b ≠ [] → x = c - (o + length F))%nat →
     Nat.min x (length b) = length b ↔ (o + (length F + length b) ≤ c)%nat).
  { intros x Hx. destruct b; [cbn; lia|]. rewrite Hx by done. lia. }
  specialize (Hok (c - bo)%nat ltac:(intros Hb; rewrite (Ho Hb); lia)).
  destruct (Nat.eqb_spec (Nat.min (c - bo) (length b)) (length b)) as [E|E].
  - apply Hok in E. split; [lia|]. exists (F ++ b). cbn. rewrite app_nil_r, length_app.
    split_and!; try done; try lia. etransitivity; [apply Hdisk|].
    by rewrite take_ge by (rewrite length_app; lia).
  - destruct (decide (o + (length F + length b) ≤ c)%nat); [by apply Hok in l|lia].
Qed.

Lemma emits_fwrite bs : emits (fwrite bs) bs tt.
Proof.
  intros D o W f Hf. unfold fwrite.
  set (f1 := mkFILE _ _ _ _ _ _).
  assert (Hf1 : writing D o (W ++ bs) f1 ∧ same_device f f1).
  { destruct f as [d b bo p bz c], Hf as (F & -> & Hd & Hp & Ho & Hc & HD). cbn in *.
    split; [|done]. exists F. cbn. rewrite <- app_assoc, !length_app in *.
    split_and!; auto; [lia|].
    intros _. destruct b; [rewrite Hp; cbn; lia|by apply Ho]. }
  destruct Hf1 as (Hf1 & Hd1).
  destruct (Nat.leb_spec (length (f_buf f1)) (f_bufsz f)) as [_|_].
  { exists f1. split; [done|]. by left. }
  destruct (fflush_writing _ _ _ f1 Hf1) as (ok & f2 & -> & Hd2 & Hb & Hdisk & Hok).
  exists f2. split; [by eapply same_device_trans|].
  destruct Hd1 as [Hc1 _]. rewrite Hc1 in *.
  destruct ok; [left; by destruct Hok|right; eauto].
Qed.

Lemma fflush_clean f :
  f_buf f = [] →
  fflush f = (true, mkFILE (f_disk f) [] (f_pos f) (f_pos f) (f_bufsz f) (f_cap f)).
Proof. intros Hb. unfold fflush. by rewrite Hb, take_nil. Qed.

(** A write on an unbuffered stream, on a device with room for it. *)
Lemma fwrite_unbuffered bs d bo o c :
  bs ≠ [] → (o + length bs ≤ c)%nat →
  fwrite bs (mkFILE d [] bo o 0 c)
  = (Ok tt, mkFILE (overlay d o bs) [] (o + length bs) (o + length bs) 0 c).
Proof.
  intros Hbs Hc. unfold fwrite, fflush. cbn [f_buf f_disk f_pos f_boff f_bufsz f_cap app].
  assert (0 < length bs)%nat by (destruct bs; [done|cbn; lia]).
  destruct (Nat.leb_spec (length bs) 0); [lia|]. rewrite take_ge by lia.
  rewrite Nat.eqb_refl. by destruct bs.
Qed.

(** A write-back at the end of a run of writes, by [fclose]. *)
Lemma emits_close {A} (m : IO A) bs a D o f :
  emits m bs a → f_buf f = [] → f_pos f = o → f_disk f = D →
  (o ≤ length D)%nat → (o ≤ f_cap f)%nat →
  ∃ r f', m f = (r, f')
    ∧ snd (fclose f') = overlay D o (take (f_cap f - o) bs)
    ∧ (fst (fclose f') = true → r = Ok a → (o + length bs ≤ f_cap f)%nat)
    ∧ ((o + length bs ≤ f_cap f)%nat → r = Ok a ∧ fst (fclose f') = true)
    ∧ (r = Ok a ∨ (∃ e, r = Err e)).
Proof.
  intros Hm Hb Hp HD Ho Hc.
  destruct (Hm D o [] f) as (f' & [Hcap _] & Hf').
  { exists []. rewrite Hb, Hp, overlay_nil by done. cbn.
    split_and!; done || lia. }
  cbn [app] in Hf'. destruct Hf' as [(-> & Hw)|(e & -> & Hbuf & Hdisk & Hlen)].
  - exists (Ok a), f'. destruct (fflush_writing _ _ _ _ Hw) as (ok & f2 & E & _ & _ & Hd & Hok).
    unfold fclose. rewrite E. cbn. rewrite Hcap in *.
    destruct ok; [destruct Hok|]; split_and!; auto; intros; try split; try done; lia.
  - exists (Err e), f'. unfold fclose, fflush. rewrite Hbuf, take_nil. cbn.
    split_and!; eauto; try done; intros; lia.
Qed.

(** Closing after a run of writes on a fresh file: the device ends up with the
    part of the output below its capacity, whatever status is reported. *)
Lemma emits_run_close {A} (m : IO A) bs a p e w :
  emits m bs a →
  ∃ r, run_close p (Err e) m (open_on [] w) w = (r, set_file p (take (w_cap w) bs) w)
    ∧ (r = Ok a ∨ (r = Err e ∧ (w_cap w < length bs)%nat)).
Proof.
  intros Hm. destruct (emits_close m bs a [] 0 (open_on [] w) Hm) as (r & f & E & Hd & _ & Hfit & Hr);
    try done; [cbn; lia..|].
  unfold run_close. rewrite E, Hd. cbn [open_on f_cap] in *. rewrite Nat.sub_0_r in *.
  eexists. split; [rewrite overlay_0, drop_nil, app_nil_r; done|].
  destruct Hr as [->|[e' ->]]; [by left|right]. split; [done|].
  destruct (decide (0 + length bs ≤ w_cap w)%nat); [|lia]. by destruct (Hfit l).
Qed.

(** ** Reading: which bytes a computation accepts *)

Definition reading (f : FILE) : Prop := f_buf f = [].

(** The bytes from the file position to the end. *)
Definition rest (f : FILE) : bytes := drop (f_pos f) (f_disk f).

Definition same_file (f f' : FILE) : Prop :=
  reading f' ∧ f_disk f' = f_disk f ∧ same_device f f'.

(** [m] consumes [bs] and returns [a], whatever follows; and when the file ends
    inside [bs], [m] fails (it neither succeeds nor runs into undefined
    behaviour). *)
Definition decodes {A} (m : IO A) (bs : bytes) (a : A) : Prop :=
  (∀ f r, reading f → rest f = bs ++ r →
     ∃ f', m f = (Ok a, f') ∧ same_file f f' ∧ rest f' = r)
  ∧ (∀ f p q, reading f → bs = p ++ q → q ≠ [] → rest f = p →
       ∃ e f', m f = (Err e, f') ∧ same_file f f').

Lemma same_file_trans f g h : same_file f g → same_file g h → same_file f h.
Proof.
  intros (? & E1 & D1) (? & E2 & D2). split; [done|]. split; [by rewrite E2|].
  by eapply same_device_trans.
Qed.

Lemma decodes_eq {A} (m : IO A) bs bs' a : decodes m bs a → bs = bs' → decodes m bs' a.
Proof. by intros ? <-. Qed.

Lemma decodes_ext {A} (m m' : IO A) bs a :
  (∀ f, m f = m' f) → decodes m' bs a → decodes m bs a.
Proof.
  intros E [H1 H2]. split; intros f.
  - rewrite E. apply H1.
  - rewrite E. apply H2.
Qed.

Lemma io_bind_assoc {A B C} (m : IO A) (k : A → IO B) (l : B → IO C) f :
  ((m ≫= k) ≫= l) f = (m ≫= (λ a, k a ≫= l)) f.
Proof. unfold mbind, IO_bind. by destruct (m f) as [[]]. Qed.

Lemma decodes_ret {A} (a : A) : decodes (mret a) [] a.
Proof.
  split; [by intros f r Hf Hr; exists f|].
  intros f p q _ Hpq Hq _. by destruct p, q.
Qed.

Lemma decodes_bind {A B} (m : IO A) (k : A → IO B) b1 b2 a b :
  decodes m b1 a → decodes (k a) b2 b → decodes (m ≫= k) (b1 ++ b2) b.
Proof.
  intros [Hm Hm'] [Hk Hk']. split.
  - intros f r Hf Hr. rewrite <- app_assoc in Hr.
    destruct (Hm f _ Hf Hr) as (f1 & E1 & S1 & R1).
    destruct (Hk f1 r (proj1 S1) R1) as (f2 & E2 & S2 & R2).
    exists f2. unfold mbind, IO_bind. rewrite E1. split; [done|].
    split; [by eapply same_file_trans|done].
  - intros f p q Hf Hpq Hq Hr. unfold mbind, IO_bind.
    destruct (prefix_app_split p q b1 b2 (eq_sym Hpq) Hq) as [(a2 & -> & Ha2)|(b1' & -> & ->)].
    + destruct (Hm' f p a2 Hf eq_refl Ha2 Hr) as (e & f1 & -> & S1). eauto.
    + destruct (Hm f b1' Hf Hr) as (f1 & E1 & S1 & R1). rewrite E1.
      destruct (Hk' f1 b1' q (proj1 S1) eq_refl Hq R1) as (e & f2 & -> & S2).
      exists e, f2. split; [done|]. by eapply same_file_trans.
Qed.

Lemma decodes_guard b : b = true → decodes (io_guard b) [] tt.
Proof. intros ->. apply decodes_ret. Qed.


Lemma decodes_fread n bs : length bs = n → decodes (fread n) bs bs.
Proof.
  intros <-. split.
  - intros f r Hf Hr. unfold fread. rewrite Hf. fold (rest f).
    rewrite Hr, take_app_length, Nat.eqb_refl. eexists. split; [done|].
    split; [done|]. unfold rest in *; cbn.
    by rewrite <- drop_drop, Hr, drop_app_length.
  - intros f p q Hf -> Hq Hr. unfold fread. rewrite Hf. fold (rest f).
    rewrite Hr, length_app, (take_ge p) by lia.
    assert (length q ≠ 0%nat) by by destruct q.
    destruct (Nat.eqb_spec (length p) (length p + length q)); [lia|].
    eexists _, _. split; [done|]. done.
Qed.

(** Skipping [n] bytes and going on: [fseek] may pass the end of the file, the
    read that follows notices it. *)
Lemma decodes_skip {A} n (k : IO A) bs b2 a :
  length bs = n → b2 ≠ [] → decodes k b2 a →
  decodes (fseek_cur (Z.of_nat n) ≫= λ _, k) (bs ++ b2) a.
Proof.
  intros <- Hb2 [Hk Hk'].
  assert (Hseek : ∀ f, reading f → ∃ f1,
    fseek_cur (Z.of_nat (length bs)) f = (Ok tt, f1) ∧ same_file f f1
    ∧ rest f1 = drop (length bs) (rest f)).
  { intros f Hf. unfold fseek_cur, fseek_to, fflush. rewrite Hf, take_nil. cbn.
    destruct (Z.leb_spec 0 (Z.of_nat (f_pos f) + Z.of_nat (length bs))); [|lia].
    eexists. split; [done|]. split; [done|]. unfold rest. cbn.
    rewrite drop_drop. f_equal. lia. }
  split; intros f.
  - intros r Hf Hr. destruct (Hseek f Hf) as (f1 & E1 & S1 & R1).
    rewrite Hr, <- app_assoc, drop_app_length in R1.
    destruct (Hk f1 r (proj1 S1) R1) as (f2 & E2 & S2 & R2).
    exists f2. unfold mbind, IO_bind. rewrite E1. split; [done|].
    split; [by eapply same_file_trans|done].
  - intros p q Hf Hpq Hq Hr. destruct (Hseek f Hf) as (f1 & E1 & S1 & R1).
    unfold mbind, IO_bind. rewrite E1. rewrite Hr in R1.
    destruct (prefix_app_split p q bs b2 (eq_sym Hpq) Hq) as [(a2 & -> & Ha2)|(b1 & -> & ->)].
    + rewrite drop_ge in R1 by (rewrite length_app; lia).
      destruct (Hk' f1 [] b2 (proj1 S1) eq_refl Hb2 R1) as (e & f2 & -> & S2).
      exists e, f2. split; [done|]. by eapply same_file_trans.
    + rewrite drop_app_length in R1.
      destruct (Hk' f1 b1 q (proj1 S1) eq_refl Hq R1) as (e & f2 & -> & S2).
      exists e, f2. split; [done|]. by eapply same_file_trans.
Qed.

(** Stepping over the first action of a reader. *)
Lemma decodes_step {A} (m : IO A) bs a f r :
  decodes m bs a → reading f → rest f = bs ++ r →
  ∃ f', same_file f f' ∧ rest f' = r
        ∧ ∀ B (k : A → IO B), (m ≫= k) f = k a f'.
Proof.
  intros [Hm _] Hf Hr. destruct (Hm f r Hf Hr) as (f' & E & Hf' & Hr').
  exists f'. split; [done|]. split; [done|]. intros B k. unfold mbind, IO_bind. by rewrite E.
Qed.

Lemma reading_open d w : reading (open_on d w) ∧ rest (open_on d w) = d.
Proof. done. Qed.

Lemma decodes_else {A} e (m : IO A) bs a : decodes m bs a → decodes (io_else e m) bs a.
Proof.
  intros [Hm Hm']. unfold io_else. split.
  - intros f r Hf Hr. destruct (Hm f r Hf Hr) as (f' & -> & ?). eauto.
  - intros f p q Hf Hpq Hq Hr. destruct (Hm' f p q Hf Hpq Hq Hr) as (e' & f' & -> & ?). eauto.
Qed.

Lemma fseek_set_clean o f :
  f_buf f = [] →
  fseek_set (Z.of_nat o) f = (Ok tt, mkFILE (f_disk f) [] o o (f_bufsz f) (f_cap f)).
Proof.
  intros Hb. unfold fseek_set, fseek_to, fflush. rewrite Hb, take_nil. cbn.
  destruct (Z.leb_spec 0 (Z.of_nat o)); [|lia]. by rewrite Nat2Z.id.
Qed.

(** Running a reader on a whole file. *)
Lemma decodes_open {A} (m : IO A) bs a w :
  decodes m bs a → fst (m (open_on bs w)) = Ok a.
Proof.
  intros [Hm _]. destruct (Hm (open_on bs w) []) as (f' & -> & _); [done| |done].
  unfold rest; cbn. by rewrite app_nil_r.
Qed.

Lemma decodes_open_prefix {A} (m : IO A) bs a w n :
  decodes m bs a → (n < length bs)%nat → ∃ e, fst (m (open_on (take n bs) w)) = Err e.
Proof.
  intros [_ Hm] Hn.
  destruct (Hm (open_on (take n bs) w) (take n bs) (drop n bs)) as (e & f' & -> & _); eauto.
  - done.
  - by rewrite take_drop.
  - intros H%(f_equal length). rewrite length_drop in H. cbn in H. lia.
Qed.

(** One step of a sequential writer or reader: split off the first action. *)
Create HintDb codec discriminated.
#[export] Hint Resolve emits_fwrite emits_ret decodes_ret : codec.

Ltac codec_emit := eapply emits_bind; [solve [eauto with codec]|].
Ltac codec_decode := eapply decodes_bind; [solve [eauto with codec]|].

Lemma fread_open n d w :
  fst (fread n (open_on d w)) = if decide (n ≤ length d)%nat then Ok (take n d) else Err (-1).
Proof.
  unfold fread; cbn. rewrite drop_0, length_take.
  destruct (decide (n ≤ length d)%nat), (Nat.eqb_spec (Nat.min n (length d)) n); (done || lia).
Qed.

(** ** Editing a file in place through an unbuffered stream *)

(** The stream holds the file [D] and nothing is pending. *)
Definition clean (D : bytes) (c : nat) (f : FILE) : Prop :=
  f_disk f = D ∧ f_buf f = [] ∧ f_bufsz f = 0%nat ∧ f_cap f = c.

Lemma clean_open d w : clean d (w_cap w) (set_unbuffered (open_on d w)).
Proof. done. Qed.

Lemma clean_fclose D c f : clean D c f → fclose f = (true, D).
Proof. intros (<- & Hb & _). unfold fclose. by rewrite fflush_clean. Qed.

Lemma clean_step {A} (m : IO A) bs a D c f r :
  decodes m bs a → clean D c f → rest f = bs ++ r →
  ∃ f', clean D c f' ∧ ∀ B (k : A → IO B), (m ≫= k) f = k a f'.
Proof.
  intros Hm (HD & Hb & Hz & Hc) Hr.
  destruct (decodes_step m bs a f r Hm Hb Hr) as (f' & (Hb' & HD' & Hc' & Hz') & _ & E).
  exists f'. split; [|done]. unfold clean. by rewrite HD', Hc', Hz'.
Qed.

(** [fseek(fp, o, SEEK_SET)] and a read. *)
Lemma clean_read {A} (m : IO A) bs a D c f o r :
  decodes m bs a → clean D c f → drop o D = bs ++ r →
  ∃ f', clean D c f' ∧ ∀ B (k : A → IO B),
    (fseek_set (Z.of_nat o) ≫= λ _, m ≫= k) f = k a f'.
Proof.
  intros Hm (HD & Hb & Hz & Hc) Hr.
  destruct (clean_step m bs a D c (mkFILE (f_disk f) [] o o (f_bufsz f) (f_cap f)) r Hm)
    as (f' & Hf' & E); [done| |].
  { unfold rest; cbn. by rewrite HD. }
  exists f'. split; [done|]. intros B k. unfold mbind at 1, IO_bind at 1.
  rewrite fseek_set_clean by done. apply E.
Qed.

(** [fseek(fp, o, SEEK_SET)] and writes. *)
Lemma clean_write bs D c f o :
  clean D c f → bs ≠ [] → (o + length bs ≤ c)%nat →
  ∃ f', clean (overlay D o bs) c f' ∧ f_pos f' = (o + length bs)%nat ∧ ∀ B (k : unit → IO B),
    (fseek_set (Z.of_nat o) ≫= λ _, fwrite bs ≫= k) f = k tt f'.
Proof.
  intros (HD & Hb & Hz & Hc) Hbs Hcap.
  exists (mkFILE (overlay D o bs) [] (o + length bs) (o + length bs) 0 c).
  split; [done|]. split; [done|]. intros B k. unfold mbind, IO_bind.
  rewrite fseek_set_clean by done. rewrite HD, Hz, Hc. by rewrite fwrite_unbuffered.
Qed.

Lemma clean_write2 b1 b2 D c f o :
  clean D c f → b1 ≠ [] → b2 ≠ [] → (o + length (b1 ++ b2) ≤ c)%nat → (o ≤ length D)%nat →
  ∃ f', clean (overlay D o (b1 ++ b2)) c f' ∧ ∀ B (k : unit → IO B),
    (fseek_set (Z.of_nat o) ≫= λ _, fwrite b1 ≫= λ _, fwrite b2 ≫= k) f = k tt f'.
Proof.
  intros (HD & Hb & Hz & Hc) Hb1 Hb2 Hcap Ho. rewrite length_app in Hcap.
  eexists (mkFILE (overlay D o (b1 ++ b2)) [] _ _ 0 c). split; [done|]. intros B k.
  unfold mbind, IO_bind. rewrite fseek_set_clean by done. rewrite HD, Hz, Hc.
  rewrite fwrite_unbuffered by (done || lia). rewrite fwrite_unbuffered by (done || lia).
  by rewrite overlay_overlay.
Qed.

Lemma clean_fflush D c f :
  clean D c f → ∃ f', clean D c f' ∧ fflush_io f = (Ok tt, f').
Proof.
  intros (HD & Hb & Hz & Hc). unfold fflush_io. rewrite fflush_clean by done.
  eexists. split; [|done]. done.
Qed.
