(* ===== verification/Sha1.v ===== *)
(** * SHA-1 ([src/corelib/rafdb/rafdb-l1-sha1.c])

    The streaming implementation ([tpb_sha1_init], [tpb_sha1_update],
    [tpb_sha1_final], over a 64-byte block buffer) and the message-level function
    of RFC 3174 it implements. *)

From S2P Require Import Prelude Errors FileIO.
From stdpp Require Import options.

(** ** The implementation *)

Record sha1_state := mkState { st_a : Z; st_b : Z; st_c : Z; st_d : Z; st_e : Z }.

(** [tpb_sha1_ctx_t]. *)
Record tpb_sha1_ctx := mkCtx {
  ctx_state : sha1_state;
  ctx_count : Z;            (* uint64_t: bytes fed so far *)
  ctx_buf : bytes;          (* unsigned char[64] *)
}.

Definition _sf_rotl32 (x n : Z) : Z :=
  Z.lor (wrap32 (Z.shiftl x n)) (Z.shiftr x (32 - n)).

(** [block[i]] of a 64-byte block. *)
Definition byte_at (bs : bytes) (i : nat) : Z := default 0 (bs !! i).

Definition block_word (block : bytes) (i : nat) : Z :=
  Z.lor (Z.lor (Z.lor (Z.shiftl (byte_at block (i * 4 + 0)) 24)
                      (Z.shiftl (byte_at block (i * 4 + 1)) 16))
               (Z.shiftl (byte_at block (i * 4 + 2)) 8))
        (byte_at block (i * 4 + 3)).

(** The loop [for (i = 16; i < 80; i++) w[i] = ...], [k] iterations of it. *)
Fixpoint extend_schedule (k : nat) (w : list Z) : list Z :=
  match k with
  | O => w
  | S k' =>
      let i := length w in
      extend_schedule k'
        (w ++ [_sf_rotl32
                 (Z.lxor (Z.lxor (Z.lxor (byte_at w (i - 3)) (byte_at w (i - 8)))
                                 (byte_at w (i - 14))) (byte_at w (i - 16))) 1])
  end.

Definition schedule (block : bytes) : list Z :=
  extend_schedule 64 (map (block_word block) (seq 0 16)).

Definition not32 (x : Z) : Z := Z.lxor x 0xFFFFFFFF.

(** One iteration of the 80-round loop, on the working variables. *)
Definition sha1_round (w : list Z) (s : sha1_state) (i : nat) : sha1_state :=
  let '(mkState a b c d e) := s in
  let '(f, k) :=
    if (i <? 20)%nat then (Z.lor (Z.land b c) (Z.land (not32 b) d), 0x5A827999)
    else if (i <? 40)%nat then (Z.lxor (Z.lxor b c) d, 0x6ED9EBA1)
    else if (i <? 60)%nat then
      (Z.lor (Z.lor (Z.land b c) (Z.land b d)) (Z.land c d), 0x8F1BBCDC)
    else (Z.lxor (Z.lxor b c) d, 0xCA62C1D6) in
  let tmp := wrap32 (_sf_rotl32 a 5 + f + e + k + byte_at w i) in
  mkState tmp a (_sf_rotl32 b 30) c d.

Definition state_add (s t : sha1_state) : sha1_state :=
  mkState (wrap32 (st_a s + st_a t)) (wrap32 (st_b s + st_b t))
          (wrap32 (st_c s + st_c t)) (wrap32 (st_d s + st_d t))
          (wrap32 (st_e s + st_e t)).

(** [_sf_process_block], on the chaining state. *)
Definition _sf_process_block (s : sha1_state) (block : bytes) : sha1_state :=
  state_add s (foldl (sha1_round (schedule block)) s (seq 0 80)).

Definition sha1_h0 : sha1_state :=
  mkState 0x67452301 0xEFCDAB89 0x98BADCFE 0x10325476 0xC3D2E1F0.

Definition tpb_sha1_init : tpb_sha1_ctx := mkCtx sha1_h0 0 (replicate 64 0).

(** The loop [while (len >= 64) { process(p); p += 64; len -= 64; }]: [n] turns. *)
Fixpoint process_blocks (n : nat) (s : sha1_state) (p : bytes) : sha1_state :=
  match n with
  | O => s
  | S n' => process_blocks n' (_sf_process_block s (take 64 p)) (drop 64 p)
  end.

(** The part of [tpb_sha1_update] after the partial block was dealt with. *)
Definition sha1_update_blocks (s : sha1_state) (count : Z) (buf p : bytes) : tpb_sha1_ctx :=
  let n := (length p / 64)%nat in
  let tail := drop (64 * n) p in
  mkCtx (process_blocks n s p) count
        (if (0 <? length tail)%nat then overlay buf 0 tail else buf).

Definition tpb_sha1_update (ctx : tpb_sha1_ctx) (data : bytes) : tpb_sha1_ctx :=
  let buf_used := Z.to_nat (Z.land (ctx_count ctx) 63) in
  let count := wrap64 (ctx_count ctx + Z.of_nat (length data)) in
  if (0 <? buf_used)%nat then
    let space := (64 - buf_used)%nat in
    if (length data <? space)%nat then
      mkCtx (ctx_state ctx) count (overlay (ctx_buf ctx) buf_used data)
    else
      let buf := overlay (ctx_buf ctx) buf_used (take space data) in
      sha1_update_blocks (_sf_process_block (ctx_state ctx) buf) count buf (drop space data)
  else sha1_update_blocks (ctx_state ctx) count (ctx_buf ctx) data.

(** The digest bytes of a chaining state. *)
Definition state_bytes (s : sha1_state) : bytes :=
  concat (map (be 4) [st_a s; st_b s; st_c s; st_d s; st_e s]).

(** [(unsigned char)(total_bits >> k)] for k = 56, 48, ..., 0. *)
Definition length_bytes (total_bits : Z) : bytes :=
  map (λ k, Z.shiftr total_bits k mod 256) [56; 48; 40; 32; 24; 16; 8; 0].

Definition tpb_sha1_final (ctx : tpb_sha1_ctx) : bytes :=
  let total_bits := wrap64 (ctx_count ctx * 8) in
  let buf_used := Z.to_nat (Z.land (ctx_count ctx) 63) in
  let buf := overlay (ctx_buf ctx) buf_used [0x80] in
  let used := (buf_used + 1)%nat in
  let '(s, buf, used) :=
    if (56 <? used)%nat then
      let buf' := overlay buf used (replicate (64 - used) 0) in
      (_sf_process_block (ctx_state ctx) buf', buf', 0%nat)
    else (ctx_state ctx, buf, used) in
  let buf := overlay buf used (replicate (56 - used) 0) in
  let buf := overlay buf 56 (length_bytes total_bits) in
  state_bytes (_sf_process_block s buf).

(** The chunks [fread] hands to [tpb_raf_hash_file]: 4096 bytes at a time. *)
Fixpoint file_chunks (fuel : nat) (content : bytes) : list bytes :=
  match fuel with
  | O => []
  | S fuel' => match content with
               | [] => []
               | _ => take 4096 content :: file_chunks fuel' (drop 4096 content)
               end
  end.

(** [tpb_raf_hash_file]: [None] stands for a NULL pointer. *)
Definition tpb_raf_hash_file (filepath : option bytes) (sha1_out : bool) (w : world)
  : outcome bytes :=
  match filepath, sha1_out with
  | None, _ | _, false => TPB_FAIL TPB_MOD_RAF_L1 TPBE_NULLPTR_ARG
  | Some p, true =>
      match fopen_rb p w with
      | None => TPB_FAIL TPB_MOD_RAF_L1 TPBE_FILE_IO_FAIL
      | Some f =>
          let ctx := foldl tpb_sha1_update tpb_sha1_init
                       (file_chunks (S (length (f_disk f))) (f_disk f)) in
          Ok (tpb_sha1_final ctx)
      end
  end.

(** A computation of the digest of one message fed in one call. *)
Definition sha1_digest (data : bytes) : bytes :=
  tpb_sha1_final (tpb_sha1_update tpb_sha1_init data).

Example sha1_abc : le_val (reverse (sha1_digest $"abc"))
  = 0xa9993e364706816aba3e25717850c26c9cd0d89d.
Proof. vm_compute. reflexivity. Qed.

(** ** The function of RFC 3174 *)

Module Rfc3174.

(** S^n(X): circular left shift of a 32-bit word. *)
Definition rol (n x : Z) : Z := (x * 2 ^ n) mod 2 ^ 32 + x / 2 ^ (32 - n).

Definition f (t : nat) (b c d : Z) : Z :=
  if (t <=? 19)%nat then Z.lor (Z.land b c) (Z.land (not32 b) d)
  else if (t <=? 39)%nat then Z.lxor (Z.lxor b c) d
  else if (t <=? 59)%nat then Z.lor (Z.lor (Z.land b c) (Z.land b d)) (Z.land c d)
  else Z.lxor (Z.lxor b c) d.

Definition K (t : nat) : Z :=
  if (t <=? 19)%nat then 0x5A827999
  else if (t <=? 39)%nat then 0x6ED9EBA1
  else if (t <=? 59)%nat then 0x8F1BBCDC
  else 0xCA62C1D6.

(** W(t): the [t]-th 32-bit big-endian word of the block for t < 16, then the
    recurrence; [fuel] bounds the recursion and [W] gives enough of it. *)
Fixpoint Wf (fuel : nat) (block : bytes) (t : nat) : Z :=
  if (t <? 16)%nat then le_val (reverse (take 4 (drop (4 * t) block)))
  else match fuel with
       | O => 0
       | S g => rol 1 (Z.lxor (Z.lxor (Z.lxor (Wf g block (t - 3)) (Wf g block (t - 8)))
                                      (Wf g block (t - 14))) (Wf g block (t - 16)))
       end.
Definition W (block : bytes) (t : nat) : Z := Wf t block t.

Definition step (block : bytes) (s : sha1_state) (t : nat) : sha1_state :=
  let '(mkState a b c d e) := s in
  mkState ((rol 5 a + f t b c d + e + W block t + K t) mod 2 ^ 32) a (rol 30 b) c d.

Definition compress (s : sha1_state) (block : bytes) : sha1_state :=
  let t := foldl (step block) s (seq 0 80) in
  mkState ((st_a s + st_a t) mod 2 ^ 32) ((st_b s + st_b t) mod 2 ^ 32)
          ((st_c s + st_c t) mod 2 ^ 32) ((st_d s + st_d t) mod 2 ^ 32)
          ((st_e s + st_e t) mod 2 ^ 32).

(** Section 4: append a 1 bit, zeros, and the length in bits as 64 bits. *)
Definition pad (msg : bytes) : bytes :=
  msg ++ 0x80 :: replicate (Z.to_nat ((55 - Z.of_nat (length msg)) mod 64)) 0
      ++ be 8 (8 * Z.of_nat (length msg)).

Fixpoint absorb (n : nat) (s : sha1_state) (p : bytes) : sha1_state :=
  match n with
  | O => s
  | S n' => absorb n' (compress s (take 64 p)) (drop 64 p)
  end.

Definition sha1 (msg : bytes) : bytes :=
  let p := pad msg in state_bytes (absorb (length p / 64) sha1_h0 p).

End Rfc3174.

(** ** The block function *)

Definition state_u32 (s : sha1_state) : Prop :=
  is_u32 (st_a s) ∧ is_u32 (st_b s) ∧ is_u32 (st_c s) ∧ is_u32 (st_d s) ∧ is_u32 (st_e s).

(** The rotation moves the low [32 - n] bits up and the high [n] bits down. *)
Lemma rol_split x n :
  is_u32 x → 0 ≤ n ≤ 32 →
  Rfc3174.rol n x = (x mod 2 ^ (32 - n)) * 2 ^ n + x / 2 ^ (32 - n)
  ∧ 0 ≤ x / 2 ^ (32 - n) < 2 ^ n.
Proof.
  intros Hx Hn. unfold Rfc3174.rol, is_word in *.
  assert (Hp : 2 ^ 32 = 2 ^ (32 - n) * 2 ^ n) by (rewrite <- Z.pow_add_r by lia; f_equal; lia).
  assert (0 < 2 ^ n) by lia. assert (0 < 2 ^ (32 - n)) by lia.
  split; [rewrite Hp, Zmult_mod_distr_r; done|].
  split; [apply Z.div_pos; lia|]. apply Z.div_lt_upper_bound; lia.
Qed.

Lemma rotl32_rol x n : is_u32 x → 0 ≤ n ≤ 32 → _sf_rotl32 x n = Rfc3174.rol n x.
Proof.
  intros Hx Hn. destruct (rol_split x n Hx Hn) as [-> Hd].
  unfold _sf_rotl32, wrap. rewrite Z.shiftl_mul_pow2, Z.shiftr_div_pow2 by lia.
  assert (Hp : 2 ^ 32 = 2 ^ (32 - n) * 2 ^ n) by (rewrite <- Z.pow_add_r by lia; f_equal; lia).
  rewrite Hp, Zmult_mod_distr_r, <- Z.shiftl_mul_pow2 by lia.
  rewrite lor_shiftl_add by lia. by rewrite Z.shiftl_mul_pow2 by lia.
Qed.

Lemma rol_u32 x n : is_u32 x → 0 ≤ n ≤ 32 → is_u32 (Rfc3174.rol n x).
Proof.
  intros Hx Hn. destruct (rol_split x n Hx Hn) as [-> Hd]. unfold is_word.
  assert (Hp : 2 ^ 32 = 2 ^ (32 - n) * 2 ^ n) by (rewrite <- Z.pow_add_r by lia; f_equal; lia).
  pose proof (Z.mod_pos_bound x (2 ^ (32 - n))). rewrite Hp. nia.
Qed.

Lemma lxor_u32 x y : is_u32 x → is_u32 y → is_u32 (Z.lxor x y).
Proof.
  unfold is_word. intros Hx Hy. split; [apply Z.lxor_nonneg; lia|].
  destruct (Z.eq_dec (Z.lxor x y) 0) as [->|]; [lia|].
  assert (0 ≤ Z.lxor x y) by (apply Z.lxor_nonneg; lia).
  apply Z.log2_lt_pow2; [lia|].
  eapply Z.le_lt_trans; [apply Z.log2_lxor; lia|].
  apply Z.max_lub_lt.
  - destruct (Z.eq_dec x 0) as [->|]; [done|]. apply Z.log2_lt_pow2; lia.
  - destruct (Z.eq_dec y 0) as [->|]; [done|]. apply Z.log2_lt_pow2; lia.
Qed.

(** Assembling a word from four bytes is reading it big-endian. *)
Lemma block_word_le_val block i :
  Forall is_byte block → (4 * i + 4 ≤ length block)%nat →
  block_word block i = le_val (reverse (take 4 (drop (4 * i) block)))
  ∧ is_u32 (block_word block i).
Proof.
  intros Hb Hl.
  set (q := drop (4 * i) block).
  assert (Hq : ∀ k, block !! (i * 4 + k)%nat = q !! k).
  { intros k. unfold q. rewrite lookup_drop. f_equal. lia. }
  assert (Hqb : Forall is_byte q) by by apply Forall_drop.
  assert (Hql : (4 ≤ length q)%nat) by (unfold q; rewrite length_drop; lia).
  unfold block_word, byte_at. rewrite !Hq. clearbody q.
  destruct q as [|b0 [|b1 [|b2 [|b3 q]]]]; cbn in Hql; try lia. cbn.
  apply Forall_cons in Hqb as [H0 Hqb]. apply Forall_cons in Hqb as [H1 Hqb].
  apply Forall_cons in Hqb as [H2 Hqb]. apply Forall_cons in Hqb as [H3 _].
  unfold is_byte, is_word in *.
  assert (E : Z.lor (Z.lor (Z.lor (Z.shiftl b0 24) (Z.shiftl b1 16)) (Z.shiftl b2 8)) b3
              = b0 * 2 ^ 24 + b1 * 2 ^ 16 + b2 * 2 ^ 8 + b3).
  { rewrite (lor_shiftl_add b0) by (rewrite ?Z.shiftl_mul_pow2 by lia; lia).
    replace (b0 * 2 ^ 24 + Z.shiftl b1 16) with (Z.shiftl (b0 * 2 ^ 8 + b1) 16)
      by (rewrite ?Z.shiftl_mul_pow2 by lia; lia).
    rewrite lor_shiftl_add by (rewrite ?Z.shiftl_mul_pow2 by lia; lia).
    replace ((b0 * 2 ^ 8 + b1) * 2 ^ 16 + Z.shiftl b2 8)
      with (Z.shiftl ((b0 * 2 ^ 8 + b1) * 2 ^ 8 + b2) 8)
      by (rewrite ?Z.shiftl_mul_pow2 by lia; lia).
    rewrite lor_shiftl_add; lia. }
  rewrite E. split; [cbn -[Z.mul Z.add Z.pow]; rewrite take_0; cbn -[Z.mul Z.add Z.pow]; lia | lia].
Qed.

(** The schedule the two loops build is the sequence W(0), W(1), ... *)
Lemma Wf_fuel block n m t :
  (t ≤ n)%nat → (t ≤ m)%nat → Rfc3174.Wf n block t = Rfc3174.Wf m block t.
Proof.
  revert m t. induction n as [|n IH]; intros m t Hn Hm.
  - assert (t = 0%nat) as -> by lia. by destruct m.
  - destruct m as [|m]; [assert (t = 0%nat) as -> by lia; done|].
    cbn -[Nat.ltb]. destruct (Nat.ltb_spec t 16); [done|].
    rewrite !(IH m) by lia. done.
Qed.

Lemma W_low block t :
  (t < 16)%nat → Rfc3174.W block t = le_val (reverse (take 4 (drop (4 * t) block))).
Proof.
  intros Ht. unfold Rfc3174.W. destruct t; [done|]. cbn -[Nat.mul Nat.ltb].
  destruct (Nat.ltb_spec (S t) 16); [done|lia].
Qed.

Lemma W_high block t :
  (16 ≤ t)%nat → Rfc3174.W block t =
    Rfc3174.rol 1 (Z.lxor (Z.lxor (Z.lxor (Rfc3174.W block (t - 3)) (Rfc3174.W block (t - 8)))
                                  (Rfc3174.W block (t - 14))) (Rfc3174.W block (t - 16))).
Proof.
  intros Ht. unfold Rfc3174.W at 1. destruct t as [|t]; [lia|]. cbn -[Nat.sub Nat.ltb].
  destruct (Nat.ltb_spec (S t) 16); [lia|]. unfold Rfc3174.W.
  by rewrite !(λ k H, Wf_fuel block t (S t - S k) (S t - S k) H (le_n _)) by lia.
Qed.

Definition block_ok (block : bytes) : Prop := length block = 64%nat ∧ Forall is_byte block.

Lemma W_u32 block t : block_ok block → is_u32 (Rfc3174.W block t).
Proof.
  intros [Hl Hb]. induction (lt_wf t) as [t _ IH].
  destruct (decide (t < 16)%nat) as [Ht|Ht].
  - rewrite W_low by done.
    destruct (block_word_le_val block t Hb) as [<- ?]; [lia|done].
  - rewrite W_high by lia.
    apply rol_u32; [|lia]. repeat apply lxor_u32; apply IH; lia.
Qed.

Lemma extend_schedule_W block k n :
  block_ok block → (16 ≤ n)%nat →
  extend_schedule k (map (Rfc3174.W block) (seq 0 n)) = map (Rfc3174.W block) (seq 0 (n + k)).
Proof.
  intros Hb. revert n. induction k as [|k IH]; intros n Hn; cbn.
  - by rewrite Nat.add_0_r.
  - rewrite length_map, length_seq.
    assert (Hat : ∀ j, (j < n)%nat →
              byte_at (map (Rfc3174.W block) (seq 0 n)) j = Rfc3174.W block j).
    { intros j Hj. unfold byte_at. rewrite list_lookup_fmap, lookup_seq_lt by done. done. }
    rewrite !Hat by lia. rewrite rotl32_rol; [|repeat apply lxor_u32; by apply W_u32|lia].
    rewrite <- W_high by done.
    replace (n + S k)%nat with (S n + k)%nat by lia. rewrite <- IH by lia.
    f_equal. by rewrite seq_S, map_app.
Qed.

Lemma schedule_W block : block_ok block → schedule block = map (Rfc3174.W block) (seq 0 80).
Proof.
  intros Hb. unfold schedule. change 80%nat with (16 + 64)%nat. rewrite <- (extend_schedule_W block 64 16) by (done || lia).
  f_equal. apply map_ext_in. intros t Ht%in_seq. destruct Hb as [Hl Hb].
  rewrite W_low by lia. apply block_word_le_val; [done|lia].
Qed.

Lemma round_step block s i :
  block_ok block → state_u32 s → (i < 80)%nat →
  sha1_round (schedule block) s i = Rfc3174.step block s i
  ∧ state_u32 (Rfc3174.step block s i).
Proof.
  intros Hb Hs Hi.
  assert (Hw : byte_at (schedule block) i = Rfc3174.W block i).
  { rewrite schedule_W by done. unfold byte_at.
    by rewrite list_lookup_fmap, lookup_seq_lt by lia. }
  destruct s as [a b c d e], Hs as (Ha & Hbb & Hc & Hd & He).
  unfold st_a, st_b, st_c, st_d, st_e in *.
  unfold sha1_round, Rfc3174.step, Rfc3174.f, Rfc3174.K. rewrite Hw.
  rewrite (rotl32_rol a 5 Ha), (rotl32_rol b 30 Hbb) by lia. clear Hw.
  assert (Hsum : ∀ p q r x k t, wrap32 (p + q + r + k + t) = x →
            mkState x a (Rfc3174.rol 30 b) c d
            = mkState ((p + q + r + t + k) mod 2 ^ 32) a (Rfc3174.rol 30 b) c d).
  { intros ? ? ? ? ? ? <-. f_equal. unfold wrap. f_equal. lia. }
  split.
  - destruct (Nat.ltb_spec i 20), (Nat.leb_spec i 19); try lia; [by apply Hsum|].
    destruct (Nat.ltb_spec i 40), (Nat.leb_spec i 39); try lia; [by apply Hsum|].
    destruct (Nat.ltb_spec i 60), (Nat.leb_spec i 59); try lia; by apply Hsum.
  - unfold state_u32; cbn [st_a st_b st_c st_d st_e]. split_and!; try done.
    + apply Z.mod_pos_bound. lia.
    + apply rol_u32; [done|lia].
Qed.

Lemma process_block_compress s block :
  state_u32 s → block_ok block →
  _sf_process_block s block = Rfc3174.compress s block ∧ state_u32 (_sf_process_block s block).
Proof.
  intros Hs Hb. unfold _sf_process_block, Rfc3174.compress.
  destruct (foldl_ext_inv state_u32 (λ i, i < 80)%nat
              (sha1_round (schedule block)) (Rfc3174.step block)
              (λ s i H1 H2, round_step block s i Hb H1 H2) (seq 0 80) s) as [-> _];
    [apply Forall_seq; lia|done|].
  split; [done|].
  unfold state_add, state_u32; cbn [st_a st_b st_c st_d st_e].
  split_and!; apply is_word_wrap; lia.
Qed.

(** ** Streaming *)

Lemma process_blocks_add n1 n2 s p :
  process_blocks (n1 + n2) s p = process_blocks n2 (process_blocks n1 s p) (drop (64 * n1) p).
Proof.
  revert s p. induction n1 as [|n1 IH]; intros s p; [done|].
  change (process_blocks (S n1 + n2) s p)
    with (process_blocks (n1 + n2) (_sf_process_block s (take 64 p)) (drop 64 p)).
  rewrite IH. change (process_blocks (S n1) s p)
    with (process_blocks n1 (_sf_process_block s (take 64 p)) (drop 64 p)).
  rewrite drop_drop. do 2 f_equal. lia.
Qed.

Lemma process_blocks_app n s p k :
  (64 * n ≤ length p)%nat → process_blocks n s (p ++ k) = process_blocks n s p.
Proof.
  revert s p. induction n as [|n IH]; intros s p Hn; [done|].
  change (process_blocks n (_sf_process_block s (take 64 (p ++ k))) (drop 64 (p ++ k))
          = process_blocks n (_sf_process_block s (take 64 p)) (drop 64 p)).
  rewrite take_app_le, drop_app_le by lia. apply IH. rewrite length_drop. lia.
Qed.

Lemma process_blocks_1 s p : process_blocks 1 s p = _sf_process_block s (take 64 p).
Proof. done. Qed.

(** What a context stands for: the bytes [m] fed so far. *)
Record sha1_rep (ctx : tpb_sha1_ctx) (m : bytes) : Prop := {
  rep_count : ctx_count ctx = wrap64 (Z.of_nat (length m));
  rep_state : ctx_state ctx = process_blocks (length m / 64) sha1_h0 m;
  rep_buf_len : length (ctx_buf ctx) = 64%nat;
  rep_buf : take (length m mod 64) (ctx_buf ctx) = drop (64 * (length m / 64)) m;
}.

Lemma rep_init : sha1_rep tpb_sha1_init [].
Proof. by split. Qed.

Lemma buf_used_mod n :
  Z.to_nat (Z.land (wrap64 (Z.of_nat n)) 63) = (n mod 64)%nat.
Proof.
  change 63 with (Z.ones 6). rewrite Z.land_ones by lia. unfold wrap.
  rewrite mod_mod_pow2 by lia. change (2 ^ 6) with (Z.of_nat 64).
  by rewrite <- Nat2Z.inj_mod, Nat2Z.id.
Qed.

Lemma wrap64_add_len a (b : bytes) :
  wrap64 (wrap64 (Z.of_nat a) + Z.of_nat (length b)) = wrap64 (Z.of_nat (a + length b)).
Proof. unfold wrap. rewrite Nat2Z.inj_add. apply Zplus_mod_idemp_l. Qed.

Lemma update_blocks_rep q m p count buf :
  length m = (64 * q)%nat → count = wrap64 (Z.of_nat (length (m ++ p))) →
  length buf = 64%nat →
  sha1_rep (sha1_update_blocks (process_blocks q sha1_h0 m) count buf p) (m ++ p).
Proof.
  intros Hm -> Hbuf. unfold sha1_update_blocks.
  assert (Hdiv : (length (m ++ p) / 64 = q + length p / 64)%nat).
  { rewrite length_app, Hm, Nat.mul_comm, Nat.div_add_l; lia. }
  assert (Hmod : (length (m ++ p) mod 64 = length p mod 64)%nat).
  { rewrite length_app, Hm, (Nat.mul_comm 64), Nat.add_comm, Nat.Div0.mod_add. done. }
  pose proof (Nat.div_mod_eq (length p) 64) as Hdm.
  pose proof (Nat.mod_upper_bound (length p) 64 ltac:(lia)) as Hub.
  set (tail := drop (64 * (length p / 64)) p).
  assert (Htl : length tail = (length p mod 64)%nat) by (unfold tail; rewrite length_drop; lia).
  split; cbn [ctx_count ctx_state ctx_buf].
  - done.
  - rewrite Hdiv, process_blocks_add, process_blocks_app by lia. f_equal.
    by rewrite <- Hm, drop_app_length.
  - case_match; [|done]. rewrite length_overlay, Hbuf, Htl. lia.
  - rewrite Hdiv, Hmod, <- Htl.
    assert (Hd : drop (64 * (q + length p / 64)) (m ++ p) = tail).
    { rewrite Nat.mul_add_distr_l, <- Hm, drop_app_add. done. }
    rewrite Hd. destruct (Nat.ltb_spec 0 (length tail)) as [Hlt|Hge].
    + rewrite overlay_0. apply take_app_length.
    + destruct tail; [by rewrite take_0|cbn in Hge; lia].
Qed.

Lemma take_overlay_at buf u bs :
  (u + length bs ≤ length buf)%nat →
  take (u + length bs) (overlay buf u bs) = take u buf ++ bs.
Proof.
  intros Hl. unfold overlay. replace (u - length buf)%nat with 0%nat by lia.
  cbn [replicate app]. rewrite app_assoc. apply take_app_length'.
  rewrite length_app, length_take. lia.
Qed.

(** One [tpb_sha1_update] call appends its data to the message. *)
Lemma update_rep ctx m data :
  sha1_rep ctx m → sha1_rep (tpb_sha1_update ctx data) (m ++ data).
Proof.
  intros [Hc Hs Hl Hb]. unfold tpb_sha1_update. rewrite Hc, buf_used_mod, wrap64_add_len.
  rewrite <- length_app.
  pose proof (Nat.div_mod_eq (length m) 64) as Hdm.
  pose proof (Nat.mod_upper_bound (length m) 64 ltac:(lia)) as Hub.
  set (q := (length m / 64)%nat) in *. set (u := (length m mod 64)%nat) in *.
  assert (Hm : m = take (64 * q) m ++ take u (ctx_buf ctx)) by by rewrite Hb, take_drop.
  assert (Hq : length (take (64 * q) m) = (64 * q)%nat) by (rewrite length_take; lia).
  assert (Hst : ctx_state ctx = process_blocks q sha1_h0 (take (64 * q) m)).
  { rewrite Hs, Hm at 1. apply process_blocks_app. lia. }
  destruct (Nat.ltb_spec 0 u) as [Hu|Hu].
  - destruct (Nat.ltb_spec (length data) (64 - u)) as [Hd|Hd].
    + assert (Hdiv : (length (m ++ data) / 64 = q)%nat).
      { rewrite length_app. symmetry.
        apply (Nat.div_unique _ _ _ (u + length data)%nat); lia. }
      assert (Hmod : (length (m ++ data) mod 64 = u + length data)%nat).
      { rewrite length_app. symmetry. apply (Nat.mod_unique _ _ q); lia. }
      split; cbn [ctx_count ctx_state ctx_buf].
      * done.
      * rewrite Hdiv, Hs. symmetry. apply process_blocks_app. lia.
      * rewrite length_overlay, Hl. lia.
      * rewrite Hdiv, Hmod, take_overlay_at by lia. rewrite Hb, drop_app_le by lia. done.
    + set (buf := overlay (ctx_buf ctx) u (take (64 - u) data)).
      assert (Htk : length (take (64 - u) data) = (64 - u)%nat) by (rewrite length_take; lia).
      assert (Hbl : length buf = 64%nat) by (unfold buf; rewrite length_overlay; lia).
      assert (Hbuf : buf = take u (ctx_buf ctx) ++ take (64 - u) data).
      { rewrite <- take_overlay_at by lia. rewrite Htk.
        replace (u + (64 - u))%nat with 64%nat by lia. symmetry. apply take_ge. lia. }
      assert (Hmd : m ++ data = (take (64 * q) m ++ buf) ++ drop (64 - u) data).
      { rewrite Hbuf, <- !app_assoc, take_drop, app_assoc, <- Hm. done. }
      rewrite Hmd.
      replace (_sf_process_block (ctx_state ctx) buf)
        with (process_blocks (q + 1) sha1_h0 (take (64 * q) m ++ buf)).
      * apply update_blocks_rep; [rewrite length_app; lia|done|done].
      * rewrite process_blocks_add, process_blocks_app, <- Hst by lia.
        rewrite (drop_app_length' _ _ _ (eq_sym Hq)), process_blocks_1.
        f_equal. apply take_ge. lia.
  - assert (u = 0%nat) as Hu0 by lia. rewrite Hu0, take_0, app_nil_r in Hm.
    rewrite Hst, <- Hm. apply update_blocks_rep; [lia|done|done].
Qed.

(** ** The final block(s) *)

Lemma le_mod n v : le n (v mod 256 ^ Z.of_nat n) = le n v.
Proof.
  revert v. induction n as [|n IH]; intros v; [done|].
  assert (H0 : 0 < 256 ^ Z.of_nat n) by lia.
  rewrite Nat2Z.inj_succ, Z.pow_succ_r by lia. cbn [le]. f_equal.
  - rewrite Z.rem_mul_r, Z.add_comm, Z.mul_comm, Z.add_comm, Z.mod_add by lia.
    apply Z.mod_mod. lia.
  - rewrite Z.rem_mul_r, Z.mul_comm, Z.div_add by lia.
    rewrite Z.div_small by (apply Z.mod_pos_bound; lia). apply IH.
Qed.

Lemma length_bytes_be v : length_bytes v = be 8 v.
Proof.
  unfold length_bytes, be. cbn [le map reverse rev_append].
  change (reverse ?l) with (rev_append l []). cbn [rev_append].
  rewrite !Z.shiftr_div_pow2 by lia. rewrite !Z.div_div by lia.
  rewrite Z.pow_0_r, Z.div_1_r. done.
Qed.

Lemma pad_blocks m :
  let q := (length m / 64)%nat in let u := (length m mod 64)%nat in
  Rfc3174.pad m = take (64 * q) m ++ drop (64 * q) m ++
    if (56 <? u + 1)%nat
    then (0x80 :: replicate (63 - u) 0) ++ replicate 56 0 ++ be 8 (8 * Z.of_nat (length m))
    else 0x80 :: replicate (55 - u) 0 ++ be 8 (8 * Z.of_nat (length m)).
Proof.
  intros q u. rewrite app_assoc, take_drop. unfold Rfc3174.pad. f_equal.
  pose proof (Nat.div_mod_eq (length m) 64) as Hdm. fold q u in Hdm.
  pose proof (Nat.mod_upper_bound (length m) 64 ltac:(lia)) as Hub. fold u in Hub.
  destruct (Nat.ltb_spec 56 (u + 1)) as [Hu|Hu].
  - cbn [app]. rewrite app_assoc, <- replicate_add. do 3 f_equal.
    replace (55 - Z.of_nat (length m)) with (119 - Z.of_nat u + (- Z.of_nat q - 1) * 64) by lia.
    rewrite Z.mod_add by lia. rewrite Z.mod_small; lia.
  - do 3 f_equal.
    replace (55 - Z.of_nat (length m)) with (55 - Z.of_nat u + (- Z.of_nat q) * 64) by lia.
    rewrite Z.mod_add by lia. rewrite Z.mod_small; lia.
Qed.

(** Filling a buffer up to its end. *)
Lemma overlay_full buf u bs :
  (u + length bs = length buf)%nat → overlay buf u bs = take u buf ++ bs.
Proof.
  intros Hl. rewrite <- take_overlay_at by lia. symmetry. apply take_ge.
  rewrite length_overlay. lia.
Qed.

Lemma take_overlay_1 buf u x :
  (u + 1 ≤ length buf)%nat → take (u + 1) (overlay buf u [x]) = take u buf ++ [x].
Proof. apply (take_overlay_at buf u [x]). Qed.

Lemma take_overlay_zeros (b : bytes) v k n :
  n = (v + k)%nat → (n ≤ length b)%nat →
  take n (overlay b v (replicate k 0)) = take v b ++ replicate k 0.
Proof.
  intros -> Hk. rewrite <- (length_replicate k 0) at 1.
  apply take_overlay_at. by rewrite length_replicate.
Qed.

Lemma final_block_short buf u lb :
  length buf = 64%nat → (u + 1 ≤ 56)%nat → length lb = 8%nat →
  overlay (overlay (overlay buf u [0x80]) (u + 1) (replicate (56 - (u + 1)) 0)) 56 lb
  = take u buf ++ 0x80 :: replicate (55 - u) 0 ++ lb.
Proof.
  intros Hb Hu Hlb. rewrite overlay_full by (rewrite !length_overlay, length_replicate; cbn; lia).
  rewrite take_overlay_zeros by (rewrite ?length_overlay; cbn; lia).
  rewrite take_overlay_1 by lia. rewrite <- !app_assoc.
  cbn [app]. do 3 f_equal. f_equal. lia.
Qed.

Lemma final_block_long buf u :
  length buf = 64%nat → (u < 64)%nat →
  overlay (overlay buf u [0x80]) (u + 1) (replicate (64 - (u + 1)) 0)
  = take u buf ++ 0x80 :: replicate (63 - u) 0.
Proof.
  intros Hb Hu. rewrite overlay_full by (rewrite !length_overlay, length_replicate; cbn; lia).
  rewrite take_overlay_1 by lia. rewrite <- app_assoc.
  cbn [app]. do 3 f_equal. lia.
Qed.

Lemma final_block_zero (buf lb : bytes) :
  length buf = 64%nat → length lb = 8%nat →
  overlay (overlay buf 0 (replicate (56 - 0) 0)) 56 lb = replicate 56 0 ++ lb.
Proof.
  intros Hb Hlb. rewrite overlay_full by (rewrite !length_overlay, length_replicate; lia).
  by rewrite take_overlay_zeros by (rewrite ?length_overlay; lia).
Qed.

(** A block boundary splits the processing of a message. *)
Lemma process_blocks_split q (a b : bytes) :
  length a = (64 * q)%nat →
  process_blocks (length (a ++ b) / 64) sha1_h0 (a ++ b)
  = process_blocks (length b / 64) (process_blocks q sha1_h0 a) b.
Proof.
  intros Ha. rewrite length_app, Ha, (Nat.mul_comm 64), Nat.div_add_l by lia.
  rewrite process_blocks_add, process_blocks_app by lia.
  by rewrite (drop_app_length' _ _ _ (eq_sym Ha)).
Qed.

Lemma final_rep ctx m :
  sha1_rep ctx m →
  tpb_sha1_final ctx =
    state_bytes (process_blocks (length (Rfc3174.pad m) / 64) sha1_h0 (Rfc3174.pad m)).
Proof.
  intros [Hc Hs Hl Hb]. unfold tpb_sha1_final. rewrite Hc, buf_used_mod.
  replace (length_bytes _) with (be 8 (8 * Z.of_nat (length m))).
  2: { rewrite length_bytes_be. unfold be. f_equal. unfold wrap.
       rewrite Zmult_mod_idemp_l, Z.mul_comm. symmetry. apply (le_mod 8). }
  pose proof (pad_blocks m) as Hpad. cbn zeta in Hpad. rewrite <- Hb in Hpad.
  pose proof (Nat.div_mod_eq (length m) 64) as Hdm.
  pose proof (Nat.mod_upper_bound (length m) 64 ltac:(lia)) as Hub.
  set (q := (length m / 64)%nat) in *. set (u := (length m mod 64)%nat) in *.
  set (lb := be 8 _) in *. assert (Hlbl : length lb = 8%nat) by apply length_be.
  assert (Hq : length (take (64 * q) m) = (64 * q)%nat) by (rewrite length_take; lia).
  assert (Hs' : ctx_state ctx = process_blocks q sha1_h0 (take (64 * q) m)).
  { rewrite Hs, <- (take_drop (64 * q) m) at 1. apply process_blocks_app. lia. }
  assert (Hu : length (take u (ctx_buf ctx)) = u) by (rewrite length_take; lia).
  rewrite Hpad, (process_blocks_split q), <- Hs' by done.
  destruct (Nat.ltb_spec 56 (u + 1)) as [Hlt|Hge].
  - rewrite final_block_long by lia. rewrite final_block_zero by len. rewrite app_assoc.
    set (blk := take u _ ++ _). assert (Hbl : length blk = 64%nat) by (unfold blk; len).
    rewrite !length_app, Hbl, length_replicate, Hlbl. change ((64 + (56 + 8)) / 64)%nat with 2%nat.
    rewrite (process_blocks_add 1 1), process_blocks_app, !process_blocks_1 by lia.
    rewrite (take_ge blk), (drop_app_length' blk), take_ge by (len || done). done.
  - rewrite final_block_short by done. set (blk := take u _ ++ _).
    assert (Hbl : length blk = 64%nat) by (unfold blk; len).
    rewrite Hbl. change (64 / 64)%nat with 1%nat. by rewrite process_blocks_1, take_ge by lia.
Qed.

Lemma process_blocks_absorb n s p :
  state_u32 s → Forall is_byte p → (64 * n ≤ length p)%nat →
  process_blocks n s p = Rfc3174.absorb n s p.
Proof.
  revert s p. induction n as [|n IH]; intros s p Hs Hp Hn; [done|].
  change (process_blocks n (_sf_process_block s (take 64 p)) (drop 64 p)
          = Rfc3174.absorb n (Rfc3174.compress s (take 64 p)) (drop 64 p)).
  destruct (process_block_compress s (take 64 p)) as [<- Hu]; [done| |].
  - split; [len|by apply Forall_take].
  - apply IH; [done|by apply Forall_drop|len].
Qed.

Lemma pad_bytes m : Forall is_byte m → Forall is_byte (Rfc3174.pad m).
Proof.
  intros Hm. unfold Rfc3174.pad. apply Forall_app. split; [done|].
  constructor; [unfold is_byte; lia|]. apply Forall_app. split.
  - apply Forall_replicate. unfold is_byte; lia.
  - unfold be. apply Forall_reverse, le_is_byte.
Qed.

Lemma sha1_final_spec ctx m :
  sha1_rep ctx m → Forall is_byte m → tpb_sha1_final ctx = Rfc3174.sha1 m.
Proof.
  intros Hr Hm. rewrite (final_rep ctx m Hr). unfold Rfc3174.sha1. f_equal.
  apply process_blocks_absorb; [vm_compute; intuition congruence|by apply pad_bytes|].
  apply Nat.Div0.mul_div_le.
Qed.

Lemma update_all_rep chunks ctx m :
  sha1_rep ctx m → sha1_rep (foldl tpb_sha1_update ctx chunks) (m ++ concat chunks).
Proof.
  revert ctx m. induction chunks as [|c cs IH]; intros ctx m Hr; simpl.
  - by rewrite app_nil_r.
  - rewrite app_assoc. apply IH. by apply update_rep.
Qed.

Lemma sha1_digest_spec data :
  Forall is_byte data → sha1_digest data = Rfc3174.sha1 data.
Proof.
  intros Hd. apply (sha1_final_spec _ ([] ++ data)); [|done].
  apply update_rep, rep_init.
Qed.

Lemma concat_file_chunks fuel c : (length c < fuel)%nat → concat (file_chunks fuel c) = c.
Proof.
  revert c. induction fuel as [|fuel IH]; intros c Hc; [lia|].
  destruct c as [|b c']; [done|].
  change (take 4096 (b :: c') ++ concat (file_chunks fuel (drop 4096 (b :: c'))) = b :: c').
  rewrite IH; [apply take_drop|]. rewrite length_drop. cbn in *. lia.
Qed.

Lemma Rfc3174_sha1_length m : length (Rfc3174.sha1 m) = 20%nat.
Proof. reflexivity. Qed.

(** ** Properties *)

(** C7: feeding a message to the context in any number of pieces of any sizes and
    finalising it produces the RFC 3174 digest of the whole message: the partial
    block buffer, the padding (including the case that needs a second block) and
    the length field are right.  The 64-bit length field wraps as in the code. *)
Theorem sha1_stream_correct chunks :
  Forall is_byte (concat chunks) →
  tpb_sha1_final (foldl tpb_sha1_update tpb_sha1_init chunks) = Rfc3174.sha1 (concat chunks).
Proof. intros Hb. by apply sha1_final_spec; [apply (update_all_rep _ _ [] rep_init)|]. Qed.

Lemma sha1_stream_correct_witness :
  tpb_sha1_final (foldl tpb_sha1_update tpb_sha1_init [$"a"; []; $"bc"])
  = Rfc3174.sha1 (concat [$"a"; []; $"bc"]).
Proof.
  apply sha1_stream_correct. repeat constructor; vm_compute; congruence.
Defined.

(** Hashing a file gives the RFC 3174 digest of its content, a missing file is
    reported as an I/O error and NULL arguments as such, and nothing else can
    happen. *)
Theorem hash_file_correct p w :
  map_Forall (λ _, Forall is_byte) (w_files w) →
  tpb_raf_hash_file (Some p) true w =
    match w_files w !! p with
    | Some content => Ok (Rfc3174.sha1 content)
    | None => Err (TPBE_MAKE TPB_MOD_RAF_L1 TPBE_FILE_IO_FAIL)
    end
  ∧ tpb_raf_hash_file None true w = Err (TPBE_MAKE TPB_MOD_RAF_L1 TPBE_NULLPTR_ARG).
Proof.
  intros Hw. split; [|done]. unfold tpb_raf_hash_file, fopen_rb.
  destruct (w_files w !! p) as [content|] eqn:E; [|done]. cbn -[file_chunks].
  do 2 f_equal. rewrite sha1_stream_correct, concat_file_chunks; [done|lia|].
  rewrite concat_file_chunks by lia. by apply (Hw p).
Qed.

Definition one_file_world (p d : bytes) : world :=
  mkWorld {[p := d]} (λ _, true) (100 * 100) 4096 (λ _, true).

Lemma hash_file_correct_witness :
  tpb_raf_hash_file (Some $"k.so") true (one_file_world $"k.so" $"abc")
    = Ok (Rfc3174.sha1 $"abc")
  ∧ tpb_raf_hash_file None true (one_file_world $"k.so" $"abc")
    = Err (TPBE_MAKE TPB_MOD_RAF_L1 TPBE_NULLPTR_ARG).
Proof.
  assert (H : map_Forall (λ _ : bytes, Forall is_byte) (w_files (one_file_world $"k.so" $"abc"))).
  { apply map_Forall_singleton. repeat constructor; vm_compute; congruence. }
  pose proof (hash_file_correct $"k.so" (one_file_world $"k.so" $"abc") H) as P.
  unfold one_file_world in P at 2. cbn [w_files] in P. rewrite lookup_singleton_eq in P.
  exact P.
Defined.
