(* ===== verification/RafBase.v ===== *)
(** * Record database, layer 1: magics, identifiers, domains and paths

    [src/corelib/rafdb/rafdb-l1-magic.c], [rafdb-l1-id-util.c],
    [rafdb-l1-domain-reg.c], [rafdb-l1-record-path.c] and the constants of
    [rafdb-l1-types.h] and [tpb-public.h] they use. *)

From S2P Require Import Prelude Errors CLib FileIO.
From stdpp Require Import options.

(** ** Constants *)

Definition TPB_RAF_MAGIC_LEN : nat := 8.
Definition TPB_RAF_MAGIC_B0 : Z := 0xE1.
Definition TPB_RAF_MAGIC_B1 : Z := 0x54.
Definition TPB_RAF_MAGIC_B2 : Z := 0x50.
Definition TPB_RAF_MAGIC_B3 : Z := 0x42.
Definition TPB_RAF_MAGIC_B6 : Z := 0x31.
Definition TPB_RAF_MAGIC_B7 : Z := 0xE0.
Definition TPB_RAF_POS_START : Z := 0x53.
Definition TPB_RAF_POS_SPLIT : Z := 0x44.
Definition TPB_RAF_POS_END : Z := 0x45.
Definition TPB_RAF_FTYPE_ENTRY : Z := 0xE0.
Definition TPB_RAF_FTYPE_RECORD : Z := 0xD0.
Definition TPB_RAF_DOM_TBATCH : Z := 0.
Definition TPB_RAF_DOM_KERNEL : Z := 1.
Definition TPB_RAF_DOM_TASK : Z := 2.
Definition TPB_RAF_DOM_RTENV : Z := 3.

Definition TPB_RAF_RESERVE_SIZE : nat := 128.
Definition TPB_RAF_KERNEL_ATTR_RESERVE : nat := TPB_RAF_RESERVE_SIZE + 52.
Definition TPB_RAF_PATH_MAX : nat := 4096.

Definition TPB_RAF_TBATCH_DIR := $"rafdb/task_batch".
Definition TPB_RAF_KERNEL_DIR := $"rafdb/kernel".
Definition TPB_RAF_TASK_DIR := $"rafdb/task".
Definition TPB_RAF_RTENV_DIR := $"rafdb/runtime_environment".
Definition TPB_RAF_TBATCH_ENTRY := $"task_batch.tpbe".
Definition TPB_RAF_KERNEL_ENTRY := $"kernel.tpbe".
Definition TPB_RAF_TASK_ENTRY := $"task.tpbe".
Definition TPB_RAF_RTENV_ENTRY := $"runtime_environment.tpbe".

(** ** Magic signatures *)

Definition _sf_match_magic_prefix (p : bytes) : bool :=
  (cget p 0 =? TPB_RAF_MAGIC_B0) && (cget p 1 =? TPB_RAF_MAGIC_B1)
  && (cget p 2 =? TPB_RAF_MAGIC_B2) && (cget p 3 =? TPB_RAF_MAGIC_B3).

Definition tpb_raf_build_magic (ftype domain pos : Z) : bytes :=
  [TPB_RAF_MAGIC_B0; TPB_RAF_MAGIC_B1; TPB_RAF_MAGIC_B2; TPB_RAF_MAGIC_B3;
   wrap 8 (Z.lor ftype domain); pos; TPB_RAF_MAGIC_B6; TPB_RAF_MAGIC_B7].

(** [memcmp(magic, expected, 8) == 0]. *)
Definition tpb_raf_validate_magic (magic : bytes) (ftype domain pos : Z) : bool :=
  bool_decide (take 8 magic = tpb_raf_build_magic ftype domain pos).

(** [tpb_raf_detect_file], on the file [fopen] finds. *)
Definition tpb_raf_detect_file (filepath : option bytes) (outs : bool) (w : world)
  : outcome (Z * Z) :=
  match filepath, outs with
  | None, _ | _, false => TPB_FAIL TPB_MOD_RAF_L1 TPBE_NULLPTR_ARG
  | Some p, true =>
    let io_err := TPB_FAIL TPB_MOD_RAF_L1 TPBE_FILE_IO_FAIL in
    match fopen_rb p w with
    | None => io_err
    | Some fp =>
      match fst (fread TPB_RAF_MAGIC_LEN fp) with
      | Ok magic =>
        if negb (_sf_match_magic_prefix magic) then io_err
        else if negb (cget magic 6 =? TPB_RAF_MAGIC_B6)
                || negb (cget magic 7 =? TPB_RAF_MAGIC_B7) then io_err
        else if negb (cget magic 5 =? TPB_RAF_POS_START) then io_err
        else
          let hi := Z.land (cget magic 4) 0xF0 in
          let lo := Z.land (cget magic 4) 0x0F in
          if negb (hi =? TPB_RAF_FTYPE_ENTRY) && negb (hi =? TPB_RAF_FTYPE_RECORD)
          then io_err
          else if negb (lo =? TPB_RAF_DOM_TBATCH) && negb (lo =? TPB_RAF_DOM_KERNEL)
                  && negb (lo =? TPB_RAF_DOM_TASK) && negb (lo =? TPB_RAF_DOM_RTENV)
          then io_err
          else Ok (hi, lo)
      | Err _ => io_err
      | UB => UB
      end
    end
  end.

(** ** Identifiers in hexadecimal *)

Definition _sf_hex_nibble (c : Z) : Z :=
  if (48 <=? c) && (c <=? 57) then c - 48
  else if (97 <=? c) && (c <=? 102) then c - 97 + 10
  else if (65 <=? c) && (c <=? 70) then c - 65 + 10
  else -1.

(** [tpb_raf_id_to_hex]: 20 times ["%02x"]. *)
Definition tpb_raf_id_to_hex (id : bytes) : bytes := concat (map fmt_02x id).

(** The second loop of [tpb_raf_hex_to_id], from byte [i], [n] turns. *)
Fixpoint hex_bytes (hex : bytes) (i n : nat) : outcome bytes :=
  match n with
  | O => Ok []
  | S n' =>
      let hi := _sf_hex_nibble (cget hex (i * 2)) in
      let lo := _sf_hex_nibble (cget hex (i * 2 + 1)) in
      if (hi <? 0) || (lo <? 0) then TPB_FAIL TPB_MOD_RAF_L1 TPBE_CLI_FAIL
      else bs ← hex_bytes hex (S i) n'; Ok (wrap 8 (Z.lor (Z.shiftl hi 4) lo) :: bs)
  end.

Definition tpb_raf_hex_to_id (hex : option bytes) (id : bool) : outcome bytes :=
  match hex, id with
  | None, _ | _, false => TPB_FAIL TPB_MOD_RAF_L1 TPBE_NULLPTR_ARG
  | Some h, true =>
      if negb (forallb (λ i, isxdigit (cget h i)) (seq 0 40))
      then TPB_FAIL TPB_MOD_RAF_L1 TPBE_CLI_FAIL
      else if negb (cget h 40 =? 0) then TPB_FAIL TPB_MOD_RAF_L1 TPBE_CLI_FAIL
      else hex_bytes h 0 20
  end.

(** ** The domain registry *)

Inductive tpb_raf_record_id_style := TPB_RAF_IDSTYLE_SHA1_HEX | TPB_RAF_IDSTYLE_DEC_INT32.

Record tpb_raf_domain_desc := mkDomain {
  domain_id : Z;
  subdir : bytes;
  entry_filename : bytes;
  entry_row_size : Z;
  record_fixed_meta_size : Z;
  record_id_style : tpb_raf_record_id_style;
}.

Definition g_domains : list tpb_raf_domain_desc :=
  [ mkDomain TPB_RAF_DOM_TBATCH TPB_RAF_TBATCH_DIR TPB_RAF_TBATCH_ENTRY 264
      (236 + Z.of_nat TPB_RAF_RESERVE_SIZE) TPB_RAF_IDSTYLE_SHA1_HEX;
    mkDomain TPB_RAF_DOM_KERNEL TPB_RAF_KERNEL_DIR TPB_RAF_KERNEL_ENTRY 264
      (2448 + Z.of_nat TPB_RAF_KERNEL_ATTR_RESERVE) TPB_RAF_IDSTYLE_SHA1_HEX;
    mkDomain TPB_RAF_DOM_TASK TPB_RAF_TASK_DIR TPB_RAF_TASK_ENTRY 232
      (156 + Z.of_nat TPB_RAF_RESERVE_SIZE) TPB_RAF_IDSTYLE_SHA1_HEX;
    mkDomain TPB_RAF_DOM_RTENV TPB_RAF_RTENV_DIR TPB_RAF_RTENV_ENTRY 1828
      1832 TPB_RAF_IDSTYLE_DEC_INT32 ].

Definition _tpb_raf_l1_domain_desc (domain : Z) : option tpb_raf_domain_desc :=
  snd <$> list_find (λ d, domain_id d = domain) g_domains.

Definition _tpb_raf_l1_domain_by_index (idx : Z) : option tpb_raf_domain_desc :=
  if (idx <? 0) || (4 <=? idx) then None else g_domains !! Z.to_nat idx.

(** ** Paths *)

Definition slash : bytes := $"/".

Definition _tpb_raf_l1_build_entry_path (workspace : bytes) (domain : Z) (outlen : nat)
  : bytes :=
  match _tpb_raf_l1_domain_desc domain with
  | None => snprintf_s outlen (workspace ++ $"/rafdb/task_batch/task_batch.tpbe")
  | Some d => snprintf_s outlen (workspace ++ slash ++ subdir d ++ slash ++ entry_filename d)
  end.

Definition _tpb_raf_l1_build_record_path_int32 (workspace : bytes) (domain id : Z)
  (outlen : nat) : bytes :=
  match _tpb_raf_l1_domain_desc domain with
  | None => snprintf_s outlen
      (workspace ++ slash ++ TPB_RAF_RTENV_DIR ++ slash ++ fmt_0d 10 id ++ $".tpbr")
  | Some d => snprintf_s outlen
      (workspace ++ slash ++ subdir d ++ slash ++ fmt_0d 10 id ++ $".tpbr")
  end.

Definition _tpb_raf_l1_build_record_path (workspace : bytes) (domain : Z) (id : bytes)
  (outlen : nat) : bytes :=
  match _tpb_raf_l1_domain_desc domain with
  | Some (mkDomain _ _ _ _ _ TPB_RAF_IDSTYLE_DEC_INT32) =>
      _tpb_raf_l1_build_record_path_int32 workspace domain
        (swrap 32 (le_val (take 4 id))) outlen
  | None => snprintf_s outlen
      (workspace ++ slash ++ TPB_RAF_TBATCH_DIR ++ slash ++ tpb_raf_id_to_hex id ++ $".tpbr")
  | Some d => snprintf_s outlen
      (workspace ++ slash ++ subdir d ++ slash ++ tpb_raf_id_to_hex id ++ $".tpbr")
  end.

(** ** Lemmas *)

Lemma length_build_magic ft d p : length (tpb_raf_build_magic ft d p) = 8%nat.
Proof. done. Qed.

Lemma validate_build ft d p :
  tpb_raf_validate_magic (tpb_raf_build_magic ft d p) ft d p = true.
Proof. by apply bool_decide_eq_true. Qed.

Definition id_ok (id : bytes) : Prop := length id = 20%nat ∧ Forall is_byte id.

Lemma length_id_to_hex id : length (tpb_raf_id_to_hex id) = (2 * length id)%nat.
Proof. unfold tpb_raf_id_to_hex. induction id; cbn in *; lia. Qed.

Lemma id_to_hex_lookup id i b :
  id !! i = Some b →
  cget (tpb_raf_id_to_hex id) (i * 2) = hex_digit (b / 16)
  ∧ cget (tpb_raf_id_to_hex id) (i * 2 + 1) = hex_digit (b mod 16).
Proof.
  unfold cget, tpb_raf_id_to_hex. revert i. induction id as [|x id IH]; intros i Hi; [done|].
  destruct i as [|i]; cbn in Hi; [by injection Hi as ->|].
  replace (S i * 2)%nat with (2 + i * 2)%nat by lia.
  replace (2 + i * 2 + 1)%nat with (2 + (i * 2 + 1))%nat by lia. by apply IH.
Qed.

Lemma hex_digit_nibble n :
  0 ≤ n < 16 → isxdigit (hex_digit n) = true ∧ _sf_hex_nibble (hex_digit n) = n.
Proof. intros Hn. unfold isxdigit, isdigit, hex_digit, _sf_hex_nibble. repeat case_match; lia. Qed.

Lemma byte_nibbles b : is_byte b → 0 ≤ b / 16 < 16 ∧ 0 ≤ b mod 16 < 16.
Proof.
  unfold is_byte. intros Hb. split; [|by apply Z.mod_pos_bound].
  split; [apply Z.div_pos|apply Z.div_lt_upper_bound]; lia.
Qed.

Lemma hex_bytes_of_id id i n :
  Forall is_byte id → (i + n)%nat = length id →
  hex_bytes (tpb_raf_id_to_hex id) i n = Ok (drop i id).
Proof.
  intros Hid. revert i. induction n as [|n IH]; intros i Hn; cbn [hex_bytes].
  - by rewrite drop_ge by lia.
  - destruct (lookup_lt_is_Some_2 id i) as [b Hb]; [lia|].
    destruct (id_to_hex_lookup id i b Hb) as [-> ->].
    destruct (byte_nibbles b) as [H1 H2]; [by eapply Forall_lookup_1|].
    destruct (hex_digit_nibble _ H1) as [_ ->], (hex_digit_nibble _ H2) as [_ ->].
    destruct (Z.ltb_spec (b / 16) 0), (Z.ltb_spec (b mod 16) 0); try lia. cbn [orb].
    rewrite IH by lia. cbn. rewrite (drop_S _ _ _ Hb). do 2 f_equal.
    rewrite lor_shiftl_add by lia. change (2 ^ 4) with 16.
    rewrite Z.mul_comm, <- Z.div_mod by lia. apply wrap_small.
    exact (Forall_lookup_1 _ _ _ _ Hid Hb).
Qed.

Lemma id_to_hex_inj a b : id_ok a → id_ok b → tpb_raf_id_to_hex a = tpb_raf_id_to_hex b → a = b.
Proof.
  intros [Hla Ha] [Hlb Hb] E.
  pose proof (hex_bytes_of_id a 0 20 Ha ltac:(lia)) as H1.
  pose proof (hex_bytes_of_id b 0 20 Hb ltac:(lia)) as H2.
  rewrite E, H2 in H1. by injection H1.
Qed.

(** A byte string that can sit in a C string. *)
Definition cstring (s : bytes) : Prop := Forall (λ c, 0 < c < 256) s.

Lemma xdigit_nibble c :
  isxdigit c = true → 0 ≤ _sf_hex_nibble c < 16 ∧ hex_digit (_sf_hex_nibble c) = tolower c.
Proof.
  unfold isxdigit, isdigit, _sf_hex_nibble, tolower, isupper. intros H.
  destruct ((48 <=? c) && (c <=? 57)) eqn:E1; [split; [lia|unfold hex_digit; repeat case_match; lia]|].
  destruct ((97 <=? c) && (c <=? 102)) eqn:E2; [split; [lia|unfold hex_digit; repeat case_match; lia]|].
  destruct ((65 <=? c) && (c <=? 70)) eqn:E3; [split; [lia|unfold hex_digit; repeat case_match; lia]|].
  lia.
Qed.

Lemma drop_2 (l : bytes) n :
  (n + 2 ≤ length l)%nat → drop n l = cget l n :: cget l (n + 1) :: drop (n + 2) l.
Proof.
  intros Hn. unfold cget.
  destruct (lookup_lt_is_Some_2 l n) as [a Ha]; [lia|].
  destruct (lookup_lt_is_Some_2 l (n + 1)) as [b Hb]; [lia|].
  rewrite Ha, Hb, (drop_S _ _ _ Ha). cbn. f_equal.
  replace (S n) with (n + 1)%nat by lia. rewrite (drop_S _ _ _ Hb). do 2 f_equal. lia.
Qed.

(** Every pair of hexadecimal digits is read as the byte that prints as it. *)
Lemma hex_bytes_inv h i n :
  (i * 2 + n * 2 ≤ length h)%nat → Forall (λ c, isxdigit c = true) h →
  ∃ bs, hex_bytes h i n = Ok bs ∧ length bs = n ∧ Forall is_byte bs
        ∧ tpb_raf_id_to_hex bs = take (n * 2) (drop (i * 2) (map tolower h)).
Proof.
  intros Hl Hx. revert i Hl. induction n as [|n IH]; intros i Hl.
  { exists []. by rewrite take_0. }
  destruct (IH (S i)) as (bs & E & Hlen & Hb & Hhex); [lia|].
  assert (Hd : ∀ k, (k < length h)%nat → isxdigit (cget h k) = true).
  { intros k Hk. unfold cget. destruct (lookup_lt_is_Some_2 h k Hk) as [c Hc].
    rewrite Hc. exact (Forall_lookup_1 _ _ _ _ Hx Hc). }
  destruct (xdigit_nibble _ (Hd (i * 2)%nat ltac:(lia))) as [H1 E1].
  destruct (xdigit_nibble _ (Hd (i * 2 + 1)%nat ltac:(lia))) as [H2 E2].
  cbn [hex_bytes]. rewrite E.
  set (hi := _sf_hex_nibble (cget h (i * 2))) in *.
  set (lo := _sf_hex_nibble (cget h (i * 2 + 1))) in *.
  destruct (Z.ltb_spec hi 0), (Z.ltb_spec lo 0); try lia. cbn [orb].
  assert (Hv : wrap 8 (Z.lor (Z.shiftl hi 4) lo) = hi * 16 + lo).
  { rewrite lor_shiftl_add by lia. apply wrap_small. unfold is_word. lia. }
  eexists. split; [reflexivity|]. rewrite Hv. split_and!.
  - cbn. lia.
  - constructor; [unfold is_byte; lia|done].
  - change (fmt_02x (hi * 16 + lo) ++ tpb_raf_id_to_hex bs
            = take (S n * 2) (drop (i * 2) (map tolower h))).
    rewrite (drop_2 (map tolower h)) by (rewrite length_map; lia).
    assert (Hc : ∀ k, (k < length h)%nat → cget (map tolower h) k = tolower (cget h k)).
    { intros k Hk. unfold cget. rewrite list_lookup_fmap.
      by destruct (lookup_lt_is_Some_2 h k Hk) as [c ->]. }
    rewrite !Hc, <- E1, <- E2 by lia. unfold fmt_02x.
    rewrite Z.div_add_l, Z.div_small, Z.add_0_r by lia.
    rewrite Z.add_comm, Z.mod_add, Z.mod_small by lia. rewrite Hhex.
    replace (S i * 2)%nat with (i * 2 + 2)%nat by lia. done.
Qed.

Lemma nibbles_of_byte m : is_byte m → wrap 8 (Z.lor (Z.land m 0xF0) (Z.land m 0x0F)) = m.
Proof.
  intros Hm. rewrite <- Z.land_lor_distr_r. change (Z.lor 0xF0 0x0F) with 0xFF.
  rewrite land_FF, Z.mod_small by done. by apply wrap_small.
Qed.

(** The file types and domains a magic can carry. *)
Definition known_ftype (ft : Z) : Prop := ft = TPB_RAF_FTYPE_ENTRY ∨ ft = TPB_RAF_FTYPE_RECORD.
Definition known_domain (d : Z) : Prop :=
  d = TPB_RAF_DOM_TBATCH ∨ d = TPB_RAF_DOM_KERNEL ∨ d = TPB_RAF_DOM_TASK
  ∨ d = TPB_RAF_DOM_RTENV.

Lemma detect_built ft d : known_ftype ft → known_domain d →
  Z.land (wrap 8 (Z.lor ft d)) 0xF0 = ft ∧ Z.land (wrap 8 (Z.lor ft d)) 0x0F = d.
Proof. intros [-> | ->] [-> |[-> |[-> | ->]]]; done. Qed.

Lemma detect_known hi lo :
  negb (hi =? TPB_RAF_FTYPE_ENTRY) && negb (hi =? TPB_RAF_FTYPE_RECORD) = false →
  negb (lo =? TPB_RAF_DOM_TBATCH) && negb (lo =? TPB_RAF_DOM_KERNEL)
    && negb (lo =? TPB_RAF_DOM_TASK) && negb (lo =? TPB_RAF_DOM_RTENV) = false →
  known_ftype hi ∧ known_domain lo.
Proof.
  unfold known_ftype, known_domain, TPB_RAF_FTYPE_ENTRY, TPB_RAF_FTYPE_RECORD,
    TPB_RAF_DOM_TBATCH, TPB_RAF_DOM_KERNEL, TPB_RAF_DOM_TASK, TPB_RAF_DOM_RTENV. lia.
Qed.

(** A record path is not cut when the workspace path leaves room for it. *)
Definition short_workspace (ws : bytes) : Prop := (length ws ≤ 4000)%nat.

Definition hex_domain (d : Z) : Prop :=
  d = TPB_RAF_DOM_TBATCH ∨ d = TPB_RAF_DOM_KERNEL ∨ d = TPB_RAF_DOM_TASK.

Lemma record_path_eq ws dom id :
  hex_domain dom → short_workspace ws → length id = 20%nat →
  ∃ desc, _tpb_raf_l1_domain_desc dom = Some desc ∧
  _tpb_raf_l1_build_record_path ws dom id TPB_RAF_PATH_MAX
  = ws ++ slash ++ subdir desc ++ slash ++ tpb_raf_id_to_hex id ++ $".tpbr".
Proof.
  unfold short_workspace. intros Hd Hw Hid.
  assert (Hhex : length (tpb_raf_id_to_hex id) = 40%nat) by (rewrite length_id_to_hex; lia).
  destruct Hd as [-> |[-> | ->]]; eexists; (split; [reflexivity|]);
    apply take_ge; rewrite !length_app, Hhex; cbn; lia.
Qed.

Lemma hex_all s :
  length s = 40%nat → Forall (λ c, isxdigit c = true) s →
  forallb (λ i, isxdigit (cget s i)) (seq 0 40) = true ∧ cget s 40 = 0.
Proof.
  intros Hs Hx. split; [|unfold cget; by rewrite lookup_ge_None_2 by lia].
  apply forallb_forall. intros k Hk%in_seq. unfold cget.
  destruct (lookup_lt_is_Some_2 s k) as [c Hc]; [lia|]. rewrite Hc.
  exact (Forall_lookup_1 _ _ _ _ Hx Hc).
Qed.

Lemma id_to_hex_xdigits id :
  Forall is_byte id → Forall (λ c, isxdigit c = true) (tpb_raf_id_to_hex id).
Proof.
  unfold tpb_raf_id_to_hex. induction 1 as [|b id Hb Hid IH]; cbn; [done|].
  destruct (byte_nibbles b Hb) as [H1 H2].
  constructor; [by apply hex_digit_nibble|]. constructor; [by apply hex_digit_nibble|done].
Qed.

Lemma hex_to_id_of_id id : id_ok id → tpb_raf_hex_to_id (Some (tpb_raf_id_to_hex id)) true = Ok id.
Proof.
  intros [Hl Hid]. unfold tpb_raf_hex_to_id.
  destruct (hex_all (tpb_raf_id_to_hex id)) as [-> ->]; [rewrite length_id_to_hex; lia|by apply id_to_hex_xdigits|].
  cbn [negb Z.eqb]. by rewrite (hex_bytes_of_id id 0 20 Hid) by lia.
Qed.

(** ** Properties *)

(** Identifiers survive printing and parsing, and the parser accepts exactly
    the strings of 40 hexadecimal digits of either case: what it returns prints
    as the lower-case form of what it was given; everything else is refused with
    [TPBE_CLI_FAIL]. *)
Theorem id_hex_roundtrip id h :
  id_ok id → cstring h →
  tpb_raf_hex_to_id (Some (tpb_raf_id_to_hex id)) true = Ok id
  ∧ (length h = 40%nat ∧ Forall (λ c, isxdigit c = true) h →
       ∃ bs, tpb_raf_hex_to_id (Some h) true = Ok bs ∧ id_ok bs
             ∧ tpb_raf_id_to_hex bs = map tolower h)
  ∧ (¬ (length h = 40%nat ∧ Forall (λ c, isxdigit c = true) h) →
       tpb_raf_hex_to_id (Some h) true = Err (TPBE_MAKE TPB_MOD_RAF_L1 TPBE_CLI_FAIL)).
Proof.
  intros Hid Hh. split_and!; [by apply hex_to_id_of_id|..]; unfold tpb_raf_hex_to_id.
  - intros [Hlh Hx]. destruct (hex_all h Hlh Hx) as [-> ->]. cbn [negb Z.eqb].
    destruct (hex_bytes_inv h 0 20) as (bs & -> & Hb & Hbs & E); [lia|done|].
    exists bs. split; [done|]. split; [done|]. rewrite E. apply take_ge.
    rewrite length_map. lia.
  - intros Hn. destruct (forallb _ _) eqn:E; [|done]. cbn [negb].
    destruct (Z.eqb_spec (cget h 40) 0) as [E0|]; [|done]. exfalso. apply Hn.
    rewrite forallb_forall in E.
    assert (Hle : (length h ≤ 40)%nat).
    { apply Nat.nlt_ge. intros Hlt. destruct (lookup_lt_is_Some_2 h 40 Hlt) as [c Hc].
      unfold cget in E0. rewrite Hc in E0. cbn in E0. subst c.
      pose proof (Forall_lookup_1 _ _ _ _ Hh Hc) as H0. cbn in H0. lia. }
    assert (Hk : ∀ k, (k < 40)%nat → ∃ c, h !! k = Some c ∧ isxdigit c = true).
    { intros k Hk. specialize (E k). rewrite in_seq in E. specialize (E ltac:(lia)).
      unfold cget in E. destruct (h !! k) as [c|]; [by exists c|done]. }
    assert (Hlen : length h = 40%nat).
    { destruct (Hk 39%nat) as (c & Hc%lookup_lt_Some & _); lia. }
    split; [done|]. apply Forall_lookup. intros i c Hi.
    destruct (Hk i) as (c' & Hc' & ?); [apply lookup_lt_Some in Hi; lia|]. congruence.
Qed.

Lemma id_hex_roundtrip_witness :
  ∃ bs, tpb_raf_hex_to_id (Some $"A9993E364706816aba3e25717850c26c9cd0d89d") true = Ok bs
        ∧ id_ok bs
        ∧ tpb_raf_id_to_hex bs = map tolower $"A9993E364706816aba3e25717850c26c9cd0d89d".
Proof.
  refine (proj1 (proj2 (id_hex_roundtrip (replicate 20 7)
            $"A9993E364706816aba3e25717850c26c9cd0d89d" _ _)) _).
  - split; [done|]. apply Forall_replicate. vm_compute; split; congruence.
  - repeat constructor.
  - split; [done|]. repeat constructor.
Defined.

(** [tpb_raf_detect_file] recognises exactly the files that start with a
    start-position magic of a known type and domain, and returns the two values
    the magic was built from; every other file content (too short, another magic,
    another position marker, unknown nibbles) is an I/O error. *)
Theorem detect_file_iff p w d ft dom :
  w_files w !! p = Some d → Forall is_byte d →
  (tpb_raf_detect_file (Some p) true w = Ok (ft, dom) ↔
     known_ftype ft ∧ known_domain dom
     ∧ ∃ r, d = tpb_raf_build_magic ft dom TPB_RAF_POS_START ++ r)
  ∧ (tpb_raf_detect_file (Some p) true w = Err (TPBE_MAKE TPB_MOD_RAF_L1 TPBE_FILE_IO_FAIL)
     ∨ ∃ x, tpb_raf_detect_file (Some p) true w = Ok x).
Proof.
  intros Hp Hd. unfold tpb_raf_detect_file, fopen_rb. rewrite Hp. cbn [mbind option_bind].
  rewrite fread_open. destruct (decide _) as [Hlen|Hlen].
  2: { split; [|by left]. split; [done|]. intros (_ & _ & r & ->).
       destruct Hlen. rewrite length_app, length_build_magic. unfold TPB_RAF_MAGIC_LEN. lia. }
  unfold TPB_RAF_MAGIC_LEN in *.
  do 8 (destruct d as [|? d]; [cbn in Hlen; lia|]). cbn [take]. rewrite take_0.
  unfold _sf_match_magic_prefix, cget. cbn [lookup list_lookup default from_option id].
  assert (H4 : is_byte z3).
  { do 4 (apply Forall_cons in Hd as [_ Hd]). by apply Forall_cons in Hd as [? _]. }
  split.
  - split.
    + repeat (case_match; [done|]). intros [= <- <-].
      destruct (detect_known _ _ ltac:(eassumption) ltac:(eassumption)) as [Hft Hdom].
      split; [done|]. split; [done|]. exists d.
      unfold tpb_raf_build_magic. rewrite nibbles_of_byte by done.
      rewrite ?negb_false_iff, ?andb_true_iff, ?orb_false_iff, ?negb_false_iff, ?Z.eqb_eq in *.
      destruct_and!. by subst.
    + intros (Hft & Hdom & r & E). injection E as -> -> -> -> -> -> -> -> ->.
      rewrite !Z.eqb_refl. cbn [andb orb negb].
      destruct (detect_built ft dom Hft Hdom) as [-> ->].
      destruct Hft as [-> | ->], Hdom as [-> |[-> |[-> | ->]]]; done.
  - repeat (case_match; [by left|]). right. eauto.
Qed.

Lemma detect_file_iff_witness :
  tpb_raf_detect_file (Some $"t.tpbr") true
    (mkWorld {[ $"t.tpbr" := tpb_raf_build_magic TPB_RAF_FTYPE_RECORD TPB_RAF_DOM_TASK
                               TPB_RAF_POS_START ++ [1; 2] ]} (λ _, true) 100 16 (λ _, true))
  = Ok (TPB_RAF_FTYPE_RECORD, TPB_RAF_DOM_TASK).
Proof.
  eapply detect_file_iff.
  - apply lookup_singleton_eq.
  - repeat constructor; vm_compute; congruence.
  - split; [by right|]. split; [by right; right; left|]. by eexists.
Defined.

(** Distinct records live in distinct files: the path of a record determines
    its domain and its identifier, for workspaces whose path leaves room for the
    record name within [PATH_MAX]. *)
Theorem record_path_injective ws d1 d2 id1 id2 :
  short_workspace ws → hex_domain d1 → hex_domain d2 → id_ok id1 → id_ok id2 →
  _tpb_raf_l1_build_record_path ws d1 id1 TPB_RAF_PATH_MAX
  = _tpb_raf_l1_build_record_path ws d2 id2 TPB_RAF_PATH_MAX →
  d1 = d2 ∧ id1 = id2.
Proof.
  intros Hw H1 H2 [Hl1 Hb1] [Hl2 Hb2].
  destruct (record_path_eq ws d1 id1 H1 Hw Hl1) as (s1 & E1 & ->).
  destruct (record_path_eq ws d2 id2 H2 Hw Hl2) as (s2 & E2 & ->).
  intros E. do 2 apply app_inv_head in E.
  assert (Hx1 := length_id_to_hex id1). assert (Hx2 := length_id_to_hex id2).
  assert (Hdom : d1 = d2).
  { apply (f_equal length) in E. rewrite !length_app, Hx1, Hx2, Hl1, Hl2 in E.
    destruct H1 as [-> |[-> | ->]], H2 as [-> |[-> | ->]]; try done;
      injection E1 as <-; injection E2 as <-; cbn in E; lia. }
  subst d2. rewrite E1 in E2. injection E2 as <-. split; [done|].
  do 2 apply app_inv_head in E. apply app_inv_tail in E. by apply id_to_hex_inj.
Qed.

Lemma record_path_injective_witness :
  TPB_RAF_DOM_TASK = TPB_RAF_DOM_TASK ∧ replicate 20 1 = replicate 20 1.
Proof.
  apply (record_path_injective $"/home/u/.tpbench");
    [vm_compute; lia|by right; right|by right; right| | |reflexivity];
    (split; [done|apply Forall_replicate; vm_compute; split; congruence]).
Defined.
