(* ===== verification/RafLocate.v ===== *)
(** * Record database, layer 1: finding records

    [src/corelib/rafdb/rafdb-l1-record-locate.c] (which domain holds an
    identifier) and [rafdb-l1-scan.c] (files named by the user, identifiers with
    a given prefix). *)

From S2P Require Import Prelude Errors CLib FileIO RafBase.
From Stdlib Require Import Sorting.Sorted.
From stdpp Require Import options.

Definition TPB_RAF_L1_DOMAIN_COUNT : Z := 4.
Definition TPB_RAF_DOM_ALL : Z := 0xFF.
Definition _tpb_raf_l1_domain_count : Z := TPB_RAF_L1_DOMAIN_COUNT.

(** [stat(path, &st) == 0 && S_ISREG(st.st_mode)]. *)
Definition is_regular (path : bytes) (w : world) : bool := bool_decide (is_Some (w_files w !! path)).

(** [for (i = 0; i < nd; i++)] over the registry, the descriptors it visits. *)
Definition domain_indices : list Z := seqZ 0 _tpb_raf_l1_domain_count.

(** ** Which domain holds a record *)

Fixpoint find_record_from (ws id : bytes) (w : world) (idxs : list Z) : option Z :=
  match idxs with
  | [] => None
  | i :: idxs' =>
      match _tpb_raf_l1_domain_by_index i with
      | None => find_record_from ws id w idxs'
      | Some desc =>
          match record_id_style desc with
          | TPB_RAF_IDSTYLE_DEC_INT32 => find_record_from ws id w idxs'
          | TPB_RAF_IDSTYLE_SHA1_HEX =>
              let path := _tpb_raf_l1_build_record_path ws (domain_id desc) id TPB_RAF_PATH_MAX in
              if is_regular path w then Some (domain_id desc)
              else find_record_from ws id w idxs'
          end
      end
  end.

Definition tpb_raf_find_record (workspace id : option bytes) (domain_out : bool) (w : world)
  : outcome Z :=
  match workspace, id, domain_out with
  | Some ws, Some id, true =>
      match find_record_from ws id w domain_indices with
      | Some d => Ok d
      | None => TPB_FAIL TPB_MOD_RAF_L1 TPBE_FILE_IO_FAIL
      end
  | _, _, _ => TPB_FAIL TPB_MOD_RAF_L1 TPBE_NULLPTR_ARG
  end.

(** ** A file named by the user *)

(** [strrchr(inpath, '/')]: the part after the last slash, or the whole. *)
Fixpoint basename_acc (s base : bytes) : bytes :=
  match s with
  | [] => base
  | c :: s' => basename_acc s' (if c =? (#"/") then s' else base)
  end.
Definition basename (s : bytes) : bytes := basename_acc s s.

Fixpoint resolve_from (ws base : bytes) (w : world) (idxs : list Z) : option bytes :=
  match idxs with
  | [] => None
  | i :: idxs' =>
      match _tpb_raf_l1_domain_by_index i with
      | None => resolve_from ws base w idxs'
      | Some desc =>
          let trybuf := snprintf_s TPB_RAF_PATH_MAX (ws ++ slash ++ subdir desc ++ slash ++ base) in
          if is_regular trybuf w then Some trybuf else resolve_from ws base w idxs'
      end
  end.

Definition tpb_raf_resolve_record_file (workspace inpath : option bytes) (resolved : bool)
  (resolved_cap : nat) (w : world) : outcome bytes :=
  match workspace, inpath with
  | Some ws, Some inp =>
      if negb resolved || (resolved_cap =? 0)%nat then TPB_FAIL TPB_MOD_RAF_L1 TPBE_NULLPTR_ARG
      else if is_regular inp w then Ok (snprintf_s resolved_cap inp)
      else match resolve_from ws (basename inp) w domain_indices with
           | Some p => Ok (snprintf_s resolved_cap p)
           | None => TPB_FAIL TPB_MOD_RAF_L1 TPBE_FILE_IO_FAIL
           end
  | _, _ => TPB_FAIL TPB_MOD_RAF_L1 TPBE_NULLPTR_ARG
  end.

(** ** Identifiers with a prefix *)

(** [tpb_raf_id_match_t]: the identifier in lower-case hexadecimal, the domain. *)
Record tpb_raf_id_match := mkMatch { id_hex : bytes; match_domain : Z }.
Definition sizeof_id_match : Z := 42.

Definition _sf_cmp_id_match (x y : tpb_raf_id_match) : Z :=
  let c := strcmp (id_hex x) (id_hex y) in
  if negb (c =? 0) then c else match_domain x - match_domain y.

(** [strncmp(a, b, n) != 0]. *)
Definition strncmp_ne (a b : bytes) (n : nat) : bool := negb (strcmp (take n a) (take n b) =? 0).

(** The identifier a directory entry names, in lower case, if it is a record. *)
Definition record_name_id (name : bytes) : option bytes :=
  if negb (length name =? 45)%nat || negb (strcmp (drop 40 name) ($".tpbr") =? 0) then None
  else
    let idpart := take 40 name in
    if forallb isxdigit idpart then Some (tolower <$> idpart) else None.

(** The [readdir] loop of one directory: the matches so far and the capacity of
    their array, doubled when it is full. *)
Fixpoint scan_names (alloc : Z → bool) (prefix : bytes) (prefix_len : nat) (domain : Z)
  (names : list bytes) (matches : list tpb_raf_id_match) (cap : Z)
  : outcome (list tpb_raf_id_match * Z) :=
  match names with
  | [] => Ok (matches, cap)
  | name :: names' =>
      match record_name_id name with
      | None => scan_names alloc prefix prefix_len domain names' matches cap
      | Some idpart =>
          if strncmp_ne idpart prefix prefix_len
          then scan_names alloc prefix prefix_len domain names' matches cap
          else
            let n := Z.of_nat (length matches) in
            let nc := if cap =? 0 then 16 else cap * 2 in
            if (cap <=? n) && negb (alloc (nc * sizeof_id_match))
            then TPB_FAIL TPB_MOD_RAF_L1 TPBE_MALLOC_FAIL
            else scan_names alloc prefix prefix_len domain names'
                   (matches ++ [mkMatch idpart domain]) (if cap <=? n then nc else cap)
      end
  end.

(** What [opendir] and [readdir] deliver: the entries of a directory, in the order
    of the file system, or [None] when it cannot be opened. *)
Section Scan.
Context (listing : bytes → option (list bytes)).

Fixpoint scan_domains (alloc : Z → bool) (ws prefix : bytes) (prefix_len : nat)
  (domain_filter : Z) (idxs : list Z) (matches : list tpb_raf_id_match) (cap : Z)
  : outcome (list tpb_raf_id_match) :=
  match idxs with
  | [] => Ok matches
  | i :: idxs' =>
      match _tpb_raf_l1_domain_by_index i with
      | None => scan_domains alloc ws prefix prefix_len domain_filter idxs' matches cap
      | Some desc =>
          if match record_id_style desc with TPB_RAF_IDSTYLE_DEC_INT32 => true | _ => false end
             || negb (domain_filter =? TPB_RAF_DOM_ALL) && negb (domain_filter =? domain_id desc)
          then scan_domains alloc ws prefix prefix_len domain_filter idxs' matches cap
          else
            let dirpath := snprintf_s TPB_RAF_PATH_MAX (ws ++ slash ++ subdir desc) in
            match listing dirpath with
            | None => scan_domains alloc ws prefix prefix_len domain_filter idxs' matches cap
            | Some names =>
                '(matches', cap') ← scan_names alloc prefix prefix_len (domain_id desc) names
                                      matches cap;
                scan_domains alloc ws prefix prefix_len domain_filter idxs' matches' cap'
            end
      end
  end.

Definition tpb_raf_scan_records_by_id_prefix (workspace id_hex_prefix : option bytes)
  (prefix_len : nat) (domain_filter : Z) (outs : bool) (w : world)
  : outcome (list tpb_raf_id_match) :=
  match workspace, id_hex_prefix, outs with
  | Some ws, Some prefix, true =>
      matches ← scan_domains (w_malloc w) ws prefix prefix_len domain_filter domain_indices [] 0;
      Ok (if (1 <? length matches)%nat then qsort _sf_cmp_id_match matches else matches)
  | _, _, _ => TPB_FAIL TPB_MOD_RAF_L1 TPBE_NULLPTR_ARG
  end.
End Scan.

(** ** What a scan finds *)

(** The match a directory entry gives. *)
Definition entry_match (prefix : bytes) (prefix_len : nat) (domain : Z) (name : bytes)
  : option tpb_raf_id_match :=
  idpart ← record_name_id name;
  if strncmp_ne idpart prefix prefix_len then None else Some (mkMatch idpart domain).

Lemma entry_match_Some prefix n d name m :
  entry_match prefix n d name = Some m
  ↔ record_name_id name = Some (id_hex m) ∧ strncmp_ne (id_hex m) prefix n = false
    ∧ match_domain m = d.
Proof.
  unfold entry_match. destruct (record_name_id name) as [idp|]; cbn; [|naive_solver].
  destruct (strncmp_ne idp prefix n) eqn:E; destruct m as [h dm]; cbn; split;
    [done|intros ([= ->] & E' & _); congruence|intros [= -> ->]; done|].
  by intros ([= ->] & _ & ->).
Qed.

Lemma scan_names_eq alloc prefix n dom names matches cap :
  (∀ s, alloc s = true) →
  ∃ cap', scan_names alloc prefix n dom names matches cap
          = Ok (matches ++ omap (entry_match prefix n dom) names, cap').
Proof.
  intros Ha. revert matches cap. induction names as [|name names IH]; intros matches cap.
  - exists cap. cbn. by rewrite app_nil_r.
  - cbn [scan_names omap list_omap]. unfold entry_match at 1.
    destruct (record_name_id name) as [idpart|]; cbn [mbind option_bind]; [|apply IH].
    destruct (strncmp_ne idpart prefix n); [apply IH|]. rewrite Ha, andb_false_r. cbn [negb].
    destruct (IH (matches ++ [mkMatch idpart dom])
                (if cap <=? Z.of_nat (length matches) then if cap =? 0 then 16 else cap * 2 else cap))
      as [cap' ->].
    exists cap'. by rewrite <- app_assoc.
Qed.

(** The domains whose records are named by hexadecimal identifiers. *)
Definition scanned (domain_filter d : Z) : Prop :=
  hex_domain d ∧ (domain_filter = TPB_RAF_DOM_ALL ∨ domain_filter = d).

Section ScanSpec.
Context (listing : bytes → option (list bytes)).

(** The entries of the directory of domain [d]. *)
Definition domain_names (ws : bytes) (d : Z) : list bytes :=
  match _tpb_raf_l1_domain_desc d with
  | Some desc => default [] (listing (snprintf_s TPB_RAF_PATH_MAX (ws ++ slash ++ subdir desc)))
  | None => []
  end.

Definition domain_matches (ws prefix : bytes) (n : nat) (filt d : Z) : list tpb_raf_id_match :=
  if (filt =? TPB_RAF_DOM_ALL) || (filt =? d)
  then omap (entry_match prefix n d) (domain_names ws d) else [].

(** One turn of the loop over the domains. *)
Lemma scan_domains_step alloc ws prefix n filt d desc idxs matches cap :
  (∀ s, alloc s = true) →
  _tpb_raf_l1_domain_by_index d = Some desc → domain_id desc = d →
  _tpb_raf_l1_domain_desc d = Some desc → record_id_style desc = TPB_RAF_IDSTYLE_SHA1_HEX →
  ∃ cap', scan_domains listing alloc ws prefix n filt (d :: idxs) matches cap
    = scan_domains listing alloc ws prefix n filt idxs
        (matches ++ domain_matches ws prefix n filt d) cap'.
Proof.
  intros Ha Hi Hd Hdesc Hs. cbn [scan_domains]. rewrite Hi, Hs, Hd. cbn [orb].
  unfold domain_matches, domain_names. rewrite Hdesc.
  destruct (filt =? TPB_RAF_DOM_ALL), (filt =? d); cbn [negb andb orb];
    [..|exists cap; by rewrite app_nil_r];
    (destruct (listing _) as [names|]; cbn [default from_option omap list_omap];
     [|exists cap; by rewrite app_nil_r];
     destruct (scan_names_eq alloc prefix n d names matches cap Ha) as [cap' ->]; by exists cap').
Qed.

Definition all_matches (ws prefix : bytes) (n : nat) (filt : Z) : list tpb_raf_id_match :=
  domain_matches ws prefix n filt TPB_RAF_DOM_TBATCH
  ++ domain_matches ws prefix n filt TPB_RAF_DOM_KERNEL
  ++ domain_matches ws prefix n filt TPB_RAF_DOM_TASK.

Lemma scan_domains_eq alloc ws prefix n filt :
  (∀ s, alloc s = true) →
  scan_domains listing alloc ws prefix n filt domain_indices [] 0
  = Ok (all_matches ws prefix n filt).
Proof.
  intros Ha. change domain_indices with
    [TPB_RAF_DOM_TBATCH; TPB_RAF_DOM_KERNEL; TPB_RAF_DOM_TASK; TPB_RAF_DOM_RTENV].
  do 3 (edestruct scan_domains_step as [? ->];
    [exact Ha|reflexivity|reflexivity|reflexivity|reflexivity|]).
  cbn. unfold all_matches. by rewrite <- !app_assoc.
Qed.

Lemma all_matches_elem ws prefix n filt m :
  m ∈ all_matches ws prefix n filt
  ↔ scanned filt (match_domain m)
    ∧ ∃ name, name ∈ domain_names ws (match_domain m)
        ∧ record_name_id name = Some (id_hex m) ∧ strncmp_ne (id_hex m) prefix n = false.
Proof.
  assert (Hd : ∀ d, m ∈ domain_matches ws prefix n filt d
    ↔ (filt = TPB_RAF_DOM_ALL ∨ filt = d) ∧ match_domain m = d
      ∧ ∃ name, name ∈ domain_names ws d ∧ record_name_id name = Some (id_hex m)
          ∧ strncmp_ne (id_hex m) prefix n = false).
  { intros d. unfold domain_matches.
    assert (Hm : m ∈ omap (entry_match prefix n d) (domain_names ws d)
      ↔ match_domain m = d ∧ ∃ name, name ∈ domain_names ws d
          ∧ record_name_id name = Some (id_hex m) ∧ strncmp_ne (id_hex m) prefix n = false).
    { rewrite list_elem_of_omap. setoid_rewrite entry_match_Some. naive_solver. }
    destruct (Z.eqb_spec filt TPB_RAF_DOM_ALL), (Z.eqb_spec filt d); cbn [orb];
      [rewrite Hm; tauto..|set_solver]. }
  unfold all_matches, scanned, hex_domain. rewrite !elem_of_app, !Hd. split.
  - intros [H|[H|H]]; destruct H as (? & E & H); rewrite E; naive_solver.
  - intros ((Hdom & Hf) & H). destruct Hdom as [E|[E|E]]; rewrite E in *; [left|right; left|right; right]; done.
Qed.
End ScanSpec.

Lemma entry_match_cstr listing ws prefix n filt :
  Forall (λ m, is_cstr (id_hex m)) (all_matches listing ws prefix n filt).
Proof.
  apply Forall_forall. intros m Hm. apply all_matches_elem in Hm as (_ & name & _ & Hid & _).
  unfold record_name_id in Hid. destruct (_ || _); [done|].
  destruct (forallb isxdigit (take 40 name)) eqn:Hx; [|done]. injection Hid as <-.
  apply Forall_fmap, Forall_forall. intros c Hc. rewrite forallb_forall in Hx.
  apply list_elem_of_In in Hc. specialize (Hx c Hc). unfold compose, tolower.
  unfold isxdigit, isdigit, isupper in *. case_match; lia.
Qed.

#[export] Instance cmp_id_match_comparison :
  Comparison _sf_cmp_id_match (λ m, is_cstr (id_hex m)).
Proof.
  unfold _sf_cmp_id_match. split.
  - intros x y. rewrite (strcmp_opp (id_hex x) (id_hex y)).
    destruct (Z.eqb_spec (- strcmp (id_hex x) (id_hex y)) 0),
      (Z.eqb_spec (strcmp (id_hex x) (id_hex y)) 0); cbn [negb]; lia.
  - intros x y z Hx Hy Hz.
    destruct (Z.eqb_spec (strcmp (id_hex x) (id_hex y)) 0) as [E1|]; cbn [negb];
    destruct (Z.eqb_spec (strcmp (id_hex y) (id_hex z)) 0) as [E2|]; cbn [negb]; intros H1 H2.
    + apply strcmp_eq in E1, E2; [|done..]. rewrite E1, E2.
      by rewrite (proj2 (strcmp_eq (id_hex z) (id_hex z) Hz Hz) eq_refl); cbn; lia.
    + apply strcmp_eq in E1; [|done..]. rewrite E1.
      destruct (Z.eqb_spec (strcmp (id_hex y) (id_hex z)) 0); cbn [negb]; lia.
    + apply strcmp_eq in E2; [|done..]. rewrite <- E2.
      destruct (Z.eqb_spec (strcmp (id_hex x) (id_hex y)) 0); cbn [negb]; lia.
    + pose proof (strcmp_trans _ _ _ Hx Hy Hz H1 H2).
      destruct (Z.eqb_spec (strcmp (id_hex x) (id_hex z)) 0); cbn [negb]; lia.
  - intros [hx dx] [hy dy]. cbn. intros Hx Hy. destruct (Z.eqb_spec (strcmp hx hy) 0) as [E|];
      cbn [negb]; [|lia]. apply strcmp_eq in E as ->; [|done..]. intros. f_equal. lia.
Qed.

(** The file of a record is recognised by its identifier. *)
Lemma record_name_of_id id :
  id_ok id → record_name_id (tpb_raf_id_to_hex id ++ $".tpbr") = Some (tpb_raf_id_to_hex id).
Proof.
  intros [Hl Hb]. pose proof (length_id_to_hex id) as Hh. rewrite Hl in Hh.
  unfold record_name_id. rewrite length_app, Hh.
  rewrite drop_app_length', take_app_length' by done. cbn -[tolower].
  assert (Hx : Forall (λ c, isxdigit c = true ∧ tolower c = c) (tpb_raf_id_to_hex id)).
  { clear Hl Hh. unfold tpb_raf_id_to_hex. induction Hb as [|b id Hbyte _ IH]; [constructor|].
    cbn [map concat]. apply Forall_app. split; [|done].
    destruct (byte_nibbles b Hbyte) as [H1 H2].
    assert (Hd : ∀ n, 0 ≤ n < 16 → isxdigit (hex_digit n) = true ∧ tolower (hex_digit n) = hex_digit n).
    { intros n Hn. split; [by apply hex_digit_nibble|]. unfold tolower, isupper, hex_digit.
      repeat case_match; lia. }
    repeat constructor; apply Hd; done. }
  rewrite (proj2 (forallb_forall isxdigit _)).
  - f_equal. rewrite <- (list_fmap_id (tpb_raf_id_to_hex id)) at 2.
    apply Forall_fmap_ext_1. eapply Forall_impl; [exact Hx|]. by intros c [].
  - rewrite Forall_forall in Hx. intros c Hc. by apply Hx, list_elem_of_In.
Qed.

(** The first of the three domains where [g] has something. *)
Definition first_of (g : Z → option bytes) : option Z :=
  match g 0 with
  | Some _ => Some 0
  | None => match g 1 with
            | Some _ => Some 1
            | None => match g 2 with Some _ => Some 2 | None => None end
            end
  end.

Lemma first_domain (g : Z → option bytes) :
  (∀ d, first_of g = Some d ↔ (d = 0 ∨ d = 1 ∨ d = 2) ∧ is_Some (g d)
                              ∧ ∀ d', 0 ≤ d' < d → g d' = None)
  ∧ (first_of g = None ↔ ∀ d, (d = 0 ∨ d = 1 ∨ d = 2) → g d = None).
Proof.
  unfold first_of. split.
  - intros d. split.
    + destruct (g 0) eqn:E0, (g 1) eqn:E1, (g 2) eqn:E2; intros [= <-];
        (split_and!; [tauto|by eexists|]); intros d' Hd;
        assert (d' = 0 ∨ d' = 1) as [-> | ->] by lia; (done || lia).
    + intros ([-> |[-> | ->]] & [x Hx] & Hn).
      * by rewrite Hx.
      * by rewrite (Hn 0), Hx by lia.
      * by rewrite (Hn 0), (Hn 1), Hx by lia.
  - split.
    + destruct (g 0) eqn:E0, (g 1) eqn:E1, (g 2) eqn:E2; try done.
      intros _ d [-> |[-> | ->]]; done.
    + intros H. by rewrite (H 0), (H 1), (H 2) by tauto.
Qed.

Lemma is_regular_lookup p w :
  is_regular p w = match w_files w !! p with Some _ => true | None => false end.
Proof.
  unfold is_regular. destruct (w_files w !! p).
  - by apply bool_decide_eq_true_2.
  - apply bool_decide_eq_false_2. by intros [].
Qed.

Lemma find_record_first ws id w :
  tpb_raf_find_record (Some ws) (Some id) true w
  = match first_of (λ d, w_files w !! _tpb_raf_l1_build_record_path ws d id TPB_RAF_PATH_MAX) with
    | Some d => Ok d
    | None => TPB_FAIL TPB_MOD_RAF_L1 TPBE_FILE_IO_FAIL
    end.
Proof.
  set (P d := _tpb_raf_l1_build_record_path ws d id TPB_RAF_PATH_MAX).
  transitivity (match (if is_regular (P 0) w then Some 0 else if is_regular (P 1) w then Some 1
      else if is_regular (P 2) w then Some 2 else None) with
    | Some d => Ok d | None => TPB_FAIL TPB_MOD_RAF_L1 TPBE_FILE_IO_FAIL end); [reflexivity|].
  rewrite !is_regular_lookup.
  change (first_of _) with (first_of (λ d, w_files w !! P d)). clearbody P. unfold first_of.
  by destruct (w_files w !! P 0), (w_files w !! P 1), (w_files w !! P 2).
Qed.

(** ** Properties *)

(** C36: a record is looked up in the task batch, kernel and task domains, in this
    order: the answer is the first of them whose directory has the file of the
    identifier, and an error exactly when none has; runtime environments, which
    are not named by identifiers, are never the answer. *)
Theorem find_record_correct ws id w :
  let P d := _tpb_raf_l1_build_record_path ws d id TPB_RAF_PATH_MAX in
  (∀ d, tpb_raf_find_record (Some ws) (Some id) true w = Ok d
        ↔ hex_domain d ∧ is_Some (w_files w !! P d)
          ∧ ∀ d', 0 ≤ d' < d → w_files w !! P d' = None)
  ∧ (tpb_raf_find_record (Some ws) (Some id) true w = TPB_FAIL TPB_MOD_RAF_L1 TPBE_FILE_IO_FAIL
     ↔ ∀ d, hex_domain d → w_files w !! P d = None).
Proof.
  intros P. destruct (first_domain (λ d, w_files w !! P d)) as [H1 H2].
  rewrite find_record_first. change (first_of _) with (first_of (λ d, w_files w !! P d)).
  clearbody P. set (r := first_of _) in *. unfold hex_domain.
  split; [intros d; rewrite <- H1|rewrite <- H2]; by destruct r as [d'|]; split; intros [=]; subst.
Qed.

Lemma find_record_correct_witness :
  tpb_raf_find_record (Some $"/ws") (Some (replicate 20 0xAB)) true
    (mkWorld {[ $"/ws/rafdb/task/abababababababababababababababababababab.tpbr" := [] ]}
             (λ _, true) 100 16 (λ _, true)) = Ok TPB_RAF_DOM_TASK.
Proof.
  apply (proj1 (find_record_correct _ _ _)). split_and!.
  - by right; right.
  - rewrite lookup_singleton_Some || idtac. vm_compute. by eexists.
  - intros d' Hd. assert (d' = 0 ∨ d' = 1) as [-> | ->] by (unfold TPB_RAF_DOM_TASK in Hd; lia);
      vm_compute; reflexivity.
Defined.


