(* ===== verification/RafHeader.v ===== *)
(** * Record database, layer 1: headers and primitive record I/O

    [src/corelib/rafdb/rafdb-l1-record-io.c]: the serialisation of the metadata
    headers of a [.tpbr] record, the magic-delimited data section, and the lookup
    of one header's bytes in the concatenated data blob. *)

From S2P Require Import Prelude Errors CLib FileIO RafBase.
From stdpp Require Import options.

(** [tpb_meta_header_t]: char arrays are kept with all their bytes, [dimsizes]
    and [dimnames] with their seven slots. *)
Record tpb_meta_header := mkHeader {
  h_block_size : Z;
  h_ndim : Z;
  h_data_size : Z;
  h_type_bits : Z;
  h_reserve : Z;
  h_uattr_bits : Z;
  h_name : bytes;             (* char[256] *)
  h_tag : bytes;              (* char[256] *)
  h_note : bytes;             (* char[2048] *)
  h_dimsizes : list Z;        (* uint64_t[7] *)
  h_dimnames : list bytes;    (* char[7][64] *)
}.

Definition TPBM_DATA_NDIM_MAX : nat := 7.
Definition TPB_RAF_HDR_FIXED_SIZE : Z := 3096.

(** [sizeof(tpb_meta_header_t)] with natural alignment. *)
Definition sizeof_header : Z := 3096.

(** ** Primitive I/O *)

Definition _tpb_raf_l1_write_u64 (v : Z) : IO unit := fwrite (le 8 v).
Definition _tpb_raf_l1_write_u32 (v : Z) : IO unit := fwrite (le 4 v).
Definition _tpb_raf_l1_read_u64 : IO Z := bs ← fread 8; mret (le_val bs).
Definition _tpb_raf_l1_read_u32 : IO Z := bs ← fread 4; mret (le_val bs).

(** The on-disk length of the header at [hdr_base], as a [long]. *)
Definition _tpb_raf_l1_hdr_serialized_len_at (hdr_base : Z) : IO Z :=
  fseek_set (hdr_base + 4);;
  ndim ← _tpb_raf_l1_read_u32;
  mret (32 + 256 + 256 + 2048 + ndim * 8 + ndim * 64).

(** ** Writing headers *)

(** [for (j = j0; j < j0 + n; j++)] over an array: reading past it is undefined. *)
Fixpoint write_array {A} (wr : A → IO unit) (arr : list A) (j n : nat) : IO unit :=
  match n with
  | O => mret tt
  | S n' => match arr !! j with
            | None => io_ub
            | Some v => wr v;; write_array wr arr (S j) n'
            end
  end.

Definition write_header (h : tpb_meta_header) : IO unit :=
  _tpb_raf_l1_write_u32 TPB_RAF_HDR_FIXED_SIZE;;
  _tpb_raf_l1_write_u32 (h_ndim h);;
  _tpb_raf_l1_write_u64 (h_data_size h);;
  _tpb_raf_l1_write_u32 (h_type_bits h);;
  _tpb_raf_l1_write_u32 (h_reserve h);;
  _tpb_raf_l1_write_u64 (h_uattr_bits h);;
  fwrite (h_name h);;
  fwrite (h_tag h);;
  fwrite (h_note h);;
  write_array _tpb_raf_l1_write_u64 (h_dimsizes h) 0 (Z.to_nat (h_ndim h));;
  write_array fwrite (h_dimnames h) 0 (Z.to_nat (h_ndim h)).

Definition _tpb_raf_l1_write_headers (hdrs : list tpb_meta_header) (n : Z) : IO unit :=
  write_array write_header hdrs 0 (Z.to_nat n).

(** ** Reading headers *)

(** The two [for (j = 0; j < ndim; j++)] loops that fill the fixed arrays;
    storing past the seven slots is undefined. *)
Fixpoint read_array {A} (rd : IO A) (arr : list A) (j n : nat) : IO (list A) :=
  match n with
  | O => mret arr
  | S n' => if (j <? length arr)%nat
            then v ← rd; read_array rd (<[j := v]> arr) (S j) n'
            else io_ub
  end.

Definition zero_dimsizes : list Z := replicate TPBM_DATA_NDIM_MAX 0.
Definition zero_dimnames : list bytes := replicate TPBM_DATA_NDIM_MAX (replicate 64 0).

Definition read_header : IO tpb_meta_header :=
  block_size ← _tpb_raf_l1_read_u32;
  ndim ← _tpb_raf_l1_read_u32;
  data_size ← _tpb_raf_l1_read_u64;
  type_bits ← _tpb_raf_l1_read_u32;
  reserve ← _tpb_raf_l1_read_u32;
  uattr_bits ← _tpb_raf_l1_read_u64;
  name ← fread 256;
  tag ← fread 256;
  note ← fread 2048;
  dimsizes ← read_array _tpb_raf_l1_read_u64 zero_dimsizes 0 (Z.to_nat ndim);
  dimnames ← read_array (fread 64) zero_dimnames 0 (Z.to_nat ndim);
  mret (mkHeader block_size ndim data_size type_bits reserve uattr_bits
                 name tag note dimsizes dimnames).

Fixpoint read_n {A} (rd : IO A) (n : nat) : IO (list A) :=
  match n with
  | O => mret []
  | S n' => h ← rd; hs ← read_n rd n'; mret (h :: hs)
  end.

(** [alloc] is the answer of [calloc]/[malloc] for a request of that many bytes. *)
Definition _tpb_raf_l1_read_headers (alloc : Z → bool) (n : Z)
  : IO (list tpb_meta_header) :=
  if n =? 0 then mret []
  else if negb (alloc (n * sizeof_header)) then io_fail
  else read_n read_header (Z.to_nat n).

(** ** The data section *)

(** [fwrite(data, 1, datasize, fp)] reads [datasize] bytes at [data]. *)
Definition write_data (data : option bytes) (datasize : Z) : IO unit :=
  match data with
  | Some d => if 0 <? datasize
              then if (Z.to_nat datasize <=? length d)%nat
                   then fwrite (take (Z.to_nat datasize) d) else io_ub
              else mret tt
  | None => mret tt
  end.

Definition _tpb_raf_l1_write_magic_and_data (domain : Z) (data : option bytes)
  (datasize : Z) : IO unit :=
  fwrite (tpb_raf_build_magic TPB_RAF_FTYPE_RECORD domain TPB_RAF_POS_SPLIT);;
  write_data data datasize;;
  fwrite (tpb_raf_build_magic TPB_RAF_FTYPE_RECORD domain TPB_RAF_POS_END).

(** [fread(magic, ...)] followed by [tpb_raf_validate_magic]. *)
Definition expect_magic (domain pos : Z) : IO unit :=
  magic ← fread TPB_RAF_MAGIC_LEN;
  io_guard (tpb_raf_validate_magic magic TPB_RAF_FTYPE_RECORD domain pos).

(** The data part of the record readers: delivered when the caller passed both
    output pointers ([want]), skipped otherwise.  [fseek] takes a [long]. *)
Definition read_data (alloc : Z → bool) (want : bool) (ds : Z) : IO (option bytes) :=
  if want then
    if 0 <? ds then
      io_guard (alloc ds);;
      d ← fread (Z.to_nat ds);
      mret (Some d)
    else mret None
  else if 0 <? ds then fseek_cur (swrap 64 ds);; mret None
  else mret None.

(** The end of every record reader: split magic, data, end magic. *)
Definition read_tail (alloc : Z → bool) (domain : Z) (want : bool) (ds : Z)
  : IO (option bytes) :=
  expect_magic domain TPB_RAF_POS_SPLIT;;
  d ← read_data alloc want ds;
  expect_magic domain TPB_RAF_POS_END;;
  mret d.

(** ** Looking headers up *)

Definition _tpb_raf_l1_find_header_by_name (hdrs : option (list tpb_meta_header))
  (nheader : Z) (name : option bytes) : Z :=
  match hdrs, name with
  | Some hs, Some nm =>
      match list_find (λ h, strcmp (cstr_of (h_name h)) nm = 0) (take (Z.to_nat nheader) hs) with
      | Some (i, _) => Z.of_nat i
      | None => -1
      end
  | _, _ => -1
  end.

(** The offset loop, in 64-bit arithmetic. *)
Definition header_offset (hdrs : list tpb_meta_header) (idx : nat) : Z :=
  foldl (λ off h, wrap64 (off + h_data_size h)) 0 (take idx hdrs).

(** The result is the offset of the pointer into [data] ([None] for a NULL
    pointer) and the number of bytes. *)
Definition tpb_raf_header_data_ptr (headers : option (list tpb_meta_header))
  (nheader : Z) (data : option bytes) (datasize idx : Z) (outs : bool)
  : outcome (option Z * Z) :=
  match headers, outs with
  | None, _ | _, false => TPB_FAIL TPB_MOD_RAF_MISC TPBE_NULLPTR_ARG
  | Some hs, true =>
      if nheader <=? idx then TPB_FAIL TPB_MOD_RAF_MISC TPBE_LIST_NOT_FOUND
      else match hs !! Z.to_nat idx with
      | None => UB
      | Some h =>
          let off := header_offset hs (Z.to_nat idx) in
          let dsz := h_data_size h in
          if (datasize <? off) || (datasize - off <? dsz)
          then TPB_FAIL TPB_MOD_RAF_MISC TPBE_FILE_IO_FAIL
          else match data with
          | None => if (0 <? off) || (0 <? dsz)
                    then TPB_FAIL TPB_MOD_RAF_MISC TPBE_NULLPTR_ARG
                    else Ok (None, dsz)
          | Some _ => Ok (Some off, dsz)
          end
      end
  end.

(** ** The on-disk format *)

(** What the fields of the C structure can hold, for a header with at most seven
    dimensions. *)
Record header_ok (h : tpb_meta_header) : Prop := {
  ok_ndim : 0 ≤ h_ndim h ≤ 7;
  ok_data_size : is_u64 (h_data_size h);
  ok_type_bits : is_u32 (h_type_bits h);
  ok_reserve : is_u32 (h_reserve h);
  ok_uattr_bits : is_u64 (h_uattr_bits h);
  ok_name : length (h_name h) = 256%nat;
  ok_tag : length (h_tag h) = 256%nat;
  ok_note : length (h_note h) = 2048%nat;
  ok_dimsizes : length (h_dimsizes h) = 7%nat ∧ Forall is_u64 (h_dimsizes h);
  ok_dimnames : length (h_dimnames h) = 7%nat
                ∧ Forall (λ s, length s = 64%nat) (h_dimnames h);
}.

Definition enc_header (h : tpb_meta_header) : bytes :=
  le 4 TPB_RAF_HDR_FIXED_SIZE ++ le 4 (h_ndim h) ++ le 8 (h_data_size h)
  ++ le 4 (h_type_bits h) ++ le 4 (h_reserve h) ++ le 8 (h_uattr_bits h)
  ++ h_name h ++ h_tag h ++ h_note h
  ++ concat (map (le 8) (take (Z.to_nat (h_ndim h)) (h_dimsizes h)))
  ++ concat (take (Z.to_nat (h_ndim h)) (h_dimnames h)).

Definition enc_headers (hs : list tpb_meta_header) : bytes := concat (map enc_header hs).

(** What a reader gets back: the slots past [ndim] are not stored and come back
    zeroed, and [block_size] is the constant the writer stores. *)
Definition stored_header (h : tpb_meta_header) : tpb_meta_header :=
  let n := Z.to_nat (h_ndim h) in
  mkHeader TPB_RAF_HDR_FIXED_SIZE (h_ndim h) (h_data_size h) (h_type_bits h) (h_reserve h)
    (h_uattr_bits h) (h_name h) (h_tag h) (h_note h)
    (take n (h_dimsizes h) ++ drop n zero_dimsizes)
    (take n (h_dimnames h) ++ drop n zero_dimnames).

(** A header as the program fills it: unused slots zero, the constant size. *)
Record header_canonical (h : tpb_meta_header) : Prop := {
  can_block_size : h_block_size h = TPB_RAF_HDR_FIXED_SIZE;
  can_dimsizes : drop (Z.to_nat (h_ndim h)) (h_dimsizes h)
                 = drop (Z.to_nat (h_ndim h)) zero_dimsizes;
  can_dimnames : drop (Z.to_nat (h_ndim h)) (h_dimnames h)
                 = drop (Z.to_nat (h_ndim h)) zero_dimnames;
}.

Lemma stored_canonical h : header_canonical h → stored_header h = h.
Proof.
  intros [Hb Hs Hn]. unfold stored_header. rewrite <- Hs, <- Hn, !take_drop, <- Hb. by destruct h.
Qed.

Lemma stored_headers_canonical hs :
  Forall header_canonical hs → map stored_header hs = hs.
Proof. induction 1 as [|h hs Hh _ IH]; cbn; [done|]. by rewrite stored_canonical, IH. Qed.

(** ** Emitting and decoding *)

Lemma emits_write_u64 v : emits (_tpb_raf_l1_write_u64 v) (le 8 v) tt.
Proof. apply emits_fwrite. Qed.
Lemma emits_write_u32 v : emits (_tpb_raf_l1_write_u32 v) (le 4 v) tt.
Proof. apply emits_fwrite. Qed.

Lemma decodes_read_u64 v : is_u64 v → decodes _tpb_raf_l1_read_u64 (le 8 v) v.
Proof.
  intros Hv. rewrite <- (app_nil_r (le 8 v)).
  eapply decodes_bind; [apply decodes_fread, length_le|].
  rewrite (le_val_le_word 8) by done. apply decodes_ret.
Qed.
Lemma decodes_read_u32 v : is_u32 v → decodes _tpb_raf_l1_read_u32 (le 4 v) v.
Proof.
  intros Hv. rewrite <- (app_nil_r (le 4 v)).
  eapply decodes_bind; [apply decodes_fread, length_le|].
  rewrite (le_val_le_word 4) by done. apply decodes_ret.
Qed.

#[export] Hint Resolve emits_write_u64 emits_write_u32 decodes_read_u64 decodes_read_u32
  decodes_fread : codec.

Lemma emits_write_array {A} (wr : A → IO unit) enc arr j n :
  (∀ a, a ∈ arr → emits (wr a) (enc a) tt) → (j + n ≤ length arr)%nat →
  emits (write_array wr arr j n) (concat (map enc (take n (drop j arr)))) tt.
Proof.
  intros Hwr. revert j. induction n as [|n IH]; intros j Hj; cbn [write_array].
  - rewrite take_0. apply emits_ret.
  - destruct (lookup_lt_is_Some_2 arr j) as [a Ha]; [lia|]. rewrite Ha.
    rewrite (drop_S _ _ _ Ha). cbn [take map concat].
    eapply emits_bind; [apply Hwr; by eapply list_elem_of_lookup_2|]. apply IH. lia.
Qed.

Lemma decodes_read_array {A} (rd : IO A) enc arr vs j :
  (∀ v, v ∈ vs → decodes rd (enc v) v) → (j + length vs ≤ length arr)%nat →
  decodes (read_array rd arr j (length vs)) (concat (map enc vs))
          (take j arr ++ vs ++ drop (j + length vs) arr).
Proof.
  intros Hrd. revert j arr. induction vs as [|v vs IH]; intros j arr Hj;
    cbn [read_array length map concat].
  - rewrite Nat.add_0_r. cbn [app]. rewrite take_drop. apply decodes_ret.
  - cbn [length] in Hj. destruct (Nat.ltb_spec j (length arr)); [|lia].
    eapply decodes_bind; [apply Hrd; set_solver|].
    replace (take j arr ++ (v :: vs) ++ drop (j + S (length vs)) arr)
      with (take (S j) (<[j:=v]> arr) ++ vs ++ drop (S j + length vs) (<[j:=v]> arr)).
    + apply IH; [set_solver|rewrite length_insert; lia].
    + rewrite (take_S_r _ _ v) by (by apply list_lookup_insert_eq).
      rewrite take_insert_ge by lia. rewrite drop_insert_lt by lia.
      rewrite <- app_assoc. cbn [app]. do 4 f_equal. lia.
Qed.

Lemma decodes_read_n {A} (rd : IO A) (enc : A → bytes) (nf : A → A) vs :
  (∀ v, v ∈ vs → decodes rd (enc v) (nf v)) →
  decodes (read_n rd (length vs)) (concat (map enc vs)) (map nf vs).
Proof.
  induction vs as [|v vs IH]; intros Hrd; cbn [read_n length map concat]; [apply decodes_ret|].
  eapply decodes_bind; [apply Hrd; set_solver|].
  rewrite <- (app_nil_r (concat _)). eapply decodes_bind; [apply IH; set_solver|].
  apply decodes_ret.
Qed.

Lemma emits_write_header h : header_ok h → emits (write_header h) (enc_header h) tt.
Proof.
  intros []. unfold write_header, enc_header.
  do 9 codec_emit.
  eapply emits_bind.
  - pose proof (emits_write_array _tpb_raf_l1_write_u64 (le 8) (h_dimsizes h) 0
                  (Z.to_nat (h_ndim h))) as H.
    rewrite drop_0 in H. apply H; [auto with codec|lia].
  - pose proof (emits_write_array fwrite id (h_dimnames h) 0 (Z.to_nat (h_ndim h))) as H.
    rewrite drop_0, map_id in H. apply H; [unfold id; auto with codec|lia].
Qed.

Lemma decodes_read_header h :
  header_ok h → decodes read_header (enc_header h) (stored_header h).
Proof.
  intros []. unfold read_header, enc_header.
  eapply decodes_bind; [apply decodes_read_u32; vm_compute; split; congruence|].
  eapply decodes_bind; [apply decodes_read_u32; unfold is_word; lia|].
  do 7 codec_decode.
  set (n := Z.to_nat (h_ndim h)).
  assert (Hn : (n ≤ 7)%nat) by lia.
  assert (H1 : length (take n (h_dimsizes h)) = n) by (rewrite length_take; lia).
  assert (H2 : length (take n (h_dimnames h)) = n) by (rewrite length_take; lia).
  eapply decodes_bind.
  - pose proof (decodes_read_array _tpb_raf_l1_read_u64 (le 8) zero_dimsizes
                  (take n (h_dimsizes h)) 0) as H.
    rewrite H1 in H. apply H; [|cbn; lia].
    intros v Hv. apply decodes_read_u64.
    destruct ok_dimsizes0 as [_ Hall]. rewrite Forall_forall in Hall.
    apply Hall, (subseteq_take n _ _ Hv).
  - rewrite <- (app_nil_r (concat _)). eapply decodes_bind; [|apply decodes_ret].
    pose proof (decodes_read_array (fread 64) id zero_dimnames
                  (take n (h_dimnames h)) 0) as H.
    rewrite H2, map_id in H. apply H; [|cbn; lia].
    intros v Hv. apply decodes_fread.
    destruct ok_dimnames0 as [_ Hall]. rewrite Forall_forall in Hall.
    apply Hall, (subseteq_take n _ _ Hv).
Qed.

Lemma emits_write_headers hs n :
  Forall header_ok hs → n = Z.of_nat (length hs) →
  emits (_tpb_raf_l1_write_headers hs n) (enc_headers hs) tt.
Proof.
  intros Hok ->. unfold _tpb_raf_l1_write_headers. rewrite Nat2Z.id.
  pose proof (emits_write_array write_header enc_header hs 0 (length hs)) as H.
  rewrite drop_0, firstn_all in H. apply H; [|lia].
  intros h Hh. rewrite Forall_forall in Hok. by apply emits_write_header, Hok.
Qed.

Lemma decodes_read_headers alloc hs n :
  Forall header_ok hs → n = Z.of_nat (length hs) →
  (n ≠ 0 → alloc (n * sizeof_header) = true) →
  decodes (_tpb_raf_l1_read_headers alloc n) (enc_headers hs) (map stored_header hs).
Proof.
  intros Hok -> Hal. unfold _tpb_raf_l1_read_headers.
  destruct (Z.eqb_spec (Z.of_nat (length hs)) 0) as [E|E].
  { destruct hs; [apply decodes_ret|cbn in E; lia]. }
  rewrite Hal by done. cbn [negb]. rewrite Nat2Z.id. apply decodes_read_n.
  intros h Hh. rewrite Forall_forall in Hok. by apply decodes_read_header, Hok.
Qed.

(** The data section of a record. *)
Definition enc_data (domain : Z) (d : bytes) : bytes :=
  tpb_raf_build_magic TPB_RAF_FTYPE_RECORD domain TPB_RAF_POS_SPLIT ++ d
  ++ tpb_raf_build_magic TPB_RAF_FTYPE_RECORD domain TPB_RAF_POS_END.

(** The data a caller passes: as many bytes as it says, within a [long]. *)
Definition data_ok (data : option bytes) (datasize : Z) : Prop :=
  datasize = Z.of_nat (length (default [] data)) ∧ datasize < 2 ^ 63.

Lemma emits_write_data data ds :
  data_ok data ds → emits (write_data data ds) (default [] data) tt.
Proof.
  intros [-> _]. destruct data as [d|]; cbn; [|apply emits_ret].
  destruct (Z.ltb_spec 0 (Z.of_nat (length d))) as [Hl|Hl].
  - rewrite Nat2Z.id, Nat.leb_refl, firstn_all. apply emits_fwrite.
  - destruct d; [apply emits_ret|cbn in Hl; lia].
Qed.

Lemma emits_magic_and_data domain data ds :
  data_ok data ds →
  emits (_tpb_raf_l1_write_magic_and_data domain data ds)
        (enc_data domain (default [] data)) tt.
Proof.
  intros Hd. unfold _tpb_raf_l1_write_magic_and_data, enc_data.
  codec_emit. eapply emits_bind; [by apply emits_write_data|]. apply emits_fwrite.
Qed.

Lemma decodes_expect_magic domain pos :
  decodes (expect_magic domain pos)
          (tpb_raf_build_magic TPB_RAF_FTYPE_RECORD domain pos) tt.
Proof.
  rewrite <- (app_nil_r (tpb_raf_build_magic _ _ _)). unfold expect_magic.
  eapply decodes_bind; [by apply decodes_fread|].
  apply decodes_guard, validate_build.
Qed.

#[export] Hint Resolve decodes_expect_magic emits_magic_and_data : codec.

(** What the caller receives of the data [d]. *)
Definition delivered (want : bool) (d : bytes) : option bytes :=
  if want then match d with [] => None | _ => Some d end else None.

Lemma decodes_read_tail alloc domain want d :
  let ds := Z.of_nat (length d) in
  ds < 2 ^ 63 → (want = true → 0 < ds → alloc ds = true) →
  decodes (read_tail alloc domain want ds) (enc_data domain d) (delivered want d).
Proof.
  intros ds Hds Hal. unfold ds in *. clear ds. unfold read_tail, enc_data. codec_decode.
  assert (Hend : ∀ v : option bytes,
    decodes (expect_magic domain TPB_RAF_POS_END;; mret v)
      (tpb_raf_build_magic TPB_RAF_FTYPE_RECORD domain TPB_RAF_POS_END) v).
  { intros v. rewrite <- (app_nil_r (tpb_raf_build_magic _ _ _)).
    codec_decode. apply decodes_ret. }
  unfold read_data. destruct (Z.ltb_spec 0 (Z.of_nat (length d))) as [Hpos|Hz].
  - destruct want; cbn [delivered].
    + assert (match d with [] => None | _ => Some d end = Some d) as ->
        by (destruct d; [cbn in Hpos; lia|done]).
      eapply decodes_bind; [|apply Hend].
      rewrite Hal by done. eapply decodes_eq.
      * eapply decodes_bind; [by apply decodes_guard|].
        eapply decodes_bind; [apply (decodes_fread _ d); lia|]. apply decodes_ret.
      * cbn. apply app_nil_r.
    + rewrite swrap64_small by (split; [by apply Z.lt_le_incl|exact Hds]).
      apply (decodes_ext _ (fseek_cur (Z.of_nat (length d)) ≫= λ _,
               expect_magic domain TPB_RAF_POS_END;; mret None));
        [intros f; etransitivity; [apply io_bind_assoc|reflexivity]|].
      apply decodes_skip; [done|done|]. apply Hend.
  - assert (d = []) as -> by (destruct d; [done|cbn in Hz; lia]).
    destruct want; cbn [delivered]; rewrite <- (app_nil_l (tpb_raf_build_magic _ _ _));
      (eapply decodes_bind; [apply decodes_ret|apply Hend]).
Qed.

Lemma length_concat_le8 l : length (concat (map (le 8) l)) = (8 * length l)%nat.
Proof.
  induction l as [|x l IH]; [done|]. cbn [map concat length].
  rewrite length_app, length_le, IH. lia.
Qed.

Lemma length_enc_header h :
  header_ok h → Z.of_nat (length (enc_header h)) = 2592 + 72 * h_ndim h.
Proof.
  intros []. unfold enc_header.
  assert (H2 : ∀ l, Forall (λ s : bytes, length s = 64%nat) l →
            length (concat l) = (64 * length l)%nat).
  { induction 1 as [|x l Hx _ IH]; cbn; [done|]. rewrite length_app, IH. lia. }
  destruct ok_dimsizes0 as [Hs _], ok_dimnames0 as [Hn Hall].
  rewrite !length_app, !length_le, length_concat_le8, H2, !length_take by (by apply Forall_take). lia.
Qed.

(** Sum of the sizes of the data blocks before [idx]. *)
Definition data_before (hs : list tpb_meta_header) (idx : nat) : Z :=
  foldr (λ h a, h_data_size h + a) 0 (take idx hs).

Lemma header_offset_wrap hs idx : header_offset hs idx = wrap64 (data_before hs idx).
Proof.
  unfold header_offset, data_before. generalize (take idx hs). clear.
  assert (H : ∀ l a, foldl (λ off h, wrap64 (off + h_data_size h)) (wrap64 a) l
                     = wrap64 (a + foldr (λ h a, h_data_size h + a) 0 l)).
  { induction l as [|h l IH]; intros a; cbn; [by rewrite Z.add_0_r|].
    replace (wrap64 (wrap64 a + h_data_size h)) with (wrap64 (a + h_data_size h))
      by (unfold wrap; by rewrite Zplus_mod_idemp_l).
    rewrite IH. f_equal. lia. }
  intros l. apply (H l 0).
Qed.

Lemma data_before_nonneg hs idx :
  Forall (λ h, is_u64 (h_data_size h)) hs → 0 ≤ data_before hs idx.
Proof.
  intros H. unfold data_before. apply (Forall_take _ idx) in H.
  induction H as [|h l Hh _ IH]; cbn; [lia|]. unfold is_word in Hh. lia.
Qed.

(** ** Properties *)

(** A header read at its offset reports its own on-disk length: 2592 bytes
    plus 72 per dimension, which is what the writer emits. *)
Theorem hdr_serialized_len_correct h a b w :
  header_ok h →
  fst (_tpb_raf_l1_hdr_serialized_len_at (Z.of_nat (length a))
         (open_on (a ++ enc_header h ++ b) w))
  = Ok (Z.of_nat (length (enc_header h))).
Proof.
  intros Hok. unfold _tpb_raf_l1_hdr_serialized_len_at.
  change 4 with (Z.of_nat 4). rewrite <- Nat2Z.inj_add. unfold mbind at 1, IO_bind at 1.
  rewrite fseek_set_clean by done. cbn [f_disk f_bufsz f_cap open_on].
  assert (Hn : is_u32 (h_ndim h)) by (destruct Hok; unfold is_word; lia).
  destruct (decodes_read_u32 _ Hn) as [Hrd _].
  edestruct (Hrd (mkFILE (a ++ enc_header h ++ b) [] (length a + 4) (length a + 4)
                   (w_bufsz w) (w_cap w))) as (f' & E & _).
  { done. }
  { unfold rest; cbn [f_pos f_disk]. rewrite drop_app_add. unfold enc_header.
    rewrite <- app_assoc. rewrite drop_app_length' by (by rewrite length_le).
    rewrite <- app_assoc. reflexivity. }
  unfold mbind, IO_bind. rewrite E, length_enc_header by done. cbn [fst mret IO_ret]. f_equal. lia.
Qed.

Definition sample_header : tpb_meta_header :=
  mkHeader 3096 1 16 0x83a 0 0 ($"ntest" ++ replicate 251 0) (replicate 256 0)
    (replicate 2048 0) (2 :: replicate 6 0) (($"n" ++ replicate 63 0) :: replicate 6 (replicate 64 0)).

Lemma sample_header_ok : header_ok sample_header.
Proof.
  split; unfold is_word;
    try (match goal with |- _ ∧ Forall _ _ => fail 1 | |- _ ∧ _ => idtac end;
         vm_compute; split; congruence).
  1-3: vm_compute; reflexivity.
  - split; [reflexivity|]. repeat constructor; vm_compute; congruence.
  - split; [reflexivity|]. repeat constructor.
Qed.

Lemma hdr_serialized_len_correct_witness :
  fst (_tpb_raf_l1_hdr_serialized_len_at (Z.of_nat (length [1; 2; 3]))
         (open_on ([1; 2; 3] ++ enc_header sample_header ++ [9])
            (mkWorld ∅ (λ _, true) 10 0 (λ _, true))))
  = Ok (Z.of_nat (length (enc_header sample_header))).
Proof. apply hdr_serialized_len_correct, sample_header_ok. Defined.

(** C35: the span of a header's data never leaves the blob, even when the sum of
    the preceding sizes wraps around 64 bits; when the blocks fit, the span is
    exactly the bytes after all preceding blocks; and when they do not, the call
    is refused.  There is no undefined behaviour for an index in range. *)
Theorem header_data_ptr_in_bounds hs d idx h :
  Forall (λ h, is_u64 (h_data_size h)) hs → hs !! idx = Some h →
  is_u64 (Z.of_nat (length d)) →
  let r := tpb_raf_header_data_ptr (Some hs) (Z.of_nat (length hs)) (Some d)
             (Z.of_nat (length d)) (Z.of_nat idx) true in
  (∀ o n, r = Ok (Some o, n) → 0 ≤ o ∧ o + n ≤ Z.of_nat (length d) ∧ n = h_data_size h)
  ∧ (data_before hs idx + h_data_size h ≤ Z.of_nat (length d) →
       r = Ok (Some (data_before hs idx), h_data_size h))
  ∧ (Z.of_nat (length d) < data_before hs idx + h_data_size h →
       data_before hs idx < 2 ^ 64 →
       r = Err (TPBE_MAKE TPB_MOD_RAF_MISC TPBE_FILE_IO_FAIL))
  ∧ r ≠ UB.
Proof.
  intros Hall Hidx Hd r. unfold r, tpb_raf_header_data_ptr. clear r.
  pose proof (lookup_lt_Some _ _ _ Hidx) as Hlt. rewrite Nat2Z.id, Hidx.
  destruct (Z.leb_spec (Z.of_nat (length hs)) (Z.of_nat idx)); [lia|].
  rewrite header_offset_wrap. pose proof (data_before_nonneg hs idx Hall) as Hnn.
  pose proof (Forall_lookup_1 _ _ _ _ Hall Hidx) as Hh. cbn in Hh.
  pose proof (is_word_wrap 64 (data_before hs idx) ltac:(lia)) as Hw.
  pose proof (wrap_small 64 (data_before hs idx)) as Hsmall.
  unfold is_word in *.
  destruct (Z.ltb_spec (Z.of_nat (length d)) (wrap64 (data_before hs idx)));
    destruct (Z.ltb_spec (Z.of_nat (length d) - wrap64 (data_before hs idx)) (h_data_size h));
    cbn [orb]; split_and!; try done; try (intros; rewrite Hsmall in * by lia; (done || lia)).
  intros o n [= <- <-]. lia.
Qed.

Lemma header_data_ptr_in_bounds_witness :
  tpb_raf_header_data_ptr (Some [sample_header; sample_header]) 2 (Some (replicate 32 5)) 32 1 true
  = Ok (Some 16, 16).
Proof.
  refine (proj1 (proj2 (header_data_ptr_in_bounds [sample_header; sample_header]
            (replicate 32 5) 1 sample_header _ _ _)) _);
    [repeat constructor; vm_compute; congruence|reflexivity
    |vm_compute; split; congruence|vm_compute; congruence].
Defined.
