(* ===== verification/RafEntry.v ===== *)
(** * Record database, layer 1: the entry registries

    [src/corelib/rafdb/rafdb-l1-entry.c]: a [.tpbe] file is a start magic, fixed
    size rows, and an end magic.  [_tpb_raf_l1_entry_append] adds a row in place
    under an exclusive [flock]; [_tpb_raf_l1_entry_list] reads all the rows. *)

From S2P Require Import Prelude Errors CLib FileIO RafBase.
From stdpp Require Import options.

Definition raf_l1_io_fail : Z := TPBE_MAKE TPB_MOD_RAF_L1 TPBE_FILE_IO_FAIL.

Definition entry_magic (domain pos : Z) : bytes :=
  tpb_raf_build_magic TPB_RAF_FTYPE_ENTRY domain pos.

(** [fread] of a magic followed by its validation. *)
Definition expect_entry_magic (domain pos : Z) : IO unit :=
  magic ← io_else raf_l1_io_fail (fread TPB_RAF_MAGIC_LEN);
  if tpb_raf_validate_magic magic TPB_RAF_FTYPE_ENTRY domain pos then mret tt
  else io_throw raf_l1_io_fail.

(** The writes of [_tpb_raf_l1_entry_append] on the open stream, [st_size] being
    the size [fstat] reported. *)
Definition entry_append_body (domain : Z) (entry : bytes) (st_size : Z) : IO unit :=
  if st_size =? 0 then
    fwrite (entry_magic domain TPB_RAF_POS_START);;
    fwrite entry;;
    fwrite (entry_magic domain TPB_RAF_POS_END)
  else if st_size <? 2 * Z.of_nat TPB_RAF_MAGIC_LEN then io_fail
  else
    fseek_set (st_size - Z.of_nat TPB_RAF_MAGIC_LEN);;
    expect_entry_magic domain TPB_RAF_POS_END;;
    fseek_set (st_size - Z.of_nat TPB_RAF_MAGIC_LEN);;
    fwrite entry;;
    fwrite (entry_magic domain TPB_RAF_POS_END).

(** The answers of [flock], [fdopen] and [fstat] on the descriptor. *)
Record fd_env := mkFdEnv { flock_ok : bool; fdopen_ok : bool; fstat_ok : bool }.
Definition fd_works : fd_env := mkFdEnv true true true.

(** [open(fpath, O_RDWR | O_CREAT)] leaves an empty file where there was none. *)
Definition _tpb_raf_l1_entry_append (env : fd_env) (workspace : bytes) (domain : Z)
  (entry : bytes) (w : world) : outcome unit * world :=
  let io_err := TPB_FAIL TPB_MOD_RAF_L1 TPBE_FILE_IO_FAIL in
  let fpath := _tpb_raf_l1_build_entry_path workspace domain TPB_RAF_PATH_MAX in
  if negb (w_can_write w fpath) then (io_err, w)
  else
    let d := default [] (w_files w !! fpath) in
    let w0 := set_file fpath d w in
    if negb (flock_ok env) then (io_err, w0)
    else if negb (fdopen_ok env) then (io_err, w0)
    else if negb (fstat_ok env) then (io_err, w0)
    else
      let '(r, fp) := entry_append_body domain entry (Z.of_nat (length d)) (open_on d w0) in
      let '(closed, d') := fclose fp in
      (match r with
       | Ok tt => if closed then Ok tt else io_err
       | Err _ => io_err
       | UB => UB
       end, set_file fpath d' w0).

(** The part of [_tpb_raf_l1_entry_list] on the open stream, for [n] rows (an
    [int]): the buffer delivered ([None] for NULL) and the row count. *)
Definition entry_list_body (alloc : Z → bool) (domain n entry_size : Z)
  : IO (option bytes * Z) :=
  expect_entry_magic domain TPB_RAF_POS_START;;
  if n =? 0 then mret (None, 0)
  else if negb (alloc (wrap64 (wrap64 n * entry_size)))
  then io_throw (TPBE_MAKE TPB_MOD_RAF_L1 TPBE_MALLOC_FAIL)
  else
    buf ← io_else raf_l1_io_fail (fread (Z.to_nat (wrap64 n * entry_size)));
    expect_entry_magic domain TPB_RAF_POS_END;;
    mret (Some buf, n).

Definition _tpb_raf_l1_entry_list (workspace : bytes) (domain entry_size : Z) (w : world)
  : outcome (option bytes * Z) :=
  let io_err := TPB_FAIL TPB_MOD_RAF_L1 TPBE_FILE_IO_FAIL in
  let fpath := _tpb_raf_l1_build_entry_path workspace domain TPB_RAF_PATH_MAX in
  match w_files w !! fpath with
  | None => Ok (None, 0)
  | Some d =>
      let fsize := Z.of_nat (length d) in
      if fsize <? 2 * Z.of_nat TPB_RAF_MAGIC_LEN then io_err
      else
        let data_size := fsize - 2 * Z.of_nat TPB_RAF_MAGIC_LEN in
        if (data_size <? 0) || negb (Z.rem data_size entry_size =? 0) then io_err
        else
          let n := swrap 32 (Z.quot data_size entry_size) in
          match fopen_rb fpath w with
          | None => io_err
          | Some fp => fst (entry_list_body (w_malloc w) domain n entry_size fp)
          end
  end.

(** ** The registry as a list of rows *)

(** The file that holds [rows]. *)
Definition entry_file (domain : Z) (rows : list bytes) : bytes :=
  entry_magic domain TPB_RAF_POS_START ++ concat rows ++ entry_magic domain TPB_RAF_POS_END.

(** The registry at [p] holds [rows]: no file, an empty file, or a complete one. *)
Definition registry (w : world) (p : bytes) (domain : Z) (rows : list bytes) : Prop :=
  (rows = [] ∧ default [] (w_files w !! p) = []) ∨ w_files w !! p = Some (entry_file domain rows).

Definition rows_of (entry_size : Z) (rows : list bytes) : Prop :=
  Forall (λ r, Z.of_nat (length r) = entry_size) rows.

(** What a client sees of a list of rows. *)
Definition listed (rows : list bytes) : option bytes * Z :=
  (match rows with [] => None | _ => Some (concat rows) end, Z.of_nat (length rows)).

Lemma length_rows es rows :
  rows_of es rows → Z.of_nat (length (concat rows)) = es * Z.of_nat (length rows).
Proof.
  induction 1 as [|r rows Hr _ IH]; cbn [concat length]; [lia|].
  rewrite length_app. lia.
Qed.

Lemma decodes_expect_entry_magic domain pos :
  decodes (expect_entry_magic domain pos) (entry_magic domain pos) tt.
Proof.
  rewrite <- (app_nil_r (entry_magic _ _)). unfold expect_entry_magic.
  eapply decodes_bind; [by apply decodes_else, decodes_fread|].
  unfold entry_magic. rewrite validate_build. apply decodes_ret.
Qed.


(** Reading rows delimited by magics, whatever the last eight bytes are: they
    decide whether the rows are delivered. *)
Lemma entry_list_body_run alloc domain es rows tail w :
  rows_of es rows → length tail = 8%nat → 0 < es → es * Z.of_nat (length rows) < 2 ^ 63 →
  fst (entry_list_body alloc domain (Z.of_nat (length rows)) es
         (open_on (entry_magic domain TPB_RAF_POS_START ++ concat rows ++ tail) w))
  = if decide (rows = []) then Ok (None, 0)
    else if alloc (es * Z.of_nat (length rows)) then
      if tpb_raf_validate_magic tail TPB_RAF_FTYPE_ENTRY domain TPB_RAF_POS_END
      then Ok (listed rows) else Err raf_l1_io_fail
    else Err (TPBE_MAKE TPB_MOD_RAF_L1 TPBE_MALLOC_FAIL).
Proof.
  intros Hrows Htail Hes Hsz. pose proof (length_rows es rows Hrows) as Hlen.
  unfold entry_list_body.
  destruct (decodes_step _ _ _ (open_on (entry_magic domain TPB_RAF_POS_START ++ concat rows ++ tail) w)
    _ (decodes_expect_entry_magic domain TPB_RAF_POS_START) eq_refl eq_refl)
    as (f1 & (Hf1 & _) & Hr1 & E). rewrite E. clear E.
  destruct (decide (rows = [])) as [->|Hne]; [done|].
  destruct (Z.eqb_spec (Z.of_nat (length rows)) 0) as [E0|_];
    [destruct rows; [done|cbn in E0; lia]|].
  rewrite (wrap_small 64 (Z.of_nat _)), wrap_small, (Z.mul_comm _ es) by (unfold is_word; nia).
  destruct (alloc _); [cbn [negb]|done].
  destruct (decodes_step _ _ _ f1 tail
    (decodes_else raf_l1_io_fail _ _ _ (decodes_fread (Z.to_nat (es * Z.of_nat (length rows)))
       (concat rows) ltac:(lia))) Hf1 Hr1) as (f2 & (Hf2 & _) & Hr2 & E).
  rewrite E. clear E. unfold expect_entry_magic.
  rewrite <- (app_nil_r tail) in Hr2.
  destruct (decodes_step _ _ _ f2 [] (decodes_else raf_l1_io_fail _ _ _
    (decodes_fread TPB_RAF_MAGIC_LEN tail Htail)) Hf2 Hr2) as (f3 & _ & _ & E).
  rewrite io_bind_assoc, E.
  destruct (tpb_raf_validate_magic _ _ _ _); [|done].
  by destruct rows.
Qed.

Section Listing.
Context (ws : bytes) (domain es : Z) (w : world).
Let p := _tpb_raf_l1_build_entry_path ws domain TPB_RAF_PATH_MAX.
Context (Hes : 0 < es).

(** The sizes a listing handles: an [int] number of rows. *)
Definition listable (rows : list bytes) : Prop :=
  rows_of es rows ∧ Z.of_nat (length rows) < 2 ^ 31 ∧ es * Z.of_nat (length rows) < 2 ^ 63.

Lemma entry_list_shape rows tail :
  listable rows → length tail = 8%nat →
  w_files w !! p = Some (entry_magic domain TPB_RAF_POS_START ++ concat rows ++ tail) →
  _tpb_raf_l1_entry_list ws domain es w
  = fst (entry_list_body (w_malloc w) domain (Z.of_nat (length rows)) es
       (open_on (entry_magic domain TPB_RAF_POS_START ++ concat rows ++ tail) w)).
Proof using Type*.
  intros (Hrows & Hn & Hsz) Htail Hp. pose proof (length_rows es rows Hrows) as Hlen.
  unfold _tpb_raf_l1_entry_list. fold p. unfold fopen_rb. rewrite Hp. cbn [mbind option_bind].
  assert (Hfl : Z.of_nat (length (entry_magic domain TPB_RAF_POS_START ++ concat rows ++ tail))
                = 16 + Z.of_nat (length rows) * es).
  { rewrite !length_app. cbn [length entry_magic tpb_raf_build_magic]. lia. }
  rewrite Hfl. change (2 * Z.of_nat TPB_RAF_MAGIC_LEN) with 16.
  replace (16 + Z.of_nat (length rows) * es - 16) with (Z.of_nat (length rows) * es) by lia.
  rewrite Z.rem_mul, Z.quot_mul, (swrap_small 32) by lia. cbn [Z.eqb negb].
  destruct (Z.ltb_spec (16 + Z.of_nat (length rows) * es) 16); [lia|].
  destruct (Z.ltb_spec (Z.of_nat (length rows) * es) 0); [lia|done].
Qed.

Lemma entry_list_file rows :
  listable rows → w_files w !! p = Some (entry_file domain rows) →
  (rows ≠ [] → w_malloc w (es * Z.of_nat (length rows)) = true) →
  _tpb_raf_l1_entry_list ws domain es w = Ok (listed rows).
Proof using Type*.
  intros Hl Hp Hal. rewrite (entry_list_shape rows (entry_magic domain TPB_RAF_POS_END) Hl eq_refl Hp).
  destruct Hl as (Hrows & _ & Hsz). rewrite entry_list_body_run by done.
  unfold entry_magic. rewrite validate_build.
  destruct (decide (rows = [])) as [->|Hne]; [done|]. by rewrite Hal.
Qed.

(** A file that ends inside the last row or the end magic that follows it. *)
Lemma entry_list_torn rows e c :
  listable rows → Z.of_nat (length e) = es →
  (length (entry_file domain rows) ≤ c ∨ rows = [])%nat →
  (c < length (entry_file domain (rows ++ [e])))%nat →
  w_files w !! p = Some (take c (entry_file domain (rows ++ [e]))) →
  (∃ err, _tpb_raf_l1_entry_list ws domain es w = Err err)
  ∨ _tpb_raf_l1_entry_list ws domain es w = Ok (listed rows).
Proof using Type*.
  intros Hl He Hc Hc' Hp. pose proof Hl as (Hrows & Hn & Hsz).
  pose proof (length_rows es rows Hrows) as Hlen.
  assert (Hf : entry_file domain (rows ++ [e])
    = (entry_magic domain TPB_RAF_POS_START ++ concat rows)
      ++ e ++ entry_magic domain TPB_RAF_POS_END).
  { unfold entry_file. rewrite concat_app. cbn [concat]. by rewrite app_nil_r, <- !app_assoc. }
  assert (Hb : length (entry_magic domain TPB_RAF_POS_START ++ concat rows)
               = (8 + length (concat rows))%nat) by done.
  rewrite Hf in Hc', Hp. rewrite !length_app in Hc'. cbn [length entry_magic tpb_raf_build_magic] in Hc'.
  assert (Hc8 : (16 + length (concat rows) ≤ c ∨ rows = [])%nat).
  { destruct Hc as [Hc|]; [left|by right]. unfold entry_file in Hc.
    rewrite !length_app in Hc. cbn [length entry_magic tpb_raf_build_magic] in Hc. lia. }
  destruct (decide (c = 16 + length (concat rows))%nat) as [->|Hne].
  - rewrite take_app, take_ge in Hp by lia.
    rewrite (entry_list_shape rows (take (16 + length (concat rows) - (8 + length (concat rows)))
      (e ++ entry_magic domain TPB_RAF_POS_END)) Hl); [| |by rewrite Hp, Hb, <- app_assoc].
    + rewrite entry_list_body_run; try done.
      * destruct (decide (rows = [])) as [->|]; [by right|].
        destruct (w_malloc _ _); [|eauto]. destruct (tpb_raf_validate_magic _ _ _ _); eauto.
      * rewrite length_take, length_app. cbn [length entry_magic tpb_raf_build_magic]. lia.
    + rewrite length_take, length_app. cbn [length entry_magic tpb_raf_build_magic]. lia.
  - left. unfold _tpb_raf_l1_entry_list. fold p. rewrite Hp.
    rewrite length_take, !length_app, Nat.min_l
      by (cbn [length entry_magic tpb_raf_build_magic]; lia).
    change (2 * Z.of_nat TPB_RAF_MAGIC_LEN) with 16.
    destruct (Z.ltb_spec (Z.of_nat c) 16); [by eexists|].
    destruct (Z.ltb_spec (Z.of_nat c - 16) 0); [lia|]. cbn [orb].
    destruct (Z.eqb_spec (Z.rem (Z.of_nat c - 16) es) 0) as [E|]; [|by eexists].
    exfalso. apply Z.rem_divide in E as [q Hq]; [|lia].
    assert (0 < Z.of_nat (length rows) + 1 - q ∧ Z.of_nat (length rows) < q); [|lia].
    assert (es * Z.of_nat (length rows) < q * es < es * (Z.of_nat (length rows) + 1)); [|nia].
    destruct Hc8 as [Hc8| ->]; [lia|]. cbn [concat length] in *. lia.
Qed.
End Listing.

(** ** Appending *)

Lemma emits_append_fresh domain e :
  emits (entry_append_body domain e 0) (entry_file domain [e]) tt.
Proof.
  unfold entry_append_body, entry_file. cbn [Z.eqb concat]. rewrite app_nil_r.
  codec_emit. codec_emit. apply emits_fwrite.
Qed.

Definition append_tail (domain : Z) (e : bytes) : IO unit :=
  fwrite e;; fwrite (entry_magic domain TPB_RAF_POS_END).

Lemma emits_append_tail domain e :
  emits (append_tail domain e) (e ++ entry_magic domain TPB_RAF_POS_END) tt.
Proof. unfold append_tail. codec_emit. apply emits_fwrite. Qed.

(** On a complete registry the row goes over the end magic. *)
Lemma entry_append_body_seek domain rows e w :
  entry_append_body domain e (Z.of_nat (length (entry_file domain rows)))
    (open_on (entry_file domain rows) w)
  = append_tail domain e
      (mkFILE (entry_file domain rows) [] (8 + length (concat rows)) (8 + length (concat rows))
         (w_bufsz w) (w_cap w)).
Proof.
  assert (Hl : length (entry_file domain rows) = (16 + length (concat rows))%nat).
  { unfold entry_file. rewrite !length_app. cbn [length entry_magic tpb_raf_build_magic]. lia. }
  unfold entry_append_body. rewrite Hl.
  destruct (Z.eqb_spec (Z.of_nat (16 + length (concat rows))) 0); [lia|].
  destruct (Z.ltb_spec (Z.of_nat (16 + length (concat rows))) (2 * Z.of_nat TPB_RAF_MAGIC_LEN));
    [unfold TPB_RAF_MAGIC_LEN in *; lia|].
  replace (Z.of_nat (16 + length (concat rows)) - Z.of_nat TPB_RAF_MAGIC_LEN)
    with (Z.of_nat (8 + length (concat rows))) by (unfold TPB_RAF_MAGIC_LEN; lia).
  unfold mbind at 1, IO_bind at 1. rewrite fseek_set_clean by done. cbn [f_disk f_bufsz f_cap open_on].
  destruct (decodes_step _ _ _ (mkFILE (entry_file domain rows) [] (8 + length (concat rows))
    (8 + length (concat rows)) (w_bufsz w) (w_cap w)) []
    (decodes_expect_entry_magic domain TPB_RAF_POS_END)) as (f1 & (Hf1 & Hd1 & Hc1 & Hb1) & _ & E); [done| |].
  { unfold rest, entry_file; cbn [f_pos f_disk]. rewrite app_assoc, app_nil_r.
    by apply drop_app_length'. }
  rewrite E. unfold mbind at 1, IO_bind at 1. rewrite fseek_set_clean by done.
  cbn [f_disk f_bufsz f_cap] in *. by rewrite Hd1, Hc1, Hb1.
Qed.

Lemma entry_append_run domain rows e w p :
  let new := entry_file domain (rows ++ [e]) in
  registry w p domain rows → (length (default [] (w_files w !! p)) ≤ w_cap w)%nat →
  let d := default [] (w_files w !! p) in
  ∃ r fp, entry_append_body domain e (Z.of_nat (length d)) (open_on d w) = (r, fp)
    ∧ snd (fclose fp) = take (w_cap w) new
    ∧ (length new ≤ w_cap w → r = Ok tt ∧ fst (fclose fp) = true)%nat
    ∧ (w_cap w < length new → (r = Ok tt ∧ fst (fclose fp) = false) ∨ ∃ err, r = Err err)%nat.
Proof.
  intros new Hreg Hcap d.
  assert (Hnew : ∀ D o m bs, emits m bs tt → (o ≤ length D)%nat → (o ≤ w_cap w)%nat →
    overlay D o (take (w_cap w - o) bs) = take (w_cap w) new → (o + length bs = length new)%nat →
    ∃ r fp, m (mkFILE D [] o o (w_bufsz w) (w_cap w)) = (r, fp)
    ∧ snd (fclose fp) = take (w_cap w) new
    ∧ (length new ≤ w_cap w → r = Ok tt ∧ fst (fclose fp) = true)%nat
    ∧ (w_cap w < length new → (r = Ok tt ∧ fst (fclose fp) = false) ∨ ∃ err, r = Err err)%nat).
  { intros D o m bs Hm Ho Hc Hd Hl.
    destruct (emits_close m bs tt D o (mkFILE D [] o o (w_bufsz w) (w_cap w)) Hm)
      as (r & fp & E & Hdisk & Hfull & Hfit & Hr); try done.
    cbn [f_cap] in *. rewrite Hl in *. exists r, fp.
    split; [done|]. split; [by rewrite Hdisk|]. split; [done|].
    intros Hlt. destruct Hr as [->|]; [left|by right]. split; [done|].
    destruct (fst (fclose fp)); [|done]. specialize (Hfull eq_refl eq_refl). lia. }
  destruct Hreg as [[-> Hd]|Hfile].
  - unfold d in *. rewrite Hd in *. cbn [length Z.of_nat].
    eapply (Hnew [] 0%nat); [apply emits_append_fresh|done|lia| |done].
    rewrite overlay_0, drop_nil, app_nil_r, Nat.sub_0_r. done.
  - unfold d in *. rewrite Hfile in *. cbn [from_option id] in *. rewrite entry_append_body_seek.
    assert (Hn : new = (entry_magic domain TPB_RAF_POS_START ++ concat rows)
      ++ e ++ entry_magic domain TPB_RAF_POS_END).
    { unfold new, entry_file. rewrite concat_app. cbn [concat]. by rewrite app_nil_r, <- !app_assoc. }
    assert (Hb : length (entry_magic domain TPB_RAF_POS_START ++ concat rows)
                 = (8 + length (concat rows))%nat) by done.
    assert (Hlf : length (entry_file domain rows) = (16 + length (concat rows))%nat).
    { unfold entry_file. rewrite !length_app. cbn [length entry_magic tpb_raf_build_magic]. lia. }
    eapply Hnew; [apply emits_append_tail|lia|lia| |rewrite Hn, (length_app (_ ++ _)), Hb; done].
    rewrite Hn, (take_app (entry_magic _ _ ++ _)), (take_ge (entry_magic _ _ ++ _)), Hb
      by (rewrite Hb; lia).
    unfold entry_file. rewrite app_assoc. apply overlay_tail; [done|].
    rewrite length_take, length_app. cbn [length entry_magic tpb_raf_build_magic]. lia.
Qed.

(** ** Properties *)

Section Appending.
Context (ws : bytes) (domain es : Z) (w : world).
Let p := _tpb_raf_l1_build_entry_path ws domain TPB_RAF_PATH_MAX.

(** A registry of [rows] that fits the device and may be written. *)
Definition appendable (rows : list bytes) : Prop :=
  registry w p domain rows ∧ w_can_write w p = true
  ∧ (length (default [] (w_files w !! p)) ≤ w_cap w)%nat.

Lemma entry_append_eq rows e :
  appendable rows →
  _tpb_raf_l1_entry_append fd_works ws domain e w
  = (if decide (length (entry_file domain (rows ++ [e])) ≤ w_cap w)%nat
     then Ok tt else Err raf_l1_io_fail,
     set_file p (take (w_cap w) (entry_file domain (rows ++ [e]))) w).
Proof.
  intros (Hreg & Hcw & Hcap). unfold _tpb_raf_l1_entry_append. fold p. rewrite Hcw. cbn [negb].
  destruct (entry_append_run domain rows e w p Hreg Hcap) as (r & fp & E & Hd & Hfit & Hfull).
  cbn [flock_ok fdopen_ok fstat_ok fd_works negb].
  replace (open_on _ (set_file _ _ _)) with (open_on (default [] (w_files w !! p)) w) by done.
  rewrite E. destruct (fclose fp) as [closed d'] eqn:Ec. cbn [fst snd] in *. subst d'.
  rewrite set_file_twice. f_equal.
  destruct (decide (length (entry_file domain (rows ++ [e])) ≤ w_cap w)%nat) as [Hl|Hl].
  - by destruct (Hfit Hl) as [-> ->].
  - destruct Hfull as [[-> ->]|[err ->]]; [lia|done|done].
Qed.
End Appending.

(** Appending a row to a registry of [rows] leaves the registry of
    [rows ++ [e]] in the file, cut where the device is full, and touches no other
    file; the call succeeds exactly when the whole file was stored, and otherwise
    it reports [TPBE_FILE_IO_FAIL]. *)
Theorem entry_append_functional ws domain rows e w :
  let p := _tpb_raf_l1_build_entry_path ws domain TPB_RAF_PATH_MAX in
  let new := entry_file domain (rows ++ [e]) in
  appendable ws domain w rows →
  let '(r, w') := _tpb_raf_l1_entry_append fd_works ws domain e w in
  w_files w' = <[p := take (w_cap w) new]> (w_files w)
  ∧ (r = Ok tt ↔ w_files w' !! p = Some new)
  ∧ (r = Ok tt ∨ r = TPB_FAIL TPB_MOD_RAF_L1 TPBE_FILE_IO_FAIL).
Proof.
  intros p new Happ. rewrite (entry_append_eq ws domain w rows e Happ). fold p. fold new.
  cbn [w_files set_file]. rewrite lookup_insert_eq.
  destruct (decide (length new ≤ w_cap w)%nat) as [Hl|Hl].
  - split_and!; [done| |by left]. by rewrite take_ge.
  - split_and!; [done| |by right]. split; [done|]. intros [= E].
    apply (f_equal length) in E. rewrite length_take in E. lia.
Qed.

Definition demo_world : world := mkWorld ∅ (λ _, true) 100 16 (λ _, true).

Lemma entry_append_functional_witness :
  w_files (snd (_tpb_raf_l1_entry_append fd_works $"/w" TPB_RAF_DOM_TASK [1; 2] demo_world))
  = {[ _tpb_raf_l1_build_entry_path $"/w" TPB_RAF_DOM_TASK TPB_RAF_PATH_MAX
       := entry_file TPB_RAF_DOM_TASK [[1; 2]] ]}.
Proof.
  pose proof (entry_append_functional $"/w" TPB_RAF_DOM_TASK [] [1; 2] demo_world) as H.
  destruct (_tpb_raf_l1_entry_append _ _ _ _ _) as [r w']. destruct H as [H _].
  { split; [by left|]. split; [done|]. vm_compute. lia. }
  exact H.
Defined.

(** C4: an append is atomic for the clients that list the registry.  When it
    reports success they see the row after all the earlier ones; when it fails
    half-way (the device is full) they get an error or exactly the earlier rows,
    never a part of the new row. *)
Theorem entry_append_atomic ws domain es rows e w :
  0 < es → listable es (rows ++ [e]) → appendable ws domain w rows →
  (∀ n, w_malloc w n = true) →
  let '(r, w') := _tpb_raf_l1_entry_append fd_works ws domain e w in
  (r = Ok tt → _tpb_raf_l1_entry_list ws domain es w' = Ok (listed (rows ++ [e])))
  ∧ (r ≠ Ok tt → (∃ err, _tpb_raf_l1_entry_list ws domain es w' = Err err)
                 ∨ _tpb_raf_l1_entry_list ws domain es w' = Ok (listed rows)).
Proof.
  intros Hes Hl Happ Hal. rewrite (entry_append_eq ws domain w rows e Happ).
  pose proof Hl as (Hrows & Hn & Hsz). apply Forall_app in Hrows as [Hrows He].
  apply Forall_cons in He as [He _]. rewrite length_app in Hn, Hsz. cbn [length] in Hn, Hsz.
  set (new := entry_file domain (rows ++ [e])).
  destruct (decide (length new ≤ w_cap w)%nat) as [Hc|Hc]; split; try done; intros _.
  - apply entry_list_file; [done|done| |intros _; apply Hal].
    cbn [w_files set_file]. rewrite lookup_insert_eq. f_equal. by apply take_ge.
  - destruct Happ as (Hreg & _ & Hcap).
    apply (entry_list_torn ws domain es _ Hes rows e (w_cap w)); try done.
    + split_and!; [done|nia|nia].
    + destruct Hreg as [[-> _]|Hreg]; [by right|left]. by rewrite Hreg in Hcap.
    + fold new. lia.
    + cbn [w_files set_file]. by rewrite lookup_insert_eq.
Qed.

Lemma entry_append_atomic_witness :
  _tpb_raf_l1_entry_list $"/w" TPB_RAF_DOM_TASK 2
    (snd (_tpb_raf_l1_entry_append fd_works $"/w" TPB_RAF_DOM_TASK [1; 2] demo_world))
  = Ok (Some [1; 2], 1).
Proof.
  pose proof (entry_append_atomic $"/w" TPB_RAF_DOM_TASK 2 [] [1; 2] demo_world) as H.
  assert (fst (_tpb_raf_l1_entry_append fd_works $"/w" TPB_RAF_DOM_TASK [1; 2] demo_world) = Ok tt)
    as E by reflexivity.
  destruct (_tpb_raf_l1_entry_append _ _ _ _ _) as [r w']. destruct H as [H _]; [lia| | |done|].
  - split; [by repeat constructor|]. vm_compute. done.
  - split; [by left|]. split; [done|]. vm_compute. lia.
  - exact (H E).
Defined.

(** A run of appends by one or several processes: [flock] makes each of them one
    step. *)
Fixpoint append_all (ws : bytes) (domain : Z) (es : list bytes) (w : world) : outcome unit * world :=
  match es with
  | [] => (Ok tt, w)
  | e :: es' =>
      let '(r, w') := _tpb_raf_l1_entry_append fd_works ws domain e w in
      match r with Ok _ => append_all ws domain es' w' | _ => (r, w') end
  end.

Lemma append_all_registry ws domain new rows w :
  let p := _tpb_raf_l1_build_entry_path ws domain TPB_RAF_PATH_MAX in
  registry w p domain rows → w_can_write w p = true →
  (length (entry_file domain (rows ++ new)) ≤ w_cap w)%nat →
  ∃ w', append_all ws domain new w = (Ok tt, w') ∧ registry w' p domain (rows ++ new)
        ∧ w_malloc w' = w_malloc w.
Proof.
  intros p. revert rows w. induction new as [|e new IH]; intros rows w Hreg Hcw Hcap; cbn [append_all].
  { exists w. by rewrite app_nil_r. }
  assert (Hlen : ∀ a b, (length (entry_file domain a) ≤ length (entry_file domain (a ++ b)))%nat).
  { intros a b. unfold entry_file. rewrite concat_app, !length_app. lia. }
  assert (Hold : (length (default [] (w_files w !! p)) ≤ w_cap w)%nat).
  { pose proof (Hlen rows (e :: new)). destruct Hreg as [[_ ->]| ->];
      cbn [length from_option id]; lia. }
  assert (Happ : appendable ws domain w rows) by done.
  rewrite (entry_append_eq ws domain w rows e Happ). fold p.
  rewrite (cons_middle e rows new), app_assoc in Hcap. pose proof (Hlen (rows ++ [e]) new).
  destruct (decide _) as [Hl|Hl]; [|lia].
  destruct (IH (rows ++ [e]) (set_file p (take (w_cap w) (entry_file domain (rows ++ [e]))) w))
    as (w' & E & Hreg' & Hm); [|done|done|].
  { right. cbn [w_files set_file]. by rewrite lookup_insert_eq, take_ge. }
  exists w'. rewrite <- app_assoc in Hreg'. done.
Qed.

(** C3: a registry implements a list.  Starting from a workspace without the
    file, any sequence of appends that fits the device succeeds, and a listing
    then returns exactly the appended rows, in order, with their number. *)
Theorem registry_refines_list ws domain es new w :
  let p := _tpb_raf_l1_build_entry_path ws domain TPB_RAF_PATH_MAX in
  0 < es → listable es new → w_files w !! p = None → w_can_write w p = true →
  (length (entry_file domain new) ≤ w_cap w)%nat → (∀ n, w_malloc w n = true) →
  let '(r, w') := append_all ws domain new w in
  r = Ok tt ∧ _tpb_raf_l1_entry_list ws domain es w' = Ok (listed new).
Proof.
  intros p Hes Hl Hp Hcw Hcap Hal.
  destruct (decide (new = [])) as [->|Hne].
  { cbn [append_all]. split; [done|]. unfold _tpb_raf_l1_entry_list. fold p. by rewrite Hp. }
  destruct (append_all_registry ws domain new [] w) as (w' & -> & Hreg & Hm); try done.
  { left. split; [done|]. fold p. by rewrite Hp. }
  split; [done|]. cbn [app] in Hreg. destruct Hreg as [[-> Hd]|Hreg]; [done|].
  apply entry_list_file; [done|done|done|]. intros _. rewrite Hm. apply Hal.
Qed.

Lemma registry_refines_list_witness :
  _tpb_raf_l1_entry_list $"/w" TPB_RAF_DOM_TASK 2
    (snd (append_all $"/w" TPB_RAF_DOM_TASK [[1; 2]; [3; 4]; [5; 6]] demo_world))
  = Ok (Some [1; 2; 3; 4; 5; 6], 3).
Proof.
  pose proof (registry_refines_list $"/w" TPB_RAF_DOM_TASK 2 [[1; 2]; [3; 4]; [5; 6]] demo_world) as H.
  destruct (append_all _ _ _ _) as [r w']. destruct H as [_ H]; try done.
  - split; [by repeat constructor|]. vm_compute. done.
  - vm_compute. lia.
Defined.
