(* ===== verification/RafIds.v ===== *)
(** * Record database, layer 2: record identifiers

    [tpb_raf_gen_tbatch_id] ([rafdb-l2-tbatch.c]), [tpb_raf_gen_kernel_id]
    ([rafdb-l2-kernel.c]), [tpb_raf_gen_task_id] and [tpb_raf_gen_taskcapsule_id]
    ([rafdb-l2-task.c]): an identifier is the SHA-1 digest of a concatenation of
    fields.  Pointer arguments are options, [None] standing for NULL. *)

From S2P Require Import Prelude Errors CLib FileIO Sha1 RafBase.
From stdpp Require Import options.

(** [len = snprintf(numbuf, sizeof(numbuf), "%lu", v);
    tpb_sha1_update(&ctx, numbuf, len)] with [char numbuf[32]]. *)
Definition sha1_update_num (ctx : tpb_sha1_ctx) (v : Z) : tpb_sha1_ctx :=
  let numbuf := snprintf_s 32 (fmt_u v) in
  let len := length (fmt_u v) in
  tpb_sha1_update ctx (take len numbuf).

Definition tpb_raf_gen_tbatch_id (utc_bits btime : Z) (hostname username : option bytes)
  (front_pid : Z) (id_out : bool) : outcome bytes :=
  match hostname, username, id_out with
  | Some host, Some user, true =>
      let ctx := tpb_sha1_init in
      let ctx := tpb_sha1_update ctx $"tbatch" in
      let ctx := sha1_update_num ctx utc_bits in
      let ctx := sha1_update_num ctx btime in
      let ctx := tpb_sha1_update ctx host in
      let ctx := tpb_sha1_update ctx user in
      let ctx := sha1_update_num ctx front_pid in
      Ok (tpb_sha1_final ctx)
  | _, _, _ => TPB_FAIL TPB_MOD_RAF_L2_TBATCH TPBE_NULLPTR_ARG
  end.

Definition tpb_raf_gen_task_id (utc_bits btime : Z) (hostname username : option bytes)
  (tbatch_id kernel_id : option bytes) (hdl_id pid tid : Z) (id_out : bool) : outcome bytes :=
  match hostname, username, tbatch_id, kernel_id, id_out with
  | Some host, Some user, Some tb, Some k, true =>
      let ctx := tpb_sha1_init in
      let ctx := tpb_sha1_update ctx $"task" in
      let ctx := sha1_update_num ctx utc_bits in
      let ctx := sha1_update_num ctx btime in
      let ctx := tpb_sha1_update ctx host in
      let ctx := tpb_sha1_update ctx user in
      let ctx := tpb_sha1_update ctx tb in
      let ctx := tpb_sha1_update ctx k in
      let ctx := sha1_update_num ctx hdl_id in
      let ctx := sha1_update_num ctx pid in
      let ctx := sha1_update_num ctx tid in
      Ok (tpb_sha1_final ctx)
  | _, _, _, _, _ => TPB_FAIL TPB_MOD_RAF_L2_TASK TPBE_NULLPTR_ARG
  end.

(** The literal is hashed with the length 12, which takes its final NUL in. *)
Definition tpb_raf_gen_taskcapsule_id (utc_bits btime : Z) (hostname username : option bytes)
  (tbatch_id kernel_id : option bytes) (hdl_id pid tid : Z) (id_out : bool) : outcome bytes :=
  match hostname, username, tbatch_id, kernel_id, id_out with
  | Some host, Some user, Some tb, Some k, true =>
      let ctx := tpb_sha1_init in
      let ctx := tpb_sha1_update ctx (take 12 ($"taskcapsule" ++ [0])) in
      let ctx := sha1_update_num ctx utc_bits in
      let ctx := sha1_update_num ctx btime in
      let ctx := tpb_sha1_update ctx host in
      let ctx := tpb_sha1_update ctx user in
      let ctx := tpb_sha1_update ctx tb in
      let ctx := tpb_sha1_update ctx k in
      let ctx := sha1_update_num ctx hdl_id in
      let ctx := sha1_update_num ctx pid in
      let ctx := sha1_update_num ctx tid in
      Ok (tpb_sha1_final ctx)
  | _, _, _, _, _ => TPB_FAIL TPB_MOD_RAF_L2_TASK TPBE_NULLPTR_ARG
  end.

(** A kernel is identified by the digest of its executable. *)
Definition tpb_raf_gen_kernel_id (tpbx_sha1 : option bytes) (id_out : bool) : outcome bytes :=
  match tpbx_sha1, id_out with
  | Some sha, true => Ok (take 20 sha)
  | _, _ => TPB_FAIL TPB_MOD_RAF_L2_KERNEL TPBE_NULLPTR_ARG
  end.

(** ** Pre-images *)

Definition tbatch_preimage (utc_bits btime : Z) (host user : bytes) (front_pid : Z) : bytes :=
  $"tbatch" ++ fmt_u utc_bits ++ fmt_u btime ++ host ++ user ++ fmt_u front_pid.

Definition task_preimage (lit : bytes) (utc_bits btime : Z) (host user tb k : bytes)
  (hdl_id pid tid : Z) : bytes :=
  lit ++ fmt_u utc_bits ++ fmt_u btime ++ host ++ user ++ tb ++ k
  ++ fmt_u hdl_id ++ fmt_u pid ++ fmt_u tid.

Lemma digits_bytes s : Forall (λ c, isdigit c = true) s → Forall is_byte s.
Proof.
  intros H. eapply Forall_impl; [exact H|]. intros c Hc. unfold isdigit, is_byte in *. cbn in Hc. lia.
Qed.

Lemma fmt_u_bytes v : 0 ≤ v → Forall is_byte (fmt_u v).
Proof. intros Hv. destruct (fmt_u_spec v Hv) as (_ & Hd & _). by apply digits_bytes. Qed.

(** Conversion must not run the hash on symbolic input. *)
#[local] Opaque tpb_sha1_update tpb_sha1_final Rfc3174.sha1.

Lemma sha1_update_num_eq ctx v :
  is_u64 v → sha1_update_num ctx v = tpb_sha1_update ctx (fmt_u v).
Proof.
  intros Hv. unfold sha1_update_num, snprintf_s. f_equal.
  assert (Hl : (length (fmt_u v) ≤ 20)%nat).
  { apply dec_fuel_length; [|lia]. unfold is_word in Hv. lia. }
  by rewrite take_take, take_ge by lia.
Qed.

(** The digest of what was fed to the context piece by piece. *)
Lemma sha1_pieces pieces :
  Forall (Forall is_byte) pieces →
  tpb_sha1_final (foldl tpb_sha1_update tpb_sha1_init pieces) = Rfc3174.sha1 (concat pieces).
Proof.
  intros H. apply Forall_concat in H.
  apply sha1_final_spec; [|done]. apply (update_all_rep _ _ [] rep_init).
Qed.

Lemma pieces_cons (x : bytes) l :
  Forall is_byte x → Forall (Forall is_byte) l → Forall (Forall is_byte) (x :: l).
Proof. by constructor. Qed.
Lemma pieces_nil : Forall (Forall is_byte) [].
Proof. constructor. Qed.

(** The ranges of the C argument types. *)
Record id_fields_ok (utc_bits btime : Z) (host user : bytes) : Prop := {
  idf_utc : is_u64 utc_bits;
  idf_btime : is_u64 btime;
  idf_host : Forall is_byte host;
  idf_user : Forall is_byte user;
}.

Lemma u32_u64 v : is_u32 v → is_u64 v.
Proof. unfold is_word. lia. Qed.

Lemma u64_bytes v : is_u64 v → Forall is_byte (fmt_u v).
Proof. intros [? _]. by apply fmt_u_bytes. Qed.

#[local] Hint Resolve pieces_cons pieces_nil u32_u64 u64_bytes : tpb.

Lemma gen_tbatch_id_eq utc btime host user pid :
  id_fields_ok utc btime host user → is_u32 pid →
  tpb_raf_gen_tbatch_id utc btime (Some host) (Some user) pid true
  = Ok (Rfc3174.sha1 (tbatch_preimage utc btime host user pid)).
Proof.
  intros [Hu Hb Hh Hus] Hpid. unfold tpb_raf_gen_tbatch_id. cbv zeta.
  rewrite !sha1_update_num_eq by auto with tpb. f_equal.
  pose proof (sha1_pieces
    [ $"tbatch"; fmt_u utc; fmt_u btime; host; user; fmt_u pid ]) as H.
  cbn [foldl concat] in H. rewrite app_nil_r in H. unfold tbatch_preimage.
  apply H. auto 20 with tpb.
Qed.

Lemma gen_task_id_eq utc btime host user tb k hdl pid tid :
  id_fields_ok utc btime host user → Forall is_byte tb → Forall is_byte k →
  is_u32 hdl → is_u32 pid → is_u32 tid →
  tpb_raf_gen_task_id utc btime (Some host) (Some user) (Some tb) (Some k) hdl pid tid true
  = Ok (Rfc3174.sha1 (task_preimage $"task" utc btime host user tb k hdl pid tid)).
Proof.
  intros [Hu Hb Hh Hus] Htb Hk Hhdl Hpid Htid. unfold tpb_raf_gen_task_id. cbv zeta.
  rewrite !sha1_update_num_eq by auto with tpb. f_equal.
  pose proof (sha1_pieces
    [ $"task"; fmt_u utc; fmt_u btime; host; user; tb; k; fmt_u hdl; fmt_u pid; fmt_u tid ]) as H.
  cbn [foldl concat] in H. rewrite app_nil_r in H. unfold task_preimage.
  apply H. auto 20 with tpb.
Qed.

Lemma gen_taskcapsule_id_eq utc btime host user tb k hdl pid tid :
  id_fields_ok utc btime host user → Forall is_byte tb → Forall is_byte k →
  is_u32 hdl → is_u32 pid → is_u32 tid →
  tpb_raf_gen_taskcapsule_id utc btime (Some host) (Some user) (Some tb) (Some k) hdl pid tid true
  = Ok (Rfc3174.sha1
          (task_preimage ($"taskcapsule" ++ [0]) utc btime host user tb k hdl pid tid)).
Proof.
  intros [Hu Hb Hh Hus] Htb Hk Hhdl Hpid Htid. unfold tpb_raf_gen_taskcapsule_id. cbv zeta.
  rewrite !sha1_update_num_eq by auto with tpb.
  set (lit := take 12 ($"taskcapsule" ++ [0])).
  assert (Hlit : $"taskcapsule" ++ [0] = lit) by reflexivity. rewrite Hlit.
  assert (Hlb : Forall is_byte lit) by (apply Forall_take; rewrite Hlit; by repeat constructor).
  clearbody lit. clear Hlit. f_equal.
  pose proof (sha1_pieces
    [ lit; fmt_u utc; fmt_u btime; host; user; tb; k; fmt_u hdl; fmt_u pid; fmt_u tid ]) as H.
  cbn [foldl concat] in H. rewrite app_nil_r in H. unfold task_preimage.
  apply H. auto 20 with tpb.
Qed.

(** ** Properties *)


