(* ===== verification/RafRecord.v ===== *)
(** * Record database, layer 2: the interface of the record formats

    Task, task-batch and kernel records are written and read by functions of the
    same shape: build the path from the identifier, open the file, run a
    sequential writer or reader, close it.  [RecordFormat] states what a domain
    owes to the operations that use it: the bytes its writer emits, and that its
    reader accepts exactly those bytes.  The lemmas below are proved against the
    interface; [RafTask], [RafTbatch] and [RafKernel] discharge it. *)

From S2P Require Import Prelude Errors CLib FileIO RafBase RafHeader.
From stdpp Require Import options.

Class RecordFormat (A : Type) := {
  rec_domain : Z;
  rec_id : A → bytes;
  (** the statements between [fopen] and [fclose] *)
  rec_write : A → option bytes → Z → IO unit;
  rec_read : (Z → bool) → bool → IO (A * option bytes * Z);
  (** the format *)
  rec_ok : A → Prop;
  rec_alloc : (Z → bool) → A → Prop;
  rec_enc : A → bytes → bytes;
  rec_stored : A → A;
  rec_emits a data ds :
    rec_ok a → data_ok data ds →
    emits (rec_write a data ds) (rec_enc a (default [] data)) tt;
  rec_decodes alloc want a d :
    rec_ok a → rec_alloc alloc a → Z.of_nat (length d) < 2 ^ 63 →
    (want = true → 0 < Z.of_nat (length d) → alloc (Z.of_nat (length d)) = true) →
    decodes (rec_read alloc want) (rec_enc a d)
            (rec_stored a, delivered want d, Z.of_nat (length d));
}.

(** [fopen(path, "wb")], the writer, [fclose]; any failure becomes [e]. *)
Definition write_record (e : outcome unit) (path : bytes) (body : IO unit) (w : world)
  : outcome unit * world :=
  match fopen_wb path w with
  | None => (e, w)
  | Some fp => run_close path e body fp w
  end.

(** [fopen(path, "rb")], the reader, [fclose]; any failure becomes [e]. *)
Definition read_record {A} (e : outcome A) (path : bytes) (body : IO A) (w : world)
  : outcome A :=
  match fopen_rb path w with
  | None => e
  | Some fp => match fst (body fp) with Err _ => e | r => r end
  end.

(** The writers and readers start alike. *)
Definition write_prefix (domain metasize datasize : Z) : IO unit :=
  fwrite (tpb_raf_build_magic TPB_RAF_FTYPE_RECORD domain TPB_RAF_POS_START);;
  _tpb_raf_l1_write_u64 metasize;;
  _tpb_raf_l1_write_u64 datasize.

Definition enc_prefix (domain metasize datasize : Z) : bytes :=
  tpb_raf_build_magic TPB_RAF_FTYPE_RECORD domain TPB_RAF_POS_START
  ++ le 8 metasize ++ le 8 datasize.

Definition read_prefix (domain : Z) : IO (Z * Z) :=
  expect_magic domain TPB_RAF_POS_START;;
  metasize ← _tpb_raf_l1_read_u64;
  ds ← _tpb_raf_l1_read_u64;
  mret (metasize, ds).

(** The headers of an attribute structure: none are touched when [nheader] is 0. *)
Definition write_attr_headers (nheader : Z) (headers : list tpb_meta_header) : IO unit :=
  if 0 <? nheader then _tpb_raf_l1_write_headers headers nheader else mret tt.
Definition read_attr_headers (alloc : Z → bool) (nheader : Z) : IO (list tpb_meta_header) :=
  if 0 <? nheader then _tpb_raf_l1_read_headers alloc nheader else mret [].

(** The reserved bytes after the fixed fields. *)
Definition write_reserve (n : nat) : IO unit := fwrite (replicate n 0).
Definition read_reserve (n : nat) : IO unit := fread n;; mret tt.

Record headers_ok (nheader : Z) (hs : list tpb_meta_header) : Prop := {
  hs_count : nheader = Z.of_nat (length hs);
  hs_u32 : is_u32 nheader;
  hs_all : Forall header_ok hs;
}.

Definition headers_alloc (alloc : Z → bool) (nheader : Z) : Prop :=
  nheader ≠ 0 → alloc (nheader * sizeof_header) = true.

(** The [metasize] field: 32-bit product, 64-bit sum. *)
Definition metasize_of (fixed nheader : Z) : Z :=
  fixed + wrap32 (nheader * TPB_RAF_HDR_FIXED_SIZE).

Lemma metasize_u64 fixed n : 0 ≤ fixed < 2 ^ 32 → is_u64 (metasize_of fixed n).
Proof.
  intros Hf. unfold metasize_of, is_word.
  pose proof (is_word_wrap 32 (n * TPB_RAF_HDR_FIXED_SIZE) ltac:(lia)) as Hw.
  unfold is_word in Hw. lia.
Qed.

(** ** Emitting and decoding the shared parts *)

Lemma emits_prefix domain ms ds :
  emits (write_prefix domain ms ds) (enc_prefix domain ms ds) tt.
Proof. unfold write_prefix, enc_prefix. do 2 codec_emit. apply emits_write_u64. Qed.

Lemma decodes_prefix domain ms ds :
  is_u64 ms → is_u64 ds → decodes (read_prefix domain) (enc_prefix domain ms ds) (ms, ds).
Proof.
  intros Hms Hds. unfold read_prefix, enc_prefix. do 2 codec_decode.
  rewrite <- (app_nil_r (le 8 ds)). codec_decode. apply decodes_ret.
Qed.

Lemma emits_attr_headers n hs :
  headers_ok n hs → emits (write_attr_headers n hs) (enc_headers hs) tt.
Proof.
  intros [Hn _ Hall]. unfold write_attr_headers. destruct (Z.ltb_spec 0 n).
  - by apply emits_write_headers.
  - destruct hs; [apply emits_ret|cbn in Hn; lia].
Qed.

Lemma decodes_attr_headers alloc n hs :
  headers_ok n hs → headers_alloc alloc n →
  decodes (read_attr_headers alloc n) (enc_headers hs) (map stored_header hs).
Proof.
  intros [Hn _ Hall] Hal. unfold read_attr_headers. destruct (Z.ltb_spec 0 n).
  - by apply decodes_read_headers.
  - destruct hs; [apply decodes_ret|cbn in Hn; lia].
Qed.

Lemma emits_reserve n : emits (write_reserve n) (replicate n 0) tt.
Proof. apply emits_fwrite. Qed.

Lemma decodes_reserve n : decodes (read_reserve n) (replicate n 0) tt.
Proof.
  unfold read_reserve. rewrite <- (app_nil_r (replicate n 0)).
  eapply decodes_bind; [apply decodes_fread, length_replicate|apply decodes_ret].
Qed.

#[export] Hint Resolve emits_prefix decodes_prefix emits_attr_headers decodes_attr_headers
  emits_reserve decodes_reserve decodes_read_tail : codec.

(** ** What the interface gives *)

Section Format.
Context {A : Type} {fmt : RecordFormat A}.
Implicit Types (a : A) (w : world).

(** The file a write leaves, for a device of any capacity. *)
Definition record_file (a : A) (data : option bytes) (w : world) : bytes :=
  take (w_cap w) (rec_enc a (default [] data)).

(** The device has room for the whole record. *)
Definition record_fits (a : A) (data : option bytes) (w : world) : Prop :=
  (length (rec_enc a (default [] data)) ≤ w_cap w)%nat.

#[export] Instance record_fits_dec a data w : Decision (record_fits a data w).
Proof. unfold record_fits. apply _. Defined.

Lemma write_record_eq e p a data ds w :
  rec_ok a → data_ok data ds → w_can_write w p = true →
  ∃ r, write_record (Err e) p (rec_write a data ds) w
       = (r, set_file p (record_file a data w) w)
    ∧ (r = Ok tt ∨ (r = Err e ∧ ¬ record_fits a data w)).
Proof.
  intros Ha Hd Hw. unfold write_record, fopen_wb. rewrite Hw.
  destruct (emits_run_close _ _ _ p e w (rec_emits a data ds Ha Hd)) as (r & E & Hr).
  exists r. split; [done|]. unfold record_fits. destruct Hr as [->|[-> ?]]; [by left|right].
  split; [done|lia].
Qed.

(** A written record is read back whole, or not at all. *)
Lemma read_record_eq e p a data ds want w w' :
  rec_ok a → data_ok data ds → rec_alloc (w_malloc w') a → (∀ n, w_malloc w' n = true) →
  w_files w' !! p = Some (record_file a data w) →
  read_record (Err e) p (rec_read (w_malloc w') want) w'
  = if decide (record_fits a data w)
    then Ok (rec_stored a, delivered want (default [] data), ds) else Err e.
Proof.
  intros Ha [-> Hds] Hal Hm Hp. unfold read_record, fopen_rb. rewrite Hp. cbn [mbind option_bind].
  pose proof (rec_decodes (w_malloc w') want a (default [] data) Ha Hal Hds) as Hdec.
  unfold record_file, record_fits in *. destruct (decide _) as [Hl|Hl].
  - rewrite take_ge by done. erewrite decodes_open; [done|]. by apply Hdec.
  - edestruct (decodes_open_prefix _ _ _ w' (w_cap w) (Hdec ltac:(done)))
      as [err ->]; [lia|done].
Qed.
End Format.
