(* ===== verification/RafTask.v ===== *)
(** * Record database, layer 2: task records

    [src/corelib/rafdb/rafdb-l2-task.c]: the task registry rows, the [.tpbr]
    writer and reader and the creation of a capsule.  The identifiers are in
    [RafIds].  The [task_attr_t] structure keeps its C field names, prefixed. *)

From S2P Require Import Prelude Errors CLib FileIO RafBase RafHeader RafEntry RafRecord.
From stdpp Require Import options.

Record task_attr := mkTaskAttr {
  ta_task_record_id : bytes;
  ta_derive_to : bytes;
  ta_inherit_from : bytes;
  ta_tbatch_id : bytes;
  ta_kernel_id : bytes;
  ta_utc_bits : Z;
  ta_btime : Z;
  ta_duration : Z;
  ta_exit_code : Z;
  ta_handle_index : Z;
  ta_pid : Z;
  ta_tid : Z;
  ta_ninput : Z;
  ta_noutput : Z;
  ta_nheader : Z;
  ta_reserve : Z;
  ta_headers : list tpb_meta_header;
}.

Definition sizeof_task_entry : Z := 232.

(** ** Registry *)

Definition tpb_raf_entry_append_task (env : fd_env) (workspace entry : option bytes) (w : world)
  : outcome unit * world :=
  match workspace, entry with
  | Some ws, Some e =>
      let '(r, w') := _tpb_raf_l1_entry_append env ws TPB_RAF_DOM_TASK e w in
      (TPB_PROPAGATE TPB_MOD_RAF_L2_TASK r, w')
  | _, _ => (TPB_FAIL TPB_MOD_RAF_L2_TASK TPBE_NULLPTR_ARG, w)
  end.

Definition tpb_raf_entry_list_task (workspace : option bytes) (entries count : bool) (w : world)
  : outcome (option bytes * Z) :=
  match workspace, entries, count with
  | Some ws, true, true =>
      TPB_PROPAGATE TPB_MOD_RAF_L2_TASK
        (_tpb_raf_l1_entry_list ws TPB_RAF_DOM_TASK sizeof_task_entry w)
  | _, _, _ => TPB_FAIL TPB_MOD_RAF_L2_TASK TPBE_NULLPTR_ARG
  end.

(** ** Writing *)

(** The statements between [fopen] and [fclose]. *)
Definition write_task_body (attr : task_attr) (data : option bytes) (datasize : Z) : IO unit :=
  write_prefix TPB_RAF_DOM_TASK
    (metasize_of (156 + Z.of_nat TPB_RAF_RESERVE_SIZE) (ta_nheader attr)) datasize;;
  fwrite (ta_task_record_id attr);;
  fwrite (ta_derive_to attr);;
  fwrite (ta_inherit_from attr);;
  fwrite (ta_tbatch_id attr);;
  fwrite (ta_kernel_id attr);;
  _tpb_raf_l1_write_u64 (ta_utc_bits attr);;
  _tpb_raf_l1_write_u64 (ta_btime attr);;
  _tpb_raf_l1_write_u64 (ta_duration attr);;
  _tpb_raf_l1_write_u32 (ta_exit_code attr);;
  _tpb_raf_l1_write_u32 (ta_handle_index attr);;
  _tpb_raf_l1_write_u32 (ta_pid attr);;
  _tpb_raf_l1_write_u32 (ta_tid attr);;
  _tpb_raf_l1_write_u32 (ta_ninput attr);;
  _tpb_raf_l1_write_u32 (ta_noutput attr);;
  _tpb_raf_l1_write_u32 (ta_nheader attr);;
  _tpb_raf_l1_write_u32 (ta_reserve attr);;
  write_reserve TPB_RAF_RESERVE_SIZE;;
  write_attr_headers (ta_nheader attr) (ta_headers attr);;
  _tpb_raf_l1_write_magic_and_data TPB_RAF_DOM_TASK data datasize.

Definition tpb_raf_record_write_task (workspace : option bytes) (attr : option task_attr)
  (data : option bytes) (datasize : Z) (w : world) : outcome unit * world :=
  match workspace, attr with
  | Some ws, Some a =>
      let fpath := _tpb_raf_l1_build_record_path ws TPB_RAF_DOM_TASK (ta_task_record_id a)
                     TPB_RAF_PATH_MAX in
      write_record (TPB_FAIL TPB_MOD_RAF_L2_TASK TPBE_FILE_IO_FAIL) fpath
        (write_task_body a data datasize) w
  | _, _ => (TPB_FAIL TPB_MOD_RAF_L2_TASK TPBE_NULLPTR_ARG, w)
  end.

(** The record of a capsule: one header, the first member's identifier as data. *)
Definition tpb_raf_record_create_task_capsule (workspace : option bytes)
  (attr : option task_attr) (first_task_id : option bytes) (w : world)
  : outcome unit * world :=
  match workspace, attr, first_task_id with
  | Some ws, Some a, Some first =>
      if negb (ta_nheader a =? 1) || negb (ta_ninput a =? 0) || negb (ta_noutput a =? 0)
      then (TPB_FAIL TPB_MOD_RAF_L2_TASK TPBE_CLI_FAIL, w)
      else
        let '(r, w') := tpb_raf_record_write_task (Some ws) (Some a) (Some first) 20 w in
        (TPB_PROPAGATE TPB_MOD_RAF_L2_TASK r, w')
  | _, _, _ => (TPB_FAIL TPB_MOD_RAF_L2_TASK TPBE_NULLPTR_ARG, w)
  end.

(** ** Reading *)

Definition read_task_body (alloc : Z → bool) (want : bool) : IO (task_attr * option bytes * Z) :=
  '(metasize, ds) ← read_prefix TPB_RAF_DOM_TASK;
  task_record_id ← fread 20;
  derive_to ← fread 20;
  inherit_from ← fread 20;
  tbatch_id ← fread 20;
  kernel_id ← fread 20;
  utc_bits ← _tpb_raf_l1_read_u64;
  btime ← _tpb_raf_l1_read_u64;
  duration ← _tpb_raf_l1_read_u64;
  exit_code ← _tpb_raf_l1_read_u32;
  handle_index ← _tpb_raf_l1_read_u32;
  pid ← _tpb_raf_l1_read_u32;
  tid ← _tpb_raf_l1_read_u32;
  ninput ← _tpb_raf_l1_read_u32;
  noutput ← _tpb_raf_l1_read_u32;
  nheader ← _tpb_raf_l1_read_u32;
  reserve ← _tpb_raf_l1_read_u32;
  read_reserve TPB_RAF_RESERVE_SIZE;;
  headers ← read_attr_headers alloc nheader;
  data ← read_tail alloc TPB_RAF_DOM_TASK want ds;
  mret (mkTaskAttr task_record_id derive_to inherit_from tbatch_id kernel_id utc_bits btime
          duration exit_code handle_index pid tid ninput noutput nheader reserve headers, data, ds).

(** [outs] says whether the caller passed both [data] and [datasize]. *)
Definition tpb_raf_record_read_task (workspace task_id : option bytes) (attr outs : bool)
  (w : world) : outcome (task_attr * option bytes * Z) :=
  match workspace, task_id, attr with
  | Some ws, Some id, true =>
      let fpath := _tpb_raf_l1_build_record_path ws TPB_RAF_DOM_TASK id TPB_RAF_PATH_MAX in
      read_record (TPB_FAIL TPB_MOD_RAF_L2_TASK TPBE_FILE_IO_FAIL) fpath
        (read_task_body (w_malloc w) outs) w
  | _, _, _ => TPB_FAIL TPB_MOD_RAF_L2_TASK TPBE_NULLPTR_ARG
  end.

(** ** The format *)

(** The values of the C structure. *)
Record task_attr_ok (a : task_attr) : Prop := {
  tk_id : id_ok (ta_task_record_id a);
  tk_derive : length (ta_derive_to a) = 20%nat;
  tk_inherit : length (ta_inherit_from a) = 20%nat;
  tk_tbatch : length (ta_tbatch_id a) = 20%nat;
  tk_kernel : length (ta_kernel_id a) = 20%nat;
  tk_utc : is_u64 (ta_utc_bits a);
  tk_btime : is_u64 (ta_btime a);
  tk_duration : is_u64 (ta_duration a);
  tk_exit : is_u32 (ta_exit_code a);
  tk_handle : is_u32 (ta_handle_index a);
  tk_pid : is_u32 (ta_pid a);
  tk_tid : is_u32 (ta_tid a);
  tk_ninput : is_u32 (ta_ninput a);
  tk_noutput : is_u32 (ta_noutput a);
  tk_reserve : is_u32 (ta_reserve a);
  tk_headers : headers_ok (ta_nheader a) (ta_headers a);
}.

Definition task_fields (a : task_attr) : bytes :=
  ta_task_record_id a ++ ta_derive_to a ++ ta_inherit_from a ++ ta_tbatch_id a ++ ta_kernel_id a
  ++ le 8 (ta_utc_bits a) ++ le 8 (ta_btime a) ++ le 8 (ta_duration a)
  ++ le 4 (ta_exit_code a) ++ le 4 (ta_handle_index a) ++ le 4 (ta_pid a) ++ le 4 (ta_tid a)
  ++ le 4 (ta_ninput a) ++ le 4 (ta_noutput a) ++ le 4 (ta_nheader a) ++ le 4 (ta_reserve a)
  ++ replicate TPB_RAF_RESERVE_SIZE 0.

Definition enc_task (a : task_attr) (d : bytes) : bytes :=
  enc_prefix TPB_RAF_DOM_TASK
    (metasize_of (156 + Z.of_nat TPB_RAF_RESERVE_SIZE) (ta_nheader a)) (Z.of_nat (length d))
  ++ task_fields a ++ enc_headers (ta_headers a) ++ enc_data TPB_RAF_DOM_TASK d.

Definition stored_task (a : task_attr) : task_attr :=
  mkTaskAttr (ta_task_record_id a) (ta_derive_to a) (ta_inherit_from a) (ta_tbatch_id a)
    (ta_kernel_id a) (ta_utc_bits a) (ta_btime a) (ta_duration a) (ta_exit_code a)
    (ta_handle_index a) (ta_pid a) (ta_tid a) (ta_ninput a) (ta_noutput a) (ta_nheader a)
    (ta_reserve a) (map stored_header (ta_headers a)).

Lemma emits_task a data ds :
  task_attr_ok a → data_ok data ds →
  emits (write_task_body a data ds) (enc_task a (default [] data)) tt.
Proof.
  intros [] Hd. destruct (Hd) as [Hds _]. unfold write_task_body, enc_task, task_fields.
  rewrite <- !app_assoc, Hds. do 19 codec_emit. apply emits_magic_and_data. by rewrite <- Hds.
Qed.

Lemma decodes_task alloc want a d :
  task_attr_ok a → headers_alloc alloc (ta_nheader a) → Z.of_nat (length d) < 2 ^ 63 →
  (want = true → 0 < Z.of_nat (length d) → alloc (Z.of_nat (length d)) = true) →
  decodes (read_task_body alloc want) (enc_task a d)
          (stored_task a, delivered want d, Z.of_nat (length d)).
Proof.
  intros [[Hid _]] Hal Hd Hald. destruct (tk_headers0) as [Hn Hn32 _].
  unfold read_task_body, enc_task, task_fields. rewrite <- !app_assoc.
  eapply decodes_bind.
  { apply decodes_prefix; [by apply metasize_u64|unfold is_word; lia]. }
  cbn beta iota. do 18 codec_decode. rewrite <- (app_nil_r (enc_data _ _)).
  codec_decode. apply decodes_ret.
Qed.

#[export] Instance task_format : RecordFormat task_attr := {|
  rec_domain := TPB_RAF_DOM_TASK;
  rec_id := ta_task_record_id;
  rec_write := write_task_body;
  rec_read := read_task_body;
  rec_ok := task_attr_ok;
  rec_alloc := λ alloc a, headers_alloc alloc (ta_nheader a);
  rec_enc := enc_task;
  rec_stored := stored_task;
  rec_emits := emits_task;
  rec_decodes := decodes_task;
|}.

Lemma stored_task_canonical a :
  Forall header_canonical (ta_headers a) → stored_task a = a.
Proof. intros H. unfold stored_task. rewrite stored_headers_canonical by done. by destruct a. Qed.

(** ** Properties *)

Abbreviation task_path ws id :=
  (_tpb_raf_l1_build_record_path ws TPB_RAF_DOM_TASK id TPB_RAF_PATH_MAX).

(** C1: writing a task record touches the record's file only.  When the device
    has room for the record, the write succeeds and a reader then gets the same
    attributes, headers and data; when it has not, whatever the writer reported,
    a reader gets [TPBE_FILE_IO_FAIL]: a truncated record is never delivered. *)
Theorem task_record_roundtrip ws a data ds want w :
  task_attr_ok a → data_ok data ds → w_can_write w (task_path ws (ta_task_record_id a)) = true →
  (∀ n, w_malloc w n = true) →
  let '(r, w') := tpb_raf_record_write_task (Some ws) (Some a) data ds w in
  (record_fits a data w → r = Ok tt)
  ∧ (r = Ok tt ∨ r = TPB_FAIL TPB_MOD_RAF_L2_TASK TPBE_FILE_IO_FAIL)
  ∧ w_files w' = <[task_path ws (ta_task_record_id a) := take (w_cap w) (enc_task a (default [] data))]>
                   (w_files w)
  ∧ tpb_raf_record_read_task (Some ws) (Some (ta_task_record_id a)) true want w'
    = (if decide (record_fits a data w)
       then Ok (stored_task a, delivered want (default [] data), ds)
       else TPB_FAIL TPB_MOD_RAF_L2_TASK TPBE_FILE_IO_FAIL)
  ∧ (Forall header_canonical (ta_headers a) → stored_task a = a).
Proof.
  intros Ha Hd Hw Hm. unfold tpb_raf_record_write_task, tpb_raf_record_read_task.
  unfold TPB_FAIL.
  destruct (write_record_eq (fmt := task_format)
    (tpb_report_error_at TPB_MOD_RAF_L2_TASK TPBE_FILE_IO_FAIL) _ a data ds w Ha Hd Hw)
    as (r & E & Hr).
  cbn [rec_write task_format] in E. rewrite E. split_and!.
  - destruct Hr as [->|[-> ?]]; done.
  - destruct Hr as [->|[-> _]]; auto.
  - done.
  - apply (read_record_eq (fmt := task_format)); try done; [intros ?; apply Hm|].
    cbn [w_files set_file]. by rewrite lookup_insert_eq.
  - apply stored_task_canonical.
Qed.

Definition sample_task : task_attr :=
  mkTaskAttr (replicate 20 1) (replicate 20 0) (replicate 20 0) (replicate 20 2) (replicate 20 3)
    1 2 3 0 0 100 101 1 0 1 0 [sample_header].

Lemma sample_task_ok : task_attr_ok sample_task.
Proof.
  split; try (vm_compute; split; congruence); try reflexivity.
  - split; [reflexivity|]. by repeat constructor.
  - split; [reflexivity|vm_compute; split; congruence|].
    constructor; [apply sample_header_ok|constructor].
Qed.

Definition roomy_world : world := mkWorld ∅ (λ _, true) 4500 4096 (λ _, true).

Lemma task_record_roundtrip_witness :
  tpb_raf_record_read_task (Some $"/w") (Some (replicate 20 1)) true true
    (snd (tpb_raf_record_write_task (Some $"/w") (Some sample_task) (Some (replicate 16 9)) 16
            roomy_world))
  = Ok (stored_task sample_task, Some (replicate 16 9), 16).
Proof.
  pose proof (task_record_roundtrip $"/w" sample_task (Some (replicate 16 9)) 16 true roomy_world
    sample_task_ok ltac:(by split) eq_refl (λ _, eq_refl)) as H.
  revert H. destruct (tpb_raf_record_write_task _ _ _ _ _) as [r w'].
  intros (_ & _ & _ & H & _). change (ta_task_record_id sample_task) with (replicate 20 1) in H.
  cbn [snd]. rewrite H.
  destruct (decide _) as [_|Hn]; [reflexivity|]. exfalso. apply Hn. vm_compute. lia.
Defined.

