(* ===== verification/RafPeek.v ===== *)
(** * Record database, layer 2: the three signatures of a record file

    [src/corelib/rafdb/rafdb-l2-record-peek-magics.c]: reads the START, SPLIT and
    END signatures of a record without parsing it, looking for SPLIT byte by byte
    because the [metasize] field may be stale. *)

From S2P Require Import Prelude Errors CLib FileIO RafBase RafHeader RafRecord RafTask.
From stdpp Require Import options.

(** ** Operations *)

Definition _sf_peek_validate_domain (domain : Z) : bool :=
  (domain =? TPB_RAF_DOM_TBATCH) || (domain =? TPB_RAF_DOM_KERNEL)
  || (domain =? TPB_RAF_DOM_TASK) || (domain =? TPB_RAF_DOM_RTENV).

(** [ftell] and [fseek(fp, 0, SEEK_END)]. *)
Definition ftell : IO Z := λ f, (Ok (Z.of_nat (f_pos f)), f).
Definition fseek_end : IO unit := λ f, fseek_to (Z.of_nat (length (f_disk (snd (fflush f))))) f.

Definition _sf_file_size : IO Z :=
  cur ← ftell;
  fseek_end;;
  end_ ← ftell;
  fseek_set cur;;
  mret end_.

Definition _sf_read_magic_at (pos : Z) : IO bytes :=
  fseek_set pos;;
  fread TPB_RAF_MAGIC_LEN.

(** The loop from [pos] on, [n] positions. *)
Fixpoint find_split_loop (domain pos : Z) (n : nat) : IO Z :=
  match n with
  | O => io_fail
  | S n' =>
      magic ← _sf_read_magic_at pos;
      if tpb_raf_validate_magic magic TPB_RAF_FTYPE_RECORD domain TPB_RAF_POS_SPLIT
      then mret pos
      else find_split_loop domain (pos + 1) n'
  end.

Definition _sf_find_split_pos (domain search_lo search_hi : Z) : IO Z :=
  find_split_loop domain search_lo (Z.to_nat (search_hi - search_lo + 1)).

(** The upper end of the search, from the file size and the [datasize] field. *)
Definition peek_search_hi (fsize datasize : Z) : Z :=
  let search_hi := fsize - Z.of_nat TPB_RAF_MAGIC_LEN in
  if datasize <=? wrap64 (fsize - 24) then
    let hi_by_data := fsize - Z.of_nat TPB_RAF_MAGIC_LEN - swrap 64 datasize
                      - Z.of_nat TPB_RAF_MAGIC_LEN in
    if hi_by_data <? search_hi then hi_by_data else search_hi
  else search_hi.

(** Everything between [fopen] and [fclose]. *)
Definition peek_body (domain : Z) : IO (bytes * bytes * bytes) :=
  start_magic ← fread TPB_RAF_MAGIC_LEN;
  io_guard (tpb_raf_validate_magic start_magic TPB_RAF_FTYPE_RECORD domain TPB_RAF_POS_START);;
  metasize ← _tpb_raf_l1_read_u64;
  datasize ← _tpb_raf_l1_read_u64;
  fsize ← _sf_file_size;
  let search_hi := peek_search_hi fsize datasize in
  io_guard (24 <=? search_hi);;
  split_pos ← _sf_find_split_pos domain 24 search_hi;
  split_magic ← _sf_read_magic_at split_pos;
  end_pos ← io_long (split_pos + Z.of_nat TPB_RAF_MAGIC_LEN + swrap 64 datasize);
  end_end ← io_long (end_pos + Z.of_nat TPB_RAF_MAGIC_LEN);
  io_guard (end_end <=? fsize);;
  end_magic ← _sf_read_magic_at end_pos;
  io_guard (tpb_raf_validate_magic end_magic TPB_RAF_FTYPE_RECORD domain TPB_RAF_POS_END);;
  mret (start_magic, split_magic, end_magic).

(** [outs] says whether the three output buffers are given. *)
Definition tpb_raf_record_peek_magics (workspace : option bytes) (domain : Z)
  (id20 : option bytes) (rtenv_id : Z) (outs : bool) (w : world)
  : outcome (bytes * bytes * bytes) :=
  let io_err := TPB_FAIL TPB_MOD_RAF_MISC TPBE_FILE_IO_FAIL in
  match workspace, outs with
  | None, _ | _, false => TPB_FAIL TPB_MOD_RAF_MISC TPBE_NULLPTR_ARG
  | Some ws, true =>
      if negb (_sf_peek_validate_domain domain) then io_err
      else if domain =? TPB_RAF_DOM_RTENV then
        read_record io_err
          (_tpb_raf_l1_build_record_path_int32 ws domain rtenv_id TPB_RAF_PATH_MAX)
          (peek_body domain) w
      else match id20 with
           | None => TPB_FAIL TPB_MOD_RAF_MISC TPBE_NULLPTR_ARG
           | Some id =>
               read_record io_err (_tpb_raf_l1_build_record_path ws domain id TPB_RAF_PATH_MAX)
                 (peek_body domain) w
           end
  end.

(** ** The searching functions on a file *)

(** The eight bytes at [pos]. *)
Definition magic_at (D : bytes) (pos : Z) : bytes := take 8 (drop (Z.to_nat pos) D).

Definition on_disk (D : bytes) (f : FILE) : Prop := reading f ∧ f_disk f = D.

Lemma read_magic_at_spec D pos f :
  on_disk D f →
  ∃ f', on_disk D f' ∧ _sf_read_magic_at pos f
  = (if (0 <=? pos) && (pos + 8 <=? Z.of_nat (length D)) then Ok (magic_at D pos) else Err (-1), f').
Proof.
  intros [Hb Hd]. unfold _sf_read_magic_at, mbind, IO_bind, magic_at.
  destruct (Z.leb_spec 0 pos) as [Hp|Hp].
  - pose proof (fseek_set_clean (Z.to_nat pos) f Hb) as E. rewrite Z2Nat.id in E by done.
    rewrite E. clear E.
    unfold fread; cbn [f_buf f_disk f_pos f_boff f_bufsz f_cap]. rewrite Hd.
    change (take TPB_RAF_MAGIC_LEN) with (@take Z 8). rewrite length_take, length_drop.
    destruct (Z.leb_spec (pos + 8) (Z.of_nat (length D))).
    + rewrite (proj2 (Nat.eqb_eq _ 8)) by lia. eexists. split; [|reflexivity]. by split.
    + rewrite (proj2 (Nat.eqb_neq _ 8)) by lia. eexists. split; [|reflexivity]. by split.
  - unfold fseek_set, fseek_to. rewrite fflush_clean by done.
    rewrite (proj2 (Z.leb_gt 0 pos)) by done. eexists. split; [|reflexivity]. by split.
Qed.

Lemma file_size_spec D f :
  on_disk D f → ∃ f', on_disk D f' ∧ _sf_file_size f = (Ok (Z.of_nat (length D)), f').
Proof.
  intros [Hb Hd]. unfold _sf_file_size, mbind, IO_bind, ftell, fseek_end, fseek_to.
  rewrite fflush_clean by done. cbn [snd f_disk andb f_pos].
  rewrite (proj2 (Z.leb_le 0 _)) by lia. cbn [f_pos].
  rewrite fseek_set_clean by done. cbn [f_disk]. rewrite Hd, (Nat2Z.id (length D)). eexists. split; [|reflexivity]. by split.
Qed.

(** Running an action whose effect on a file being read is known. *)
Lemma run_step {A B} (m : IO A) (k : A → IO B) r D f f' :
  m f = (r, f') → on_disk D f' →
  (m ≫= k) f = match r with Ok a => k a f' | Err e => (Err e, f') | UB => (UB, f') end.
Proof. intros E _. unfold mbind, IO_bind. by rewrite E. Qed.

Abbreviation START dom := (tpb_raf_build_magic TPB_RAF_FTYPE_RECORD dom TPB_RAF_POS_START).
Abbreviation SPLIT dom := (tpb_raf_build_magic TPB_RAF_FTYPE_RECORD dom TPB_RAF_POS_SPLIT).
Abbreviation END_ dom := (tpb_raf_build_magic TPB_RAF_FTYPE_RECORD dom TPB_RAF_POS_END).

Lemma validate_magic_at D pos dom k :
  tpb_raf_validate_magic (magic_at D pos) TPB_RAF_FTYPE_RECORD dom k = true
  ↔ magic_at D pos = tpb_raf_build_magic TPB_RAF_FTYPE_RECORD dom k.
Proof.
  unfold tpb_raf_validate_magic, magic_at. rewrite take_take, Nat.min_id. apply bool_decide_eq_true.
Qed.

(** The first position among [n] from [pos] on where the SPLIT signature is. *)
Fixpoint first_split (dom : Z) (D : bytes) (pos : Z) (n : nat) : option Z :=
  match n with
  | O => None
  | S n' => if bool_decide (magic_at D pos = SPLIT dom) then Some pos
            else first_split dom D (pos + 1) n'
  end.

Lemma first_split_Some dom D pos n p :
  first_split dom D pos n = Some p
  ↔ pos ≤ p < pos + Z.of_nat n ∧ magic_at D p = SPLIT dom
    ∧ ∀ q, pos ≤ q < p → magic_at D q ≠ SPLIT dom.
Proof.
  revert pos. induction n as [|n IH]; intros pos; cbn [first_split]; [split; [done|lia]|].
  case_bool_decide as Hm.
  - split.
    + intros [= <-]. split_and!; [lia..|done|]. intros; lia.
    + intros (Hp & _ & Hq). destruct (Z.eq_dec pos p) as [->|]; [done|].
      by destruct (Hq pos ltac:(lia)).
  - rewrite IH. split; intros (Hp & Hs & Hq).
    + split_and!; [lia..|done|]. intros q Hr. destruct (Z.eq_dec q pos) as [->|]; [done|].
      apply Hq. lia.
    + destruct (Z.eq_dec p pos) as [->|]; [done|]. split_and!; [lia..|done|].
      intros q Hr. apply Hq. lia.
Qed.

Lemma find_split_loop_spec dom D pos n f :
  on_disk D f → 0 ≤ pos → (n = 0%nat ∨ pos + Z.of_nat n + 7 ≤ Z.of_nat (length D)) →
  ∃ f', on_disk D f' ∧ find_split_loop dom pos n f
  = (match first_split dom D pos n with Some p => Ok p | None => Err (-1) end, f').
Proof.
  revert pos f. induction n as [|n IH]; intros pos f Hf Hp Hn; cbn [find_split_loop first_split].
  { by exists f. }
  destruct (read_magic_at_spec D pos f Hf) as (f1 & Hf1 & E).
  rewrite (proj2 (Z.leb_le 0 pos)), (proj2 (Z.leb_le (pos + 8) _)) in E by lia. cbn [andb] in E.
  rewrite (run_step _ _ _ _ _ _ E Hf1). cbv beta iota.
  case_bool_decide as Hm.
  - apply validate_magic_at in Hm as ->. by exists f1.
  - rewrite <- validate_magic_at, not_true_iff_false in Hm. rewrite Hm. apply IH; [done|lia..].
Qed.

Lemma fread_spec D f n :
  on_disk D f →
  ∃ f', on_disk D f' ∧ f_pos f' = (f_pos f + Nat.min n (length D - f_pos f))%nat ∧
  fread n f = (if (f_pos f + n <=? length D)%nat then Ok (take n (drop (f_pos f) D))
               else if (n =? 0)%nat then Ok [] else Err (-1), f').
Proof.
  intros [Hb Hd]. unfold fread. rewrite Hb, Hd, length_take, length_drop.
  exists (mkFILE D [] (f_boff f) (f_pos f + Nat.min n (length D - f_pos f)) (f_bufsz f) (f_cap f)).
  split; [by split|]. split; [done|].
  destruct (Nat.leb_spec (f_pos f + n) (length D)).
  - by rewrite (proj2 (Nat.eqb_eq _ n)) by lia.
  - destruct (Nat.eqb_spec n 0) as [->|].
    + by rewrite (proj2 (Nat.eqb_eq _ 0)) by lia.
    + by rewrite (proj2 (Nat.eqb_neq _ n)) by lia.
Qed.

Lemma read_u64_run {B} D f :
  on_disk D f →
  ∃ f', on_disk D f' ∧ f_pos f' = (f_pos f + Nat.min 8 (length D - f_pos f))%nat ∧
  ∀ k : Z → IO B, (_tpb_raf_l1_read_u64 ≫= k) f
    = if (f_pos f + 8 <=? length D)%nat then k (le_val (take 8 (drop (f_pos f) D))) f'
      else (Err (-1), f').
Proof.
  intros Hf. destruct (fread_spec D f 8 Hf) as (f' & Hf' & Hp & E). exists f'.
  split; [done|]. split; [done|]. intros k. unfold _tpb_raf_l1_read_u64.
  rewrite io_bind_assoc, (run_step _ _ _ _ _ _ E Hf'). by case_match.
Qed.

(** The result of the whole search, as a function of the file. *)
Definition peek_spec (dom : Z) (D : bytes) : outcome (bytes * bytes * bytes) :=
  let len := Z.of_nat (length D) in
  let ds := swrap 64 (le_val (magic_at D 16)) in
  let hi := peek_search_hi len (le_val (magic_at D 16)) in
  if (length D <? 24)%nat || bool_decide (magic_at D 0 ≠ START dom) || (hi <? 24) then Err (-1)
  else match first_split dom D 24 (Z.to_nat (hi - 24 + 1)) with
       | None => Err (-1)
       | Some p =>
           if (p + 16 + ds <? 2 ^ 63) && (- 2 ^ 63 <=? p + 8 + ds) then
             if (0 <=? p + 8 + ds) && (p + 16 + ds <=? len)
                && bool_decide (magic_at D (p + 8 + ds) = END_ dom)
             then Ok (START dom, SPLIT dom, END_ dom) else Err (-1)
           else UB
       end.

Lemma search_hi_le fsize ds : peek_search_hi fsize ds ≤ fsize - 8.
Proof. unfold peek_search_hi. change (Z.of_nat TPB_RAF_MAGIC_LEN) with 8. repeat case_match; lia. Qed.

Lemma io_long_run {B} v (k : Z → IO B) f :
  (io_long v ≫= k) f
  = if (- 2 ^ 63 <=? v) && (v <? 2 ^ 63) then k v f else (UB, f).
Proof. unfold io_long, mbind, IO_bind. by destruct (_ && _). Qed.

Lemma io_guard_run {B} b (k : unit → IO B) f :
  (io_guard b ≫= k) f = if b then k tt f else (Err (-1), f).
Proof. unfold io_guard, mbind, IO_bind. by destruct b. Qed.

Lemma peek_tail_eq dom D p ds f :
  on_disk D f → 24 ≤ p → p + 8 ≤ Z.of_nat (length D) → magic_at D p = SPLIT dom →
  fst ((split_magic ← _sf_read_magic_at p;
        end_pos ← io_long (p + Z.of_nat TPB_RAF_MAGIC_LEN + ds);
        end_end ← io_long (end_pos + Z.of_nat TPB_RAF_MAGIC_LEN);
        io_guard (end_end <=? Z.of_nat (length D));;
        end_magic ← _sf_read_magic_at end_pos;
        io_guard (tpb_raf_validate_magic end_magic TPB_RAF_FTYPE_RECORD dom TPB_RAF_POS_END);;
        mret (START dom, split_magic, end_magic)) f)
  = if (p + 16 + ds <? 2 ^ 63) && (- 2 ^ 63 <=? p + 8 + ds) then
      if (0 <=? p + 8 + ds) && (p + 16 + ds <=? Z.of_nat (length D))
         && bool_decide (magic_at D (p + 8 + ds) = END_ dom)
      then Ok (START dom, SPLIT dom, END_ dom) else Err (-1)
    else UB.
Proof.
  intros Hf Hp Hl Hm. change (Z.of_nat TPB_RAF_MAGIC_LEN) with 8.
  destruct (read_magic_at_spec D p f Hf) as (f1 & Hf1 & E).
  rewrite (proj2 (Z.leb_le 0 p)), (proj2 (Z.leb_le (p + 8) _)) in E by lia. cbn [andb] in E.
  rewrite (run_step _ _ _ _ _ _ E Hf1), Hm. rewrite io_long_run.
  destruct (Z.leb_spec (- 2 ^ 63) (p + 8 + ds)); cbn [andb];
    [|by destruct (p + 16 + ds <? 2 ^ 63)].
  destruct (Z.ltb_spec (p + 8 + ds) (2 ^ 63)); cbn [andb];
    [|by rewrite (proj2 (Z.ltb_ge (p + 16 + ds) _)) by lia].
  rewrite io_long_run. replace (p + 8 + ds + 8) with (p + 16 + ds) by lia.
  rewrite (proj2 (Z.leb_le (- 2 ^ 63) (p + 16 + ds))) by lia. cbn [andb].
  destruct (p + 16 + ds <? 2 ^ 63); cbn [andb]; [|done].
  rewrite io_guard_run. destruct (Z.leb_spec (p + 16 + ds) (Z.of_nat (length D))) as [Hle|Hle];
    [|by rewrite andb_false_r].
  destruct (read_magic_at_spec D (p + 8 + ds) f1 Hf1) as (f2 & Hf2 & E2).
  rewrite (run_step _ _ _ _ _ _ E2 Hf2).
  rewrite (proj2 (Z.leb_le (p + 8 + ds + 8) _)) by lia. rewrite !andb_true_r.
  destruct (Z.leb_spec 0 (p + 8 + ds)); cbn [andb]; [|done]. rewrite io_guard_run.
  case_bool_decide as He.
  - apply validate_magic_at in He as Hv. by rewrite Hv, He.
  - rewrite <- validate_magic_at, not_true_iff_false in He. by rewrite He.
Qed.

Lemma peek_body_eq dom D w : fst (peek_body dom (open_on D w)) = peek_spec dom D.
Proof.
  assert (H0 : on_disk D (open_on D w)) by by split. unfold peek_body, peek_spec.
  destruct (fread_spec D _ TPB_RAF_MAGIC_LEN H0) as (f1 & Hf1 & P1 & E1).
  rewrite (run_step _ _ _ _ _ _ E1 Hf1). cbn [open_on f_pos] in *. clear E1.
  change TPB_RAF_MAGIC_LEN with 8%nat in *. cbn [Nat.eqb Nat.add] in *. rewrite drop_0.
  destruct (Nat.leb_spec 8 (length D)) as [L1|L1];
    [|by rewrite (proj2 (Nat.ltb_lt _ 24)) by lia].
  rewrite io_guard_run. change (take 8 D) with (magic_at D 0).
  destruct (decide (magic_at D 0 = START dom)) as [Hs|Hs].
  2: { rewrite (bool_decide_true (_ ≠ _)) by done. rewrite orb_true_r. cbn [orb].
       rewrite <- validate_magic_at, not_true_iff_false in Hs. by rewrite Hs. }
  rewrite (bool_decide_false (_ ≠ _)) by naive_solver. rewrite orb_false_r.
  rewrite (proj2 (validate_magic_at _ _ _ _) Hs).
  destruct (read_u64_run (B:=bytes * bytes * bytes) D f1 Hf1) as (f2 & Hf2 & P2 & E2).
  rewrite Nat.sub_0_r, Nat.min_l in P1 by lia. cbn [Nat.add] in P1.
  rewrite E2, P1. clear E2. rewrite P1 in P2.
  destruct (Nat.leb_spec (8 + 8) (length D)) as [L2|L2];
    [|by rewrite (proj2 (Nat.ltb_lt _ 24)) by lia].
  destruct (read_u64_run (B:=bytes * bytes * bytes) D f2 Hf2) as (f3 & Hf3 & _ & E3).
  rewrite Nat.min_l in P2 by lia. rewrite E3, P2. clear E3.
  destruct (Nat.leb_spec (8 + 8 + 8) (length D)) as [L3|L3];
    [|by rewrite (proj2 (Nat.ltb_lt _ 24)) by lia].
  rewrite (proj2 (Nat.ltb_ge _ 24)) by lia. cbn [orb].
  change (take 8 (drop (8 + 8) D)) with (magic_at D 16). set (ds := le_val (magic_at D 16)).
  destruct (file_size_spec D f3 Hf3) as (f4 & Hf4 & E4). rewrite (run_step _ _ _ _ _ _ E4 Hf4).
  cbv beta iota zeta. rewrite io_guard_run.
  set (hi := peek_search_hi (Z.of_nat (length D)) ds). pose proof (search_hi_le (Z.of_nat (length D)) ds : hi ≤ _).
  destruct (Z.leb_spec 24 hi) as [Hhi|Hhi]; [|by rewrite (proj2 (Z.ltb_lt hi 24)) by lia].
  rewrite (proj2 (Z.ltb_ge hi 24)) by lia. unfold _sf_find_split_pos.
  destruct (find_split_loop_spec dom D 24 (Z.to_nat (hi - 24 + 1)) f4 Hf4) as (f5 & Hf5 & E5);
    [lia|right; lia|].
  rewrite (run_step _ _ _ _ _ _ E5 Hf5).
  destruct (first_split dom D 24 (Z.to_nat (hi - 24 + 1))) as [p|] eqn:Ef; [|done].
  apply first_split_Some in Ef as (Hp & Hm & _). rewrite Hs.
  apply (peek_tail_eq dom D p (swrap 64 ds) f5 Hf5); [lia..|done].
Qed.

(** Where the three signatures of a record file stand: SPLIT at [p], the first
    from 24 on, and END [ds] bytes after it. *)
Definition peek_layout (dom : Z) (D : bytes) (ds p : Z) : Prop :=
  24 ≤ p ∧ magic_at D p = SPLIT dom ∧ (∀ q, 24 ≤ q < p → magic_at D q ≠ SPLIT dom)
  ∧ p + 16 + ds ≤ Z.of_nat (length D) ∧ magic_at D (p + 8 + ds) = END_ dom.

Lemma peek_layout_unique dom D ds p p' :
  peek_layout dom D ds p → 24 ≤ p' → magic_at D p' = SPLIT dom →
  (∀ q, 24 ≤ q < p' → magic_at D q ≠ SPLIT dom) → p' = p.
Proof.
  intros (H24 & Hm & Hq & _) ? Hm' Hq'. destruct (Z.lt_trichotomy p' p) as [|[|]]; [|done|].
  - by destruct (Hq p' ltac:(lia)).
  - by destruct (Hq' p ltac:(lia)).
Qed.

(** The search reaches every position where the layout can be. *)
Lemma peek_search_hi_reach len ds p :
  24 ≤ len < 2 ^ 61 → 0 ≤ ds < 2 ^ 62 → 24 ≤ p → p + 16 + ds ≤ len → p ≤ peek_search_hi len ds.
Proof.
  intros Hlen Hds Hp Hle. unfold peek_search_hi. change (Z.of_nat TPB_RAF_MAGIC_LEN) with 8.
  rewrite (swrap64_small ds), (wrap_small 64) by (unfold is_word; lia). repeat case_match; lia.
Qed.

Lemma peek_spec_cases dom D :
  let ds := le_val (magic_at D 16) in
  Z.of_nat (length D) < 2 ^ 61 → 0 ≤ ds < 2 ^ 62 →
  let ok := (24 ≤ length D)%nat ∧ magic_at D 0 = START dom ∧ ∃ p, peek_layout dom D ds p in
  (peek_spec dom D = Ok (START dom, SPLIT dom, END_ dom) ∧ ok) ∨ (peek_spec dom D = Err (-1) ∧ ¬ ok).
Proof.
  intros ds Hlen Hds ok. unfold peek_spec, ok. fold ds. rewrite (swrap64_small ds) by lia.
  pose proof (search_hi_le (Z.of_nat (length D)) ds) as Hhi.
  pose proof (peek_search_hi_reach (Z.of_nat (length D)) ds) as Hin.
  set (hi := peek_search_hi _ _) in *.
  destruct (Nat.ltb_spec (length D) 24) as [|L]; cbn [orb]; [right; split; [done|lia]|].
  case_bool_decide as Hs; cbn [orb]; [right; split; [done|naive_solver]|].
  destruct (Z.ltb_spec hi 24) as [Hlo|Hlo].
  { right. split; [done|]. intros (_ & _ & p & Hp & _ & _ & Hle & _).
    specialize (Hin p ltac:(lia) Hds Hp Hle). lia. }
  destruct (first_split dom D 24 (Z.to_nat (hi - 24 + 1))) as [p|] eqn:Ef.
  - apply first_split_Some in Ef as (Hp & Hm & Hq).
    rewrite (proj2 (Z.ltb_lt _ (2 ^ 63))), (proj2 (Z.leb_le (- 2 ^ 63) _)),
      (proj2 (Z.leb_le 0 (p + 8 + ds))) by lia. cbn [andb].
    destruct (_ && _) eqn:E; [left|right]; (split; [done|]).
    + apply andb_true_iff in E as [Hle%Z.leb_le He%bool_decide_eq_true].
      split_and!; [done|naive_solver|]. exists p. split_and!; [lia|done..].
    + intros (_ & _ & p' & HL). apply andb_false_iff in E.
      rewrite <- (peek_layout_unique _ _ _ _ p HL) in HL by (done || lia).
      destruct HL as (_ & _ & _ & Hle & He).
      rewrite (proj2 (Z.leb_le _ _) Hle), bool_decide_true in E by done. by destruct E.
  - right. split; [done|]. intros (_ & _ & p & H24 & Hm & Hq & Hle & _).
    specialize (Hin p ltac:(lia) Hds H24 Hle).
    assert (first_split dom D 24 (Z.to_nat (hi - 24 + 1)) = Some p); [|congruence].
    apply first_split_Some. split; [lia|done].
Qed.

(** The operation on a record file, through the specification of the search. *)
Lemma peek_magics_eq ws dom id w D :
  hex_domain dom →
  w_files w !! _tpb_raf_l1_build_record_path ws dom id TPB_RAF_PATH_MAX = Some D →
  tpb_raf_record_peek_magics (Some ws) dom (Some id) 0 true w
  = match peek_spec dom D with Err _ => TPB_FAIL TPB_MOD_RAF_MISC TPBE_FILE_IO_FAIL | r => r end.
Proof.
  intros Hdom Hfile. unfold tpb_raf_record_peek_magics.
  assert (_sf_peek_validate_domain dom = true ∧ (dom =? TPB_RAF_DOM_RTENV) = false) as [-> ->]
    by (destruct Hdom as [-> |[-> | ->]]; done).
  cbn [negb]. unfold read_record, fopen_rb. rewrite Hfile. cbn [mbind option_bind].
  by rewrite peek_body_eq.
Qed.

(** ** Properties *)

(** C38: on a record file whose [datasize] field is below 2^62, the three
    signatures are delivered exactly when the file starts with START, some
    position from 24 on holds SPLIT, and END stands [datasize] bytes after the
    first such position, within the file; what is delivered are these signatures.
    In all other cases the error is [TPBE_FILE_IO_FAIL].  The [metasize] field
    plays no part. *)
Theorem peek_magics_iff ws dom id w D :
  hex_domain dom →
  w_files w !! _tpb_raf_l1_build_record_path ws dom id TPB_RAF_PATH_MAX = Some D →
  Forall is_byte D → Z.of_nat (length D) < 2 ^ 61 → le_val (magic_at D 16) < 2 ^ 62 →
  let r := tpb_raf_record_peek_magics (Some ws) dom (Some id) 0 true w in
  (r = Ok (START dom, SPLIT dom, END_ dom)
   ↔ (24 ≤ length D)%nat ∧ magic_at D 0 = START dom
     ∧ ∃ p, peek_layout dom D (le_val (magic_at D 16)) p)
  ∧ (r = Ok (START dom, SPLIT dom, END_ dom) ∨ r = TPB_FAIL TPB_MOD_RAF_MISC TPBE_FILE_IO_FAIL).
Proof.
  intros Hdom Hfile Hbytes Hlen Hds r. subst r. rewrite (peek_magics_eq ws dom id w D) by done.
  assert (H0 : 0 ≤ le_val (magic_at D 16)) by (apply le_val_bound, Forall_take, Forall_drop, Hbytes).
  destruct (peek_spec_cases dom D Hlen (conj H0 Hds)) as [[-> Hok]|[-> Hok]].
  - split; [done|by left].
  - split; [|by right]. split; [done|]. intros H. by destruct Hok.
Qed.

(** A written task record has the layout, unless the signature occurs inside its
    metadata. *)
Lemma task_layout a d :
  task_attr_ok a → Z.of_nat (length d) < 2 ^ 61 →
  let D := enc_task a d in
  let p := Z.of_nat (24 + length (task_fields a ++ enc_headers (ta_headers a))) in
  (∀ q, 24 ≤ q < p → magic_at D q ≠ SPLIT TPB_RAF_DOM_TASK) →
  Z.of_nat (length D) = p + 16 + Z.of_nat (length d) ∧ magic_at D 0 = START TPB_RAF_DOM_TASK
  ∧ le_val (magic_at D 16) = Z.of_nat (length d)
  ∧ peek_layout TPB_RAF_DOM_TASK D (Z.of_nat (length d)) p.
Proof.
  intros Ha Hd D p Hfree.
  set (meta := task_fields a ++ enc_headers (ta_headers a)) in *.
  set (ms := metasize_of (156 + Z.of_nat TPB_RAF_RESERVE_SIZE) (ta_nheader a)).
  assert (HD : D = START TPB_RAF_DOM_TASK ++ le 8 ms ++ le 8 (Z.of_nat (length d)) ++ meta
                   ++ SPLIT TPB_RAF_DOM_TASK ++ d ++ END_ TPB_RAF_DOM_TASK).
  { unfold D, enc_task, enc_prefix, enc_data, meta. by rewrite <- !app_assoc. }
  assert (HL : length D = (24 + length meta + 8 + length d + 8)%nat).
  { rewrite HD, !length_app, !length_le, !length_build_magic. lia. }
  assert (At : ∀ x y z n, D = x ++ y ++ z → length x = n → length y = 8%nat →
                magic_at D (Z.of_nat n) = y).
  { intros x y z n E Hx Hy. unfold magic_at. rewrite E, Nat2Z.id, <- Hx, drop_app_length.
    by rewrite <- Hy, take_app_length. }
  split_and!.
  - lia.
  - apply (At [] _ _ 0%nat HD); done.
  - change 16 with (Z.of_nat 16).
    rewrite (At (START TPB_RAF_DOM_TASK ++ le 8 ms) (le 8 (Z.of_nat (length d)))
               (meta ++ SPLIT TPB_RAF_DOM_TASK ++ d ++ END_ TPB_RAF_DOM_TASK) 16%nat);
      [apply (le_val_le_word 8); unfold is_word; lia|by rewrite HD, <- !app_assoc|
       by rewrite length_app, length_le|apply length_le].
  - split_and!; [lia| |done|lia|].
    + apply (At (START TPB_RAF_DOM_TASK ++ le 8 ms ++ le 8 (Z.of_nat (length d)) ++ meta) _
               (d ++ END_ TPB_RAF_DOM_TASK)); [by rewrite HD, <- !app_assoc| |done].
      rewrite !length_app, !length_le, length_build_magic. lia.
    + replace (p + 8 + Z.of_nat (length d)) with (Z.of_nat (24 + length meta + 8 + length d)) by lia.
      apply (At (START TPB_RAF_DOM_TASK ++ le 8 ms ++ le 8 (Z.of_nat (length d)) ++ meta
                 ++ SPLIT TPB_RAF_DOM_TASK ++ d) _ []); [by rewrite HD, app_nil_r, <- !app_assoc| |done].
      rewrite !length_app, !length_le, !length_build_magic. lia.
Qed.

(** The signatures of a stored task record are delivered, provided the SPLIT
    signature does not occur earlier, inside the attributes or headers. *)
Theorem peek_stored_task ws a d w :
  task_attr_ok a → Z.of_nat (length d) < 2 ^ 59 →
  Z.of_nat (length (task_fields a ++ enc_headers (ta_headers a))) < 2 ^ 60 →
  w_files w !! task_path ws (ta_task_record_id a) = Some (enc_task a d) →
  (∀ q, 24 ≤ q < Z.of_nat (24 + length (task_fields a ++ enc_headers (ta_headers a))) →
        magic_at (enc_task a d) q ≠ SPLIT TPB_RAF_DOM_TASK) →
  tpb_raf_record_peek_magics (Some ws) TPB_RAF_DOM_TASK (Some (ta_task_record_id a)) 0 true w
  = Ok (START TPB_RAF_DOM_TASK, SPLIT TPB_RAF_DOM_TASK, END_ TPB_RAF_DOM_TASK).
Proof.
  intros Ha Hd Hmeta Hfile Hfree.
  destruct (task_layout a d Ha ltac:(lia) Hfree) as (L & Hs & Hds & HL).
  rewrite (peek_magics_eq ws _ _ w (enc_task a d)); [|by right; right|done].
  assert (Hlen : Z.of_nat (length (enc_task a d)) < 2 ^ 61) by lia.
  destruct (peek_spec_cases TPB_RAF_DOM_TASK (enc_task a d) Hlen) as [[-> _]|[_ []]]; [|done|].
  - rewrite Hds. lia.
  - split_and!; [lia|done|]. rewrite Hds. by eexists.
Qed.

Definition peek_sample : bytes := enc_task sample_task (replicate 16 9).

Lemma peek_sample_split :
  first_split TPB_RAF_DOM_TASK peek_sample 24
    (S (length (task_fields sample_task ++ enc_headers (ta_headers sample_task))))
  = Some (Z.of_nat (24 + length (task_fields sample_task ++ enc_headers (ta_headers sample_task)))).
Proof. vm_compute. reflexivity. Qed.

Definition peek_world : world :=
  mkWorld {[ task_path $"/w" (replicate 20 1) := peek_sample ]} (λ _, true) 10000 4096 (λ _, true).

Lemma peek_stored_task_witness :
  tpb_raf_record_peek_magics (Some $"/w") TPB_RAF_DOM_TASK (Some (ta_task_record_id sample_task)) 0
    true peek_world
  = Ok (START TPB_RAF_DOM_TASK, SPLIT TPB_RAF_DOM_TASK, END_ TPB_RAF_DOM_TASK).
Proof.
  apply (peek_stored_task $"/w" sample_task (replicate 16 9) peek_world).
  - apply sample_task_ok.
  - vm_compute. reflexivity.
  - vm_compute. reflexivity.
  - apply lookup_singleton_eq.
  - intros q Hq. pose proof peek_sample_split as H. apply first_split_Some in H as (_ & _ & H).
    exact (H q Hq).
Defined.

Lemma peek_magics_iff_witness :
  tpb_raf_record_peek_magics (Some $"/w") TPB_RAF_DOM_TASK (Some (replicate 20 1)) 0 true
    (mkWorld {[ task_path $"/w" (replicate 20 1)
                := START TPB_RAF_DOM_TASK ++ le 8 7 ++ le 8 1 ++ [9] ++ SPLIT TPB_RAF_DOM_TASK
                   ++ [5] ++ END_ TPB_RAF_DOM_TASK ]} (λ _, true) 10000 4096 (λ _, true))
  = Ok (START TPB_RAF_DOM_TASK, SPLIT TPB_RAF_DOM_TASK, END_ TPB_RAF_DOM_TASK).
Proof.
  eapply peek_magics_iff.
  - by right; right.
  - apply lookup_singleton_eq.
  - repeat constructor; vm_compute; congruence.
  - vm_compute. reflexivity.
  - vm_compute. reflexivity.
  - split_and!.
    + apply Nat.leb_le. vm_compute. reflexivity.
    + vm_compute. reflexivity.
    + exists 25. split_and!; [lia|vm_compute; reflexivity| |vm_compute; discriminate|
        vm_compute; reflexivity].
      intros q Hq. assert (q = 24) as -> by lia. vm_compute. discriminate.
Defined.
