(* ===== verification/RafTbatch.v ===== *)
(** * Record database, layer 2: task-batch records

    [src/corelib/rafdb/rafdb-l2-tbatch.c]: the registry rows, the [.tpbr] writer
    and reader, and the in-place update of the counters of an existing record. *)

From S2P Require Import Prelude Errors CLib FileIO RafBase RafHeader RafEntry RafRecord.
From stdpp Require Import options.

Record tbatch_attr := mkTbatchAttr {
  tb_tbatch_id : bytes;
  tb_derive_to : bytes;
  tb_inherit_from : bytes;
  tb_utc_bits : Z;
  tb_btime : Z;
  tb_duration : Z;
  tb_hostname : bytes;      (* char[64] *)
  tb_username : bytes;      (* char[64] *)
  tb_front_pid : Z;
  tb_nkernel : Z;
  tb_ntask : Z;
  tb_nscore : Z;
  tb_batch_type : Z;
  tb_nheader : Z;
  tb_headers : list tpb_meta_header;
}.

Definition sizeof_tbatch_entry : Z := 264.
Definition TPB_RAF_TBATCH_FILE_OFF_DURATION : Z := 100.
Definition TPB_RAF_TBATCH_FILE_OFF_NKERNEL : Z := 240.
Definition TPB_RAF_TBATCH_FILE_OFF_NTASK : Z := 244.

(** ** Registry *)

Definition tpb_raf_entry_append_tbatch (env : fd_env) (workspace entry : option bytes)
  (w : world) : outcome unit * world :=
  match workspace, entry with
  | Some ws, Some e =>
      let '(r, w') := _tpb_raf_l1_entry_append env ws TPB_RAF_DOM_TBATCH e w in
      (TPB_PROPAGATE TPB_MOD_RAF_L2_TBATCH r, w')
  | _, _ => (TPB_FAIL TPB_MOD_RAF_L2_TBATCH TPBE_NULLPTR_ARG, w)
  end.

Definition tpb_raf_entry_list_tbatch (workspace : option bytes) (entries count : bool)
  (w : world) : outcome (option bytes * Z) :=
  match workspace, entries, count with
  | Some ws, true, true =>
      TPB_PROPAGATE TPB_MOD_RAF_L2_TBATCH
        (_tpb_raf_l1_entry_list ws TPB_RAF_DOM_TBATCH sizeof_tbatch_entry w)
  | _, _, _ => TPB_FAIL TPB_MOD_RAF_L2_TBATCH TPBE_NULLPTR_ARG
  end.

(** ** Writing *)

Definition write_tbatch_body (attr : tbatch_attr) (data : option bytes) (datasize : Z)
  : IO unit :=
  write_prefix TPB_RAF_DOM_TBATCH
    (metasize_of (236 + Z.of_nat TPB_RAF_RESERVE_SIZE) (tb_nheader attr)) datasize;;
  fwrite (tb_tbatch_id attr);;
  fwrite (tb_derive_to attr);;
  fwrite (tb_inherit_from attr);;
  _tpb_raf_l1_write_u64 (tb_utc_bits attr);;
  _tpb_raf_l1_write_u64 (tb_btime attr);;
  _tpb_raf_l1_write_u64 (tb_duration attr);;
  fwrite (tb_hostname attr);;
  fwrite (tb_username attr);;
  _tpb_raf_l1_write_u32 (tb_front_pid attr);;
  _tpb_raf_l1_write_u32 (tb_nkernel attr);;
  _tpb_raf_l1_write_u32 (tb_ntask attr);;
  _tpb_raf_l1_write_u32 (tb_nscore attr);;
  _tpb_raf_l1_write_u32 (tb_batch_type attr);;
  _tpb_raf_l1_write_u32 (tb_nheader attr);;
  write_reserve TPB_RAF_RESERVE_SIZE;;
  write_attr_headers (tb_nheader attr) (tb_headers attr);;
  _tpb_raf_l1_write_magic_and_data TPB_RAF_DOM_TBATCH data datasize.

Definition tpb_raf_record_write_tbatch (workspace : option bytes) (attr : option tbatch_attr)
  (data : option bytes) (datasize : Z) (w : world) : outcome unit * world :=
  match workspace, attr with
  | Some ws, Some a =>
      let fpath := _tpb_raf_l1_build_record_path ws TPB_RAF_DOM_TBATCH (tb_tbatch_id a)
                     TPB_RAF_PATH_MAX in
      write_record (TPB_FAIL TPB_MOD_RAF_L2_TBATCH TPBE_FILE_IO_FAIL) fpath
        (write_tbatch_body a data datasize) w
  | _, _ => (TPB_FAIL TPB_MOD_RAF_L2_TBATCH TPBE_NULLPTR_ARG, w)
  end.

(** ** Reading *)

Definition read_tbatch_body (alloc : Z → bool) (want : bool)
  : IO (tbatch_attr * option bytes * Z) :=
  '(metasize, ds) ← read_prefix TPB_RAF_DOM_TBATCH;
  tbatch_id ← fread 20;
  derive_to ← fread 20;
  inherit_from ← fread 20;
  utc_bits ← _tpb_raf_l1_read_u64;
  btime ← _tpb_raf_l1_read_u64;
  duration ← _tpb_raf_l1_read_u64;
  hostname ← fread 64;
  username ← fread 64;
  front_pid ← _tpb_raf_l1_read_u32;
  nkernel ← _tpb_raf_l1_read_u32;
  ntask ← _tpb_raf_l1_read_u32;
  nscore ← _tpb_raf_l1_read_u32;
  batch_type ← _tpb_raf_l1_read_u32;
  nheader ← _tpb_raf_l1_read_u32;
  read_reserve TPB_RAF_RESERVE_SIZE;;
  headers ← read_attr_headers alloc nheader;
  data ← read_tail alloc TPB_RAF_DOM_TBATCH want ds;
  mret (mkTbatchAttr tbatch_id derive_to inherit_from utc_bits btime duration hostname username
          front_pid nkernel ntask nscore batch_type nheader headers, data, ds).

Definition tpb_raf_record_read_tbatch (workspace tbatch_id : option bytes) (attr outs : bool)
  (w : world) : outcome (tbatch_attr * option bytes * Z) :=
  match workspace, tbatch_id, attr with
  | Some ws, Some id, true =>
      let fpath := _tpb_raf_l1_build_record_path ws TPB_RAF_DOM_TBATCH id TPB_RAF_PATH_MAX in
      read_record (TPB_FAIL TPB_MOD_RAF_L2_TBATCH TPBE_FILE_IO_FAIL) fpath
        (read_tbatch_body (w_malloc w) outs) w
  | _, _, _ => TPB_FAIL TPB_MOD_RAF_L2_TBATCH TPBE_NULLPTR_ARG
  end.

(** ** Patching the counters *)

(** The statements between the lock and the unlock, on the unbuffered stream. *)
Definition patch_counters_body (duration nkernel ntask : Z) : IO unit :=
  expect_magic TPB_RAF_DOM_TBATCH TPB_RAF_POS_START;;
  fseek_set TPB_RAF_TBATCH_FILE_OFF_DURATION;;
  _tpb_raf_l1_write_u64 duration;;
  fseek_set TPB_RAF_TBATCH_FILE_OFF_NKERNEL;;
  _tpb_raf_l1_write_u32 nkernel;;
  _tpb_raf_l1_write_u32 ntask;;
  fflush_io.

(** [lock_ok]: the answer of [fcntl(F_SETLKW)]. *)
Definition tpb_raf_record_patch_tbatch_counters (lock_ok : bool)
  (workspace tbatch_id : option bytes) (duration nkernel ntask : Z) (w : world)
  : outcome unit * world :=
  match workspace, tbatch_id with
  | Some ws, Some id =>
      let io_err := TPB_FAIL TPB_MOD_RAF_L2_TBATCH TPBE_FILE_IO_FAIL in
      let fpath := _tpb_raf_l1_build_record_path ws TPB_RAF_DOM_TBATCH id TPB_RAF_PATH_MAX in
      match fopen_rpb fpath w with
      | None => (io_err, w)
      | Some fp =>
          let fp := set_unbuffered fp in
          if negb lock_ok then (io_err, set_file fpath (snd (fclose fp)) w)
          else run_close fpath io_err (patch_counters_body duration nkernel ntask) fp w
      end
  | _, _ => (TPB_FAIL TPB_MOD_RAF_L2_TBATCH TPBE_NULLPTR_ARG, w)
  end.

(** ** The format *)

Record tbatch_attr_ok (a : tbatch_attr) : Prop := {
  bk_id : id_ok (tb_tbatch_id a);
  bk_derive : length (tb_derive_to a) = 20%nat;
  bk_inherit : length (tb_inherit_from a) = 20%nat;
  bk_utc : is_u64 (tb_utc_bits a);
  bk_btime : is_u64 (tb_btime a);
  bk_duration : is_u64 (tb_duration a);
  bk_hostname : length (tb_hostname a) = 64%nat;
  bk_username : length (tb_username a) = 64%nat;
  bk_front_pid : is_u32 (tb_front_pid a);
  bk_nkernel : is_u32 (tb_nkernel a);
  bk_ntask : is_u32 (tb_ntask a);
  bk_nscore : is_u32 (tb_nscore a);
  bk_batch_type : is_u32 (tb_batch_type a);
  bk_headers : headers_ok (tb_nheader a) (tb_headers a);
}.

(** The bytes before the duration, between it and the counters, and after. *)
Definition tbatch_part1 (a : tbatch_attr) (ds : Z) : bytes :=
  enc_prefix TPB_RAF_DOM_TBATCH
    (metasize_of (236 + Z.of_nat TPB_RAF_RESERVE_SIZE) (tb_nheader a)) ds
  ++ tb_tbatch_id a ++ tb_derive_to a ++ tb_inherit_from a
  ++ le 8 (tb_utc_bits a) ++ le 8 (tb_btime a).
Definition tbatch_part2 (a : tbatch_attr) : bytes :=
  tb_hostname a ++ tb_username a ++ le 4 (tb_front_pid a).
Definition tbatch_part3 (a : tbatch_attr) (d : bytes) : bytes :=
  le 4 (tb_nscore a) ++ le 4 (tb_batch_type a) ++ le 4 (tb_nheader a)
  ++ replicate TPB_RAF_RESERVE_SIZE 0 ++ enc_headers (tb_headers a)
  ++ enc_data TPB_RAF_DOM_TBATCH d.

Definition enc_tbatch (a : tbatch_attr) (d : bytes) : bytes :=
  tbatch_part1 a (Z.of_nat (length d)) ++ le 8 (tb_duration a)
  ++ tbatch_part2 a ++ (le 4 (tb_nkernel a) ++ le 4 (tb_ntask a)) ++ tbatch_part3 a d.

Definition stored_tbatch (a : tbatch_attr) : tbatch_attr :=
  mkTbatchAttr (tb_tbatch_id a) (tb_derive_to a) (tb_inherit_from a) (tb_utc_bits a) (tb_btime a)
    (tb_duration a) (tb_hostname a) (tb_username a) (tb_front_pid a) (tb_nkernel a) (tb_ntask a)
    (tb_nscore a) (tb_batch_type a) (tb_nheader a) (map stored_header (tb_headers a)).

Lemma emits_tbatch a data ds :
  tbatch_attr_ok a → data_ok data ds →
  emits (write_tbatch_body a data ds) (enc_tbatch a (default [] data)) tt.
Proof.
  intros [] Hd. destruct (Hd) as [Hds _].
  unfold write_tbatch_body, enc_tbatch, tbatch_part1, tbatch_part2, tbatch_part3.
  rewrite <- !app_assoc, Hds. do 17 codec_emit. apply emits_magic_and_data. by rewrite <- Hds.
Qed.

Lemma decodes_tbatch alloc want a d :
  tbatch_attr_ok a → headers_alloc alloc (tb_nheader a) → Z.of_nat (length d) < 2 ^ 63 →
  (want = true → 0 < Z.of_nat (length d) → alloc (Z.of_nat (length d)) = true) →
  decodes (read_tbatch_body alloc want) (enc_tbatch a d)
          (stored_tbatch a, delivered want d, Z.of_nat (length d)).
Proof.
  intros [[Hid _]] Hal Hd Hald. destruct (bk_headers0) as [Hn Hn32 _].
  unfold read_tbatch_body, enc_tbatch, tbatch_part1, tbatch_part2, tbatch_part3.
  rewrite <- !app_assoc. eapply decodes_bind.
  { apply decodes_prefix; [by apply metasize_u64|unfold is_word; lia]. }
  cbn beta iota. do 16 codec_decode. rewrite <- (app_nil_r (enc_data _ _)).
  codec_decode. apply decodes_ret.
Qed.

#[export] Instance tbatch_format : RecordFormat tbatch_attr := {|
  rec_domain := TPB_RAF_DOM_TBATCH;
  rec_id := tb_tbatch_id;
  rec_write := write_tbatch_body;
  rec_read := read_tbatch_body;
  rec_ok := tbatch_attr_ok;
  rec_alloc := λ alloc a, headers_alloc alloc (tb_nheader a);
  rec_enc := enc_tbatch;
  rec_stored := stored_tbatch;
  rec_emits := emits_tbatch;
  rec_decodes := decodes_tbatch;
|}.

Lemma stored_tbatch_canonical a :
  Forall header_canonical (tb_headers a) → stored_tbatch a = a.
Proof. intros H. unfold stored_tbatch. rewrite stored_headers_canonical by done. by destruct a. Qed.

(** The attributes with the three counters replaced. *)
Definition with_counters (a : tbatch_attr) (duration nkernel ntask : Z) : tbatch_attr :=
  mkTbatchAttr (tb_tbatch_id a) (tb_derive_to a) (tb_inherit_from a) (tb_utc_bits a) (tb_btime a)
    duration (tb_hostname a) (tb_username a) (tb_front_pid a) nkernel ntask
    (tb_nscore a) (tb_batch_type a) (tb_nheader a) (tb_headers a).

Lemma length_tbatch_part1 a ds : tbatch_attr_ok a → length (tbatch_part1 a ds) = 100%nat.
Proof.
  intros [[Hid _]]. unfold tbatch_part1, enc_prefix.
  rewrite !length_app, !length_le, Hid, bk_derive0, bk_inherit0. done.
Qed.

Lemma length_tbatch_part2 a : tbatch_attr_ok a → length (tbatch_part2 a) = 132%nat.
Proof. intros []. unfold tbatch_part2. rewrite !length_app, length_le. lia. Qed.

(** The update rewrites exactly the three fields in place. *)
Lemma patch_counters_run a d duration nkernel ntask c :
  tbatch_attr_ok a → (length (enc_tbatch a d) ≤ c)%nat →
  ∃ f', patch_counters_body duration nkernel ntask (mkFILE (enc_tbatch a d) [] 0 0 0 c) = (Ok tt, f')
    ∧ snd (fclose f') = enc_tbatch (with_counters a duration nkernel ntask) d.
Proof.
  intros Ha Hc. set (D := enc_tbatch a d) in *.
  pose proof (length_tbatch_part1 a (Z.of_nat (length d)) Ha) as H1.
  pose proof (length_tbatch_part2 a Ha) as H2.
  assert (Hlen : (248 ≤ length D)%nat).
  { unfold D, enc_tbatch. rewrite !length_app, H1, H2, !length_le. lia. }
  unfold patch_counters_body.
  destruct (decodes_step _ _ _ (mkFILE D [] 0 0 0 c) (drop 8 D)
    (decodes_expect_magic TPB_RAF_DOM_TBATCH TPB_RAF_POS_START))
    as (f1 & (Hb1 & Hd1 & Hc1 & Hz1) & _ & ->); [done|done|].
  destruct f1 as [d1 b1 o1 p1 z1 c1]. unfold reading in Hb1.
  cbn [f_disk f_buf f_bufsz f_cap] in *. subst.
  unfold mbind, IO_bind.
  change TPB_RAF_TBATCH_FILE_OFF_DURATION with (Z.of_nat 100).
  change TPB_RAF_TBATCH_FILE_OFF_NKERNEL with (Z.of_nat 240).
  unfold _tpb_raf_l1_write_u64, _tpb_raf_l1_write_u32.
  rewrite fseek_set_clean by done. cbn [f_disk f_bufsz f_cap].
  rewrite fwrite_unbuffered by (done || (rewrite length_le; lia)).
  rewrite fseek_set_clean by done. cbn [f_disk f_bufsz f_cap].
  rewrite fwrite_unbuffered by (done || (rewrite length_le; lia)).
  rewrite fwrite_unbuffered by (done || (rewrite !length_le; lia)).
  unfold fflush_io. rewrite fflush_clean by done. eexists. split; [reflexivity|].
  unfold fclose. rewrite fflush_clean by done. cbn [fst snd f_disk].
  unfold D, enc_tbatch.
  rewrite (overlay_middle (tbatch_part1 a _) (le 8 _)) by (rewrite ?length_le; done).
  rewrite overlay_overlay.
  2:{ rewrite !length_app, H1, H2, !length_le. lia. }
  rewrite (app_assoc (tbatch_part1 _ _)), (app_assoc (_ ++ _) (tbatch_part2 a)).
  rewrite overlay_middle by (rewrite ?length_app, ?H1, ?H2, ?length_le; done).
  rewrite <- !app_assoc. done.
Qed.

(** ** Properties *)

Abbreviation tbatch_path ws id :=
  (_tpb_raf_l1_build_record_path ws TPB_RAF_DOM_TBATCH id TPB_RAF_PATH_MAX).

(** C9: the round trip of a task-batch record, as for tasks: only the
    record's file changes, a record that fits is read back exactly, and one that
    does not fit is never delivered. *)
Theorem tbatch_record_roundtrip ws a data ds want w :
  tbatch_attr_ok a → data_ok data ds → w_can_write w (tbatch_path ws (tb_tbatch_id a)) = true →
  (∀ n, w_malloc w n = true) →
  let '(r, w') := tpb_raf_record_write_tbatch (Some ws) (Some a) data ds w in
  (record_fits a data w → r = Ok tt)
  ∧ (r = Ok tt ∨ r = TPB_FAIL TPB_MOD_RAF_L2_TBATCH TPBE_FILE_IO_FAIL)
  ∧ w_files w' = <[tbatch_path ws (tb_tbatch_id a) := take (w_cap w) (enc_tbatch a (default [] data))]>
                   (w_files w)
  ∧ tpb_raf_record_read_tbatch (Some ws) (Some (tb_tbatch_id a)) true want w'
    = (if decide (record_fits a data w)
       then Ok (stored_tbatch a, delivered want (default [] data), ds)
       else TPB_FAIL TPB_MOD_RAF_L2_TBATCH TPBE_FILE_IO_FAIL)
  ∧ (Forall header_canonical (tb_headers a) → stored_tbatch a = a).
Proof.
  intros Ha Hd Hw Hm. unfold tpb_raf_record_write_tbatch, tpb_raf_record_read_tbatch.
 unfold TPB_FAIL.
  destruct (write_record_eq (fmt := tbatch_format)
    (tpb_report_error_at TPB_MOD_RAF_L2_TBATCH TPBE_FILE_IO_FAIL) _ a data ds w Ha Hd Hw)
    as (r & E & Hr).
  cbn [rec_write tbatch_format] in E. rewrite E. split_and!.
  - destruct Hr as [->|[-> ?]]; done.
  - destruct Hr as [->|[-> _]]; auto.
  - done.
  - apply (read_record_eq (fmt := tbatch_format)); try done; [intros ?; apply Hm|].
    cbn [w_files set_file]. by rewrite lookup_insert_eq.
  - apply stored_tbatch_canonical.
Qed.

Definition sample_tbatch : tbatch_attr :=
  mkTbatchAttr (replicate 20 1) (replicate 20 0) (replicate 20 0) 1 2 3
    (replicate 64 0) (replicate 64 0) 100 0 0 0 0 0 [].

Lemma sample_tbatch_ok : tbatch_attr_ok sample_tbatch.
Proof.
  split; try (vm_compute; split; congruence); try reflexivity.
  - split; [reflexivity|]. by repeat constructor.
  - split; [reflexivity|vm_compute; split; congruence|constructor].
Qed.

Definition tbatch_world : world := mkWorld ∅ (λ _, true) 1000 4096 (λ _, true).

Lemma tbatch_record_roundtrip_witness :
  tpb_raf_record_read_tbatch (Some $"/w") (Some (replicate 20 1)) true true
    (snd (tpb_raf_record_write_tbatch (Some $"/w") (Some sample_tbatch) (Some [5]) 1 tbatch_world))
  = Ok (sample_tbatch, Some [5], 1).
Proof.
  pose proof (tbatch_record_roundtrip $"/w" sample_tbatch (Some [5]) 1 true tbatch_world
    sample_tbatch_ok ltac:(by split) eq_refl (λ _, eq_refl)) as H.
  revert H. destruct (tpb_raf_record_write_tbatch _ _ _ _ _) as [r w'].
  intros (_ & _ & _ & H & _). change (tb_tbatch_id sample_tbatch) with (replicate 20 1) in H.
  cbn [snd]. rewrite H.
  destruct (decide _) as [_|Hn]; [reflexivity|]. exfalso. apply Hn. vm_compute. lia.
Defined.

(** C5: patching the counters of a stored batch succeeds and turns its file into
    the file of the same batch with the three counters replaced: a later read
    returns the new counters with every other attribute, header and data byte
    unchanged. *)
Theorem patch_counters_correct ws a d duration nkernel ntask want w :
  let id := tb_tbatch_id a in let p := tbatch_path ws id in
  tbatch_attr_ok a → is_u64 duration → is_u32 nkernel → is_u32 ntask →
  Z.of_nat (length d) < 2 ^ 63 → (∀ n, w_malloc w n = true) →
  w_can_write w p = true → w_files w !! p = Some (enc_tbatch a d) →
  (length (enc_tbatch a d) ≤ w_cap w)%nat →
  let '(r, w') := tpb_raf_record_patch_tbatch_counters true (Some ws) (Some id)
                    duration nkernel ntask w in
  r = Ok tt
  ∧ w_files w' = <[p := enc_tbatch (with_counters a duration nkernel ntask) d]> (w_files w)
  ∧ tpb_raf_record_read_tbatch (Some ws) (Some id) true want w'
    = Ok (with_counters (stored_tbatch a) duration nkernel ntask, delivered want d,
          Z.of_nat (length d)).
Proof.
  intros id p Ha Hdur Hnk Hnt Hd Hm Hw Hp Hcap.
  unfold tpb_raf_record_patch_tbatch_counters, tpb_raf_record_read_tbatch.
  unfold p, id in *. clear p id. unfold fopen_rpb. rewrite Hp. cbn [mbind option_bind].
  rewrite Hw. cbn [negb]. unfold run_close, set_unbuffered, open_on.
  cbn [f_disk f_buf f_boff f_pos f_cap].
  destruct (patch_counters_run a d duration nkernel ntask (w_cap w) Ha Hcap) as (f' & -> & Hfc).
  rewrite Hfc. split; [done|]. split; [done|].
  set (a' := with_counters a duration nkernel ntask).
  assert (Ha' : tbatch_attr_ok a') by (destruct Ha; by split).
  change (with_counters (stored_tbatch a) duration nkernel ntask) with (stored_tbatch a').
  unfold read_record, fopen_rb. cbn [w_files set_file w_malloc]. rewrite lookup_insert_eq.
  cbn [mbind option_bind]. erewrite decodes_open; [done|].
  apply decodes_tbatch; [done|intros ?; apply Hm|done|intros _ _; apply Hm].
Qed.

Lemma patch_counters_correct_witness :
  let w := set_file (tbatch_path $"/w" (replicate 20 1)) (enc_tbatch sample_tbatch [5]) tbatch_world in
  tpb_raf_record_read_tbatch (Some $"/w") (Some (replicate 20 1)) true true
    (snd (tpb_raf_record_patch_tbatch_counters true (Some $"/w") (Some (replicate 20 1)) 99 2 7 w))
  = Ok (with_counters sample_tbatch 99 2 7, Some [5], 1).
Proof.
  intros w.
  assert (Hcap : (length (enc_tbatch sample_tbatch [5%Z]) ≤ w_cap w)%nat) by (vm_compute; lia).
  pose proof (patch_counters_correct $"/w" sample_tbatch [5] 99 2 7 true w sample_tbatch_ok
    ltac:(by vm_compute) ltac:(by vm_compute) ltac:(by vm_compute) ltac:(by vm_compute)
    (λ _, eq_refl) eq_refl (lookup_insert_eq _ _ _) Hcap) as H.
  change (tb_tbatch_id sample_tbatch) with (replicate 20 1) in H. revert H.
  destruct (tpb_raf_record_patch_tbatch_counters _ _ _ _ _ _ _) as [r w'].
  intros (_ & _ & H). exact H.
Defined.
