(* ===== verification/RafKernel.v ===== *)
(** * Record database, layer 2: kernel records

    [src/corelib/rafdb/rafdb-l2-kernel.c]: the registry rows, the [.tpbr] writer
    and reader, and what the [metasize] field of the three domains says about the
    size of the meta section. *)

From S2P Require Import Prelude Errors CLib FileIO RafBase RafHeader RafEntry RafRecord.
From S2P Require Import RafTask RafTbatch.
From stdpp Require Import options.

Record kernel_attr := mkKernelAttr {
  ka_kernel_id : bytes;
  ka_derive_to : bytes;
  ka_inherit_from : bytes;
  ka_kernel_name : bytes;    (* char[256] *)
  ka_version : bytes;        (* char[64] *)
  ka_description : bytes;    (* char[2048] *)
  ka_narg : Z;
  ka_nmetric : Z;
  ka_kctrl : Z;
  ka_nheader : Z;
  ka_active : Z;
  ka_utc_bits : Z;
  ka_headers : list tpb_meta_header;
}.

Definition sizeof_kernel_entry : Z := 264.

(** ** Registry *)

Definition tpb_raf_entry_append_kernel (env : fd_env) (workspace entry : option bytes)
  (w : world) : outcome unit * world :=
  match workspace, entry with
  | Some ws, Some e =>
      let '(r, w') := _tpb_raf_l1_entry_append env ws TPB_RAF_DOM_KERNEL e w in
      (TPB_PROPAGATE TPB_MOD_RAF_L2_KERNEL r, w')
  | _, _ => (TPB_FAIL TPB_MOD_RAF_L2_KERNEL TPBE_NULLPTR_ARG, w)
  end.

Definition tpb_raf_entry_list_kernel (workspace : option bytes) (entries count : bool)
  (w : world) : outcome (option bytes * Z) :=
  match workspace, entries, count with
  | Some ws, true, true =>
      TPB_PROPAGATE TPB_MOD_RAF_L2_KERNEL
        (_tpb_raf_l1_entry_list ws TPB_RAF_DOM_KERNEL sizeof_kernel_entry w)
  | _, _, _ => TPB_FAIL TPB_MOD_RAF_L2_KERNEL TPBE_NULLPTR_ARG
  end.

(** ** Writing *)

Definition kernel_fixed_meta : Z := 2448 + Z.of_nat TPB_RAF_KERNEL_ATTR_RESERVE.

Definition write_kernel_body (attr : kernel_attr) (data : option bytes) (datasize : Z)
  : IO unit :=
  write_prefix TPB_RAF_DOM_KERNEL (metasize_of kernel_fixed_meta (ka_nheader attr)) datasize;;
  fwrite (ka_kernel_id attr);;
  fwrite (ka_derive_to attr);;
  fwrite (ka_inherit_from attr);;
  fwrite (ka_kernel_name attr);;
  fwrite (ka_version attr);;
  fwrite (ka_description attr);;
  _tpb_raf_l1_write_u32 (ka_narg attr);;
  _tpb_raf_l1_write_u32 (ka_nmetric attr);;
  _tpb_raf_l1_write_u32 (ka_kctrl attr);;
  _tpb_raf_l1_write_u32 (ka_nheader attr);;
  _tpb_raf_l1_write_u32 (ka_active attr);;
  _tpb_raf_l1_write_u64 (ka_utc_bits attr);;
  write_reserve TPB_RAF_KERNEL_ATTR_RESERVE;;
  write_attr_headers (ka_nheader attr) (ka_headers attr);;
  _tpb_raf_l1_write_magic_and_data TPB_RAF_DOM_KERNEL data datasize.

Definition tpb_raf_record_write_kernel (workspace : option bytes) (attr : option kernel_attr)
  (data : option bytes) (datasize : Z) (w : world) : outcome unit * world :=
  match workspace, attr with
  | Some ws, Some a =>
      let fpath := _tpb_raf_l1_build_record_path ws TPB_RAF_DOM_KERNEL (ka_kernel_id a)
                     TPB_RAF_PATH_MAX in
      write_record (TPB_FAIL TPB_MOD_RAF_L2_KERNEL TPBE_FILE_IO_FAIL) fpath
        (write_kernel_body a data datasize) w
  | _, _ => (TPB_FAIL TPB_MOD_RAF_L2_KERNEL TPBE_NULLPTR_ARG, w)
  end.

(** ** Reading *)

Definition read_kernel_body (alloc : Z → bool) (want : bool)
  : IO (kernel_attr * option bytes * Z) :=
  '(metasize, ds) ← read_prefix TPB_RAF_DOM_KERNEL;
  kernel_id ← fread 20;
  derive_to ← fread 20;
  inherit_from ← fread 20;
  kernel_name ← fread 256;
  version ← fread 64;
  description ← fread 2048;
  narg ← _tpb_raf_l1_read_u32;
  nmetric ← _tpb_raf_l1_read_u32;
  kctrl ← _tpb_raf_l1_read_u32;
  nheader ← _tpb_raf_l1_read_u32;
  active ← _tpb_raf_l1_read_u32;
  utc_bits ← _tpb_raf_l1_read_u64;
  read_reserve TPB_RAF_KERNEL_ATTR_RESERVE;;
  headers ← read_attr_headers alloc nheader;
  data ← read_tail alloc TPB_RAF_DOM_KERNEL want ds;
  mret (mkKernelAttr kernel_id derive_to inherit_from kernel_name version description narg
          nmetric kctrl nheader active utc_bits headers, data, ds).

Definition tpb_raf_record_read_kernel (workspace kernel_id : option bytes) (attr outs : bool)
  (w : world) : outcome (kernel_attr * option bytes * Z) :=
  match workspace, kernel_id, attr with
  | Some ws, Some id, true =>
      let fpath := _tpb_raf_l1_build_record_path ws TPB_RAF_DOM_KERNEL id TPB_RAF_PATH_MAX in
      read_record (TPB_FAIL TPB_MOD_RAF_L2_KERNEL TPBE_FILE_IO_FAIL) fpath
        (read_kernel_body (w_malloc w) outs) w
  | _, _, _ => TPB_FAIL TPB_MOD_RAF_L2_KERNEL TPBE_NULLPTR_ARG
  end.

(** ** The format *)

Record kernel_attr_ok (a : kernel_attr) : Prop := {
  kk_id : id_ok (ka_kernel_id a);
  kk_derive : length (ka_derive_to a) = 20%nat;
  kk_inherit : length (ka_inherit_from a) = 20%nat;
  kk_name : length (ka_kernel_name a) = 256%nat;
  kk_version : length (ka_version a) = 64%nat;
  kk_description : length (ka_description a) = 2048%nat;
  kk_narg : is_u32 (ka_narg a);
  kk_nmetric : is_u32 (ka_nmetric a);
  kk_kctrl : is_u32 (ka_kctrl a);
  kk_active : is_u32 (ka_active a);
  kk_utc : is_u64 (ka_utc_bits a);
  kk_headers : headers_ok (ka_nheader a) (ka_headers a);
}.

(** The fixed part of the meta section: attributes and reserve. *)
Definition kernel_fields (a : kernel_attr) : bytes :=
  ka_kernel_id a ++ ka_derive_to a ++ ka_inherit_from a ++ ka_kernel_name a ++ ka_version a
  ++ ka_description a ++ le 4 (ka_narg a) ++ le 4 (ka_nmetric a) ++ le 4 (ka_kctrl a)
  ++ le 4 (ka_nheader a) ++ le 4 (ka_active a) ++ le 8 (ka_utc_bits a)
  ++ replicate TPB_RAF_KERNEL_ATTR_RESERVE 0.

Definition enc_kernel (a : kernel_attr) (d : bytes) : bytes :=
  enc_prefix TPB_RAF_DOM_KERNEL (metasize_of kernel_fixed_meta (ka_nheader a))
    (Z.of_nat (length d))
  ++ kernel_fields a ++ enc_headers (ka_headers a) ++ enc_data TPB_RAF_DOM_KERNEL d.

Definition stored_kernel (a : kernel_attr) : kernel_attr :=
  mkKernelAttr (ka_kernel_id a) (ka_derive_to a) (ka_inherit_from a) (ka_kernel_name a)
    (ka_version a) (ka_description a) (ka_narg a) (ka_nmetric a) (ka_kctrl a) (ka_nheader a)
    (ka_active a) (ka_utc_bits a) (map stored_header (ka_headers a)).

Lemma emits_kernel a data ds :
  kernel_attr_ok a → data_ok data ds →
  emits (write_kernel_body a data ds) (enc_kernel a (default [] data)) tt.
Proof.
  intros [] Hd. destruct (Hd) as [Hds _]. unfold write_kernel_body, enc_kernel, kernel_fields.
  rewrite <- !app_assoc, Hds. do 15 codec_emit. apply emits_magic_and_data. by rewrite <- Hds.
Qed.

Lemma decodes_kernel alloc want a d :
  kernel_attr_ok a → headers_alloc alloc (ka_nheader a) → Z.of_nat (length d) < 2 ^ 63 →
  (want = true → 0 < Z.of_nat (length d) → alloc (Z.of_nat (length d)) = true) →
  decodes (read_kernel_body alloc want) (enc_kernel a d)
          (stored_kernel a, delivered want d, Z.of_nat (length d)).
Proof.
  intros [[Hid _]] Hal Hd Hald. destruct (kk_headers0) as [Hn Hn32 _].
  unfold read_kernel_body, enc_kernel, kernel_fields. rewrite <- !app_assoc.
  eapply decodes_bind.
  { apply decodes_prefix; [by apply metasize_u64|unfold is_word; lia]. }
  cbn beta iota. do 14 codec_decode. rewrite <- (app_nil_r (enc_data _ _)).
  codec_decode. apply decodes_ret.
Qed.

#[export] Instance kernel_format : RecordFormat kernel_attr := {|
  rec_domain := TPB_RAF_DOM_KERNEL;
  rec_id := ka_kernel_id;
  rec_write := write_kernel_body;
  rec_read := read_kernel_body;
  rec_ok := kernel_attr_ok;
  rec_alloc := λ alloc a, headers_alloc alloc (ka_nheader a);
  rec_enc := enc_kernel;
  rec_stored := stored_kernel;
  rec_emits := emits_kernel;
  rec_decodes := decodes_kernel;
|}.

Lemma stored_kernel_canonical a :
  Forall header_canonical (ka_headers a) → stored_kernel a = a.
Proof. intros H. unfold stored_kernel. rewrite stored_headers_canonical by done. by destruct a. Qed.

(** ** The meta section and the [metasize] field *)

(** Bytes a header with fewer than seven dimensions does not use. *)
Definition header_slack (h : tpb_meta_header) : Z := 72 * (7 - h_ndim h).
Definition headers_slack (hs : list tpb_meta_header) : Z :=
  foldr (λ h a, header_slack h + a) 0 hs.

Lemma length_enc_headers hs :
  Forall header_ok hs →
  Z.of_nat (length (enc_headers hs)) + headers_slack hs = 3096 * Z.of_nat (length hs).
Proof.
  induction 1 as [|h hs Hh _ IH]; [done|].
  change (enc_headers (h :: hs)) with (enc_header h ++ enc_headers hs).
  rewrite length_app, Nat2Z.inj_add, (length_enc_header h Hh).
  cbn [headers_slack foldr length]. fold (headers_slack hs).
  unfold header_slack. lia.
Qed.

Lemma metasize_plain fixed n hs :
  headers_ok n hs → n * TPB_RAF_HDR_FIXED_SIZE < 2 ^ 32 →
  metasize_of fixed n = fixed + Z.of_nat (length (enc_headers hs)) + headers_slack hs.
Proof.
  intros [Hn Hn32 Hall] Hlt. unfold metasize_of, is_word in *. pose proof (length_enc_headers hs Hall) as Hl.
  rewrite wrap_small by (unfold is_word, TPB_RAF_HDR_FIXED_SIZE in *; lia).
  unfold TPB_RAF_HDR_FIXED_SIZE in *. lia.
Qed.

(** ** Properties *)

Abbreviation kernel_path ws id :=
  (_tpb_raf_l1_build_record_path ws TPB_RAF_DOM_KERNEL id TPB_RAF_PATH_MAX).

(** C10: the round trip of a kernel record, as for tasks. *)
Theorem kernel_record_roundtrip ws a data ds want w :
  kernel_attr_ok a → data_ok data ds → w_can_write w (kernel_path ws (ka_kernel_id a)) = true →
  (∀ n, w_malloc w n = true) →
  let '(r, w') := tpb_raf_record_write_kernel (Some ws) (Some a) data ds w in
  (record_fits a data w → r = Ok tt)
  ∧ (r = Ok tt ∨ r = TPB_FAIL TPB_MOD_RAF_L2_KERNEL TPBE_FILE_IO_FAIL)
  ∧ w_files w' = <[kernel_path ws (ka_kernel_id a) := take (w_cap w) (enc_kernel a (default [] data))]>
                   (w_files w)
  ∧ tpb_raf_record_read_kernel (Some ws) (Some (ka_kernel_id a)) true want w'
    = (if decide (record_fits a data w)
       then Ok (stored_kernel a, delivered want (default [] data), ds)
       else TPB_FAIL TPB_MOD_RAF_L2_KERNEL TPBE_FILE_IO_FAIL)
  ∧ (Forall header_canonical (ka_headers a) → stored_kernel a = a).
Proof.
  intros Ha Hd Hw Hm. unfold tpb_raf_record_write_kernel, tpb_raf_record_read_kernel, TPB_FAIL.
  destruct (write_record_eq (fmt := kernel_format)
    (tpb_report_error_at TPB_MOD_RAF_L2_KERNEL TPBE_FILE_IO_FAIL) _ a data ds w Ha Hd Hw)
    as (r & E & Hr).
  cbn [rec_write kernel_format] in E. rewrite E. split_and!.
  - destruct Hr as [->|[-> ?]]; done.
  - destruct Hr as [->|[-> _]]; auto.
  - done.
  - apply (read_record_eq (fmt := kernel_format)); try done; [intros ?; apply Hm|].
    cbn [w_files set_file]. by rewrite lookup_insert_eq.
  - apply stored_kernel_canonical.
Qed.

Definition sample_kernel : kernel_attr :=
  mkKernelAttr (replicate 20 1) (replicate 20 0) (replicate 20 0) (replicate 256 0)
    (replicate 64 0) (replicate 2048 0) 1 1 0 0 1 5 [].

Lemma sample_kernel_ok : kernel_attr_ok sample_kernel.
Proof.
  split; try (vm_compute; split; congruence); try (vm_compute; reflexivity).
  - split; [reflexivity|]. by repeat constructor.
  - split; [reflexivity|vm_compute; split; congruence|constructor].
Qed.

Definition kernel_world : world := mkWorld ∅ (λ _, true) 3000 4096 (λ _, true).

Lemma kernel_record_roundtrip_witness :
  tpb_raf_record_read_kernel (Some $"/w") (Some (replicate 20 1)) true true
    (snd (tpb_raf_record_write_kernel (Some $"/w") (Some sample_kernel) (Some [5]) 1 kernel_world))
  = Ok (sample_kernel, Some [5], 1).
Proof.
  pose proof (kernel_record_roundtrip $"/w" sample_kernel (Some [5]) 1 true kernel_world
    sample_kernel_ok ltac:(by split) eq_refl (λ _, eq_refl)) as H.
  revert H. destruct (tpb_raf_record_write_kernel _ _ _ _ _) as [r w'].
  intros (_ & _ & _ & H & _). change (ka_kernel_id sample_kernel) with (replicate 20 1) in H.
  cbn [snd]. rewrite H.
  destruct (decide _) as [_|Hn]; [reflexivity|]. exfalso. apply Hn. vm_compute. lia.
Defined.


