(* ===== verification/RafTaglink.v ===== *)
(** * Record database, layer 3: the member list of a task capsule

    [src/corelib/rafdb/rafdb-l3-task-taglink.c]: [tpb_raf_record_append_task_capsule]
    appends a task identifier to the data of an existing capsule record, in place,
    under an advisory lock, and updates the sizes stored in the record. *)

From S2P Require Import Prelude Errors CLib FileIO RafBase RafHeader RafRecord RafTask.
From stdpp Require Import options.

Definition TPB_RAF_TASK_FILE_OFF_DATASIZE : Z := 16.
Definition TPB_RAF_TASK_FILE_OFF_NHEADER : Z := 172.
Definition TPB_RAF_TASK_FILE_HDR0_BASE : Z := 308.
Definition TPB_RAF_TASK_FILE_HDR0_DATA_SIZE : Z := 316.
Definition TPB_RAF_TASK_FILE_HDR0_NAME : Z := 340.
Definition TPB_RAF_TASK_FILE_HDR0_DIM0 : Z := 2900.
Definition TPB_RAF_TASK_CAPSULE_HDR_NAME : bytes := $"TaskID".

(** [strncmp(namechk, name, strlen(name)) == 0 && namechk[strlen(name)] == 0]. *)
Definition name_is (namechk name : bytes) : bool :=
  bool_decide (take (length name) namechk = name) && (cget namechk (length name) =? 0).

(** The checks: the data size and the offset of the end magic. *)
Definition append_task_capsule_locate : IO (Z * Z) :=
  '(metasize, datasize) ← read_prefix TPB_RAF_DOM_TASK;
  fseek_set TPB_RAF_TASK_FILE_OFF_NHEADER;;
  nheader ← _tpb_raf_l1_read_u32;
  io_guard (nheader =? 1);;
  fseek_set TPB_RAF_TASK_FILE_HDR0_NAME;;
  namechk ← fread 256;
  io_guard (name_is namechk TPB_RAF_TASK_CAPSULE_HDR_NAME);;
  io_guard (datasize mod 20 =? 0);;
  fseek_set (TPB_RAF_TASK_FILE_HDR0_BASE + 4);;
  hdr0_ndim ← _tpb_raf_l1_read_u32;
  let split_off := TPB_RAF_TASK_FILE_HDR0_BASE + 32 + 256 + 256 + 2048
                   + hdr0_ndim * 8 + hdr0_ndim * 64 in
  end_magic_off ← io_long (split_off + 8 + swrap 64 datasize);
  fseek_set end_magic_off;;
  expect_magic TPB_RAF_DOM_TASK TPB_RAF_POS_END;;
  mret (datasize, end_magic_off).

(** The writes. *)
Definition append_task_capsule_store (task_id : bytes) (datasize end_magic_off : Z) : IO unit :=
  let new_ds := wrap64 (datasize + 20) in
  let new_dim0 := new_ds / 20 in
  let new_hdr_ds := new_ds in
  fseek_set end_magic_off;;
  fwrite task_id;;
  fwrite (tpb_raf_build_magic TPB_RAF_FTYPE_RECORD TPB_RAF_DOM_TASK TPB_RAF_POS_END);;
  fseek_set TPB_RAF_TASK_FILE_OFF_DATASIZE;;
  _tpb_raf_l1_write_u64 new_ds;;
  fseek_set TPB_RAF_TASK_FILE_HDR0_DATA_SIZE;;
  _tpb_raf_l1_write_u64 new_hdr_ds;;
  fseek_set TPB_RAF_TASK_FILE_HDR0_DIM0;;
  _tpb_raf_l1_write_u64 new_dim0;;
  fflush_io.

(** The statements between the lock and the unlock, on the unbuffered stream. *)
Definition append_task_capsule_body (task_id : bytes) : IO unit :=
  '(datasize, end_magic_off) ← append_task_capsule_locate;
  append_task_capsule_store task_id datasize end_magic_off.

(** A function that edits a record in place: open, lock, run, close.  [lock_ok] is
    the answer of [fcntl(F_SETLKW)]. *)
Definition edit_record (lock_ok : bool) (e : outcome unit) (fpath : bytes) (body : IO unit)
  (w : world) : outcome unit * world :=
  match fopen_rpb fpath w with
  | None => (e, w)
  | Some fp =>
      let fp := set_unbuffered fp in
      if negb lock_ok then (e, set_file fpath (snd (fclose fp)) w)
      else run_close fpath e body fp w
  end.

Definition tpb_raf_record_append_task_capsule (lock_ok : bool)
  (workspace capsule_id task_id : option bytes) (w : world) : outcome unit * world :=
  match workspace, capsule_id, task_id with
  | Some ws, Some cid, Some tid =>
      let fpath := _tpb_raf_l1_build_record_path ws TPB_RAF_DOM_TASK cid TPB_RAF_PATH_MAX in
      edit_record lock_ok (TPB_FAIL TPB_MOD_RAF_L3_TASK TPBE_FILE_IO_FAIL) fpath
        (append_task_capsule_body (take 20 tid)) w
  | _, _, _ => (TPB_FAIL TPB_MOD_RAF_L3_TASK TPBE_NULLPTR_ARG, w)
  end.

(** ** Headers with a first dimension *)

(** The header with its data size and first dimension replaced. *)
Definition with_extent (h : tpb_meta_header) (data_size dim0 : Z) : tpb_meta_header :=
  mkHeader (h_block_size h) (h_ndim h) data_size (h_type_bits h) (h_reserve h) (h_uattr_bits h)
    (h_name h) (h_tag h) (h_note h) (<[0%nat := dim0]> (h_dimsizes h)) (h_dimnames h).

(** The pieces of an encoded header of at least one dimension. *)
Record header_pieces (h : tpb_meta_header) (d0 : Z) (dims names : bytes) (n : nat) : Prop := {
  hp_enc : ∀ ds x, enc_header (with_extent h ds x)
    = le 4 TPB_RAF_HDR_FIXED_SIZE ++ le 4 (h_ndim h) ++ le 8 ds
      ++ le 4 (h_type_bits h) ++ le 4 (h_reserve h) ++ le 8 (h_uattr_bits h)
      ++ h_name h ++ h_tag h ++ h_note h ++ le 8 x ++ dims ++ names;
  hp_self : with_extent h (h_data_size h) d0 = h;
  hp_name : length (h_name h) = 256%nat;
  hp_tag : length (h_tag h) = 256%nat;
  hp_note : length (h_note h) = 2048%nat;
  hp_dims : length dims = (8 * n)%nat;
  hp_names : length names = (64 * S n)%nat;
  hp_ndim : h_ndim h = Z.of_nat (S n);
}.

Lemma header_pieces_of h :
  header_ok h → 1 ≤ h_ndim h → ∃ d0 dims names n, header_pieces h d0 dims names n.
Proof.
  intros Hh Hn. pose proof (length_enc_header h Hh) as Hl.
  destruct (ok_dimsizes h Hh) as [Hs _], (ok_dimnames h Hh) as [Hm Hall].
  pose proof (ok_ndim h Hh). pose proof (ok_name h Hh). pose proof (ok_tag h Hh). pose proof (ok_note h Hh).
  destruct (h_dimsizes h) as [|d0 rest] eqn:E; [done|].
  destruct (Z.to_nat (h_ndim h)) as [|n] eqn:En; [lia|].
  exists d0, (concat (map (le 8) (take n rest))), (concat (take (S n) (h_dimnames h))), n.
  assert (Hd : length (concat (map (le 8) (take n rest))) = (8 * n)%nat).
  { cbn [length] in Hs. assert (Hr : length (take n rest) = n) by (rewrite length_take; lia).
    rewrite length_concat_le8. lia. }
  split; try done.
  - intros ds x. unfold enc_header, with_extent. cbn [h_ndim h_data_size h_type_bits h_reserve
      h_uattr_bits h_name h_tag h_note h_dimsizes h_dimnames].
    rewrite En, E. cbn [insert list_insert take map concat]. by rewrite <- !app_assoc.
  - unfold with_extent. rewrite E. cbn [insert list_insert]. rewrite <- E. by destruct h.
  - unfold enc_header in Hl. rewrite En, E in Hl. cbn [take map concat] in Hl.
    rewrite !length_app, !length_le, Hd in Hl. lia.
  - lia.
Qed.

(** ** The capsule as a list of identifiers *)

Definition with_task_headers (a : task_attr) (hs : list tpb_meta_header) : task_attr :=
  mkTaskAttr (ta_task_record_id a) (ta_derive_to a) (ta_inherit_from a) (ta_tbatch_id a)
    (ta_kernel_id a) (ta_utc_bits a) (ta_btime a) (ta_duration a) (ta_exit_code a)
    (ta_handle_index a) (ta_pid a) (ta_tid a) (ta_ninput a) (ta_noutput a) (ta_nheader a)
    (ta_reserve a) hs.

(** The attributes [a] describe a capsule that holds the data [d]. *)
Record capsule (a : task_attr) (h : tpb_meta_header) (d : bytes) : Prop := {
  cp_ok : task_attr_ok a;
  cp_headers : ta_headers a = [h];
  cp_name : name_is (h_name h) TPB_RAF_TASK_CAPSULE_HDR_NAME = true;
  cp_ndim : 1 ≤ h_ndim h;
  cp_size : h_data_size h = Z.of_nat (length d);
  cp_mod : Z.of_nat (length d) mod 20 = 0;
  cp_long : Z.of_nat (length d) < 2 ^ 62;
}.

(** The header and the attributes once an identifier has been appended to [d]. *)
Definition grown_header (h : tpb_meta_header) (d : bytes) : tpb_meta_header :=
  with_extent h (Z.of_nat (length d) + 20) ((Z.of_nat (length d) + 20) / 20).
Definition grown (a : task_attr) (h : tpb_meta_header) (d : bytes) : task_attr :=
  with_task_headers a [grown_header h d].

(** The record as blocks between the fields the append reads or writes: [x], [y]
    and [z] are the sizes that change. *)
Definition cap_start (a : task_attr) : bytes :=
  tpb_raf_build_magic TPB_RAF_FTYPE_RECORD TPB_RAF_DOM_TASK TPB_RAF_POS_START
  ++ le 8 (metasize_of (156 + Z.of_nat TPB_RAF_RESERVE_SIZE) (ta_nheader a)).
Definition cap_attrs (a : task_attr) : bytes :=
  ta_task_record_id a ++ ta_derive_to a ++ ta_inherit_from a ++ ta_tbatch_id a
  ++ ta_kernel_id a ++ le 8 (ta_utc_bits a) ++ le 8 (ta_btime a) ++ le 8 (ta_duration a)
  ++ le 4 (ta_exit_code a) ++ le 4 (ta_handle_index a) ++ le 4 (ta_pid a) ++ le 4 (ta_tid a)
  ++ le 4 (ta_ninput a) ++ le 4 (ta_noutput a).
Definition cap_reserve (a : task_attr) : bytes :=
  le 4 (ta_reserve a) ++ replicate TPB_RAF_RESERVE_SIZE 0 ++ le 4 TPB_RAF_HDR_FIXED_SIZE.
Definition cap_bits (h : tpb_meta_header) : bytes :=
  le 4 (h_type_bits h) ++ le 4 (h_reserve h) ++ le 8 (h_uattr_bits h).
Definition cap_text (h : tpb_meta_header) : bytes := h_tag h ++ h_note h.
Definition cap_split (dims names : bytes) : bytes :=
  dims ++ names ++ tpb_raf_build_magic TPB_RAF_FTYPE_RECORD TPB_RAF_DOM_TASK TPB_RAF_POS_SPLIT.
Definition cap_end : bytes :=
  tpb_raf_build_magic TPB_RAF_FTYPE_RECORD TPB_RAF_DOM_TASK TPB_RAF_POS_END.

Definition capsule_bytes (a : task_attr) (h : tpb_meta_header) (dims names : bytes)
  (x y z : Z) (e : bytes) : bytes :=
  cap_start a ++ le 8 x ++ cap_attrs a ++ le 4 (ta_nheader a) ++ cap_reserve a
  ++ le 4 (h_ndim h) ++ le 8 y ++ cap_bits h ++ h_name h ++ cap_text h ++ le 8 z
  ++ cap_split dims names ++ e ++ cap_end.

Abbreviation zlen bs := (Z.of_nat (length bs)).

Section Pieces.
Context (a : task_attr) (h : tpb_meta_header) (d0 : Z) (dims names : bytes) (n : nat).
Context (Ha : task_attr_ok a) (Hp : header_pieces h d0 dims names n).
Implicit Types (x y z : Z) (e bs : bytes).
Let bytes_of := capsule_bytes a h dims names.

Lemma length_cap_start : zlen (cap_start a) = 16.
Proof using Type*. unfold cap_start. by rewrite length_app, length_build_magic, length_le. Qed.

Lemma length_cap_attrs : zlen (cap_attrs a) = 148.
Proof using Type*.
  destruct Ha as [[Hid _]]. unfold cap_attrs. rewrite !length_app, !length_le. lia.
Qed.

Lemma length_cap_reserve : zlen (cap_reserve a) = 136.
Proof using Type*. unfold cap_reserve. by rewrite !length_app, !length_le, length_replicate. Qed.

Lemma length_cap_bits : zlen (cap_bits h) = 16.
Proof using Type*. unfold cap_bits. by rewrite !length_app, !length_le. Qed.

Lemma length_cap_text : zlen (cap_text h) = 2304.
Proof using Type*.
  unfold cap_text. rewrite length_app, (hp_tag _ _ _ _ _ Hp), (hp_note _ _ _ _ _ Hp). lia.
Qed.

Lemma length_cap_split : zlen (cap_split dims names) = 72 * h_ndim h.
Proof using Type*.
  unfold cap_split. rewrite !length_app, length_build_magic.
  rewrite (hp_dims _ _ _ _ _ Hp), (hp_names _ _ _ _ _ Hp), (hp_ndim _ _ _ _ _ Hp). lia.
Qed.

Definition pre_x : bytes := cap_start a.
Definition pre_nheader x : bytes := pre_x ++ le 8 x ++ cap_attrs a.
Definition pre_ndim x : bytes := pre_nheader x ++ le 4 (ta_nheader a) ++ cap_reserve a.
Definition pre_y x : bytes := pre_ndim x ++ le 4 (h_ndim h).
Definition pre_name x y : bytes := pre_y x ++ le 8 y ++ cap_bits h.
Definition pre_z x y : bytes := pre_name x y ++ h_name h ++ cap_text h.
Definition pre_end x y z e : bytes :=
  pre_z x y ++ le 8 z ++ cap_split dims names ++ e.

Lemma offsets x y z e :
  zlen pre_x = 16 ∧ zlen (pre_nheader x) = 172 ∧ zlen (pre_ndim x) = 312
  ∧ zlen (pre_y x) = 316 ∧ zlen (pre_name x y) = 340 ∧ zlen (pre_z x y) = 2900
  ∧ zlen (pre_end x y z e) = 2900 + 72 * h_ndim h + 8 + Z.of_nat (length e).
Proof using Type*.
  pose proof length_cap_start. pose proof length_cap_attrs. pose proof length_cap_reserve.
  pose proof length_cap_bits. pose proof length_cap_text. pose proof length_cap_split.
  pose proof (hp_name _ _ _ _ _ Hp).
  unfold pre_end, pre_z, pre_name, pre_y, pre_ndim, pre_nheader, pre_x.
  rewrite !length_app, !length_le. lia.
Qed.

(** The record around each of the pieces. *)
Definition post_x y z e : bytes :=
  cap_attrs a ++ le 4 (ta_nheader a) ++ cap_reserve a ++ le 4 (h_ndim h) ++ le 8 y
  ++ cap_bits h ++ h_name h ++ cap_text h ++ le 8 z ++ cap_split dims names ++ e ++ cap_end.
Definition post_y z e : bytes :=
  cap_bits h ++ h_name h ++ cap_text h ++ le 8 z ++ cap_split dims names ++ e ++ cap_end.

Lemma view_x x y z e : bytes_of x y z e = pre_x ++ le 8 x ++ post_x y z e.
Proof using Type*. done. Qed.
Lemma view_nheader x y z e : ∃ r, bytes_of x y z e = pre_nheader x ++ le 4 (ta_nheader a) ++ r.
Proof using Type*. eexists. unfold pre_nheader. rewrite <- !app_assoc. reflexivity. Qed.
Lemma view_ndim x y z e : ∃ r, bytes_of x y z e = pre_ndim x ++ le 4 (h_ndim h) ++ r.
Proof using Type*.
  eexists. unfold pre_ndim, pre_nheader. rewrite <- !app_assoc. reflexivity.
Qed.
Lemma view_y x y z e : bytes_of x y z e = pre_y x ++ le 8 y ++ post_y z e.
Proof using Type*.
  unfold pre_y, pre_ndim, pre_nheader. by rewrite <- !app_assoc.
Qed.
Lemma view_name x y z e : ∃ r, bytes_of x y z e = pre_name x y ++ h_name h ++ r.
Proof using Type*.
  eexists. unfold pre_name, pre_y, pre_ndim, pre_nheader. rewrite <- !app_assoc. reflexivity.
Qed.
Lemma view_z x y z e :
  bytes_of x y z e = pre_z x y ++ le 8 z ++ cap_split dims names ++ e ++ cap_end.
Proof using Type*.
  unfold pre_z, pre_name, pre_y, pre_ndim, pre_nheader. by rewrite <- !app_assoc.
Qed.
Lemma view_end x y z e : bytes_of x y z e = pre_end x y z e ++ cap_end.
Proof using Type*.
  unfold pre_end, pre_z, pre_name, pre_y, pre_ndim, pre_nheader. by rewrite <- !app_assoc.
Qed.

(** Writing a piece. *)
Lemma set_x x y z e x' : overlay (bytes_of x y z e) (length pre_x) (le 8 x') = bytes_of x' y z e.
Proof using Type*.
  rewrite view_x, (overlay_middle pre_x) by (rewrite ?length_le; done). done.
Qed.
Lemma set_y x y z e y' : overlay (bytes_of x y z e) (length (pre_y x)) (le 8 y') = bytes_of x y' z e.
Proof using Type*.
  rewrite view_y, (overlay_middle (pre_y x)) by (rewrite ?length_le; done). by rewrite view_y.
Qed.
Lemma set_z x y z e z' :
  overlay (bytes_of x y z e) (length (pre_z x y)) (le 8 z') = bytes_of x y z' e.
Proof using Type*.
  rewrite view_z, (overlay_middle (pre_z x y)) by (rewrite ?length_le; done). by rewrite view_z.
Qed.
Lemma append_end x y z e bs :
  overlay (bytes_of x y z e) (length (pre_end x y z e)) (bs ++ cap_end) = bytes_of x y z (e ++ bs).
Proof using Type*.
  rewrite view_end, (overlay_tail (pre_end x y z e)) by (rewrite ?length_app; done || lia).
  rewrite view_end. unfold pre_end. by rewrite <- !app_assoc.
Qed.

Lemma enc_capsule y z e :
  ta_headers a = [with_extent h y z] →
  enc_task a e = bytes_of (Z.of_nat (length e)) y z e.
Proof using Type*.
  intros Hhs. unfold enc_task, enc_prefix, task_fields, enc_headers, enc_data. rewrite Hhs.
  cbn [map concat]. rewrite (hp_enc _ _ _ _ _ Hp).
  unfold bytes_of, capsule_bytes, cap_start, cap_attrs, cap_reserve, cap_bits, cap_text, cap_split.
  by rewrite app_nil_r, <- !app_assoc.
Qed.
End Pieces.

Lemma grown_header_ok h d :
  header_ok h → Z.of_nat (length d) < 2 ^ 62 → header_ok (grown_header h d).
Proof.
  intros Hh Hd. destruct (ok_dimsizes h Hh) as [Hs Hall].
  assert (is_u64 (Z.of_nat (length d) + 20)) by (unfold is_word; lia).
  destruct Hh. split; unfold grown_header, with_extent;
    cbn [h_ndim h_data_size h_type_bits h_reserve h_uattr_bits h_name h_tag h_note h_dimsizes
         h_dimnames]; try done.
  split; [by rewrite length_insert|]. apply Forall_insert; [done|].
  unfold is_word in *. split; [apply Z.div_pos; lia|apply Z.div_lt_upper_bound; lia].
Qed.

Lemma grown_ok a h d : capsule a h d → task_attr_ok (grown a h d).
Proof.
  intros [Ha Hhs _ _ _ _ Hd]. destruct (tk_headers a Ha) as [Hn Hn32 Hall].
  rewrite Hhs in Hn, Hall. apply Forall_cons in Hall as [Hh _].
  destruct Ha. split; try done. split; [done|done|].
  constructor; [by apply grown_header_ok|constructor].
Qed.

(** Reading at an offset, on an editing stream. *)
Lemma clean_read_at {A} (m : IO A) bs v D c pre o f r :
  decodes m bs v → clean D c f → D = pre ++ bs ++ r → zlen pre = o →
  ∃ f', clean D c f' ∧ ∀ B (k : A → IO B), (fseek_set o ≫= λ _, m ≫= k) f = k v f'.
Proof.
  intros Hm Hf Hv <-. eapply clean_read; [done|done|]. rewrite Hv. apply drop_app_length.
Qed.

Lemma io_long_ok v : 0 ≤ v < 2 ^ 63 → io_long v = mret v.
Proof.
  intros Hv. unfold io_long. destruct (Z.leb_spec (- 2 ^ 63) v); [|lia].
  destruct (Z.ltb_spec v (2 ^ 63)); [done|lia].
Qed.

(** A check that passed. *)
Ltac pass := unfold mbind at 1, IO_bind at 1; cbn [Z.eqb Pos.eqb io_guard mret IO_ret].

Section AppendRun.
Context (a : task_attr) (h : tpb_meta_header) (d0 : Z) (dims names : bytes) (n : nat).
Context (Ha : task_attr_ok a) (Hp : header_pieces h d0 dims names n) (Hh : header_ok h).
Context (x : Z) (d : bytes) (c : nat) (Hx : x = zlen d) (Hlong : x < 2 ^ 62).
Let D := capsule_bytes a h dims names x x d0 d.
Let pe := pre_end a h dims names x x d0 d.

Lemma capsule_locate_run f :
  ta_nheader a = 1 → name_is (h_name h) TPB_RAF_TASK_CAPSULE_HDR_NAME = true → x mod 20 = 0 →
  clean D c f → f_pos f = 0%nat →
  ∃ f', append_task_capsule_locate f = (Ok (x, zlen pe), f') ∧ clean D c f'.
Proof using All.
  intros Hn Hname Hmod Hf Hpos. pose proof (ok_ndim h Hh) as Hnd.
  destruct (offsets a h d0 dims names n Ha Hp x x d0 d) as (_ & O2 & O3 & _ & O5 & _ & O7).
  assert (Ux : is_u64 x) by (unfold is_word; lia).
  assert (Und : is_u32 (h_ndim h)) by (unfold is_word; lia).
  assert (U1 : is_u32 1) by done.
  unfold append_task_capsule_locate.
  set (ms := metasize_of (156 + Z.of_nat TPB_RAF_RESERVE_SIZE) (ta_nheader a)).
  assert (Hr : ∃ r, rest f = enc_prefix TPB_RAF_DOM_TASK ms x ++ r).
  { destruct Hf as (Hd & _). eexists. unfold rest. rewrite Hpos, Hd, drop_0.
    unfold enc_prefix, D, capsule_bytes, cap_start. rewrite <- !app_assoc. reflexivity. }
  destruct Hr as [r0 Hr].
  destruct (clean_step _ _ _ _ c f r0
    (decodes_prefix TPB_RAF_DOM_TASK ms x ltac:(by apply metasize_u64) Ux) Hf Hr)
    as (f1 & Hf1 & ->). cbn beta iota.
  destruct (view_nheader a h d0 dims names n Ha Hp x x d0 d) as [r2 V2]. rewrite Hn in V2.
  destruct (clean_read_at _ _ _ D c _ _ f1 r2 (decodes_read_u32 1 U1) Hf1 V2 O2)
    as (f2 & Hf2 & ->). pass.
  destruct (view_name a h d0 dims names n Ha Hp x x d0 d) as [r3 V3].
  destruct (clean_read_at _ _ _ D c _ _ f2 r3 (decodes_fread 256 _ (hp_name _ _ _ _ _ Hp)) Hf2 V3 O5)
    as (f3 & Hf3 & ->). rewrite Hname, Hmod. pass. pass.
  destruct (view_ndim a h d0 dims names n Ha Hp x x d0 d) as [r4 V4].
  destruct (clean_read_at _ _ _ D c _ _ f3 r4 (decodes_read_u32 _ Und) Hf3 V4 O3)
    as (f4 & Hf4 & ->).
  replace (TPB_RAF_TASK_FILE_HDR0_BASE + 32 + 256 + 256 + 2048 + h_ndim h * 8 + h_ndim h * 64 + 8
           + swrap 64 x) with (zlen pe).
  2:{ rewrite swrap64_small by lia. unfold TPB_RAF_TASK_FILE_HDR0_BASE, pe. lia. }
  rewrite io_long_ok by (unfold pe; lia). pass.
  destruct (clean_read_at _ _ _ D c pe (zlen pe) f4 []
    (decodes_expect_magic TPB_RAF_DOM_TASK TPB_RAF_POS_END) Hf4) as (f5 & Hf5 & ->); [|done|eauto].
  rewrite app_nil_r. apply (view_end a h d0 dims names n Ha Hp).
Qed.

Lemma capsule_store_run tid f :
  length tid = 20%nat → clean D c f → (length D + 20 ≤ c)%nat →
  ∃ f', append_task_capsule_store tid x (zlen pe) f = (Ok tt, f')
    ∧ clean (capsule_bytes a h dims names (x + 20) (x + 20) ((x + 20) / 20) (d ++ tid)) c f'.
Proof using All.
  intros Htid Hf Hc. unfold append_task_capsule_store, _tpb_raf_l1_write_u64.
  rewrite !(wrap_small 64) by (unfold is_word; lia).
  assert (VE : D = pe ++ cap_end) by apply (view_end a h d0 dims names n Ha Hp).
  assert (HD : length D = (length pe + 8)%nat) by (rewrite VE, length_app; done).
  assert (Hbig : (2908 ≤ length pe)%nat).
  { destruct (offsets a h d0 dims names n Ha Hp x x d0 d) as (_ & _ & _ & _ & _ & _ & O7).
    pose proof (ok_ndim h Hh). unfold pe. lia. }
  destruct (clean_write2 tid cap_end D c f (length pe) Hf) as (f1 & Hf1 & E1).
  { by destruct tid. } { done. }
  { rewrite length_app, Htid. cbn [length cap_end tpb_raf_build_magic]. lia. } { lia. }
  unfold D, pe in Hf1. rewrite (append_end a h d0 dims names n Ha Hp) in Hf1.
  unfold cap_end in E1. rewrite E1.
  destruct (offsets a h d0 dims names n Ha Hp (x + 20) (x + 20) d0 (d ++ tid))
    as (O1 & _ & _ & O4 & _ & O6 & _).
  replace TPB_RAF_TASK_FILE_OFF_DATASIZE with (zlen (pre_x a)) by exact O1.
  destruct (clean_write (le 8 (x + 20)) _ c f1 (length (pre_x a)) Hf1) as (f2 & Hf2 & _ & ->);
    [done|rewrite length_le; lia|].
  rewrite (set_x a h d0 dims names n Ha Hp) in Hf2.
  replace TPB_RAF_TASK_FILE_HDR0_DATA_SIZE with (zlen (pre_y a h (x + 20))) by exact O4.
  destruct (clean_write (le 8 (x + 20)) _ c f2 (length (pre_y a h (x + 20))) Hf2)
    as (f3 & Hf3 & _ & ->); [done|rewrite length_le; lia|].
  rewrite (set_y a h d0 dims names n Ha Hp) in Hf3.
  replace TPB_RAF_TASK_FILE_HDR0_DIM0 with (zlen (pre_z a h (x + 20) (x + 20))) by exact O6.
  destruct (clean_write (le 8 ((x + 20) / 20)) _ c f3 (length (pre_z a h (x + 20) (x + 20))) Hf3)
    as (f4 & Hf4 & _ & ->); [done|rewrite length_le; lia|].
  rewrite (set_z a h d0 dims names n Ha Hp) in Hf4.
  destruct (clean_fflush _ _ _ Hf4) as (f5 & Hf5 & ->). eauto.
Qed.
End AppendRun.

(** Appending to a capsule is extending its list. *)
Lemma append_capsule_run a h d tid c f :
  capsule a h d → length tid = 20%nat →
  clean (enc_task a d) c f → f_pos f = 0%nat → (length (enc_task a d) + 20 ≤ c)%nat →
  ∃ f', append_task_capsule_body tid f = (Ok tt, f')
    ∧ clean (enc_task (grown a h d) (d ++ tid)) c f'.
Proof.
  intros Hcap Htid Hf Hpos Hc. pose proof (grown_ok a h d Hcap) as Ha'.
  destruct Hcap as [Ha Hhs Hname Hndim Hsize Hmod Hlong].
  destruct (tk_headers a Ha) as [Hn _ Hall]. rewrite Hhs in Hn, Hall.
  apply Forall_cons in Hall as [Hh _].
  destruct (header_pieces_of h Hh Hndim) as (d0 & dims & names & n & Hp).
  set (x := zlen d) in *.
  assert (Hnew : enc_task (grown a h d) (d ++ tid)
                 = capsule_bytes a h dims names (x + 20) (x + 20) ((x + 20) / 20) (d ++ tid)).
  { pose proof (enc_capsule (grown a h d) h d0 dims names n Ha' Hp (x + 20) ((x + 20) / 20)
      (d ++ tid) eq_refl) as E.
    rewrite length_app, Htid, Nat2Z.inj_add in E. exact E. }
  assert (Hold : enc_task a d = capsule_bytes a h dims names x x d0 d).
  { apply (enc_capsule a h d0 dims names n Ha Hp). rewrite Hhs. f_equal.
    rewrite <- Hsize. symmetry. apply (hp_self _ _ _ _ _ Hp). }
  rewrite Hnew. rewrite Hold in Hf, Hc. unfold append_task_capsule_body, mbind, IO_bind.
  destruct (capsule_locate_run a h d0 dims names n Ha Hp Hh x d c eq_refl ltac:(lia) f Hn Hname
    Hmod Hf Hpos) as (f1 & -> & Hf1).
  by apply (capsule_store_run a h d0 dims names n Ha Hp Hh x d c eq_refl ltac:(lia)).
Qed.

Lemma grown_capsule a h d tid :
  capsule a h d → length tid = 20%nat → Z.of_nat (length d) + 20 < 2 ^ 62 →
  capsule (grown a h d) (grown_header h d) (d ++ tid).
Proof.
  intros Hc Htid Hl. pose proof (grown_ok a h d Hc) as Hok. destruct Hc.
  assert (El : Z.of_nat (length (d ++ tid)) = Z.of_nat (length d) + 20) by (rewrite length_app; lia).
  split; try done; rewrite El; [|lia]. rewrite <- Z.add_mod_idemp_l, cp_mod0 by lia. done.
Qed.

Lemma length_grown a h d tid :
  capsule a h d → length tid = 20%nat →
  length (enc_task (grown a h d) (d ++ tid)) = (length (enc_task a d) + 20)%nat.
Proof.
  intros Hc Htid. pose proof (cp_ok _ _ _ Hc) as Ha.
  destruct (tk_headers a Ha) as [_ _ Hall]. rewrite (cp_headers _ _ _ Hc) in Hall.
  apply Forall_cons in Hall as [Hh _].
  pose proof (length_enc_header _ (grown_header_ok h d Hh (cp_long _ _ _ Hc))) as H1.
  pose proof (length_enc_header _ Hh) as H2. change (h_ndim (grown_header h d)) with (h_ndim h) in H1.
  unfold enc_task, enc_prefix, enc_headers, enc_data. rewrite (cp_headers _ _ _ Hc).
  change (ta_headers (grown a h d)) with [grown_header h d]. cbn [map concat].
  change (task_fields (grown a h d)) with (task_fields a).
  rewrite !length_app, Htid, !length_le, !length_build_magic. lia.
Qed.

Section Members.
Context (ws : bytes).

(** The file of the capsule [a] in the world. *)
Definition capsule_in (w : world) (a : task_attr) (d : bytes) : Prop :=
  w_files w !! task_path ws (ta_task_record_id a) = Some (enc_task a d).

Lemma append_member_eq a h d tid w :
  capsule a h d → length tid = 20%nat → capsule_in w a d →
  w_can_write w (task_path ws (ta_task_record_id a)) = true →
  (length (enc_task a d) + 20 ≤ w_cap w)%nat →
  tpb_raf_record_append_task_capsule true (Some ws) (Some (ta_task_record_id a)) (Some tid) w
  = (Ok tt, set_file (task_path ws (ta_task_record_id a))
              (enc_task (grown a h d) (d ++ tid)) w).
Proof using Type*.
  intros Hc Htid Hin Hw Hcap. unfold tpb_raf_record_append_task_capsule, edit_record, fopen_rpb.
  rewrite Hin. cbn [mbind option_bind]. rewrite Hw. cbn [negb].
  rewrite (take_ge tid) by lia. unfold run_close.
  destruct (append_capsule_run a h d tid (w_cap w)
    (set_unbuffered (open_on (enc_task a d) w)) Hc Htid) as (f' & -> & Hf'); [done|done|done|].
  by rewrite (clean_fclose _ _ _ Hf').
Qed.

(** The leader's creation of the capsule and the appends of the other members,
    in the order in which they take the lock. *)
Fixpoint append_members (cid : bytes) (tids : list bytes) (w : world) : outcome unit * world :=
  match tids with
  | [] => (Ok tt, w)
  | tid :: tids' =>
      let '(r, w') := tpb_raf_record_append_task_capsule true (Some ws) (Some cid) (Some tid) w in
      match r with Ok _ => append_members cid tids' w' | _ => (r, w') end
  end.

Definition capsule_group (a : task_attr) (first : bytes) (tids : list bytes) (w : world)
  : outcome unit * world :=
  let '(r, w') := tpb_raf_record_create_task_capsule (Some ws) (Some a) (Some first) w in
  match r with Ok _ => append_members (ta_task_record_id a) tids w' | _ => (r, w') end.

(** The attributes of a capsule over the data [d]. *)
Definition capsule_attr (a : task_attr) (h : tpb_meta_header) (d : bytes) : task_attr :=
  with_task_headers a [with_extent h (Z.of_nat (length d)) (Z.of_nat (length d) / 20)].

Lemma grown_capsule_attr a h d tid :
  length tid = 20%nat → grown a h d = capsule_attr a h (d ++ tid).
Proof using Type*.
  intros Htid. unfold grown, capsule_attr, grown_header. rewrite length_app, Htid.
  by rewrite Nat2Z.inj_add.
Qed.

Lemma with_extent_twice h x y x' y' : with_extent (with_extent h x y) x' y' = with_extent h x' y'.
Proof using Type*.
  unfold with_extent; cbn [h_block_size h_ndim h_data_size h_type_bits h_reserve h_uattr_bits
    h_name h_tag h_note h_dimsizes h_dimnames]. by rewrite list_insert_insert_eq.
Qed.

Lemma append_members_eq tids a h d w :
  let p := task_path ws (ta_task_record_id a) in
  capsule a h d → capsule_in w a d → Forall (λ t, length t = 20%nat) tids →
  w_can_write w p = true →
  (length (enc_task a d) + 20 * length tids ≤ w_cap w)%nat →
  Z.of_nat (length d) + 20 * Z.of_nat (length tids) < 2 ^ 62 →
  ∃ w', append_members (ta_task_record_id a) tids w = (Ok tt, w')
    ∧ w_malloc w' = w_malloc w ∧ w_cap w' = w_cap w
    ∧ ∃ a', capsule_in w' a' (d ++ concat tids) ∧ ta_task_record_id a' = ta_task_record_id a
        ∧ (tids = [] → a' = a)
        ∧ (tids ≠ [] → a' = capsule_attr a h (d ++ concat tids))
        ∧ ∃ h', capsule a' h' (d ++ concat tids).
Proof using Type*.
  revert a h d w. induction tids as [|tid tids IH]; intros a h d w p Hc Hin Hall Hw Hcap Hlong.
  - exists w. split; [done|]. split; [done|]. split; [done|]. exists a.
    cbn [concat]. rewrite app_nil_r. split_and!; try done. by exists h.
  - apply Forall_cons in Hall as [Htid Hall]. cbn [length] in Hcap, Hlong.
    cbn [append_members].
    rewrite (append_member_eq a h d tid w Hc Htid Hin Hw) by lia.
    pose proof (grown_capsule a h d tid Hc Htid ltac:(lia)) as Hg.
    destruct (IH (grown a h d) (grown_header h d) (d ++ tid)
      (set_file p (enc_task (grown a h d) (d ++ tid)) w)) as (w' & E & Hm & Hcw & a' & Ha' & Hid & Hnil & Hcons & h' & Hh');
      [done| |done|done| | |].
    + unfold capsule_in. cbn [w_files set_file]. apply lookup_insert_eq.
    + change (ta_task_record_id (grown a h d)) with (ta_task_record_id a).
      cbn [w_cap set_file]. rewrite length_grown by done. lia.
    + rewrite length_app. lia.
    + change (ta_task_record_id (grown a h d)) with (ta_task_record_id a) in E, Hid.
      exists w'. split; [exact E|]. split; [done|]. split; [done|]. exists a'.
      rewrite <- app_assoc in Ha', Hcons, Hh'. cbn [concat].
      split_and!; [done|done|done| |by exists h'].
      intros _. destruct tids as [|t tids].
      * rewrite (Hnil eq_refl). cbn [concat]. rewrite app_nil_r. by apply grown_capsule_attr.
      * rewrite (Hcons ltac:(done)). unfold capsule_attr, grown_header.
        by rewrite with_extent_twice.
Qed.
End Members.

Lemma read_task_file ws a d want w :
  task_attr_ok a → Z.of_nat (length d) < 2 ^ 63 → (∀ n, w_malloc w n = true) →
  capsule_in ws w a d →
  tpb_raf_record_read_task (Some ws) (Some (ta_task_record_id a)) true want w
  = Ok (stored_task a, delivered want d, Z.of_nat (length d)).
Proof.
  intros Ha Hd Hm Hin. unfold tpb_raf_record_read_task, read_record, fopen_rb.
  rewrite Hin. cbn [mbind option_bind]. erewrite decodes_open; [done|].
  apply decodes_task; [done|intros ?; apply Hm|done|intros _ _; apply Hm].
Qed.

(** What a group leaves: the record of the capsule of all members. *)
Lemma capsule_group_eq ws a h first tids w :
  let members := first ++ concat tids in
  capsule a h first → length first = 20%nat → ta_ninput a = 0 → ta_noutput a = 0 →
  h_dimsizes h !! 0%nat = Some 1 →
  Forall (λ t, length t = 20%nat) tids →
  w_can_write w (task_path ws (ta_task_record_id a)) = true →
  (length (enc_task a first) + 20 * length tids ≤ w_cap w)%nat →
  20 * Z.of_nat (S (length tids)) < 2 ^ 62 →
  ∃ w', capsule_group ws a first tids w = (Ok tt, w') ∧ w_malloc w' = w_malloc w
    ∧ capsule_in ws w' (capsule_attr a h members) members
    ∧ task_attr_ok (capsule_attr a h members)
    ∧ Z.of_nat (length members) = 20 * Z.of_nat (S (length tids)).
Proof.
  intros members Hc Hfirst Hni Hno Hd0 Hall Hw Hcap Hlong.
  assert (Hlt : length (concat tids) = (20 * length tids)%nat).
  { clear -Hall. induction Hall as [|t ts Ht _ IH]; [done|]. cbn [concat length].
    rewrite length_app. lia. }
  assert (Hlm : Z.of_nat (length members) = 20 * Z.of_nat (S (length tids))).
  { unfold members. rewrite length_app. lia. }
  pose proof (cp_ok _ _ _ Hc) as Ha. destruct (tk_headers a Ha) as [Hn _ _].
  rewrite (cp_headers _ _ _ Hc) in Hn. change (Z.of_nat (length [h])) with 1 in Hn.
  unfold capsule_group, tpb_raf_record_create_task_capsule.
  rewrite Hn, Hni, Hno. cbn [Z.eqb Pos.eqb negb orb].
  unfold tpb_raf_record_write_task, TPB_FAIL.
  destruct (write_record_eq (fmt := task_format)
    (tpb_report_error_at TPB_MOD_RAF_L2_TASK TPBE_FILE_IO_FAIL)
    (task_path ws (ta_task_record_id a)) a (Some first) 20 w Ha) as (r & E & Hr); [|done|].
  { split; cbn [from_option id]; [by rewrite Hfirst|lia]. }
  cbn [rec_write task_format] in E. rewrite E. cbn [TPB_PROPAGATE].
  destruct Hr as [->|[_ Hnf]]; [|exfalso; apply Hnf; unfold record_fits; cbn [from_option id rec_enc task_format]; lia].
  cbn [TPB_PROPAGATE].
  unfold record_file. cbn [from_option id rec_enc task_format].
  rewrite take_ge by lia. cbn beta iota.
  set (w1 := set_file _ _ w).
  destruct (append_members_eq ws tids a h first w1) as
    (w' & -> & Hm' & _ & a' & Hin' & Hid & Hnil & Hcons & h' & Hc'); try done.
  { unfold capsule_in, w1. cbn [w_files set_file]. apply lookup_insert_eq. }
  { lia. }
  assert (Ha' : a' = capsule_attr a h members).
  { destruct tids as [|t ts]; [|by apply Hcons]. rewrite (Hnil eq_refl). unfold members.
    cbn [concat]. rewrite app_nil_r. unfold capsule_attr. rewrite Hfirst.
    change (Z.of_nat 20 / 20) with 1. destruct Hc as [_ Hhs _ _ Hsz _ _]. rewrite Hfirst in Hsz.
    assert (with_extent h (Z.of_nat 20) 1 = h) as ->.
    { unfold with_extent. rewrite list_insert_id by done. rewrite <- Hsz. by destruct h. }
    unfold with_task_headers. rewrite <- Hhs. by destruct a. }
  subst a'. exists w'. split_and!; try done. apply (cp_ok _ _ _ Hc').
Qed.

(** ** Properties *)

(** Appending a member to a capsule record succeeds and gives the record of
    the same capsule with the identifier added at the end of the data, and with
    the record's data size, the header's data size (20 bytes more) and the
    header's first dimension (the number of members) updated: the nine fixed file
    offsets the function uses are those of the format, for any number of header
    dimensions.  A reader then sees exactly that. *)
Theorem append_capsule_correct ws a h d tid want w :
  let p := task_path ws (ta_task_record_id a) in
  capsule a h d → length tid = 20%nat → w_files w !! p = Some (enc_task a d) →
  w_can_write w p = true → (∀ n, w_malloc w n = true) →
  (length (enc_task a d) + 20 ≤ w_cap w)%nat →
  let '(r, w') := tpb_raf_record_append_task_capsule true (Some ws)
                    (Some (ta_task_record_id a)) (Some tid) w in
  r = Ok tt ∧ w_files w' = <[p := enc_task (grown a h d) (d ++ tid)]> (w_files w)
  ∧ tpb_raf_record_read_task (Some ws) (Some (ta_task_record_id a)) true want w'
    = Ok (stored_task (grown a h d), delivered want (d ++ tid), Z.of_nat (length d) + 20).
Proof.
  intros p Hc Htid Hin Hw Hm Hcap. unfold p in *. clear p.
  rewrite (append_member_eq ws a h d tid w) by done. split; [done|]. split; [done|].
  replace (Z.of_nat (length d) + 20) with (Z.of_nat (length (d ++ tid)))
    by (rewrite length_app; lia).
  apply (read_task_file ws (grown a h d)); [by apply grown_ok| |done|].
  - pose proof (cp_long _ _ _ Hc). rewrite length_app. lia.
  - unfold capsule_in. cbn [w_files set_file]. apply lookup_insert_eq.
Qed.

Definition capsule_header : tpb_meta_header :=
  mkHeader 3096 1 20 0x810 0 0 ($"TaskID" ++ replicate 250 0) ($"TPBLINK" ++ replicate 249 0)
    (replicate 2048 0) (1 :: replicate 6 0) (replicate 7 (replicate 64 0)).
Definition sample_capsule : task_attr :=
  mkTaskAttr (replicate 20 1) (replicate 20 0) (replicate 20 0) (replicate 20 2) (replicate 20 3)
    1 2 3 0 0 100 101 0 0 1 0 [capsule_header].

Lemma capsule_header_ok : header_ok capsule_header.
Proof.
  split; unfold is_word;
    try (match goal with |- _ ∧ Forall _ _ => fail 1 | |- _ ∧ _ => idtac end;
         vm_compute; split; congruence).
  1-3: vm_compute; reflexivity.
  - split; [reflexivity|]. repeat constructor; vm_compute; congruence.
  - split; [reflexivity|]. repeat constructor.
Qed.

Lemma sample_capsule_ok : capsule sample_capsule capsule_header (replicate 20 7).
Proof.
  split; try done. split; try (vm_compute; split; congruence); try reflexivity.
  - split; [reflexivity|]. by repeat constructor.
  - split; [reflexivity|vm_compute; split; congruence|].
    constructor; [apply capsule_header_ok|constructor].
Qed.

Definition capsule_world : world := mkWorld ∅ (λ _, true) 4000 4096 (λ _, true).

Lemma append_capsule_correct_witness :
  let w := set_file (task_path $"/w" (replicate 20 1))
             (enc_task sample_capsule (replicate 20 7)) capsule_world in
  fst (tpb_raf_record_append_task_capsule true (Some $"/w") (Some (replicate 20 1))
         (Some (replicate 20 8)) w) = Ok tt.
Proof.
  intros w.
  assert (Hcap : (length (enc_task sample_capsule (replicate 20 7%Z)) + 20 ≤ w_cap w)%nat)
    by (vm_compute; lia).
  pose proof (append_capsule_correct $"/w" sample_capsule capsule_header (replicate 20 7)
    (replicate 20 8) true w sample_capsule_ok eq_refl (lookup_insert_eq _ _ _) eq_refl
    (λ _, eq_refl) Hcap) as H.
  change (ta_task_record_id sample_capsule) with (replicate 20 1) in H. revert H.
  destruct (tpb_raf_record_append_task_capsule _ _ _ _ _) as [r w'].
  intros (H & _). exact H.
Defined.

(** C2: a capsule implements a list of identifiers.  When a leader creates it
    with the first member and the others append theirs, in whatever order the
    lock admits them, every step succeeds and a reader gets the concatenation of
    the identifiers in that order; the header of the record says how many there
    are and how many bytes they take. *)
Theorem capsule_refines_list ws a h first tids want w :
  let p := task_path ws (ta_task_record_id a) in
  let members := first ++ concat tids in
  capsule a h first → length first = 20%nat → ta_ninput a = 0 → ta_noutput a = 0 →
  h_dimsizes h !! 0%nat = Some 1 →
  Forall (λ t, length t = 20%nat) tids →
  w_can_write w p = true → (∀ n, w_malloc w n = true) →
  (length (enc_task a first) + 20 * length tids ≤ w_cap w)%nat →
  20 * Z.of_nat (S (length tids)) < 2 ^ 62 →
  let '(r, w') := capsule_group ws a first tids w in
  r = Ok tt
  ∧ tpb_raf_record_read_task (Some ws) (Some (ta_task_record_id a)) true want w'
    = Ok (stored_task (capsule_attr a h members), delivered want members,
          20 * Z.of_nat (S (length tids)))
  ∧ Z.of_nat (length members) / 20 = Z.of_nat (S (length tids)).
Proof.
  intros p members Hc Hfirst Hni Hno Hd0 Hall Hw Hm Hcap Hlong.
  destruct (capsule_group_eq ws a h first tids w) as (w' & -> & Hm' & Hin & Hok & Hlm); try done.
  fold members in Hin, Hok, Hlm. split; [done|].
  split; [|rewrite Hlm, Z.mul_comm; apply Z.div_mul; lia].
  rewrite <- Hlm. apply (read_task_file ws (capsule_attr a h members)); [done|lia| |done].
  intros k. rewrite Hm'. apply Hm.
Qed.

Lemma capsule_refines_list_witness :
  fst (capsule_group $"/w" sample_capsule (replicate 20 7) [replicate 20 8; replicate 20 9]
         capsule_world) = Ok tt.
Proof.
  assert (Hcap : (length (enc_task sample_capsule (replicate 20 7%Z)) + 40 ≤ w_cap capsule_world)%nat)
    by (vm_compute; lia).
  pose proof (capsule_refines_list $"/w" sample_capsule capsule_header (replicate 20 7)
    [replicate 20 8; replicate 20 9] true capsule_world sample_capsule_ok eq_refl eq_refl eq_refl
    eq_refl ltac:(by repeat constructor) eq_refl (λ _, eq_refl) Hcap ltac:(by vm_compute)) as H.
  revert H. destruct (capsule_group _ _ _ _ _) as [r w']. intros (H & _). exact H.
Defined.
