(* ===== verification/RafBatchlink.v ===== *)
(** * Record database, layer 3: the member list of a task batch

    [src/corelib/rafdb/rafdb-l3-tbatch-taglink.c]: [tpb_raf_record_append_tbatch]
    inserts a task identifier at the end of the first header's data of a batch
    record, before the kernel identifiers of the second header. *)

From S2P Require Import Prelude Errors CLib FileIO RafBase RafHeader RafRecord RafTbatch RafTaglink.
From stdpp Require Import options.

Definition TPB_RAF_TBATCH_FILE_OFF_DATASIZE : Z := 16.
Definition TPB_RAF_TBATCH_FILE_OFF_NHEADER : Z := 256.
Definition TPB_RAF_TBATCH_FILE_HDR0_BASE : Z := 388.
Definition TPB_RAF_TBATCH_HDR_DATA_SIZE_OFF : Z := 8.
Definition TPB_RAF_TBATCH_HDR_NAME_OFF : Z := 32.
Definition TPB_RAF_TBATCH_HDR_DIM0_OFF : Z := 2336.
Definition TPB_RAF_TBATCH_HDR_TASK_NAME : bytes := $"TaskID".
Definition TPB_RAF_TBATCH_HDR_KERNEL_NAME : bytes := $"KernelID".

(** Up to the read of the tail: the checks, and where the identifier goes.  The
    result is the data size, the size of the first header's data, the insertion
    offset and the bytes after it. *)
Definition append_tbatch_locate (alloc : Z → bool) : IO (Z * Z * Z * bytes) :=
  '(metasize, datasize) ← read_prefix TPB_RAF_DOM_TBATCH;
  fseek_set TPB_RAF_TBATCH_FILE_OFF_NHEADER;;
  nheader ← _tpb_raf_l1_read_u32;
  io_guard (nheader =? 2);;
  let hdr0_base := TPB_RAF_TBATCH_FILE_HDR0_BASE in
  fseek_set (hdr0_base + TPB_RAF_TBATCH_HDR_NAME_OFF);;
  namechk ← fread 256;
  io_guard (name_is namechk TPB_RAF_TBATCH_HDR_TASK_NAME);;
  len0 ← _tpb_raf_l1_hdr_serialized_len_at hdr0_base;
  let hdr1_base := hdr0_base + len0 in
  fseek_set (hdr1_base + TPB_RAF_TBATCH_HDR_NAME_OFF);;
  namechk ← fread 256;
  io_guard (name_is namechk TPB_RAF_TBATCH_HDR_KERNEL_NAME);;
  len1 ← _tpb_raf_l1_hdr_serialized_len_at hdr1_base;
  let split_off := hdr1_base + len1 in
  fseek_set (hdr0_base + TPB_RAF_TBATCH_HDR_DATA_SIZE_OFF);;
  hdr0_ds ← _tpb_raf_l1_read_u64;
  fseek_set (hdr1_base + TPB_RAF_TBATCH_HDR_DATA_SIZE_OFF);;
  hdr1_ds ← _tpb_raf_l1_read_u64;
  io_guard (hdr0_ds mod 20 =? 0);;
  io_guard (wrap64 (hdr0_ds + hdr1_ds) =? datasize);;
  end_magic_off ← io_long (split_off + 8 + swrap 64 datasize);
  fseek_set end_magic_off;;
  expect_magic TPB_RAF_DOM_TBATCH TPB_RAF_POS_END;;
  insert_off ← io_long (split_off + 8 + swrap 64 hdr0_ds);
  let tail_len := wrap64 (hdr1_ds + Z.of_nat TPB_RAF_MAGIC_LEN) in
  io_guard (alloc tail_len);;
  fseek_set insert_off;;
  tail ← fread (Z.to_nat tail_len);
  mret (datasize, hdr0_ds, insert_off, tail).

(** The writes. *)
Definition append_tbatch_store (task_id : bytes) (datasize hdr0_ds insert_off : Z) (tail : bytes)
  : IO unit :=
  let hdr0_base := TPB_RAF_TBATCH_FILE_HDR0_BASE in
  let new_total_ds := wrap64 (datasize + 20) in
  let new_hdr0_ds := wrap64 (hdr0_ds + 20) in
  let new_dim0 := new_hdr0_ds / 20 in
  fseek_set insert_off;;
  fwrite task_id;;
  fwrite tail;;
  fseek_set TPB_RAF_TBATCH_FILE_OFF_DATASIZE;;
  _tpb_raf_l1_write_u64 new_total_ds;;
  fseek_set (hdr0_base + TPB_RAF_TBATCH_HDR_DATA_SIZE_OFF);;
  _tpb_raf_l1_write_u64 new_hdr0_ds;;
  fseek_set (hdr0_base + TPB_RAF_TBATCH_HDR_DIM0_OFF);;
  _tpb_raf_l1_write_u64 new_dim0;;
  fflush_io.

(** The statements between the lock and the unlock, on the unbuffered stream. *)
Definition append_tbatch_body (alloc : Z → bool) (task_id : bytes) : IO unit :=
  '(datasize, hdr0_ds, insert_off, tail) ← append_tbatch_locate alloc;
  append_tbatch_store task_id datasize hdr0_ds insert_off tail.

Definition tpb_raf_record_append_tbatch (lock_ok : bool)
  (workspace tbatch_id task_id : option bytes) (w : world) : outcome unit * world :=
  match workspace, tbatch_id, task_id with
  | Some ws, Some bid, Some tid =>
      let fpath := _tpb_raf_l1_build_record_path ws TPB_RAF_DOM_TBATCH bid TPB_RAF_PATH_MAX in
      edit_record lock_ok (TPB_FAIL TPB_MOD_RAF_L3_TBATCH TPBE_FILE_IO_FAIL) fpath
        (append_tbatch_body (w_malloc w) (take 20 tid)) w
  | _, _, _ => (TPB_FAIL TPB_MOD_RAF_L3_TBATCH TPBE_NULLPTR_ARG, w)
  end.

(** ** The record as blocks *)

(** The header with its data size and its note replaced. *)
Definition with_size_note (h : tpb_meta_header) (data_size : Z) (note : bytes) : tpb_meta_header :=
  mkHeader (h_block_size h) (h_ndim h) data_size (h_type_bits h) (h_reserve h) (h_uattr_bits h)
    (h_name h) (h_tag h) note (h_dimsizes h) (h_dimnames h).

(** The dimensions as stored. *)
Definition hdr_dims (h : tpb_meta_header) : bytes :=
  concat (map (le 8) (take (Z.to_nat (h_ndim h)) (h_dimsizes h)))
  ++ concat (take (Z.to_nat (h_ndim h)) (h_dimnames h)).

Definition bl_start (a : tbatch_attr) : bytes :=
  tpb_raf_build_magic TPB_RAF_FTYPE_RECORD TPB_RAF_DOM_TBATCH TPB_RAF_POS_START
  ++ le 8 (metasize_of (236 + Z.of_nat TPB_RAF_RESERVE_SIZE) (tb_nheader a)).
Definition bl_attrs (a : tbatch_attr) : bytes :=
  tb_tbatch_id a ++ tb_derive_to a ++ tb_inherit_from a
  ++ le 8 (tb_utc_bits a) ++ le 8 (tb_btime a) ++ le 8 (tb_duration a)
  ++ tb_hostname a ++ tb_username a ++ le 4 (tb_front_pid a)
  ++ le 4 (tb_nkernel a) ++ le 4 (tb_ntask a) ++ le 4 (tb_nscore a) ++ le 4 (tb_batch_type a).
Definition bl_reserve : bytes :=
  replicate TPB_RAF_RESERVE_SIZE 0 ++ le 4 TPB_RAF_HDR_FIXED_SIZE.
Definition bl_split : bytes :=
  tpb_raf_build_magic TPB_RAF_FTYPE_RECORD TPB_RAF_DOM_TBATCH TPB_RAF_POS_SPLIT.
Definition bl_end : bytes :=
  tpb_raf_build_magic TPB_RAF_FTYPE_RECORD TPB_RAF_DOM_TBATCH TPB_RAF_POS_END.

(** [x], [y] are the sizes that change, [n1 ++ s ++ n3] the note of the first
    header, [t] and [k] the task and the kernel identifiers. *)
Definition batch_bytes (a : tbatch_attr) (h0 h1 : tpb_meta_header) (n1 n3 : bytes)
  (x y : Z) (s t k : bytes) : bytes :=
  bl_start a ++ le 8 x ++ bl_attrs a ++ le 4 (tb_nheader a) ++ bl_reserve
  ++ le 4 (h_ndim h0) ++ le 8 y ++ cap_bits h0 ++ h_name h0 ++ h_tag h0
  ++ n1 ++ s ++ n3 ++ hdr_dims h0
  ++ le 4 TPB_RAF_HDR_FIXED_SIZE ++ le 4 (h_ndim h1) ++ le 8 (h_data_size h1) ++ cap_bits h1
  ++ h_name h1 ++ h_tag h1 ++ h_note h1 ++ hdr_dims h1
  ++ bl_split ++ t ++ k ++ bl_end.

Lemma length_hdr_dims h : header_ok h → Z.of_nat (length (hdr_dims h)) = 72 * h_ndim h.
Proof.
  intros Hh. pose proof (length_enc_header h Hh) as Hl. unfold enc_header in Hl.
  rewrite !length_app, !length_le, (ok_name h Hh), (ok_tag h Hh), (ok_note h Hh) in Hl.
  unfold hdr_dims. rewrite length_app. lia.
Qed.

Section Blocks.
Context (a : tbatch_attr) (h0 h1 : tpb_meta_header) (n1 n3 k : bytes).
Context (Ha : tbatch_attr_ok a) (Hh0 : header_ok h0) (Hh1 : header_ok h1).
Context (Hn1 : Z.of_nat (length n1) = 1792) (Hn3 : Z.of_nat (length n3) = 248).
Implicit Types (x y : Z) (s t : bytes).
Let bytes_of x y s t := batch_bytes a h0 h1 n1 n3 x y s t k.

Definition bpre_x : bytes := bl_start a.
Definition bpre_nheader x : bytes := bpre_x ++ le 8 x ++ bl_attrs a.
Definition bpre_ndim0 x : bytes := bpre_nheader x ++ le 4 (tb_nheader a) ++ bl_reserve.
Definition bpre_y x : bytes := bpre_ndim0 x ++ le 4 (h_ndim h0).
Definition bpre_name0 x y : bytes := bpre_y x ++ le 8 y ++ cap_bits h0.
Definition bpre_s x y : bytes := bpre_name0 x y ++ h_name h0 ++ h_tag h0 ++ n1.
Definition bpre_ndim1 x y s : bytes :=
  bpre_s x y ++ s ++ n3 ++ hdr_dims h0 ++ le 4 TPB_RAF_HDR_FIXED_SIZE.
Definition bpre_size1 x y s : bytes := bpre_ndim1 x y s ++ le 4 (h_ndim h1).
Definition bpre_name1 x y s : bytes :=
  bpre_size1 x y s ++ le 8 (h_data_size h1) ++ cap_bits h1.
Definition bpre_t x y s : bytes :=
  bpre_name1 x y s ++ h_name h1 ++ h_tag h1 ++ h_note h1 ++ hdr_dims h1 ++ bl_split.
Definition bpre_k x y s t : bytes := bpre_t x y s ++ t.
Definition bpre_end x y s t : bytes := bpre_k x y s t ++ k.

Lemma boffsets_low x y :
  zlen bpre_x = 16 ∧ zlen (bpre_nheader x) = 256 ∧ zlen (bpre_ndim0 x) = 392
  ∧ zlen (bpre_y x) = 396 ∧ zlen (bpre_name0 x y) = 420 ∧ zlen (bpre_s x y) = 2724.
Proof using Type*.
  pose proof (ok_name h0 Hh0). pose proof (ok_tag h0 Hh0).
  destruct Ha as [[Hid _]].
  unfold bpre_s, bpre_name0, bpre_y, bpre_ndim0, bpre_nheader, bpre_x, bl_start, bl_attrs,
    bl_reserve, cap_bits, TPB_RAF_RESERVE_SIZE.
  rewrite !length_app, !length_le, !length_build_magic, length_replicate. lia.
Qed.

Lemma boffsets_high x y s t :
  length s = 8%nat →
  zlen (bpre_ndim1 x y s) = 388 + (2592 + 72 * h_ndim h0) + 4
  ∧ zlen (bpre_size1 x y s) = 388 + (2592 + 72 * h_ndim h0) + 8
  ∧ zlen (bpre_name1 x y s) = 388 + (2592 + 72 * h_ndim h0) + 32
  ∧ zlen (bpre_t x y s)
    = 388 + (2592 + 72 * h_ndim h0) + (2592 + 72 * h_ndim h1) + 8
  ∧ zlen (bpre_k x y s t)
    = 388 + (2592 + 72 * h_ndim h0) + (2592 + 72 * h_ndim h1) + 8 + zlen t
  ∧ zlen (bpre_end x y s t)
    = 388 + (2592 + 72 * h_ndim h0) + (2592 + 72 * h_ndim h1) + 8 + zlen t + zlen k.
Proof using Type*.
  intros Hs. destruct (boffsets_low x y) as (_ & _ & _ & _ & _ & H6).
  pose proof (length_hdr_dims h0 Hh0). pose proof (length_hdr_dims h1 Hh1).
  pose proof (ok_name h1 Hh1). pose proof (ok_tag h1 Hh1). pose proof (ok_note h1 Hh1).
  unfold bpre_end, bpre_k, bpre_t, bpre_name1, bpre_size1, bpre_ndim1, cap_bits, bl_split.
  rewrite !length_app, !length_le, !length_build_magic, Hs. lia.
Qed.

Ltac view :=
  unfold bytes_of, batch_bytes, bpre_end, bpre_k, bpre_t, bpre_name1, bpre_size1, bpre_ndim1,
    bpre_s, bpre_name0, bpre_y, bpre_ndim0, bpre_nheader, bpre_x;
  rewrite <- ?app_assoc; reflexivity.

Lemma bview_x x y s t : ∃ r, (∀ x', bytes_of x' y s t = bpre_x ++ le 8 x' ++ r).
Proof using Type*. eexists. intros x'. view. Qed.
Lemma bview_nheader x y s t : ∃ r, bytes_of x y s t = bpre_nheader x ++ le 4 (tb_nheader a) ++ r.
Proof using Type*. eexists. view. Qed.
Lemma bview_ndim0 x y s t : ∃ r, bytes_of x y s t = bpre_ndim0 x ++ le 4 (h_ndim h0) ++ r.
Proof using Type*. eexists. view. Qed.
Lemma bview_y x y s t : ∃ r, (∀ y', bytes_of x y' s t = bpre_y x ++ le 8 y' ++ r).
Proof using Type*. eexists. intros y'. view. Qed.
Lemma bview_name0 x y s t : ∃ r, bytes_of x y s t = bpre_name0 x y ++ h_name h0 ++ r.
Proof using Type*. eexists. view. Qed.
Lemma bview_s x y s t : ∃ r, (∀ s', bytes_of x y s' t = bpre_s x y ++ s' ++ r).
Proof using Type*. eexists. intros s'. view. Qed.
Lemma bview_ndim1 x y s t : ∃ r, bytes_of x y s t = bpre_ndim1 x y s ++ le 4 (h_ndim h1) ++ r.
Proof using Type*. eexists. view. Qed.
Lemma bview_size1 x y s t :
  ∃ r, bytes_of x y s t = bpre_size1 x y s ++ le 8 (h_data_size h1) ++ r.
Proof using Type*. eexists. view. Qed.
Lemma bview_name1 x y s t : ∃ r, bytes_of x y s t = bpre_name1 x y s ++ h_name h1 ++ r.
Proof using Type*. eexists. view. Qed.
Lemma bview_k x y s t : bytes_of x y s t = bpre_k x y s t ++ k ++ bl_end.
Proof using Type*. view. Qed.
Lemma bview_end x y s t : bytes_of x y s t = bpre_end x y s t ++ bl_end.
Proof using Type*. view. Qed.

Lemma bset_x x y s t x' : overlay (bytes_of x y s t) (length bpre_x) (le 8 x') = bytes_of x' y s t.
Proof using Type*.
  destruct (bview_x x y s t) as [r V]. rewrite !V. apply overlay_middle; by rewrite ?length_le.
Qed.
Lemma bset_y x y s t y' :
  overlay (bytes_of x y s t) (length (bpre_y x)) (le 8 y') = bytes_of x y' s t.
Proof using Type*.
  destruct (bview_y x y s t) as [r V]. rewrite !V. apply overlay_middle; by rewrite ?length_le.
Qed.
Lemma bset_s x y s t s' :
  length s = length s' → overlay (bytes_of x y s t) (length (bpre_s x y)) s' = bytes_of x y s' t.
Proof using Type*.
  intros Hs. destruct (bview_s x y s t) as [r V]. rewrite !V. by apply overlay_middle.
Qed.
Lemma binsert x y s t id :
  overlay (bytes_of x y s t) (length (bpre_k x y s t)) (id ++ k ++ bl_end) = bytes_of x y s (t ++ id).
Proof using Type*.
  rewrite bview_k, overlay_tail by (rewrite ?length_app; done || lia).
  rewrite bview_k. unfold bpre_k. by rewrite <- !app_assoc.
Qed.

Lemma enc_batch y s t :
  tb_headers a = [with_size_note h0 y (n1 ++ s ++ n3); h1] →
  enc_tbatch a (t ++ k) = bytes_of (Z.of_nat (length (t ++ k))) y s t.
Proof using Type*.
  intros Hhs. unfold enc_tbatch, tbatch_part1, tbatch_part2, tbatch_part3, enc_prefix,
    enc_headers, enc_data. rewrite Hhs.
  cbn [map concat]. unfold enc_header, with_size_note.
  cbn [h_ndim h_data_size h_type_bits h_reserve h_uattr_bits h_name h_tag h_note h_dimsizes
       h_dimnames].
  unfold bytes_of, batch_bytes, bl_start, bl_attrs, bl_reserve, cap_bits, hdr_dims, bl_split, bl_end.
  by rewrite app_nil_r, <- !app_assoc.
Qed.
End Blocks.

(** ** Appending *)

Definition with_tbatch_headers (a : tbatch_attr) (hs : list tpb_meta_header) : tbatch_attr :=
  mkTbatchAttr (tb_tbatch_id a) (tb_derive_to a) (tb_inherit_from a) (tb_utc_bits a) (tb_btime a)
    (tb_duration a) (tb_hostname a) (tb_username a) (tb_front_pid a) (tb_nkernel a) (tb_ntask a)
    (tb_nscore a) (tb_batch_type a) (tb_nheader a) hs.

(** A batch record that links the tasks [t] and the kernels [k]. *)
Record batch (a : tbatch_attr) (h0 h1 : tpb_meta_header) (t k : bytes) : Prop := {
  bt_ok : tbatch_attr_ok a;
  bt_headers : tb_headers a = [h0; h1];
  bt_name0 : name_is (h_name h0) TPB_RAF_TBATCH_HDR_TASK_NAME = true;
  bt_name1 : name_is (h_name h1) TPB_RAF_TBATCH_HDR_KERNEL_NAME = true;
  bt_size0 : h_data_size h0 = Z.of_nat (length t);
  bt_size1 : h_data_size h1 = Z.of_nat (length k);
  bt_mod : Z.of_nat (length t) mod 20 = 0;
  bt_long : Z.of_nat (length t) + Z.of_nat (length k) < 2 ^ 62;
}.

(** The first header after an append: the data size grows by 20, and eight bytes
    of the note receive the number of tasks. *)
Definition linked_header (h0 : tpb_meta_header) (t : bytes) : tpb_meta_header :=
  with_size_note h0 (Z.of_nat (length t) + 20)
    (overlay (h_note h0) 1792 (le 8 ((Z.of_nat (length t) + 20) / 20))).
Definition linked (a : tbatch_attr) (h0 h1 : tpb_meta_header) (t : bytes) : tbatch_attr :=
  with_tbatch_headers a [linked_header h0 t; h1].

Lemma note_parts (note : bytes) :
  length note = 2048%nat →
  ∃ n1 s n3, note = n1 ++ s ++ n3 ∧ length n1 = 1792%nat ∧ length s = 8%nat
    ∧ length n3 = 248%nat ∧ ∀ bs, length bs = 8%nat → overlay note 1792 bs = n1 ++ bs ++ n3.
Proof.
  intros Hl. exists (take 1792 note), (take 8 (drop 1792 note)), (drop 1800 note).
  assert (E : note = take 1792 note ++ take 8 (drop 1792 note) ++ drop 1800 note).
  { change 1800%nat with (1792 + 8)%nat. rewrite <- drop_drop, take_drop. by rewrite take_drop. }
  split; [done|].
  assert (Hn1 : length (take 1792 note) = 1792%nat) by (rewrite length_take; lia).
  assert (Hs : length (take 8 (drop 1792 note)) = 8%nat) by (rewrite length_take, length_drop; lia).
  split; [done|]. split; [done|]. split; [rewrite length_drop; lia|].
  intros bs Hbs. rewrite E at 1. apply overlay_middle; [done|lia].
Qed.

Lemma linked_header_ok h0 t :
  header_ok h0 → Z.of_nat (length t) < 2 ^ 62 → header_ok (linked_header h0 t).
Proof.
  intros Hh Ht. destruct (note_parts _ (ok_note h0 Hh)) as (n1 & s & n3 & _ & H1 & _ & H3 & Hov).
  destruct Hh. split; try done.
  - cbn [linked_header with_size_note h_data_size]. unfold is_word. lia.
  - cbn [linked_header with_size_note h_note]. rewrite Hov by apply length_le.
    rewrite !length_app, length_le. lia.
Qed.

Lemma linked_ok a h0 h1 t k : batch a h0 h1 t k → tbatch_attr_ok (linked a h0 h1 t).
Proof.
  intros [Ha Hhs _ _ _ _ _ Hl]. destruct (bk_headers a Ha) as [Hn Hn32 Hall].
  rewrite Hhs in Hn, Hall. apply Forall_cons in Hall as [Hh0 Hall].
  destruct Ha. split; try done. split; [done|done|].
  constructor; [apply linked_header_ok; [done|lia]|done].
Qed.

(** The length of a header, from the stream. *)
Lemma clean_hdr_len D c f base nd r :
  is_u32 nd → clean D c f → drop (base + 4) D = le 4 nd ++ r →
  ∃ f', clean D c f' ∧ ∀ B (k : Z → IO B),
    (_tpb_raf_l1_hdr_serialized_len_at (Z.of_nat base) ≫= k) f = k (2592 + 72 * nd) f'.
Proof.
  intros Hnd Hf Hr.
  destruct (clean_read _ _ _ D c f (base + 4) r (decodes_read_u32 nd Hnd) Hf Hr) as (f' & Hf' & E).
  exists f'. split; [done|]. intros B k. unfold _tpb_raf_l1_hdr_serialized_len_at.
  replace (Z.of_nat base + 4) with (Z.of_nat (base + 4)) by lia.
  unfold mbind at 1, IO_bind at 1. rewrite E. cbn [mret IO_ret]. f_equal. lia.
Qed.

Section AppendRun.
Context (a : tbatch_attr) (h0 h1 : tpb_meta_header) (n1 n3 k : bytes).
Context (Ha : tbatch_attr_ok a) (Hh0 : header_ok h0) (Hh1 : header_ok h1).
Context (Hn1 : Z.of_nat (length n1) = 1792) (Hn3 : Z.of_nat (length n3) = 248).
Context (x y : Z) (s t : bytes) (c : nat).
Context (Hs : length s = 8%nat) (Hy : y = Z.of_nat (length t)) (Hx : x = y + Z.of_nat (length k)).
Context (Hlong : x < 2 ^ 62).
Let D := batch_bytes a h0 h1 n1 n3 x y s t k.
Let pk := bpre_k a h0 h1 n1 n3 x y s t.

Lemma locate_len_step pre nd base f r :
  is_u32 nd → clean D c f → D = pre ++ le 4 nd ++ r → Z.of_nat (length pre) = base + 4 → 0 ≤ base →
  ∃ f', clean D c f' ∧ ∀ B (k : Z → IO B),
    (_tpb_raf_l1_hdr_serialized_len_at base ≫= k) f = k (2592 + 72 * nd) f'.
Proof using All.
  intros Hnd Hf Hv Hl Hb.
  destruct (clean_hdr_len D c f (Z.to_nat base) nd r Hnd Hf) as (f' & Hf' & E).
  { replace (Z.to_nat base + 4)%nat with (length pre) by lia. rewrite Hv. apply drop_app_length. }
  exists f'. split; [done|]. intros B k'. by rewrite <- E, Z2Nat.id.
Qed.

Ltac at_offset off :=
  rewrite off; unfold TPB_RAF_TBATCH_FILE_OFF_DATASIZE, TPB_RAF_TBATCH_FILE_OFF_NHEADER,
    TPB_RAF_TBATCH_FILE_HDR0_BASE, TPB_RAF_TBATCH_HDR_DATA_SIZE_OFF,
    TPB_RAF_TBATCH_HDR_NAME_OFF, TPB_RAF_TBATCH_HDR_DIM0_OFF; lia.
(** Go on after a read, the length of a header, a passed check. *)
Ltac locate view dec off :=
  let r := fresh in let V := fresh in
  destruct view as [r V];
  match goal with Hf : clean _ _ ?f |- context [mbind _ (fseek_set ?o) ?f] =>
    let f' := fresh "f" in let Hf' := fresh "Hf" in let E := fresh in
    edestruct (clean_read_at _ _ _ D c _ o f r dec Hf V) as (f' & Hf' & E); [at_offset off|];
    rewrite E; clear V r E Hf
  end.
Ltac locate_len view U off :=
  let r := fresh in let V := fresh in
  destruct view as [r V];
  match goal with
    Hf : clean _ _ ?f |- context [mbind _ (_tpb_raf_l1_hdr_serialized_len_at ?b) ?f] =>
    let f' := fresh "f" in let Hf' := fresh "Hf" in let E := fresh in
    edestruct (locate_len_step _ _ b f r U Hf V) as (f' & Hf' & E);
      [at_offset off|unfold TPB_RAF_TBATCH_FILE_HDR0_BASE; lia|];
    rewrite E; clear V r E Hf
  end.

Lemma append_tbatch_locate_run alloc f :
  tb_nheader a = 2 → name_is (h_name h0) TPB_RAF_TBATCH_HDR_TASK_NAME = true →
  name_is (h_name h1) TPB_RAF_TBATCH_HDR_KERNEL_NAME = true →
  h_data_size h1 = Z.of_nat (length k) → y mod 20 = 0 →
  alloc (Z.of_nat (length k) + 8) = true →
  clean D c f → f_pos f = 0%nat →
  ∃ f', append_tbatch_locate alloc f = (Ok (x, y, Z.of_nat (length pk), k ++ bl_end), f')
    ∧ clean D c f'.
Proof using All.
  intros Hn Hname0 Hname1 Hsize1 Hmod Hal Hf Hpos.
  destruct (boffsets_low a h0 h1 n1 n3 k Ha Hh0 Hh1 Hn1 Hn3 x y) as (_ & O2 & O3 & O4 & O5 & _).
  destruct (boffsets_high a h0 h1 n1 n3 k Ha Hh0 Hh1 Hn1 Hn3 x y s t Hs)
    as (O7 & O8 & O9 & _ & O11 & O12).
  pose proof (ok_ndim h0 Hh0) as Hd0. pose proof (ok_ndim h1 Hh1) as Hd1.
  assert (Hu : is_u64 x ∧ is_u64 y ∧ is_u64 (Z.of_nat (length k)) ∧ is_u32 2
               ∧ is_u32 (h_ndim h0) ∧ is_u32 (h_ndim h1)) by (unfold is_word; lia).
  destruct Hu as (Ux & Uy & Uk & U2 & U0 & U1).
  unfold append_tbatch_locate.
  set (ms := metasize_of (236 + Z.of_nat TPB_RAF_RESERVE_SIZE) (tb_nheader a)).
  assert (Hr : ∃ r, rest f = enc_prefix TPB_RAF_DOM_TBATCH ms x ++ r).
  { destruct Hf as (Hd & _). eexists. unfold rest. rewrite Hpos, Hd, drop_0.
    unfold enc_prefix, D, batch_bytes, bl_start. rewrite <- !app_assoc. reflexivity. }
  destruct Hr as [r0 Hr].
  destruct (clean_step _ _ _ _ c f r0
    (decodes_prefix TPB_RAF_DOM_TBATCH ms x ltac:(by apply metasize_u64) Ux) Hf Hr)
    as (f1 & Hf1 & ->). clear Hr r0.
  cbn beta iota. pose proof (bview_nheader a h0 h1 n1 n3 k Ha Hh0 Hh1 Hn1 Hn3 x y s t) as V.
  rewrite Hn in V. locate V (decodes_read_u32 _ U2) O2. rewrite Z.eqb_refl. pass.
  locate (bview_name0 a h0 h1 n1 n3 k Ha Hh0 Hh1 Hn1 Hn3 x y s t)
    (decodes_fread 256 _ (ok_name h0 Hh0)) O5. rewrite Hname0. pass.
  locate_len (bview_ndim0 a h0 h1 n1 n3 k Ha Hh0 Hh1 Hn1 Hn3 x y s t) U0 O3.
  locate (bview_name1 a h0 h1 n1 n3 k Ha Hh0 Hh1 Hn1 Hn3 x y s t)
    (decodes_fread 256 _ (ok_name h1 Hh1)) O9. rewrite Hname1. pass.
  locate_len (bview_ndim1 a h0 h1 n1 n3 k Ha Hh0 Hh1 Hn1 Hn3 x y s t) U1 O7.
  destruct (bview_y a h0 h1 n1 n3 k Ha Hh0 Hh1 Hn1 Hn3 x y s t) as [r V'].
  locate (ex_intro (λ r, D = bpre_y a h0 x ++ le 8 y ++ r) r (V' y)) (decodes_read_u64 _ Uy) O4.
  clear V'. pose proof (bview_size1 a h0 h1 n1 n3 k Ha Hh0 Hh1 Hn1 Hn3 x y s t) as V.
  rewrite Hsize1 in V. locate V (decodes_read_u64 _ Uk) O8.
  rewrite Hmod. pass.
  rewrite <- Hx, (wrap_small 64 x Ux), Z.eqb_refl. pass.
  rewrite (swrap64_small x), (swrap64_small y) by lia.
  rewrite (wrap_small 64 (Z.of_nat (length k) + _)) by (unfold is_word, TPB_RAF_MAGIC_LEN; lia).
  set (off := TPB_RAF_TBATCH_FILE_HDR0_BASE + (2592 + 72 * h_ndim h0) + (2592 + 72 * h_ndim h1)).
  assert (Hoff : off = 388 + (2592 + 72 * h_ndim h0) + (2592 + 72 * h_ndim h1)) by done.
  clearbody off. rewrite (io_long_ok (off + 8 + x)) by lia. pass.
  locate (ex_intro (λ r, D = bpre_end a h0 h1 n1 n3 k x y s t ++ bl_end ++ r) []
            ltac:(cbn beta; rewrite app_nil_r; apply (bview_end a h0 h1 n1 n3 k Ha Hh0 Hh1 Hn1 Hn3)))
    (decodes_expect_magic TPB_RAF_DOM_TBATCH TPB_RAF_POS_END) O12.
  rewrite (io_long_ok (off + 8 + y)) by lia. pass.
  change (Z.of_nat TPB_RAF_MAGIC_LEN) with 8. rewrite Hal. pass.
  replace (Z.to_nat (Z.of_nat (length k) + 8)) with (length (k ++ bl_end))
    by (rewrite length_app; cbn [length bl_end tpb_raf_build_magic]; lia).
  locate (ex_intro (λ r, D = bpre_k a h0 h1 n1 n3 x y s t ++ (k ++ bl_end) ++ r) []
            ltac:(cbn beta; rewrite app_nil_r; apply (bview_k a h0 h1 n1 n3 k Ha Hh0 Hh1 Hn1 Hn3)))
    (decodes_fread _ (k ++ bl_end) eq_refl) O11.
  replace (off + 8 + y) with (Z.of_nat (length pk)) by (unfold pk; lia). eauto.
Qed.

Lemma append_tbatch_store_run tid f :
  length tid = 20%nat → clean D c f → (length D + 20 ≤ c)%nat →
  ∃ f', append_tbatch_store tid x y (Z.of_nat (length pk)) (k ++ bl_end) f = (Ok tt, f')
    ∧ clean (batch_bytes a h0 h1 n1 n3 (x + 20) (y + 20) (le 8 ((y + 20) / 20)) (t ++ tid) k) c f'.
Proof using All.
  intros Htid Hf Hc. unfold append_tbatch_store, _tpb_raf_l1_write_u64.
  rewrite !(wrap_small 64) by (unfold is_word; lia).
  assert (VK : D = pk ++ k ++ bl_end) by apply (bview_k a h0 h1 n1 n3 k Ha Hh0 Hh1 Hn1 Hn3).
  assert (HD : length D = (length pk + length (k ++ bl_end))%nat) by (rewrite VK, length_app; done).
  assert (Hbig : (2916 ≤ length D)%nat).
  { destruct (boffsets_high a h0 h1 n1 n3 k Ha Hh0 Hh1 Hn1 Hn3 x y s t Hs)
      as (_ & _ & _ & _ & O11 & _). change (bpre_k a h0 h1 n1 n3 x y s t) with pk in O11.
    pose proof (ok_ndim h0 Hh0). pose proof (ok_ndim h1 Hh1). lia. }
  destruct (clean_write2 tid (k ++ bl_end) D c f (length pk) Hf) as (f1 & Hf1 & ->).
  { by destruct tid. } { by destruct k. } { rewrite length_app, Htid. lia. } { lia. }
  unfold D, pk in Hf1. rewrite (binsert a h0 h1 n1 n3 k Ha Hh0 Hh1 Hn1 Hn3) in Hf1.
  destruct (boffsets_low a h0 h1 n1 n3 k Ha Hh0 Hh1 Hn1 Hn3 (x + 20) (y + 20))
    as (O1 & _ & _ & O4 & _ & O6).
  replace TPB_RAF_TBATCH_FILE_OFF_DATASIZE with (Z.of_nat (length (bpre_x a))) by at_offset O1.
  destruct (clean_write (le 8 (x + 20)) _ c f1 (length (bpre_x a)) Hf1) as (f2 & Hf2 & _ & ->);
    [done|rewrite length_le; lia|].
  rewrite (bset_x a h0 h1 n1 n3 k Ha Hh0 Hh1 Hn1 Hn3) in Hf2.
  replace (TPB_RAF_TBATCH_FILE_HDR0_BASE + TPB_RAF_TBATCH_HDR_DATA_SIZE_OFF)
    with (Z.of_nat (length (bpre_y a h0 (x + 20)))) by at_offset O4.
  destruct (clean_write (le 8 (y + 20)) _ c f2 (length (bpre_y a h0 (x + 20))) Hf2)
    as (f3 & Hf3 & _ & ->); [done|rewrite length_le; lia|].
  rewrite (bset_y a h0 h1 n1 n3 k Ha Hh0 Hh1 Hn1 Hn3) in Hf3.
  replace (TPB_RAF_TBATCH_FILE_HDR0_BASE + TPB_RAF_TBATCH_HDR_DIM0_OFF)
    with (Z.of_nat (length (bpre_s a h0 n1 (x + 20) (y + 20)))) by at_offset O6.
  destruct (clean_write (le 8 ((y + 20) / 20)) _ c f3
    (length (bpre_s a h0 n1 (x + 20) (y + 20))) Hf3) as (f4 & Hf4 & _ & ->);
    [done|rewrite length_le; lia|].
  rewrite (bset_s a h0 h1 n1 n3 k Ha Hh0 Hh1 Hn1 Hn3) in Hf4 by (by rewrite length_le).
  destruct (clean_fflush _ _ _ Hf4) as (f5 & Hf5 & ->). eauto.
Qed.
End AppendRun.

(** The append on the file of a batch record. *)
Lemma append_tbatch_run a h0 h1 t k tid c alloc f :
  batch a h0 h1 t k → length tid = 20%nat → alloc (Z.of_nat (length k) + 8) = true →
  clean (enc_tbatch a (t ++ k)) c f → f_pos f = 0%nat →
  (length (enc_tbatch a (t ++ k)) + 20 ≤ c)%nat →
  ∃ f', append_tbatch_body alloc tid f = (Ok tt, f')
    ∧ clean (enc_tbatch (linked a h0 h1 t) ((t ++ tid) ++ k)) c f'.
Proof.
  intros Hbat Htid Hal Hf Hpos Hc. pose proof (linked_ok _ _ _ _ _ Hbat) as Ha'.
  destruct Hbat as [Ha Hhs Hname0 Hname1 Hsize0 Hsize1 Hmod Hlong].
  destruct (bk_headers a Ha) as [Hn _ Hall]. rewrite Hhs in Hn, Hall.
  apply Forall_cons in Hall as [Hh0 Hall]. apply Forall_cons in Hall as [Hh1 _].
  destruct (note_parts _ (ok_note h0 Hh0)) as (n1 & s & n3 & Hnote & L1 & Ls & L3 & Hov).
  assert (Z1 : Z.of_nat (length n1) = 1792) by lia.
  assert (Z3 : Z.of_nat (length n3) = 248) by lia.
  set (y := Z.of_nat (length t)) in *. set (x := Z.of_nat (length (t ++ k))).
  assert (Hxy : x = y + Z.of_nat (length k)) by (unfold x, y; rewrite length_app; lia).
  assert (Hnew : enc_tbatch (linked a h0 h1 t) ((t ++ tid) ++ k)
                 = batch_bytes a h0 h1 n1 n3 (x + 20) (y + 20) (le 8 ((y + 20) / 20)) (t ++ tid) k).
  { pose proof (enc_batch (linked a h0 h1 t) h0 h1 n1 n3 k Ha' Hh0 Hh1 Z1 Z3 (y + 20)
      (le 8 ((y + 20) / 20)) (t ++ tid)) as E.
    rewrite (length_app (_ ++ _)), (length_app t), Htid in E.
    replace (Z.of_nat (length t + 20 + length k)) with (x + 20) in E by lia. apply E.
    unfold linked, linked_header. cbn [tb_headers with_tbatch_headers].
    by rewrite Hov by apply length_le. }
  assert (Hold : enc_tbatch a (t ++ k) = batch_bytes a h0 h1 n1 n3 x y s t k).
  { apply (enc_batch a h0 h1 n1 n3 k Ha Hh0 Hh1 Z1 Z3). rewrite Hhs. f_equal.
    unfold with_size_note. rewrite <- Hnote, <- Hsize0. by destruct h0. }
  rewrite Hnew. rewrite Hold in Hf, Hc. unfold append_tbatch_body, mbind, IO_bind.
  destruct (append_tbatch_locate_run a h0 h1 n1 n3 k Ha Hh0 Hh1 Z1 Z3 x y s t c Ls eq_refl Hxy
    ltac:(lia) alloc f Hn Hname0 Hname1 Hsize1 Hmod Hal Hf Hpos) as (f1 & -> & Hf1).
  apply (append_tbatch_store_run a h0 h1 n1 n3 k Ha Hh0 Hh1 Z1 Z3 x y s t c Ls eq_refl Hxy
    ltac:(lia) tid f1 Htid Hf1 Hc).
Qed.

(** ** Properties *)

(** C6: appending a task to a batch record succeeds and gives the record whose
    data holds the identifier after the earlier tasks and before the kernels,
    with the record's and the first header's data sizes 20 bytes larger.  The
    third size is not where the function writes it: the first header's
    dimensions are untouched and eight bytes of its note hold the number of tasks
    ([TPB_RAF_TBATCH_HDR_DIM0_OFF] is 2336, the first dimension is at 2592). *)
Theorem append_tbatch_functional ws a h0 h1 t k tid want w :
  let p := tbatch_path ws (tb_tbatch_id a) in
  let d' := (t ++ tid) ++ k in
  batch a h0 h1 t k → length tid = 20%nat → w_files w !! p = Some (enc_tbatch a (t ++ k)) →
  w_can_write w p = true → (∀ n, w_malloc w n = true) →
  (length (enc_tbatch a (t ++ k)) + 20 ≤ w_cap w)%nat →
  let '(r, w') := tpb_raf_record_append_tbatch true (Some ws) (Some (tb_tbatch_id a)) (Some tid) w in
  r = Ok tt ∧ w_files w' = <[p := enc_tbatch (linked a h0 h1 t) d']> (w_files w)
  ∧ tpb_raf_record_read_tbatch (Some ws) (Some (tb_tbatch_id a)) true want w'
    = Ok (stored_tbatch (linked a h0 h1 t), delivered want d', Z.of_nat (length d'))
  ∧ h_dimsizes (linked_header h0 t) = h_dimsizes h0
  ∧ take 8 (drop 1792 (h_note (linked_header h0 t))) = le 8 ((Z.of_nat (length t) + 20) / 20).
Proof.
  intros p d' Hbat Htid Hin Hw Hm Hcap. unfold p in *. clear p.
  unfold tpb_raf_record_append_tbatch, edit_record, fopen_rpb.
  rewrite Hin. cbn [mbind option_bind]. rewrite Hw. cbn [negb].
  rewrite (take_ge tid) by lia. unfold run_close.
  destruct (append_tbatch_run a h0 h1 t k tid (w_cap w) (w_malloc w)
    (set_unbuffered (open_on (enc_tbatch a (t ++ k)) w)) Hbat Htid (Hm _))
    as (f' & -> & Hf'); [done|done|done|].
  rewrite (clean_fclose _ _ _ Hf'). split; [done|]. split; [done|].
  split; [|split; [done|]].
  - unfold tpb_raf_record_read_tbatch, read_record, fopen_rb. cbn [w_files set_file w_malloc].
    rewrite lookup_insert_eq. cbn [mbind option_bind]. fold d'.
    erewrite decodes_open; [done|]. apply (decodes_tbatch _ want (linked a h0 h1 t) d').
    + by eapply linked_ok.
    + intros ?. apply Hm.
    + pose proof (bt_long _ _ _ _ _ Hbat). unfold d'. rewrite !length_app. lia.
    + intros _ _. apply Hm.
  - destruct (bk_headers a (bt_ok _ _ _ _ _ Hbat)) as [_ _ Hall].
    rewrite (bt_headers _ _ _ _ _ Hbat) in Hall. apply Forall_cons in Hall as [Hh0 _].
    destruct (note_parts _ (ok_note h0 Hh0)) as (n1 & s & n3 & _ & L1 & _ & _ & Hov).
    cbn [linked_header with_size_note h_note]. rewrite Hov by apply length_le.
    rewrite <- L1, drop_app_length. apply take_app_length'. by rewrite length_le.
Qed.

Definition link_header (name : bytes) : tpb_meta_header :=
  mkHeader 3096 1 0 0x810 0 0 (name ++ replicate (256 - length name) 0)
    ($"TPBLINK" ++ replicate 249 0) (replicate 2048 0) (replicate 7 0) (replicate 7 (replicate 64 0)).
Definition sample_batch : tbatch_attr :=
  mkTbatchAttr (replicate 20 1) (replicate 20 0) (replicate 20 0) 1 2 3
    (replicate 64 0) (replicate 64 0) 100 0 0 0 0 2 [link_header $"TaskID"; link_header $"KernelID"].

Lemma link_header_ok name : (length name < 256)%nat → header_ok (link_header name).
Proof.
  intros Hn. split; unfold is_word; cbn [link_header h_ndim h_data_size h_type_bits h_reserve
    h_uattr_bits h_name h_tag h_note h_dimsizes h_dimnames]; try lia.
  - rewrite length_app, length_replicate. lia.
  - reflexivity.
  - apply length_replicate.
  - split; [reflexivity|]. repeat constructor; vm_compute; congruence.
  - split; [reflexivity|]. repeat constructor.
Qed.

Lemma sample_batch_ok :
  batch sample_batch (link_header $"TaskID") (link_header $"KernelID") [] [].
Proof.
  split; try done. split; try (vm_compute; split; congruence); try reflexivity.
  - split; [reflexivity|]. by repeat constructor.
  - split; [reflexivity|vm_compute; split; congruence|].
    apply Forall_cons; split; [apply link_header_ok; vm_compute; lia|].
    apply Forall_cons; split; [apply link_header_ok; vm_compute; lia|constructor].
Qed.

Lemma append_tbatch_functional_witness :
  let w := mkWorld {[ tbatch_path $"/w" (replicate 20 1) := enc_tbatch sample_batch [] ]}
             (λ _, true) 6000 0 (λ _, true) in
  fst (tpb_raf_record_append_tbatch true (Some $"/w") (Some (replicate 20 1))
         (Some (replicate 20 8)) w) = Ok tt.
Proof.
  intros w.
  assert (Hcap : (length (enc_tbatch sample_batch ([] ++ [])) + 20 ≤ w_cap w)%nat) by (vm_compute; lia).
  pose proof (append_tbatch_functional $"/w" sample_batch (link_header $"TaskID")
    (link_header $"KernelID") [] [] (replicate 20 8) true w sample_batch_ok eq_refl
    (lookup_singleton_eq _ _) eq_refl (λ _, eq_refl) Hcap) as H.
  change (tb_tbatch_id sample_batch) with (replicate 20 1) in H. revert H.
  destruct (tpb_raf_record_append_tbatch _ _ _ _ _) as [r w'].
  intros (H & _). exact H.
Defined.
