(* ===== verification/TaskSel.v ===== *)
(** * Task selection

    [src/tpbcli/task/tpbcli-task-select.c]: the RIDMAP file that numbers the tasks
    of the last listing, capsule confirmation, the name, number and identifier
    specifications of the command line, and the resolution of selections into
    logical tasks and export works.

    Identifiers are lists of 20 bytes.  Where the sources release what they
    allocated there is nothing in the model.  The capacity of a growing array is
    an [int] in the sources; the model does not bound it, which is faithful for
    arrays of at most [2^30] elements. *)

From S2P Require Import Prelude Errors CLib CNum FileIO RafBase RafHeader RafEntry RafRecord RafTask RafLocate TagNorm.
From stdpp Require Import options.

Definition TPBCLI_TASK_RIDMAP_NAME : bytes := $"tpb_rt_local_ridmap".
Definition TPBCLI_TASK_FILTER_MAX : nat := 64.
Definition TPBCLI_TASK_DERIVE_MAX_HOPS : nat := 8.
Definition TPBCLI_TASK_REF_LEN : nat := 16.
Definition TPB_TAG_LINK : bytes := $"TPBLINK".
Definition PATH_MAX : nat := 4096.
Definition INT_MAX : Z := 2 ^ 31 - 1.

Definition sel_fail {A} (cause : Z) : outcome A := TPB_FAIL TPB_MOD_CLI_MISC cause.
Definition sel_propagate {A} (r : outcome A) : outcome A := TPB_PROPAGATE TPB_MOD_CLI_MISC r.

(** ** The RIDMAP *)

(** What the system calls answer: [mkdir] (or the directory is there), [fdopen],
    [fsync], [rename], [getpid]. *)
Record tmp_env := mkTmp {
  te_mkdir : bool; te_fdopen : bool; te_fsync : bool; te_rename : bool; te_pid : Z;
}.

Definition unlink (p : bytes) (w : world) : world :=
  mkWorld (delete p (w_files w)) (w_can_write w) (w_cap w) (w_bufsz w) (w_malloc w).

Definition _sf_ensure_tmp_dir (env : tmp_env) (workspace : bytes) : outcome unit :=
  if (PATH_MAX <=? length (workspace ++ $"/.tmp"))%nat then sel_fail TPBE_CLI_FAIL
  else if te_mkdir env then Ok tt else sel_fail TPBE_FILE_IO_FAIL.

(** The text of an identifier in messages, for an [out] of at least 8 characters. *)
Definition tpbcli_task_format_id_prefix6 (id : bytes) : bytes := take 6 (tpb_raf_id_to_hex id) ++ [ #"*" ].

Definition tpbcli_task_ridmap_path (workspace : bytes) (outlen : nat) : outcome bytes :=
  let p := workspace ++ $"/.tmp/" ++ TPBCLI_TASK_RIDMAP_NAME in
  if (outlen <=? length p)%nat then sel_fail TPBE_CLI_FAIL else Ok p.

Definition ridmap_line (id : bytes) : bytes := tpb_raf_id_to_hex id ++ [10].
Fixpoint write_lines (ids : list bytes) : IO unit :=
  match ids with
  | [] => mret tt
  | id :: ids' => fwrite (ridmap_line id);; write_lines ids'
  end.
(** The statements between [fdopen] and [fclose]. *)
Definition ridmap_body (env : tmp_env) (ids : list bytes) : IO unit :=
  write_lines ids;; fflush_io;; io_guard (te_fsync env).

Definition tpbcli_task_ridmap_write_atomic (env : tmp_env) (workspace : bytes) (ids : list bytes) (w : world)
  : outcome unit * world :=
  match ids with
  | [] => (Ok tt, w)
  | _ =>
      match (_ ← sel_propagate (_sf_ensure_tmp_dir env workspace);
             final_path ← sel_propagate (tpbcli_task_ridmap_path workspace PATH_MAX);
             let tmp_path := final_path ++ $".tmp." ++ fmt_d (te_pid env) in
             if (PATH_MAX <=? length tmp_path)%nat then sel_fail TPBE_CLI_FAIL
             else Ok (final_path, tmp_path)) with
      | Err e => (Err e, w)
      | UB => (UB, w)
      | Ok (final_path, tmp_path) =>
          let fail w := (sel_fail TPBE_FILE_IO_FAIL, w) in
          match fopen_wb tmp_path w with
          | None => fail w
          | Some f =>
              if negb (te_fdopen env) then fail (unlink tmp_path w)
              else
                let '(r, f) := ridmap_body env ids f in
                let '(closed, disk) := fclose f in
                match r with
                | Ok _ =>
                    if negb closed then fail (unlink tmp_path w)
                    else if negb (te_rename env) then fail (unlink tmp_path w)
                    else (Ok tt, set_file final_path disk (unlink tmp_path w))
                | _ => fail (unlink tmp_path w)
                end
          end
      end
  end.

(** The strings of successive [fgets(line, sz, fp)]. *)
Fixpoint fgets_lines (sz : nat) (d cur : bytes) : list bytes :=
  match d with
  | [] => match cur with [] => [] | _ => [cur] end
  | c :: d' =>
      let cur := cur ++ [c] in
      if (c =? 10) || (S (length cur) =? sz)%nat then cur :: fgets_lines sz d' []
      else fgets_lines sz d' cur
  end.

Definition is_eol_blank (c : Z) : bool := (c =? 10) || (c =? 13) || is_blank c.
(** The loop that cuts the end of the line. *)
Fixpoint drop_end_rev (s : bytes) : bytes :=
  match s with
  | c :: s' => if is_eol_blank c then drop_end_rev s' else s
  | [] => []
  end.
Definition rstrip (s : bytes) : bytes := reverse (drop_end_rev (reverse s)).

(** The capacity of an array that grows by doubling from [first] when it is full. *)
Definition grown (first cap : Z) : Z := if cap =? 0 then first else cap * 2.

(** The loop over the lines; [ids] are those read. *)
Fixpoint ridmap_lines (alloc : Z → bool) (lines : list bytes) (ids : list bytes) (cap : Z)
  : outcome (list bytes) :=
  match lines with
  | [] => Ok ids
  | line :: lines' =>
      let p := skip_blank (cstr_of line) in
      match p with
      | [] => ridmap_lines alloc lines' ids cap
      | c :: _ =>
          if (c =? 10) || (c =? #"#") then ridmap_lines alloc lines' ids cap
          else
            let p := rstrip p in
            match (if (length p =? 40)%nat then tpb_raf_hex_to_id (Some p) true else sel_fail TPBE_CLI_FAIL) with
            | Ok id =>
                let full := Z.of_nat (length ids) =? cap in
                let cap := if full then grown 16 cap else cap in
                if full && negb (alloc (cap * 20)) then sel_fail TPBE_MALLOC_FAIL
                else ridmap_lines alloc lines' (ids ++ [id]) cap
            | Err _ => sel_fail TPBE_CLI_FAIL
            | UB => UB
            end
      end
  end.

Definition tpbcli_task_ridmap_read (workspace : bytes) (w : world) : outcome (list bytes) :=
  path ← sel_propagate (tpbcli_task_ridmap_path workspace PATH_MAX);
  match fopen_rb path w with
  | None => Ok []
  | Some f => ridmap_lines (w_malloc w) (fgets_lines 128 (f_disk f) []) [] 0
  end.

(** ** Capsules *)

Definition zero_id : bytes := replicate 20 0.
Definition ff_id : bytes := replicate 20 255.
Definition _sf_is_all_ff (id : bytes) : bool := bool_decide (id = ff_id).
Definition _sf_is_all_zero (id : bytes) : bool := bool_decide (id = zero_id).

(** What [strcmp] sees of a character array. *)
Definition field_is (field name : bytes) : bool := strcmp (cstr_of field) name =? 0.

Definition tpbcli_task_confirm_capsule (attr : task_attr) (data : option bytes) (datasize : Z) : bool :=
  if negb (_sf_is_all_ff (ta_inherit_from attr)) || negb (_sf_is_all_zero (ta_derive_to attr)) then false
  else if negb (ta_ninput attr =? 0) || negb (ta_noutput attr =? 0) || negb (ta_nheader attr =? 1) then false
  else match ta_headers attr with
       | [] => false
       | h :: _ =>
           if negb (field_is (h_name h) $"TaskID") || negb (field_is (h_tag h) TPB_TAG_LINK) then false
           else if negb (datasize mod 20 =? 0) then false
           else if negb (default 0 (h_dimsizes h !! 0%nat) =? datasize / 20) then false
           else match tpb_raf_header_data_ptr (Some (ta_headers attr)) (ta_nheader attr) data datasize 0 true with
                | Ok (Some _, nbytes) => nbytes =? datasize
                | _ => false
                end
       end.

(** [n] identifiers from the bytes at the pointer. *)
Fixpoint take_ids (n : nat) (d : bytes) : option (list bytes) :=
  match n with
  | O => Some []
  | S n' => if (length d <? 20)%nat then None else cons (take 20 d) <$> take_ids n' (drop 20 d)
  end.

Definition tpbcli_task_read_capsule_members (alloc : Z → bool) (attr : task_attr) (data : option bytes)
    (datasize : Z) : outcome (list bytes) :=
  if negb (tpbcli_task_confirm_capsule attr data datasize) then sel_fail TPBE_CLI_FAIL
  else
    '(ptr, nbytes) ← sel_propagate (tpb_raf_header_data_ptr (Some (ta_headers attr)) (ta_nheader attr)
                                      data datasize 0 true);
    let n := swrap 32 (nbytes / 20) in
    if (n <? 0) || negb (wrap64 (n * 20) =? nbytes) then sel_fail TPBE_CLI_FAIL
    else if n =? 0 then Ok []
    else if negb (alloc (n * 20)) then sel_fail TPBE_MALLOC_FAIL
    else match ptr, data with
         | Some off, Some d =>
             match take_ids (Z.to_nat n) (drop (Z.to_nat off) d) with Some ids => Ok ids | None => UB end
         | _, _ => UB
         end.

(** ** Lists of names *)

Definition QUOTE : Z := 34.

(** The end of [token] has room for one more character. *)
Definition name_room (tok : bytes) : bool := (S (length tok) <? TPBM_NAME_STR_MAX_LEN)%nat.

(** After the opening quote: the token and what follows the closing quote. *)
Fixpoint scan_quoted (s tok : bytes) : option (bytes * bytes) :=
  match s with
  | [] => None
  | c :: s' =>
      if c =? QUOTE then
        match s' with
        | [] => Some (tok, [])
        | d :: s'' =>
            if d =? QUOTE then if name_room tok then scan_quoted s'' (tok ++ [QUOTE]) else None
            else if d =? COMMA then Some (tok, s') else None
        end
      else if name_room tok then scan_quoted s' (tok ++ [c]) else None
  end.

(** Up to the next comma. *)
Fixpoint scan_plain (s tok : bytes) : option (bytes * bytes) :=
  match s with
  | [] => Some (tok, [])
  | c :: s' =>
      if c =? COMMA then Some (tok, s)
      else if name_room tok then scan_plain s' (tok ++ [c]) else None
  end.

(** The next token and the rest of the text, which does not start with a blank, is
    not empty and not at a comma. *)
Definition scan_name (s : bytes) : option (bytes * bytes) :=
  match s with
  | [] => None
  | c :: s' =>
      if c =? QUOTE then scan_quoted s' []
      else '(tok, rest) ← scan_plain s []; Some (trim_token tok, rest)
  end.

Section Alloc.
Context (alloc : Z → bool).

(** An array that is looked through and grows by doubling from 8. *)
Definition append_unique {A} `{EqDecision A} (elem_size : Z) (xs : list A) (cap : Z) (x : A) (dup : Z)
  : outcome (list A * Z) :=
  if decide (x ∈ xs) then Ok (xs, cap)
  else
    let full := cap <=? Z.of_nat (length xs) in
    let cap := if full then grown 8 cap else cap in
    if full && negb (alloc (cap * elem_size)) then sel_fail TPBE_MALLOC_FAIL
    else if (0 <? dup) && negb (alloc dup) then sel_fail TPBE_MALLOC_FAIL
    else Ok (xs ++ [x], cap).

(** [dup] is the size of the copy of the name. *)
Definition _sf_append_name_unique (names : list bytes) (cap : Z) (name : bytes) : outcome (list bytes * Z) :=
  match name with
  | [] => sel_fail TPBE_CLI_FAIL
  | _ => append_unique 8 names cap name (Z.of_nat (length name) + 1)
  end.

(** The loop; every turn consumes a character, so that the length of the text is
    enough fuel. *)
Fixpoint name_csv_loop (fuel : nat) (p : bytes) (names : list bytes) (cap : Z) : outcome (list bytes) :=
  match fuel with
  | O => Ok names
  | S fuel' =>
      match skip_blank p with
      | [] => Ok names
      | c :: p' =>
          if c =? COMMA then sel_fail TPBE_CLI_FAIL
          else match scan_name (c :: p') with
               | None => sel_fail TPBE_CLI_FAIL
               | Some ([], _) => sel_fail TPBE_CLI_FAIL
               | Some (tok, rest) =>
                   match _sf_append_name_unique names cap tok with
                   | Ok (names, cap) => name_csv_loop fuel' (tail rest) names cap
                   | _ => sel_fail TPBE_CLI_FAIL
                   end
               end
      end
  end.

Definition tpbcli_task_parse_name_csv (text : option bytes) : outcome (list bytes) :=
  match text with
  | None => sel_fail TPBE_CLI_FAIL
  | Some text =>
      names ← name_csv_loop (length text) text [] 0;
      match names with [] => sel_fail TPBE_CLI_FAIL | _ => Ok names end
  end.

(** ** Lists of numbers *)

(** [strtol(s, &end, 10)]: the value and the text at [end], or [None] where
    [end == s]. *)
Definition strtol (s : bytes) : option (Z * bytes) :=
  let '(neg, r) := scan_sign (skip_space s) in
  match span_while isdigit r with
  | ([], _) => None
  | (_, rest) => Some (strtoll s, rest)
  end.

Definition _sf_parse_nonneg_rid_token (tok : bytes) : outcome Z :=
  match tok with
  | [] => sel_fail TPBE_CLI_FAIL
  | _ => match strtol tok with
         | Some (v, []) => if (v <? 0) || (INT_MAX <? v) then sel_fail TPBE_CLI_FAIL else Ok v
         | _ => sel_fail TPBE_CLI_FAIL
         end
  end.

Definition _sf_append_rid_unique (rids : list Z) (cap rid : Z) : outcome (list Z * Z) :=
  append_unique 4 rids cap rid 0.

(** [for (j = lo; j <= hi; j++)], [fuel] turns: a number outside the RIDMAP ends the
    loop. *)
Fixpoint rid_range (nmap : Z) (fuel : nat) (j : Z) (rids : list Z) (cap : Z) : outcome (list Z * Z) :=
  match fuel with
  | O => Ok (rids, cap)
  | S fuel' =>
      if nmap <=? j then Err TPBE_CLI_FAIL
      else '(rids, cap) ← _sf_append_rid_unique rids cap j; rid_range nmap fuel' (j + 1) rids cap
  end.
(** The turns of the loop: those up to [hi], or the one that fails. *)
Definition rid_turns (nmap lo hi : Z) : nat := Z.to_nat (Z.min hi (Z.max lo nmap) - lo + 1).

(** One segment between commas. *)
Definition rid_segment (nmap : Z) (p : bytes) (rids : list Z) (cap : Z) : outcome (list Z * Z) :=
  let seg := snprintf_s 64 (trim_token p) in
  match strchr_split (#"-") seg with
  | Some (a, b) =>
      lo ← _sf_parse_nonneg_rid_token a;
      hi ← _sf_parse_nonneg_rid_token b;
      if hi <? lo then Err TPBE_CLI_FAIL else rid_range nmap (rid_turns nmap lo hi) lo rids cap
  | None =>
      rid ← _sf_parse_nonneg_rid_token seg;
      if nmap <=? rid then Err TPBE_CLI_FAIL else _sf_append_rid_unique rids cap rid
  end.

(** The text between commas; an empty rest ends the loop. *)
Fixpoint split_commas (s cur : bytes) : list bytes :=
  match s with
  | [] => match cur with [] => [] | _ => [cur] end
  | c :: s' => if c =? COMMA then cur :: split_commas s' [] else split_commas s' (cur ++ [c])
  end.

Fixpoint rid_segments (nmap : Z) (segs : list bytes) (rids : list Z) (cap : Z) : outcome (list Z) :=
  match segs with
  | [] => Ok rids
  | seg :: segs' =>
      '(rids, cap) ← rid_segment nmap seg rids cap;
      rid_segments nmap segs' rids cap
  end.

End Alloc.

Definition tpbcli_task_parse_rid_list (workspace : bytes) (spec : option bytes) (w : world) : outcome (list Z) :=
  match spec with
  | None => sel_fail TPBE_NULLPTR_ARG
  | Some spec =>
      map_ids ← sel_propagate (tpbcli_task_ridmap_read workspace w);
      let nmap := Z.of_nat (length map_ids) in
      if nmap =? 0 then sel_fail TPBE_CLI_FAIL
      else if negb (w_malloc w (Z.of_nat (length spec) + 1)) then sel_fail TPBE_MALLOC_FAIL
      else
        rids ← rid_segments (w_malloc w) nmap (split_commas spec []) [] 0;
        match rids with [] => sel_fail TPBE_CLI_FAIL | _ => Ok rids end
  end.

(** ** Identifier prefixes *)

(** The check of [_sf_hex_prefix_valid] and [_sf_export_hex_prefix_valid]. *)
Definition hex_prefix_valid (lo hi : nat) (prefix : bytes) : outcome nat :=
  let n := length prefix in
  if (n <? lo)%nat || (hi <? n)%nat then sel_fail TPBE_CLI_FAIL
  else if forallb isxdigit prefix then Ok n else sel_fail TPBE_CLI_FAIL.
Definition _sf_hex_prefix_valid : bytes → outcome nat := hex_prefix_valid 6 20.
Definition _sf_export_hex_prefix_valid : bytes → outcome nat := hex_prefix_valid 4 40.

Definition lower_hex (c : Z) : Z := if (65 <=? c) && (c <=? 70) then c - 65 + 97 else c.

Section Tasks.
(** What [readdir] lists of a directory. *)
Context (listing : bytes → option (list bytes)).

(** The two functions differ in the check of the prefix only. *)
Definition resolve_prefix (valid : bytes → outcome nat) (workspace prefix : option bytes) (w : world)
  : outcome bytes :=
  match workspace, prefix with
  | Some ws, Some prefix =>
      plen ← sel_propagate (valid prefix);
      let lower := map lower_hex prefix in
      matches ← sel_propagate (tpb_raf_scan_records_by_id_prefix listing (Some ws) (Some lower) plen
                                 TPB_RAF_DOM_TASK true w);
      match matches with
      | [m] => match tpb_raf_hex_to_id (Some (id_hex m)) true with
               | Err _ => sel_fail TPBE_CLI_FAIL
               | r => r
               end
      | _ => sel_fail TPBE_CLI_FAIL
      end
  | _, _ => sel_fail TPBE_NULLPTR_ARG
  end.
Definition tpbcli_task_resolve_id_prefix := resolve_prefix _sf_hex_prefix_valid.
Definition tpbcli_task_resolve_id_prefix_export := resolve_prefix _sf_export_hex_prefix_valid.

(** ** Derivation chains *)

Definition read_task (ws id : bytes) (w : world) : outcome (task_attr * option bytes * Z) :=
  tpb_raf_record_read_task (Some ws) (Some id) true true w.

(** The loop at [hop_loop]: [cur] is the end of the chain, [chain] what is before
    it, and [left] the hops that may follow. *)
Fixpoint hop_loop (ws : bytes) (w : world) (left : nat) (chain : list bytes) (cur : bytes) : outcome bytes :=
  '(attr, _, _) ← sel_propagate (read_task ws cur w);
  if _sf_is_all_zero (ta_derive_to attr) then Ok cur
  else match left with
       | O => sel_fail TPBE_CLI_FAIL
       | S left' =>
           if bool_decide (ta_derive_to attr ∈ chain ++ [cur]) then sel_fail TPBE_CLI_FAIL
           else hop_loop ws w left' (chain ++ [cur]) (ta_derive_to attr)
       end.
Definition tpbcli_task_follow_derive (workspace start : option bytes) (w : world) : outcome bytes :=
  match workspace, start with
  | Some ws, Some start => hop_loop ws w TPBCLI_TASK_DERIVE_MAX_HOPS [] start
  | _, _ => sel_fail TPBE_NULLPTR_ARG
  end.

(** ** Logical tasks *)

Inductive tpbcli_task_sel_kind := TPBCLI_TASK_SEL_RID | TPBCLI_TASK_SEL_TASK_ID.
Record tpbcli_task_init_sel := mkSel {
  sel_id : bytes; sel_ref : bytes; sel_kind : tpbcli_task_sel_kind; sel_order : Z;
}.
(** [mr_record] is the record, if it is readable. *)
Record tpbcli_task_member_rec := mkMember {
  mr_id : bytes; mr_subrank : Z; mr_record : option (task_attr * option bytes * Z);
}.
Record tpbcli_task_logical := mkLogical {
  lt_root_id : bytes; lt_ref : bytes; lt_is_capsule : bool; lt_members : list tpbcli_task_member_rec;
  lt_input_order : Z; lt_root_utc_bits : Z; lt_root_btime : Z;
}.
Definition sizeof_member_rec : Z := 216.
Definition sizeof_logical : Z := 80.
Definition cut_ref : bytes → bytes := snprintf_s TPBCLI_TASK_REF_LEN.

(** A member whose record cannot be read is kept as such. *)
Definition _sf_load_member (ws : bytes) (w : world) (id : bytes) (subrank : Z) : outcome tpbcli_task_member_rec :=
  match read_task ws id w with
  | Ok r => Ok (mkMember id subrank (Some r))
  | Err _ => Ok (mkMember id subrank None)
  | UB => UB
  end.
Fixpoint load_members (ws : bytes) (w : world) (ids : list bytes) (i : Z) : outcome (list tpbcli_task_member_rec) :=
  match ids with
  | [] => Ok []
  | id :: ids' => m ← _sf_load_member ws w id i; ms ← load_members ws w ids' (i + 1); Ok (m :: ms)
  end.

Definition _sf_logical_from_root (ws : bytes) (w : world) (root ref : bytes) (order : Z)
  : outcome tpbcli_task_logical :=
  '(attr, data, ds) ← sel_propagate (read_task ws root w);
  let out capsule members :=
    mkLogical root (cut_ref ref) capsule members order (ta_utc_bits attr) (ta_btime attr) in
  if tpbcli_task_confirm_capsule attr data ds then
    ids ← sel_propagate (tpbcli_task_read_capsule_members (w_malloc w) attr data ds);
    match ids with
    | [] => Ok (out true [])
    | _ =>
        if negb (w_malloc w (Z.of_nat (length ids) * sizeof_member_rec)) then sel_fail TPBE_MALLOC_FAIL
        else members ← load_members ws w ids 0; Ok (out true members)
    end
  else if negb (w_malloc w sizeof_member_rec) then sel_fail TPBE_MALLOC_FAIL
  else Ok (out false [mkMember root 0 (Some (attr, data, ds))]).

(** The loop over the selections. *)
Fixpoint build_tasks (ws : bytes) (w : world) (sels : list tpbcli_task_init_sel)
    (tasks : list tpbcli_task_logical) (cap : Z) : outcome (list tpbcli_task_logical) :=
  match sels with
  | [] => Ok tasks
  | sel :: sels' =>
      root ← sel_propagate (tpbcli_task_follow_derive (Some ws) (Some (sel_id sel)) w);
      if bool_decide (root ∈ lt_root_id <$> tasks) then build_tasks ws w sels' tasks cap
      else
        let full := cap <=? Z.of_nat (length tasks) in
        let cap := if full then grown 4 cap else cap in
        if full && negb (w_malloc w (cap * sizeof_logical)) then sel_fail TPBE_MALLOC_FAIL
        else
          task ← sel_propagate (_sf_logical_from_root ws w root (sel_ref sel) (sel_order sel));
          build_tasks ws w sels' (tasks ++ [task]) cap
  end.

Definition tpbcli_task_build_logical_tasks (workspace : option bytes) (sels : option (list tpbcli_task_init_sel))
    (w : world) : outcome (list tpbcli_task_logical) :=
  match workspace, sels with
  | Some ws, Some sels =>
      tasks ← build_tasks ws w sels [] 0;
      match tasks with [] => sel_fail TPBE_CLI_FAIL | _ => Ok tasks end
  | _, _ => sel_fail TPBE_NULLPTR_ARG
  end.

(** ** Filters of an export *)

Inductive tpbcli_task_export_filter :=
  | TPBCLI_TASK_EXP_FKEY_SUBRANK (subrank : list Z)
  | TPBCLI_TASK_EXP_FKEY_SUBTID (subtid : list bytes).

(** [for (j = lo; j <= hi; j++)], [fuel] turns; the increment of [INT_MAX] overflows. *)
Fixpoint subrank_range (alloc : Z → bool) (fuel : nat) (j : Z) (vals : list Z) (cap : Z)
  : outcome (list Z * Z) :=
  match fuel with
  | O => Ok (vals, cap)
  | S fuel' =>
      '(vals, cap) ← append_unique alloc 4 vals cap j 0;
      if j =? INT_MAX then UB else subrank_range alloc fuel' (j + 1) vals cap
  end.
Definition subrank_segment (alloc : Z → bool) (p : bytes) (vals : list Z) (cap : Z) : outcome (list Z * Z) :=
  let seg := snprintf_s 64 p in
  match strchr_split (#"-") seg with
  | Some (a, b) =>
      lo ← _sf_parse_nonneg_rid_token a;
      hi ← _sf_parse_nonneg_rid_token b;
      if hi <? lo then Err TPBE_CLI_FAIL
      else subrank_range alloc (Z.to_nat (hi - lo + 1)) lo vals cap
  | None => v ← _sf_parse_nonneg_rid_token seg; append_unique alloc 4 vals cap v 0
  end.
Fixpoint subrank_segments (alloc : Z → bool) (segs : list bytes) (vals : list Z) (cap : Z) : outcome (list Z) :=
  match segs with
  | [] => Ok vals
  | seg :: segs' =>
      '(vals, cap) ← subrank_segment alloc seg vals cap; subrank_segments alloc segs' vals cap
  end.

Fixpoint subtid_segments (segs subtids : list bytes) : outcome (list bytes) :=
  match segs with
  | [] => Ok subtids
  | seg :: segs' =>
      let p := trim_token seg in
      if (length p <? 4)%nat || (8 <? length p)%nat then Err TPBE_CLI_FAIL
      else if negb (forallb isxdigit p) then Err TPBE_CLI_FAIL
      else if (TPBCLI_TASK_FILTER_MAX <=? length subtids)%nat then Err TPBE_CLI_FAIL
      else subtid_segments segs' (subtids ++ [map lower_hex p])
  end.

Definition tpbcli_task_export_parse_filter (alloc : Z → bool) (text : option bytes)
  : outcome tpbcli_task_export_filter :=
  match text with
  | None => sel_fail TPBE_NULLPTR_ARG
  | Some text =>
      match strchr_split (#"=") text with
      | None => sel_fail TPBE_CLI_FAIL
      | Some (key, value) =>
          if bool_decide (#">" ∈ text ∨ #"<" ∈ text) then sel_fail TPBE_CLI_FAIL
          else if (length key =? 0)%nat || (32 <=? length key)%nat then sel_fail TPBE_CLI_FAIL
          else match value with
          | [] => sel_fail TPBE_CLI_FAIL
          | _ =>
              if negb (alloc (Z.of_nat (length value) + 1)) then sel_fail TPBE_MALLOC_FAIL
              else if strcmp key ($"subrank") =? 0 then
                vals ← subrank_segments alloc (split_commas value []) [] 0;
                Ok (TPBCLI_TASK_EXP_FKEY_SUBRANK vals)
              else if strcmp key ($"subtid") =? 0 then
                vals ← subtid_segments (split_commas value []) [];
                Ok (TPBCLI_TASK_EXP_FKEY_SUBTID vals)
              else Err TPBE_CLI_FAIL
          end
      end
  end.

(** ** Works of an export *)

Inductive tpbcli_task_export_trace :=
  TPBCLI_TASK_EXP_TRACE_UNSPEC | TPBCLI_TASK_EXP_TRACE_TO_ENTRY | TPBCLI_TASK_EXP_TRACE_KEEP_CURRENT.
(** [sel_mode] with the specification of its mode. *)
Inductive tpbcli_task_export_sel :=
  | TPBCLI_TASK_EXP_SEL_NONE
  | TPBCLI_TASK_EXP_SEL_RID (rid_spec : option bytes)
  | TPBCLI_TASK_EXP_SEL_TASK_ID (task_id_spec : option bytes)
  | TPBCLI_TASK_EXP_SEL_FROM_LS.
Record tpbcli_task_export_work := mkWork {
  wk_root_id : bytes; wk_ref : bytes; wk_single_member : option bytes; wk_input_order : Z;
}.
Definition sizeof_init_sel : Z := 44.
Definition sizeof_work : Z := 64.

(** The selections of a RIDMAP. *)
Definition rid_sel (i : Z) (rid : Z) (id : bytes) : tpbcli_task_init_sel :=
  mkSel id (cut_ref ($"r" ++ fmt_d rid)) TPBCLI_TASK_SEL_RID i.

(** The loop over the numbers of [-r]; a number outside the map is read outside
    the array. *)
Fixpoint rid_sels (alloc : Z → bool) (map_ids : list bytes) (rids : list Z) (i cap : Z)
  : outcome (list tpbcli_task_init_sel) :=
  match rids with
  | [] => Ok []
  | rid :: rids' =>
      let full := cap <=? i in
      let cap := if full then grown 4 cap else cap in
      if full && negb (alloc (cap * sizeof_init_sel)) then sel_fail TPBE_MALLOC_FAIL
      else match map_ids !! Z.to_nat rid with
           | None => UB
           | Some id => sels ← rid_sels alloc map_ids rids' (i + 1) cap; Ok (rid_sel i rid id :: sels)
           end
  end.

(** The loop over the prefixes of [-i].  The first turn sets [p], which the condition
    of the loop tests, to [NULL]: there is no second turn, and the tokens after the
    first are not looked at. *)
Definition task_id_sels (resolve : option bytes → option bytes → world → outcome bytes) (ws : bytes)
    (w : world) (spec : bytes) : outcome (list tpbcli_task_init_sel) :=
  match strtok COMMA spec with
  | [] => Ok []
  | tok :: _ =>
      match skip_blank tok with
      | [] => Ok []
      | tok =>
          if negb (w_malloc w (4 * sizeof_init_sel)) then sel_fail TPBE_MALLOC_FAIL
          else
            id ← sel_propagate (resolve (Some ws) (Some tok) w);
            Ok [mkSel id (cut_ref ($"i" ++ fmt_d 0)) TPBCLI_TASK_SEL_TASK_ID 0]
      end
  end.

Definition _sf_export_resolve_init_sels (ws : bytes) (sel_mode : tpbcli_task_export_sel) (w : world)
  : outcome (list tpbcli_task_init_sel) :=
  sels ← match sel_mode with
         | TPBCLI_TASK_EXP_SEL_FROM_LS =>
             map_ids ← sel_propagate (tpbcli_task_ridmap_read ws w);
             if (length map_ids =? 0)%nat then sel_fail TPBE_CLI_FAIL
             else if negb (w_malloc w (Z.of_nat (length map_ids) * sizeof_init_sel)) then sel_fail TPBE_MALLOC_FAIL
             else Ok (imap (λ i id, rid_sel (Z.of_nat i) (Z.of_nat i) id) map_ids)
         | TPBCLI_TASK_EXP_SEL_RID None => sel_fail TPBE_CLI_FAIL
         | TPBCLI_TASK_EXP_SEL_RID (Some spec) =>
             rids ← sel_propagate (tpbcli_task_parse_rid_list ws (Some spec) w);
             map_ids ← sel_propagate (tpbcli_task_ridmap_read ws w);
             rid_sels (w_malloc w) map_ids rids 0 0
         | TPBCLI_TASK_EXP_SEL_TASK_ID None => sel_fail TPBE_CLI_FAIL
         | TPBCLI_TASK_EXP_SEL_TASK_ID (Some spec) =>
             if negb (w_malloc w (Z.of_nat (length spec) + 1)) then sel_fail TPBE_MALLOC_FAIL
             else task_id_sels tpbcli_task_resolve_id_prefix_export ws w spec
         | TPBCLI_TASK_EXP_SEL_NONE => sel_fail TPBE_CLI_FAIL
         end;
  match sels with [] => sel_fail TPBE_CLI_FAIL | _ => Ok sels end.

(** What the user answers to the question of [_sf_export_ask_trace], if standard
    input is a terminal. *)
Definition _sf_export_ask_trace (line : option bytes) : bool :=
  match line with
  | Some (c :: _) => (c =? #"y") || (c =? #"Y")
  | _ => false
  end.

(** The root, and the single member that is kept. *)
Definition trace_keep (ws : bytes) (w : world) (start : bytes) : outcome (bytes * option bytes) :=
  '(attr, _, _) ← sel_propagate (read_task ws start w);
  Ok (start, if _sf_is_all_zero (ta_derive_to attr) then None else Some start).
Definition trace_entry (ws : bytes) (w : world) (start : bytes) : outcome (bytes * option bytes) :=
  root ← sel_propagate (tpbcli_task_follow_derive (Some ws) (Some start) w); Ok (root, None).
(** [tty]: the line typed for this task, if standard input is a terminal. *)
Definition _sf_export_trace_one (ws : bytes) (w : world) (tty : option (option bytes))
    (trace : tpbcli_task_export_trace) (start : bytes) : outcome (bytes * option bytes) :=
  match trace, tty with
  | TPBCLI_TASK_EXP_TRACE_TO_ENTRY, _ => trace_entry ws w start
  | TPBCLI_TASK_EXP_TRACE_KEEP_CURRENT, _ | _, None => trace_keep ws w start
  | _, Some line =>
      '(attr, _, _) ← sel_propagate (read_task ws start w);
      if _sf_is_all_zero (ta_derive_to attr) then Ok (start, None)
      else if _sf_export_ask_trace line then trace_entry ws w start
      else Ok (start, Some start)
  end.

(** The loop over the selections; [tty] gives the line typed for the selection of an
    order number. *)
Fixpoint build_works (ws : bytes) (w : world) (tty : option (Z → option bytes))
    (trace : tpbcli_task_export_trace) (sels : list tpbcli_task_init_sel)
    (works : list tpbcli_task_export_work) (cap : Z) : outcome (list tpbcli_task_export_work) :=
  match sels with
  | [] => Ok works
  | sel :: sels' =>
      '(root, single) ← sel_propagate (_sf_export_trace_one ws w ((λ f, f (sel_order sel)) <$> tty) trace (sel_id sel));
      if bool_decide ((root, single) ∈ (λ k, (wk_root_id k, wk_single_member k)) <$> works)
      then build_works ws w tty trace sels' works cap
      else
        let full := cap <=? Z.of_nat (length works) in
        let cap := if full then grown 4 cap else cap in
        if full && negb (w_malloc w (cap * sizeof_work)) then sel_fail TPBE_MALLOC_FAIL
        else build_works ws w tty trace sels'
               (works ++ [mkWork root (cut_ref (sel_ref sel)) single (sel_order sel)]) cap
  end.

Definition tpbcli_task_export_build_works (workspace : option bytes) (sel_mode : tpbcli_task_export_sel)
    (trace : tpbcli_task_export_trace) (tty : option (Z → option bytes)) (w : world)
  : outcome (list tpbcli_task_export_work) :=
  match workspace with
  | None => sel_fail TPBE_NULLPTR_ARG
  | Some ws =>
      sels ← sel_propagate (_sf_export_resolve_init_sels ws sel_mode w);
      works ← build_works ws w tty trace sels [] 0;
      match works with [] => sel_fail TPBE_CLI_FAIL | _ => Ok works end
  end.

End Tasks.
