(* ===== verification/TaskSelMap.v ===== *)
(** * Task selection: the RIDMAP file

    Replacing the file is atomic, and what is written is read back. *)

From S2P Require Import Prelude Errors CLib CNum FileIO RafBase RafHeader RafEntry RafRecord RafTask RafLocate TagNorm TaskSel.
From stdpp Require Import options.

(** ** Writing *)

Definition ridmap_text (ids : list bytes) : bytes := concat (map ridmap_line ids).

Lemma emits_write_lines ids : emits (write_lines ids) (ridmap_text ids) tt.
Proof.
  unfold ridmap_text. induction ids as [|id ids IH]; cbn [write_lines map concat].
  - apply emits_ret.
  - eapply emits_bind; [apply emits_fwrite|exact IH].
Qed.

(** All of the text reaches the device, or the run and the [fclose] do not both
    succeed. *)
Lemma ridmap_body_run env ids w :
  let '(r, f) := ridmap_body env ids (open_on [] w) in
  if bool_decide (length (ridmap_text ids) ≤ w_cap w)%nat && te_fsync env
  then r = Ok tt ∧ fclose f = (true, ridmap_text ids)
  else ∃ e, r = Err e.
Proof.
  unfold ridmap_body, mbind, IO_bind.
  destruct (emits_write_lines ids [] 0%nat [] (open_on [] w)) as (f & [Hcap _] & Hf).
  { exists []. cbn. split_and!; try done; lia. }
  cbn [app] in Hf. cbn [open_on f_cap] in *. rewrite Nat.sub_0_r in Hf.
  destruct Hf as [(-> & Hw)|(e & -> & _ & _ & Hlen)].
  - destruct (fflush_writing _ _ _ _ Hw) as (ok & f' & Hfl & _ & Hb & Hd & Hok).
    unfold fflush_io. rewrite Hfl, Hcap in *. cbn in Hok, Hd. rewrite Nat.sub_0_r in Hd. destruct ok.
    + rewrite bool_decide_true by apply Hok. unfold io_guard.
      destruct (te_fsync env); cbn [andb]; [|by eexists]. split; [done|]. unfold fclose. rewrite fflush_clean by done. cbn.
      rewrite Hd, take_ge by apply Hok. by rewrite overlay_0, drop_nil, app_nil_r.
    + rewrite bool_decide_false by lia. by eexists.
  - rewrite bool_decide_false by (cbn in Hlen; lia). by eexists.
Qed.

(** ** Reading *)

Lemma fgets_line sz l d cur :
  10 ∉ l → (length cur + length l + 2 ≤ sz)%nat →
  fgets_lines sz (l ++ 10 :: d) cur = (cur ++ l ++ [10]) :: fgets_lines sz d [].
Proof.
  revert cur. induction l as [|c l IH]; intros cur Hl Hlen; cbn [app fgets_lines].
  - done.
  - apply not_elem_of_cons in Hl as [Hc Hl]. assert ((c =? 10) = false) as -> by (apply Z.eqb_neq; done).
    assert ((S (length (cur ++ [c])) =? sz)%nat = false) as ->.
    { apply Nat.eqb_neq. rewrite length_app. cbn in *. lia. }
    cbn [orb]. rewrite IH; [|done|rewrite length_app; cbn in *; lia]. by rewrite <- app_assoc.
Qed.

Lemma hex_no_newline id : id_ok id → 10 ∉ tpb_raf_id_to_hex id.
Proof.
  intros [_ H] Hin. apply id_to_hex_xdigits in H. by apply (proj1 (Forall_forall _ _) H) in Hin.
Qed.
Lemma hex_length id : id_ok id → length (tpb_raf_id_to_hex id) = 40%nat.
Proof. intros [H _]. rewrite length_id_to_hex. lia. Qed.

Lemma fgets_text ids : Forall id_ok ids → fgets_lines 128 (ridmap_text ids) [] = map ridmap_line ids.
Proof.
  unfold ridmap_text. induction 1 as [|id ids Hid _ IH]; [done|]. cbn [map concat].
  unfold ridmap_line at 1. rewrite <- app_assoc. cbn [app].
  rewrite fgets_line; [|by apply hex_no_newline|rewrite hex_length by done; cbn; lia].
  by rewrite IH.
Qed.

Lemma cstr_of_nonzero s : Forall (λ c, c ≠ 0) s → cstr_of s = s.
Proof.
  induction 1 as [|c s Hc _ IH]; [done|]. cbn. rewrite (proj2 (Z.eqb_neq c 0)) by done. by rewrite IH.
Qed.

Lemma xdigit_not c d : isxdigit c = true → isxdigit d = false → c ≠ d.
Proof. congruence. Qed.

Lemma xdigit_range c : isxdigit c = true → 48 ≤ c.
Proof. unfold isxdigit, isdigit. lia. Qed.
Lemma xdigit_not_blank c : isxdigit c = true → is_blank c = false.
Proof. intros H%xdigit_range. unfold is_blank. lia. Qed.

Lemma rstrip_line s : s ≠ [] → Forall (λ c, isxdigit c = true) s → rstrip (s ++ [10]) = s.
Proof.
  intros Hne Hx. unfold rstrip. rewrite reverse_snoc. cbn [drop_end_rev is_eol_blank Z.eqb Pos.eqb orb].
  destruct s as [|c s _] using rev_ind; [done|]. rewrite reverse_snoc. cbn [drop_end_rev].
  apply Forall_app in Hx as [_ [Hc _]%Forall_cons].
  assert (is_eol_blank c = false) as ->.
  { pose proof (xdigit_not_blank c Hc). apply xdigit_range in Hc. unfold is_eol_blank. rewrite H, orb_false_r.
    apply orb_false_iff; split; apply Z.eqb_neq; lia. }
  by rewrite reverse_cons, reverse_involutive.
Qed.

Lemma ridmap_line_read alloc id ids' ids cap :
  id_ok id → (∀ size, alloc size = true) →
  ∃ cap', ridmap_lines alloc (ridmap_line id :: ids') ids cap = ridmap_lines alloc ids' (ids ++ [id]) cap'.
Proof.
  intros Hid Ha. pose proof (id_to_hex_xdigits id (proj2 Hid)) as Hx.
  cbn [ridmap_lines]. unfold ridmap_line.
  rewrite cstr_of_nonzero.
  2:{ apply Forall_app. split; [|by constructor]. eapply Forall_impl; [exact Hx|].
      intros c Hc. cbn in Hc. by apply (xdigit_not c 0). }
  pose proof (hex_length id Hid) as Hl. set (s := tpb_raf_id_to_hex id) in *.
  assert (Hs : ∃ c s', s = c :: s' ∧ isxdigit c = true).
  { destruct s as [|c s']; [done|]. exists c, s'. split; [done|]. by apply Forall_cons in Hx as [? _]. }
  destruct Hs as (c & s' & Es & Hc).
  assert (skip_blank (s ++ [10]) = s ++ [10]) as ->.
  { rewrite Es. cbn. by rewrite xdigit_not_blank. }
  replace (s ++ [10]) with (c :: s' ++ [10]) by by rewrite Es.
  assert ((c =? 10) || (c =? #"#") = false) as ->.
  { apply xdigit_range in Hc. apply orb_false_iff. split; apply Z.eqb_neq; [|change (#"#") with 35]; lia. }
  change (c :: s' ++ [10]) with ((c :: s') ++ [10]). rewrite <- Es.
  rewrite rstrip_line by (done || by rewrite Es). rewrite Hl. cbn [Nat.eqb].
  unfold s. rewrite hex_to_id_of_id by done. cbv zeta. rewrite Ha, andb_false_r. by eexists.
Qed.

Lemma ridmap_lines_text alloc ids acc cap :
  Forall id_ok ids → (∀ size, alloc size = true) →
  ridmap_lines alloc (map ridmap_line ids) acc cap = Ok (acc ++ ids).
Proof.
  intros Hids Ha. revert acc cap. induction Hids as [|id ids Hid _ IH]; intros acc cap; cbn [map].
  - by rewrite app_nil_r.
  - destruct (ridmap_line_read alloc id (map ridmap_line ids) acc cap Hid Ha) as [cap' ->].
    rewrite IH. by rewrite <- app_assoc.
Qed.

(** ** The two paths *)

Definition ridmap_file (ws : bytes) : bytes := ws ++ $"/.tmp/" ++ TPBCLI_TASK_RIDMAP_NAME.
Definition ridmap_tmp (env : tmp_env) (ws : bytes) : bytes :=
  ridmap_file ws ++ $".tmp." ++ fmt_d (te_pid env).

Lemma ridmap_tmp_ne env ws : ridmap_tmp env ws ≠ ridmap_file ws.
Proof.
  unfold ridmap_tmp. intros H%(f_equal length). rewrite !length_app in H. cbn in H. lia.
Qed.

(** What has to go well. *)
Definition ridmap_writable (env : tmp_env) (ws : bytes) (ids : list bytes) (w : world) : bool :=
  (length (ridmap_tmp env ws) <? PATH_MAX)%nat && te_mkdir env && w_can_write w (ridmap_tmp env ws)
  && te_fdopen env && bool_decide (length (ridmap_text ids) ≤ w_cap w)%nat && te_fsync env && te_rename env.

Lemma sel_fail_err {A} cause : ∃ e, @sel_fail A cause = Err e.
Proof. by eexists. Qed.
Lemma sel_propagate_err {A} e : ∃ e', sel_propagate (A := A) (Err e) = Err e'.
Proof. unfold sel_propagate, TPB_PROPAGATE. case_match; by eexists. Qed.

Lemma ridmap_path_ok ws :
  (length (ridmap_file ws) < PATH_MAX)%nat → tpbcli_task_ridmap_path ws PATH_MAX = Ok (ridmap_file ws).
Proof. intros H. unfold tpbcli_task_ridmap_path. fold (ridmap_file ws). by rewrite (proj2 (Nat.leb_gt _ _)). Qed.

Lemma tmp_dir_ok env ws :
  (length (ridmap_file ws) < PATH_MAX)%nat → te_mkdir env = true → _sf_ensure_tmp_dir env ws = Ok tt.
Proof.
  intros H Hm. unfold _sf_ensure_tmp_dir. rewrite Hm, (proj2 (Nat.leb_gt _ _)); [done|].
  unfold ridmap_file in H. rewrite !length_app in *. cbn in *. lia.
Qed.

(** The statements that form the two paths. *)
Definition ridmap_paths (env : tmp_env) (ws : bytes) : outcome (bytes * bytes) :=
  _ ← sel_propagate (_sf_ensure_tmp_dir env ws);
  final_path ← sel_propagate (tpbcli_task_ridmap_path ws PATH_MAX);
  let tmp_path := final_path ++ $".tmp." ++ fmt_d (te_pid env) in
  if (PATH_MAX <=? length tmp_path)%nat then sel_fail TPBE_CLI_FAIL
  else Ok (final_path, tmp_path).

Lemma ridmap_paths_run env ws :
  ridmap_paths env ws = Ok (ridmap_file ws, ridmap_tmp env ws)
    ∧ (length (ridmap_tmp env ws) <? PATH_MAX)%nat && te_mkdir env = true
  ∨ (∃ e, ridmap_paths env ws = Err e)
    ∧ (length (ridmap_tmp env ws) <? PATH_MAX)%nat && te_mkdir env = false.
Proof.
  assert (Hlen : (length (ridmap_file ws) < length (ridmap_tmp env ws))%nat).
  { unfold ridmap_tmp. rewrite length_app. cbn. lia. }
  unfold ridmap_paths. destruct (Nat.ltb_spec (length (ridmap_tmp env ws)) PATH_MAX) as [Ht|Ht]; cbn [andb].
  - destruct (te_mkdir env) eqn:Em.
    + left. rewrite tmp_dir_ok by (done || lia). rewrite ridmap_path_ok by lia.
      cbn -[ridmap_file PATH_MAX Nat.leb]. fold (ridmap_tmp env ws). by rewrite (proj2 (Nat.leb_gt _ _)).
    + right. split; [|done]. unfold _sf_ensure_tmp_dir. rewrite Em. case_match; by eexists.
  - right. split; [|done]. unfold _sf_ensure_tmp_dir, tpbcli_task_ridmap_path. fold (ridmap_file ws).
    destruct (PATH_MAX <=? length (ws ++ _))%nat; [by eexists|]. destruct (te_mkdir env); [|by eexists].
    destruct (PATH_MAX <=? length (ridmap_file ws))%nat; [by eexists|]. cbn -[ridmap_file PATH_MAX Nat.leb].
    fold (ridmap_tmp env ws). rewrite (proj2 (Nat.leb_le _ _)) by done. by eexists.
Qed.

(** The write is all or nothing. *)
Lemma ridmap_write_run env ws ids w :
  ids ≠ [] →
  tpbcli_task_ridmap_write_atomic env ws ids w
  = (Ok tt, set_file (ridmap_file ws) (ridmap_text ids) (unlink (ridmap_tmp env ws) w))
    ∧ ridmap_writable env ws ids w = true
  ∨ (∃ e w', tpbcli_task_ridmap_write_atomic env ws ids w = (Err e, w')
       ∧ (w' = w ∨ w' = unlink (ridmap_tmp env ws) w)) ∧ ridmap_writable env ws ids w = false.
Proof.
  intros Hne. unfold tpbcli_task_ridmap_write_atomic, ridmap_writable.
  destruct ids as [|i0 ids0]; [done|]. set (ids := i0 :: ids0).
  fold (ridmap_paths env ws). pose proof (ridmap_paths_run env ws) as Hp.
  destruct Hp as [[-> ->]|[[e ->] ->]]; [|right; split; [by eauto|done]].
  cbn [andb]. unfold fopen_wb. destruct (w_can_write w _); [|right; split; [|done]; eexists _, _; by eauto].
  cbn [andb]. destruct (te_fdopen env); [|right; split; [|done]; eexists _, _; by eauto].
  cbn [andb negb]. pose proof (ridmap_body_run env ids w) as Hb.
  destruct (ridmap_body env ids (open_on [] w)) as [r f].
  destruct (bool_decide _ && te_fsync env).
  - destruct Hb as [-> ->]. cbn [negb andb]. destruct (te_rename env); [by left|].
    right; split; [|done]; eexists _, _; by eauto.
  - destruct Hb as [e ->]. destruct (fclose f). right; split; [|done]; eexists _, _; by eauto.
Qed.

Lemma ridmap_read_text ws ids w :
  (length (ridmap_file ws) < PATH_MAX)%nat → Forall id_ok ids → (∀ size, w_malloc w size = true) →
  w_files w !! ridmap_file ws = Some (ridmap_text ids) →
  tpbcli_task_ridmap_read ws w = Ok ids.
Proof.
  intros Hp Hids Ha Hf. unfold tpbcli_task_ridmap_read. rewrite ridmap_path_ok by done.
  change (match fopen_rb (ridmap_file ws) w with
          | None => Ok []
          | Some f => ridmap_lines (w_malloc w) (fgets_lines 128 (f_disk f) []) [] 0
          end = Ok ids).
  unfold fopen_rb. rewrite Hf. change (ridmap_lines (w_malloc w) (fgets_lines 128 (ridmap_text ids) []) [] 0 = Ok ids).
  rewrite fgets_text by done. by rewrite ridmap_lines_text.
Qed.

Lemma ridmap_read_ext ws w w' :
  w_malloc w' = w_malloc w → w_files w' !! ridmap_file ws = w_files w !! ridmap_file ws →
  tpbcli_task_ridmap_read ws w' = tpbcli_task_ridmap_read ws w.
Proof.
  intros Hm Hf. unfold tpbcli_task_ridmap_read, tpbcli_task_ridmap_path. fold (ridmap_file ws).
  destruct (PATH_MAX <=? length (ridmap_file ws))%nat; [done|].
  change (match fopen_rb (ridmap_file ws) w' with
          | None => Ok []
          | Some f => ridmap_lines (w_malloc w') (fgets_lines 128 (f_disk f) []) [] 0
          end = match fopen_rb (ridmap_file ws) w with
          | None => Ok []
          | Some f => ridmap_lines (w_malloc w) (fgets_lines 128 (f_disk f) []) [] 0
          end).
  unfold fopen_rb. rewrite Hm, Hf. by destruct (w_files w !! ridmap_file ws).
Qed.

(** C19: replacing the RIDMAP is all or nothing.  When every step goes well - the
    paths fit, the device holds the text, [fsync] and [rename] succeed - the
    call succeeds and the next reading returns exactly the identifiers given, in
    their order; when any step fails an error is returned and a reading returns
    what it returned before.  No temporary file is left by a call that got to
    create one, and no other file changes. *)
Theorem ridmap_atomic env ws ids w :
  ids ≠ [] → Forall id_ok ids → (∀ size, w_malloc w size = true) →
  let '(r, w') := tpbcli_task_ridmap_write_atomic env ws ids w in
  (if ridmap_writable env ws ids w
   then r = Ok tt ∧ tpbcli_task_ridmap_read ws w' = Ok ids
   else (∃ e, r = Err e) ∧ tpbcli_task_ridmap_read ws w' = tpbcli_task_ridmap_read ws w)
  ∧ (w' = w ∨ w_files w' !! ridmap_tmp env ws = None)
  ∧ ∀ p, p ≠ ridmap_file ws → p ≠ ridmap_tmp env ws → w_files w' !! p = w_files w !! p.
Proof.
  intros Hne Hids Ha. pose proof (ridmap_tmp_ne env ws) as Hn.
  destruct (ridmap_write_run env ws ids w Hne) as [[-> Hw]|[(e & w' & -> & Hw') Hw]]; rewrite Hw.
  - split; [split; [done|]|split].
    + apply ridmap_read_text; [|done..|cbn; by rewrite lookup_insert_eq].
      unfold ridmap_writable in Hw. repeat apply andb_true_iff in Hw as [Hw _]. apply Nat.ltb_lt in Hw.
      unfold ridmap_tmp in Hw. rewrite length_app in Hw. lia.
    + right. cbn. by rewrite lookup_insert_ne, lookup_delete_eq.
    + intros p H1 H2. cbn. by rewrite lookup_insert_ne, lookup_delete_ne.
  - split; [split; [by eexists|]|split].
    + apply ridmap_read_ext; destruct Hw' as [->| ->]; try done. cbn. by rewrite lookup_delete_ne.
    + destruct Hw' as [->| ->]; [by left|right]. cbn. by rewrite lookup_delete_eq.
    + intros p H1 H2. destruct Hw' as [->| ->]; [done|]. cbn. by rewrite lookup_delete_ne.
Qed.

Definition demo_ids : list bytes := [replicate 20 1; replicate 20 171].
Definition demo_ok : tmp_env := mkTmp true true true true 42.
Definition demo_world : world := mkWorld ∅ (λ _, true) 1000 64 (λ _, true).
Lemma ridmap_atomic_witness :
  (demo_ids ≠ [] ∧ Forall id_ok demo_ids ∧ ∀ size, w_malloc demo_world size = true)
  ∧ let '(r, w') := tpbcli_task_ridmap_write_atomic demo_ok ($"/ws") demo_ids demo_world in
    (if ridmap_writable demo_ok ($"/ws") demo_ids demo_world
     then r = Ok tt ∧ tpbcli_task_ridmap_read ($"/ws") w' = Ok demo_ids
     else (∃ e, r = Err e)
          ∧ tpbcli_task_ridmap_read ($"/ws") w' = tpbcli_task_ridmap_read ($"/ws") demo_world)
    ∧ (w' = demo_world ∨ w_files w' !! ridmap_tmp demo_ok ($"/ws") = None)
    ∧ ∀ p, p ≠ ridmap_file ($"/ws") → p ≠ ridmap_tmp demo_ok ($"/ws") →
           w_files w' !! p = w_files demo_world !! p.
Proof.
  assert (Forall id_ok demo_ids) as Hids.
  { repeat constructor; cbn; lia. }
  split; [by split_and!|]. by apply (ridmap_atomic demo_ok ($"/ws") demo_ids demo_world).
Defined.

Example ridmap_written :
  ridmap_writable demo_ok ($"/ws") demo_ids demo_world = true
  ∧ ridmap_writable demo_ok ($"/ws") demo_ids (mkWorld ∅ (λ _, true) 81 64 (λ _, true)) = false.
Proof. split; vm_compute; reflexivity. Qed.
