(* ===== verification/TaskSelProps.v ===== *)
(** * Task selection: derivation chains and logical tasks *)

From S2P Require Import Prelude Errors CLib CNum FileIO RafBase RafHeader RafEntry RafRecord RafTask RafLocate TagNorm TaskSel.
From stdpp Require Import options.

(** ** Elements in the order of their first occurrence *)

Definition add_new {A} `{EqDecision A} (acc : list A) (x : A) : list A :=
  if decide (x ∈ acc) then acc else acc ++ [x].
Definition uniq {A} `{EqDecision A} (xs : list A) : list A := foldl add_new [] xs.

Section Uniq.
Context {A : Type} `{EqDecision A}.
Implicit Types (xs acc : list A) (x : A).

Lemma add_new_old acc x : x ∈ acc → add_new acc x = acc.
Proof using Type*. intros H. unfold add_new. by rewrite decide_True. Qed.
Lemma add_new_new acc x : x ∉ acc → add_new acc x = acc ++ [x].
Proof using Type*. intros H. unfold add_new. by rewrite decide_False. Qed.
Lemma add_new_nodup acc x : NoDup acc → NoDup (add_new acc x).
Proof using Type*.
  intros H. unfold add_new. case_decide; [done|]. apply NoDup_app. split_and!; [done| |apply NoDup_singleton].
  intros y Hy ->%list_elem_of_singleton. done.
Qed.
Lemma elem_of_add_new acc x y : y ∈ add_new acc x ↔ y ∈ acc ∨ y = x.
Proof using Type*. unfold add_new. case_decide; [|set_solver]. naive_solver. Qed.

Lemma uniq_from_nodup xs acc : NoDup acc → NoDup (foldl add_new acc xs).
Proof using Type*. revert acc. induction xs as [|x xs IH]; intros acc H; [done|]. by apply IH, add_new_nodup. Qed.
Lemma elem_of_uniq_from xs acc y : y ∈ foldl add_new acc xs ↔ y ∈ acc ∨ y ∈ xs.
Proof using Type*.
  revert acc. induction xs as [|x xs IH]; intros acc; cbn; [set_solver|].
  rewrite IH, elem_of_add_new. set_solver.
Qed.
Lemma uniq_from_prefix xs acc : ∃ r, foldl add_new acc xs = acc ++ r.
Proof using Type*.
  revert acc. induction xs as [|x xs IH]; intros acc; cbn; [exists []; by rewrite app_nil_r|].
  destruct (IH (add_new acc x)) as [r ->]. unfold add_new. case_decide; [by eexists|].
  rewrite <- app_assoc. by eexists.
Qed.
Lemma uniq_ids xs acc : NoDup (acc ++ xs) → foldl add_new acc xs = acc ++ xs.
Proof using Type*.
  revert acc. induction xs as [|x xs IH]; intros acc H; cbn; [by rewrite app_nil_r|].
  unfold add_new. rewrite decide_False.
  - rewrite IH; rewrite <- app_assoc; done.
  - apply NoDup_app in H as (_ & H & _). intros Hx. apply (H x Hx). by left.
Qed.
End Uniq.

(** ** Derivation chains *)

(** [n] steps along [derive_to] lead from the record to one without a successor. *)
Inductive derive_path (ws : bytes) (w : world) : nat → bytes → bytes → Prop :=
  | derive_root id attr data ds :
      read_task ws id w = Ok (attr, data, ds) → _sf_is_all_zero (ta_derive_to attr) = true →
      derive_path ws w 0 id id
  | derive_hop n id root attr data ds :
      read_task ws id w = Ok (attr, data, ds) → _sf_is_all_zero (ta_derive_to attr) = false →
      derive_path ws w n (ta_derive_to attr) root →
      derive_path ws w (S n) id root.

Lemma derive_path_det ws w n m id r r' :
  derive_path ws w n id r → derive_path ws w m id r' → n = m ∧ r = r'.
Proof.
  intros H. revert m r'.
  induction H as [id attr data ds Hr Hz|n id root attr data ds Hr Hz _ IH]; intros m r' H2;
    inversion H2; subst; simplify_eq/=; try done; try congruence.
  match goal with H : read_task _ _ _ = Ok (?a, _, _), H' : derive_path _ _ _ (ta_derive_to ?a) _ |- _ =>
    rewrite Hr in H; injection H as <- <- <-; destruct (IH _ _ H') as [-> ->] end. done.
Qed.

Lemma hop_loop_sound ws w left chain cur root :
  hop_loop ws w left chain cur = Ok root → ∃ n, (n ≤ left)%nat ∧ derive_path ws w n cur root.
Proof.
  revert chain cur. induction left as [|left IH]; intros chain cur; cbn [hop_loop];
    destruct (read_task ws cur w) as [[[attr data] ds]|e|] eqn:E; cbn; try (by repeat case_match).
  - destruct (_sf_is_all_zero (ta_derive_to attr)) eqn:Ez; [|done].
    intros [= <-]. exists 0%nat. split; [lia|]. by eapply derive_root.
  - destruct (_sf_is_all_zero (ta_derive_to attr)) eqn:Ez.
    { intros [= <-]. exists 0%nat. split; [lia|]. by eapply derive_root. }
    case_bool_decide; [done|]. intros (n & Hn & Hp)%IH. exists (S n). split; [lia|]. by eapply derive_hop.
Qed.

Lemma hop_loop_complete ws w left chain cur n root :
  (n ≤ left)%nat → derive_path ws w n cur root →
  (∀ x, x ∈ chain → ∃ m, (n < m)%nat ∧ derive_path ws w m x root) →
  hop_loop ws w left chain cur = Ok root.
Proof.
  revert chain cur n. induction left as [|left IH]; intros chain cur n Hn Hp Hch.
  - destruct Hp as [id attr data ds Hr Hz|]; [|lia]. cbn [hop_loop]. rewrite Hr. cbn. by rewrite Hz.
  - pose proof Hp as Hp0. destruct Hp as [id attr data ds Hr Hz|n id root attr data ds Hr Hz Hp];
      cbn [hop_loop]; rewrite Hr; cbn; rewrite Hz; [done|].
    assert (Hfar : ∀ x, x ∈ chain ++ [id] → ∃ m, (n < m)%nat ∧ derive_path ws w m x root).
    { intros x [Hx| ->%list_elem_of_singleton]%elem_of_app; [|by exists (S n); split; [lia|]].
      destruct (Hch x Hx) as (m & Hm & Hx'). exists m. split; [lia|done]. }
    rewrite bool_decide_false.
    + apply (IH _ _ n); [lia|done..].
    + intros (m & Hm & Hx)%Hfar. destruct (derive_path_det _ _ _ _ _ _ _ Hp Hx). lia.
Qed.

(** C21: [tpbcli_task_follow_derive] finds the end of the derivation chain: it
    returns a record exactly if at most [TPBCLI_TASK_DERIVE_MAX_HOPS] steps along
    [derive_to], through readable records, lead from the start to that record and
    it has no successor.  In particular its test for a cycle rejects no chain that
    ends, and a chain that runs into a cycle gives no result. *)
Theorem follow_derive_iff ws start w root :
  tpbcli_task_follow_derive (Some ws) (Some start) w = Ok root
  ↔ ∃ n, (n ≤ TPBCLI_TASK_DERIVE_MAX_HOPS)%nat ∧ derive_path ws w n start root.
Proof.
  cbn [tpbcli_task_follow_derive]. split; [apply hop_loop_sound|].
  intros (n & Hn & Hp). apply (hop_loop_complete _ _ _ _ _ n); [done..|]. intros x Hx. by apply elem_of_nil in Hx.
Qed.

(** ** Logical tasks *)

Lemma sel_propagate_inv {A} (r : outcome A) a : sel_propagate r = Ok a → r = Ok a.
Proof. unfold sel_propagate, TPB_PROPAGATE. destruct r; try done. by case_match. Qed.

Lemma logical_root ws w root ref order t :
  _sf_logical_from_root ws w root ref order = Ok t → lt_root_id t = root.
Proof.
  unfold _sf_logical_from_root.
  destruct (sel_propagate (read_task ws root w)) as [[[attr data] ds]|e|]; cbn [mbind outcome_bind]; [|done..].
  destruct (tpbcli_task_confirm_capsule attr data ds).
  - destruct (sel_propagate _) as [[|i ids]|e|]; cbn [mbind outcome_bind]; [by intros [= <-]| |done..].
    case_match; [done|]. destruct (load_members _ _ _ _); cbn; [by intros [= <-]|done..].
  - case_match; [done|]. by intros [= <-].
Qed.

(** The selection at [i] is the first that leads to the root of [t], and [t] is
    loaded for it. *)
Definition task_of (ws : bytes) (w : world) (sels : list tpbcli_task_init_sel) (roots before : list bytes)
    (t : tpbcli_task_logical) : Prop :=
  ∃ i sel, sels !! i = Some sel ∧ roots !! i = Some (lt_root_id t)
    ∧ lt_root_id t ∉ before ++ take i roots
    ∧ _sf_logical_from_root ws w (lt_root_id t) (sel_ref sel) (sel_order sel) = Ok t.
Definition follows (ws : bytes) (w : world) (sel : tpbcli_task_init_sel) (root : bytes) : Prop :=
  tpbcli_task_follow_derive (Some ws) (Some (sel_id sel)) w = Ok root.

Lemma build_tasks_run ws w sels tasks cap out :
  build_tasks ws w sels tasks cap = Ok out →
  ∃ roots, Forall2 (follows ws w) sels roots
    ∧ lt_root_id <$> out = foldl add_new (lt_root_id <$> tasks) roots
    ∧ ∃ new, out = tasks ++ new ∧ Forall (task_of ws w sels roots (lt_root_id <$> tasks)) new.
Proof.
  revert tasks cap. induction sels as [|sel sels IH]; intros tasks cap; cbn [build_tasks].
  { intros [= <-]. exists []. split; [done|]. split; [done|]. exists []. by rewrite app_nil_r. }
  destruct (sel_propagate (tpbcli_task_follow_derive _ _ _)) as [root|e|] eqn:Ef; cbn [mbind outcome_bind]; [|done..].
  apply sel_propagate_inv in Ef.
  assert (Hshift : ∀ roots before before' t,
    (∀ i, i ∈ before ++ [root] → i ∈ before') →
    task_of ws w sels roots before' t → task_of ws w (sel :: sels) (root :: roots) before t).
  { intros roots before before' t Hb (i & s & H1 & H2 & H3 & H4). exists (S i), s. split_and!; try done.
    cbn [take]. intros Hin. apply H3. apply elem_of_app. apply elem_of_app in Hin as [Hin|[->|Hin]%elem_of_cons].
    - left. apply Hb, elem_of_app. by left.
    - left. apply Hb, elem_of_app. right. by apply list_elem_of_singleton.
    - by right. }
  case_bool_decide as Hin.
  - intros (roots & HF & Hr & new & -> & Hnew)%IH. exists (root :: roots). split; [by constructor|].
    split; [cbn [foldl]; by rewrite add_new_old|]. exists new. split; [done|].
    eapply Forall_impl; [exact Hnew|]. intros t. apply Hshift. intros x [?| ->%list_elem_of_singleton]%elem_of_app; done.
  - cbv zeta. case_match; [done|].
    destruct (sel_propagate (_sf_logical_from_root _ _ _ _ _)) as [task|e|] eqn:El; cbn [mbind outcome_bind]; [|done..].
    apply sel_propagate_inv in El. pose proof (logical_root _ _ _ _ _ _ El) as Hroot.
    intros (roots & HF & Hr & new & -> & Hnew)%IH. exists (root :: roots). split; [by constructor|].
    rewrite (fmap_app lt_root_id tasks) in Hr, Hnew. cbn [fmap list_fmap] in Hr, Hnew. rewrite Hroot in *.
    split; [cbn [foldl]; by rewrite add_new_new|].
    exists (task :: new). rewrite <- app_assoc. split; [done|]. constructor.
    + exists 0%nat, sel. rewrite Hroot. split_and!; try done. by rewrite take_0, app_nil_r.
    + eapply Forall_impl; [exact Hnew|]. intros t. by apply Hshift.
Qed.

(** C20: the selections become logical tasks.  Every selection is followed to the
    end of its derivation chain; there is one task for each root, in the order in
    which the roots are first reached, carrying the reference and the order of
    the first selection that reached it, and loaded from the record of the root. *)
Theorem logical_tasks_by_root ws w sels tasks :
  tpbcli_task_build_logical_tasks (Some ws) (Some sels) w = Ok tasks →
  ∃ roots, Forall2 (follows ws w) sels roots
    ∧ lt_root_id <$> tasks = uniq roots
    ∧ NoDup (lt_root_id <$> tasks) ∧ tasks ≠ []
    ∧ Forall (task_of ws w sels roots []) tasks.
Proof.
  cbn [tpbcli_task_build_logical_tasks].
  destruct (build_tasks ws w sels [] 0) as [out|e|] eqn:E; cbn [mbind outcome_bind]; [|done..].
  intros H. assert (out = tasks ∧ tasks ≠ []) as [-> Hne]. { destruct out; [done|]. by injection H as <-. }
  apply build_tasks_run in E as (roots & HF & Hr & new & -> & Hnew). exists roots.
  split_and!; [done|done| |done|done].
  rewrite Hr. apply uniq_from_nodup. constructor.
Qed.

(** A record, one derived from it, and a selection of each. *)
Definition derived_task : task_attr :=
  mkTaskAttr (replicate 20 4) (replicate 20 1) (replicate 20 0) (replicate 20 2) (replicate 20 3)
    1 2 3 0 0 100 101 1 0 1 0 [sample_header].
Definition task_world : world :=
  set_file (task_path ($"/w") (replicate 20 4)) (enc_task derived_task (replicate 16 9))
    (set_file (task_path ($"/w") (replicate 20 1)) (enc_task sample_task (replicate 16 9)) roomy_world).
Definition two_sels : list tpbcli_task_init_sel :=
  [mkSel (replicate 20 4) ($"r0") TPBCLI_TASK_SEL_RID 0; mkSel (replicate 20 1) ($"r1") TPBCLI_TASK_SEL_RID 1].

Definition is_Ok {A} (r : outcome A) : bool := match r with Ok _ => true | _ => false end.

Example two_sels_one_task :
  match tpbcli_task_build_logical_tasks (Some ($"/w")) (Some two_sels) task_world with
  | Ok tasks => bool_decide (map (λ t, (lt_root_id t, lt_ref t)) tasks = [(replicate 20 1, $"r0")])
  | _ => false
  end = true.
Proof. vm_compute. reflexivity. Qed.

Lemma logical_tasks_by_root_witness :
  match tpbcli_task_build_logical_tasks (Some ($"/w")) (Some two_sels) task_world with
  | Ok tasks =>
      ∃ roots, Forall2 (follows ($"/w") task_world) two_sels roots
        ∧ lt_root_id <$> tasks = uniq roots
        ∧ NoDup (lt_root_id <$> tasks) ∧ tasks ≠ []
        ∧ Forall (task_of ($"/w") task_world two_sels roots []) tasks
  | _ => False
  end.
Proof.
  assert (H : is_Ok (tpbcli_task_build_logical_tasks (Some ($"/w")) (Some two_sels) task_world) = true)
    by (vm_compute; reflexivity).
  pose proof (logical_tasks_by_root ($"/w") task_world two_sels) as Ht.
  destruct (tpbcli_task_build_logical_tasks (Some ($"/w")) (Some two_sels) task_world) as [tasks|e|];
    [by apply Ht|done|done].
Defined.
