(* ===== verification/TaskSelCapsule.v ===== *)
(** * Task selection: capsules written by the record database

    The reading side of the command line against the writing side of the record
    database: a capsule built by the functions of [RafTaglink] is recognised, and
    its members are the logical task's members. *)

From S2P Require Import Prelude Errors CLib CNum FileIO RafBase RafHeader RafEntry RafRecord RafTask RafLocate RafTaglink TagNorm TaskSel TaskSelProps.
From stdpp Require Import options.

(** What the command line asks of the attributes of a capsule. *)
Record shown_capsule (a : task_attr) (h : tpb_meta_header) : Prop := {
  sc_inherit : ta_inherit_from a = ff_id;
  sc_derive : ta_derive_to a = zero_id;
  sc_ninput : ta_ninput a = 0;
  sc_noutput : ta_noutput a = 0;
  sc_name : field_is (h_name h) ($"TaskID") = true;
  sc_tag : field_is (h_tag h) TPB_TAG_LINK = true;
}.

Lemma take_ids_concat ids :
  Forall (λ t : bytes, length t = 20%nat) ids → take_ids (length ids) (concat ids) = Some ids.
Proof.
  induction 1 as [|id ids Hid _ IH]; [done|]. cbn [length take_ids concat].
  rewrite (proj2 (Nat.ltb_ge _ _)) by (rewrite length_app; lia).
  rewrite take_app_length', drop_app_length' by done. by rewrite IH.
Qed.

Lemma length_concat20 ids :
  Forall (λ t : bytes, length t = 20%nat) ids → length (concat ids) = (20 * length ids)%nat.
Proof. induction 1 as [|t ts Ht _ IH]; [done|]. cbn [concat length]. rewrite length_app. lia. Qed.

Section Read.
Context (alloc : Z → bool) (a : task_attr) (h : tpb_meta_header) (ids : list bytes).
Hypothesis Hshown : shown_capsule a h.
Hypothesis Hheaders : ta_headers a = [h].
Hypothesis Hnheader : ta_nheader a = 1.
Hypothesis Hids : Forall (λ t : bytes, length t = 20%nat) ids.
Hypothesis Hne : ids ≠ [].
Hypothesis Hsize : h_data_size h = 20 * Z.of_nat (length ids).
Hypothesis Hdim : h_dimsizes h !! 0%nat = Some (Z.of_nat (length ids)).

Lemma capsule_data_ptr :
  tpb_raf_header_data_ptr (Some (ta_headers a)) (ta_nheader a) (Some (concat ids))
    (20 * Z.of_nat (length ids)) 0 true = Ok (Some 0, 20 * Z.of_nat (length ids)).
Proof using Type*.
  unfold tpb_raf_header_data_ptr. rewrite Hheaders, Hnheader. cbn [Z.leb Z.compare].
  change ([h] !! Z.to_nat 0) with (Some h). change (header_offset [h] (Z.to_nat 0)) with 0.
  cbv beta iota zeta. rewrite Hsize.
  assert ((20 * Z.of_nat (length ids) <? 0) = false) as -> by (apply Z.ltb_ge; lia).
  assert ((20 * Z.of_nat (length ids) - 0 <? 20 * Z.of_nat (length ids)) = false) as -> by (apply Z.ltb_ge; lia).
  done.
Qed.

Lemma capsule_confirmed :
  tpbcli_task_confirm_capsule a (Some (concat ids)) (20 * Z.of_nat (length ids)) = true.
Proof using Type*.
  unfold tpbcli_task_confirm_capsule. destruct Hshown as [Hi Hd Hn Ho Hnm Htg].
  unfold _sf_is_all_ff, _sf_is_all_zero. rewrite Hi, Hd, !bool_decide_true by done.
  rewrite Hn, Ho, Hnheader. cbn [negb orb Z.eqb Pos.eqb].
  pose proof capsule_data_ptr as Hp. rewrite Hheaders in *. rewrite Hnm, Htg. cbn [negb orb].
  rewrite (Z.mul_comm 20), Z.mod_mul, Z.div_mul by lia. cbn [Z.eqb negb].
  rewrite Hdim. cbn [default from_option id]. rewrite Z.eqb_refl. cbn [negb].
  rewrite Hnheader in Hp. rewrite (Z.mul_comm (Z.of_nat _) 20), Hp. apply Z.eqb_refl.
Qed.

Lemma capsule_members :
  (∀ n, alloc n = true) → Z.of_nat (length ids) < 2 ^ 31 →
  tpbcli_task_read_capsule_members alloc a (Some (concat ids)) (20 * Z.of_nat (length ids)) = Ok ids.
Proof using Type*.
  intros Ha Hlen. unfold tpbcli_task_read_capsule_members. rewrite capsule_confirmed. cbn [negb].
  rewrite capsule_data_ptr. cbn [sel_propagate].
  change (sel_propagate (Ok ?x)) with (Ok x). cbn [mbind outcome_bind].
  rewrite (Z.mul_comm 20), Z.div_mul by lia. rewrite (swrap_small 32) by lia.
  assert ((Z.of_nat (length ids) <? 0) = false) as -> by (apply Z.ltb_ge; lia).
  rewrite wrap_small by (unfold is_word; lia). rewrite Z.eqb_refl. cbn [negb orb].
  assert ((Z.of_nat (length ids) =? 0) = false) as -> by (apply Z.eqb_neq; destruct ids; [done|cbn; lia]).
  rewrite Ha. cbn [negb]. rewrite Nat2Z.id. cbn [Z.to_nat drop]. by rewrite take_ids_concat.
Qed.
End Read.

(** The members as loaded. *)
Definition loaded (ws : bytes) (w : world) (i : nat) (id : bytes) : tpbcli_task_member_rec :=
  mkMember id (Z.of_nat i) (match read_task ws id w with Ok r => Some r | _ => None end).

Lemma load_members_eq ws w ids k :
  Forall (λ id, read_task ws id w ≠ UB) ids →
  load_members ws w ids (Z.of_nat k) = Ok (imap (λ i, loaded ws w (k + i)) ids).
Proof.
  intros H. revert k. induction H as [|id ids Hid _ IH]; intros k; [done|]. cbn [load_members imap].
  unfold _sf_load_member. replace (Z.of_nat k + 1) with (Z.of_nat (S k)) by lia. rewrite IH.
  assert (imap (λ i, loaded ws w (S k + i)) ids = imap ((λ i, loaded ws w (k + i)) ∘ S) ids) as ->.
  { apply imap_ext. intros i x _. cbn. f_equal. lia. }
  unfold loaded at 2. rewrite Nat.add_0_r. by destruct (read_task ws id w).
Qed.

(** ** A written capsule is shown *)

Lemma stored_capsule_header h x y :
  1 ≤ h_ndim h → (0 < length (h_dimsizes h))%nat →
  h_dimsizes (stored_header (with_extent h x y)) !! 0%nat = Some y.
Proof.
  intros Hn Hl. unfold stored_header, with_extent. cbn [h_dimsizes h_ndim].
  destruct (h_dimsizes h) as [|d0 ds]; [cbn in Hl; lia|].
  destruct (Z.to_nat (h_ndim h)) eqn:E; [lia|done].
Qed.

(** A readable capsule is one logical task. *)
Lemma capsule_tasks ws w cid sel a h ids :
  read_task ws cid w = Ok (a, Some (concat ids), 20 * Z.of_nat (length ids)) →
  shown_capsule a h → ta_headers a = [h] → ta_nheader a = 1 →
  Forall (λ t, length t = 20%nat) ids → ids ≠ [] →
  h_data_size h = 20 * Z.of_nat (length ids) → h_dimsizes h !! 0%nat = Some (Z.of_nat (length ids)) →
  (∀ n, w_malloc w n = true) → Z.of_nat (length ids) < 2 ^ 31 → sel_id sel = cid →
  Forall (λ id, read_task ws id w ≠ UB) ids →
  tpbcli_task_build_logical_tasks (Some ws) (Some [sel]) w
  = Ok [mkLogical cid (cut_ref (sel_ref sel)) true (imap (loaded ws w) ids) (sel_order sel)
          (ta_utc_bits a) (ta_btime a)].
Proof.
  intros Hread Hs Hh Hn Hall Hne Hsz Hdim Hal Hlong Hsel Hub.
  pose proof (capsule_confirmed a h ids Hs Hh Hn Hall Hne Hsz Hdim) as Hconf.
  pose proof (capsule_members (w_malloc w) a h ids Hs Hh Hn Hall Hne Hsz Hdim Hal Hlong) as Hmem.
  assert (Hroot : tpbcli_task_follow_derive (Some ws) (Some (sel_id sel)) w = Ok cid).
  { rewrite Hsel. cbn [tpbcli_task_follow_derive].
    apply (hop_loop_complete _ _ _ _ _ 0); [lia| |by intros ? ?%elem_of_nil].
    eapply derive_root; [exact Hread|]. destruct Hs. unfold _sf_is_all_zero. by rewrite sc_derive0, bool_decide_true. }
  cbn [tpbcli_task_build_logical_tasks build_tasks]. rewrite Hroot. change (sel_propagate (Ok ?x)) with (Ok x).
  cbn [mbind outcome_bind]. rewrite bool_decide_false by (by intros ?%elem_of_nil).
  cbv zeta. rewrite Hal, andb_false_r. unfold _sf_logical_from_root. rewrite Hread.
  change (sel_propagate (Ok ?x)) with (Ok x). cbn [mbind outcome_bind]. rewrite Hconf, Hmem.
  change (sel_propagate (Ok ?x)) with (Ok x). cbn [mbind outcome_bind].
  pose proof (load_members_eq ws w ids 0 Hub) as Hl. change (Z.of_nat 0) with 0 in Hl.
  destruct ids as [|i ids]; [done|]. rewrite Hal. cbn [negb]. by rewrite Hl.
Qed.

(** C18: a capsule that the record database wrote is recognised by the command line
    and shown with its members.  After a leader created the capsule and the others
    appended themselves, a selection of the capsule resolves to one logical task:
    the capsule itself, whose members are exactly the identifiers appended, in
    the order of the appends, numbered from 0, each with its record if that can
    be read. *)
Theorem capsule_shown ws a h first tids sel w :
  capsule a h first → shown_capsule a h → h_dimsizes h !! 0%nat = Some 1 →
  Forall (λ t, length t = 20%nat) (first :: tids) →
  w_can_write w (task_path ws (ta_task_record_id a)) = true → (∀ n, w_malloc w n = true) →
  (length (enc_task a first) + 20 * length tids ≤ w_cap w)%nat →
  Z.of_nat (S (length tids)) < 2 ^ 31 →
  sel_id sel = ta_task_record_id a →
  let '(r, w') := capsule_group ws a first tids w in
  r = Ok tt
  ∧ (Forall (λ id, read_task ws id w' ≠ UB) (first :: tids) →
     tpbcli_task_build_logical_tasks (Some ws) (Some [sel]) w'
     = Ok [mkLogical (ta_task_record_id a) (cut_ref (sel_ref sel)) true
             (imap (loaded ws w') (first :: tids)) (sel_order sel) (ta_utc_bits a) (ta_btime a)]).
Proof.
  intros Hc Hs Hd0 Hall Hw Hm Hcap Hlong Hsel.
  pose proof Hall as [Hfirst Htids]%Forall_cons.
  destruct (capsule_group_eq ws a h first tids w) as (w' & -> & Hm' & Hin & Hok & Hlm); try done.
  { apply Hs. } { apply Hs. } { lia. }
  split; [done|]. intros Hub. set (ids := first :: tids) in *.
  change (first ++ concat tids) with (concat ids) in *.
  change (S (length tids)) with (length ids) in *.
  assert (Hal : ∀ k, w_malloc w' k = true) by (intros k; by rewrite Hm').
  assert (Hread : read_task ws (ta_task_record_id a) w'
                  = Ok (stored_task (capsule_attr a h (concat ids)), Some (concat ids), 20 * Z.of_nat (length ids))).
  { unfold read_task. rewrite <- Hlm.
    change (ta_task_record_id a) with (ta_task_record_id (capsule_attr a h (concat ids))).
    rewrite (read_task_file ws (capsule_attr a h (concat ids)) (concat ids) true w' Hok); [|lia|done|done].
    unfold delivered. destruct (concat ids) eqn:E; [|done]. cbn in Hlm. lia. }
  set (a' := stored_task (capsule_attr a h (concat ids))) in *.
  set (h' := stored_header (with_extent h (Z.of_nat (length (concat ids))) (Z.of_nat (length (concat ids)) / 20))).
  assert (Hs' : shown_capsule a' h') by (destruct Hs; by split).
  assert (Hdim : h_dimsizes h' !! 0%nat = Some (Z.of_nat (length ids))).
  { unfold h'. rewrite Hlm, (Z.mul_comm 20), Z.div_mul by lia.
    apply stored_capsule_header; [apply Hc|]. by eapply lookup_lt_Some. }
  assert (Hn' : ta_nheader a' = 1).
  { destruct (tk_headers _ Hok) as [Hn _ _]. change (ta_nheader a' = Z.of_nat 1). exact Hn. }
  by apply (capsule_tasks ws w' _ sel a' h' ids).
Qed.

Definition shown_sample : task_attr :=
  mkTaskAttr (replicate 20 1) zero_id ff_id (replicate 20 2) (replicate 20 3)
    1 2 3 0 0 100 101 0 0 1 0 [capsule_header].
Lemma shown_sample_capsule : capsule shown_sample capsule_header (replicate 20 7).
Proof.
  split; try done. split; try (vm_compute; split; congruence); try reflexivity.
  - split; [reflexivity|]. by repeat constructor.
  - split; [reflexivity|vm_compute; split; congruence|].
    constructor; [apply capsule_header_ok|constructor].
Qed.
Lemma shown_sample_ok : shown_capsule shown_sample capsule_header.
Proof. by split. Qed.

Lemma capsule_shown_witness :
  let sel := mkSel (replicate 20 1) ($"r0") TPBCLI_TASK_SEL_RID 0 in
  let '(r, w') := capsule_group ($"/w") shown_sample (replicate 20 7) [replicate 20 8] capsule_world in
  r = Ok tt
  ∧ (Forall (λ id, read_task ($"/w") id w' ≠ UB) [replicate 20 7; replicate 20 8] →
     tpbcli_task_build_logical_tasks (Some ($"/w")) (Some [sel]) w'
     = Ok [mkLogical (ta_task_record_id shown_sample) (cut_ref (sel_ref sel)) true
             (imap (loaded ($"/w") w') [replicate 20 7; replicate 20 8]) (sel_order sel)
             (ta_utc_bits shown_sample) (ta_btime shown_sample)]).
Proof.
  intros sel.
  assert (Hcap : (length (enc_task shown_sample (replicate 20 7%Z)) + 20 ≤ w_cap capsule_world)%nat)
    by (vm_compute; lia).
  apply (capsule_shown ($"/w") shown_sample capsule_header (replicate 20 7) [replicate 20 8] sel
           capsule_world shown_sample_capsule shown_sample_ok eq_refl
           ltac:(by repeat constructor) eq_refl (λ _, eq_refl) Hcap ltac:(by vm_compute) eq_refl).
Defined.

(** The members need not be there. *)
Example capsule_of_missing_members :
  let w := snd (capsule_group ($"/w") shown_sample (replicate 20 7) [replicate 20 8] capsule_world) in
  let sel := mkSel (replicate 20 1) ($"r0") TPBCLI_TASK_SEL_RID 0 in
  match tpbcli_task_build_logical_tasks (Some ($"/w")) (Some [sel]) w with
  | Ok [t] => lt_is_capsule t
              && bool_decide (mr_id <$> lt_members t = [replicate 20 7; replicate 20 8])
              && forallb (λ m, negb (bool_decide (is_Some (mr_record m)))) (lt_members t)
  | _ => false
  end = true.
Proof. vm_compute. reflexivity. Qed.
