(* ===== verification/TaskSelText.v ===== *)
(** * Task selection: the specifications of the command line

    What lists of numbers and lists of names denote, and the bounds of what they
    select. *)

From S2P Require Import Prelude Errors CLib CNum FileIO RafBase RafHeader RafEntry RafRecord RafTask RafLocate TagNorm TaskSel TaskSelProps.
From stdpp Require Import options.

(** ** Lists of numbers *)

Lemma bind_no_UB {A B} (m : outcome A) (k : A → outcome B) :
  m ≠ UB → (∀ a, m = Ok a → k a ≠ UB) → m ≫= k ≠ UB.
Proof. destruct m; cbn; intros; auto. Qed.
Lemma bind_Ok {A B} (m : outcome A) (k : A → outcome B) b :
  m ≫= k = Ok b → ∃ a, m = Ok a ∧ k a = Ok b.
Proof. destruct m as [a|e|]; cbn; [by exists a|done..]. Qed.

Section Rids.
Context (alloc : Z → bool) (nmap : Z).
Implicit Types (rids : list Z).

Definition rids_ok rids : Prop := NoDup rids ∧ Forall (λ r, 0 ≤ r < nmap) rids.

Lemma append_unique_Ok {A} `{EqDecision A} (size : Z) (xs : list A) cap x dup xs' cap' :
  append_unique alloc size xs cap x dup = Ok (xs', cap') → xs' = add_new xs x.
Proof using Type*.
  unfold append_unique. destruct (decide (x ∈ xs)); [rewrite add_new_old by done; by intros [= <- <-]|].
  rewrite add_new_new by done. cbv zeta.
  repeat case_match; try done; by intros [= <- <-].
Qed.
Lemma append_unique_total {A} `{EqDecision A} (size : Z) (xs : list A) cap x dup :
  (∀ n, alloc n = true) → ∃ cap', append_unique alloc size xs cap x dup = Ok (add_new xs x, cap').
Proof using Type*.
  intros Ha. unfold append_unique. destruct (decide (x ∈ xs)); [rewrite add_new_old by done; by eexists|].
  rewrite add_new_new by done. cbv zeta.
  rewrite !Ha, !andb_false_r. by eexists.
Qed.
Lemma append_unique_no_UB {A} `{EqDecision A} (size : Z) (xs : list A) cap x dup :
  append_unique alloc size xs cap x dup ≠ UB.
Proof using Type*. unfold append_unique. destruct (decide (x ∈ xs)); [done|]. cbv zeta. by repeat case_match. Qed.

Lemma rids_ok_add rids r : rids_ok rids → 0 ≤ r < nmap → rids_ok (add_new rids r).
Proof using Type*.
  intros [Hn Hf] Hr. split; [by apply add_new_nodup|]. rewrite Forall_forall in *.
  intros x [Hx| ->]%elem_of_add_new; [by apply Hf|done].
Qed.

Lemma rid_range_ok fuel j rids cap rids' cap' :
  0 ≤ j → rids_ok rids → rid_range alloc nmap fuel j rids cap = Ok (rids', cap') → rids_ok rids'.
Proof using Type*.
  revert j rids cap. induction fuel as [|fuel IH]; intros j rids cap Hj Hr; cbn [rid_range]; [by intros [= <- <-]|].
  destruct (Z.leb_spec nmap j); [done|]. unfold _sf_append_rid_unique.
  destruct (append_unique alloc 4 rids cap j 0) as [[r1 c1]|e|] eqn:E; cbn [mbind outcome_bind]; [|done..].
  apply append_unique_Ok in E as ->. apply IH; [lia|]. apply rids_ok_add; [done|lia].
Qed.
Lemma rid_range_no_UB fuel j rids cap : rid_range alloc nmap fuel j rids cap ≠ UB.
Proof using Type*.
  revert j rids cap. induction fuel as [|fuel IH]; intros j rids cap; cbn [rid_range]; [done|].
  case_match; [done|]. apply bind_no_UB; [apply append_unique_no_UB|]. intros [r1 c1] _. apply IH.
Qed.

Lemma nonneg_token_ok tok v : _sf_parse_nonneg_rid_token tok = Ok v → 0 ≤ v ≤ INT_MAX.
Proof using Type*.
  unfold _sf_parse_nonneg_rid_token. repeat (case_match; try done). intros [= <-].
  match goal with H : _ || _ = false |- _ => apply orb_false_iff in H as [?%Z.ltb_ge ?%Z.ltb_ge] end. done.
Qed.
Lemma nonneg_token_no_UB tok : _sf_parse_nonneg_rid_token tok ≠ UB.
Proof using Type*. unfold _sf_parse_nonneg_rid_token. by repeat case_match. Qed.

Lemma rid_segment_ok p rids cap rids' cap' :
  rids_ok rids → rid_segment alloc nmap p rids cap = Ok (rids', cap') → rids_ok rids'.
Proof using Type*.
  intros Hr. unfold rid_segment. cbv zeta. destruct (strchr_split _ _) as [[a b]|].
  - destruct (_sf_parse_nonneg_rid_token a) as [lo|e|] eqn:Ea; cbn [mbind outcome_bind]; [|done..].
    destruct (_sf_parse_nonneg_rid_token b) as [hi|e|]; cbn [mbind outcome_bind]; [|done..].
    case_match; [done|]. apply nonneg_token_ok in Ea. apply rid_range_ok; [lia|done].
  - destruct (_sf_parse_nonneg_rid_token _) as [rid|e|] eqn:Ea; cbn [mbind outcome_bind]; [|done..].
    apply nonneg_token_ok in Ea. destruct (Z.leb_spec nmap rid); [done|].
    intros ->%append_unique_Ok. apply rids_ok_add; [done|lia].
Qed.
Lemma rid_segment_no_UB p rids cap : rid_segment alloc nmap p rids cap ≠ UB.
Proof using Type*.
  unfold rid_segment. cbv zeta. destruct (strchr_split _ _) as [[a b]|].
  - apply bind_no_UB; [apply nonneg_token_no_UB|]. intros lo _.
    apply bind_no_UB; [apply nonneg_token_no_UB|]. intros hi _. case_match; [done|apply rid_range_no_UB].
  - apply bind_no_UB; [apply nonneg_token_no_UB|]. intros rid _. case_match; [done|apply append_unique_no_UB].
Qed.

Lemma rid_segments_ok segs rids cap rids' :
  rids_ok rids → rid_segments alloc nmap segs rids cap = Ok rids' → rids_ok rids'.
Proof using Type*.
  revert rids cap. induction segs as [|seg segs IH]; intros rids cap Hr; cbn [rid_segments]; [by intros [= <-]|].
  destruct (rid_segment alloc nmap seg rids cap) as [[r1 c1]|e|] eqn:E; cbn [mbind outcome_bind]; [|done..].
  apply IH. by eapply rid_segment_ok.
Qed.
Lemma rid_segments_no_UB segs rids cap : rid_segments alloc nmap segs rids cap ≠ UB.
Proof using Type*.
  revert rids cap. induction segs as [|seg segs IH]; intros rids cap; cbn [rid_segments]; [done|].
  apply bind_no_UB; [apply rid_segment_no_UB|]. intros [r1 c1] _. apply IH.
Qed.
End Rids.

(** ** What a list of numbers denotes *)

(** A number, or a range of numbers. *)
Definition rid_item : Type := Z * option Z.
Definition item_text (it : rid_item) : bytes :=
  match it with (lo, None) => fmt_d lo | (lo, Some hi) => fmt_d lo ++ [ #"-" ] ++ fmt_d hi end.
Definition item_rids (it : rid_item) : list Z :=
  match it with (lo, None) => [lo] | (lo, Some hi) => seqZ lo (hi - lo + 1) end.
Definition item_ok (nmap : Z) (it : rid_item) : Prop :=
  match it with (lo, None) => 0 ≤ lo < nmap | (lo, Some hi) => 0 ≤ lo ≤ hi ∧ hi < nmap end.
Definition rid_text (its : list rid_item) : bytes := join [COMMA] (map item_text its).

Definition token_char (c : Z) : bool := isdigit c || (c =? #"-").

Lemma fmt_d_pos v : 0 ≤ v → fmt_d v = fmt_u v.
Proof. intros H. unfold fmt_d. by rewrite (proj2 (Z.ltb_ge _ _)). Qed.
Lemma fmt_d_digits v : 0 ≤ v → Forall (λ c, isdigit c = true) (fmt_d v).
Proof. intros H. rewrite fmt_d_pos by done. by apply fmt_u_spec. Qed.

Lemma nonneg_token_fmt v : 0 ≤ v ≤ INT_MAX → _sf_parse_nonneg_rid_token (fmt_d v) = Ok v.
Proof.
  intros Hv. assert (Hl : strtoll (fmt_d v) = v).
  { apply strtoll_fmt. unfold LLONG_MIN, LLONG_MAX, INT_MAX in *. lia. }
  destruct (fmt_u_digits v) as (c & d & E & Hc); [lia|]. pose proof (fmt_d_digits v) as Hd.
  rewrite fmt_d_pos in * by lia. unfold _sf_parse_nonneg_rid_token, strtol. rewrite E in *.
  destruct (digit_not_space c Hc) as (Hs & Hm & Hp). cbn [skip_space]. rewrite Hs. cbn [scan_sign]. rewrite Hm, Hp.
  cbn beta iota. rewrite <- (app_nil_r (c :: d)), span_while_app by (done || apply Hd; lia).
  rewrite app_nil_r, Hl.
  assert ((v <? 0) || (INT_MAX <? v) = false) as ->; [|done].
  apply orb_false_iff. split; apply Z.ltb_ge; lia.
Qed.

Lemma item_text_chars nmap it : item_ok nmap it → Forall (λ c, token_char c = true) (item_text it).
Proof.
  assert (H : ∀ v, 0 ≤ v → Forall (λ c, token_char c = true) (fmt_d v)).
  { intros v Hv. eapply Forall_impl; [by apply fmt_d_digits|]. intros c Hc. unfold token_char. by rewrite Hc. }
  destruct it as [lo [hi|]]; intros Hi; cbn in *; [|apply H; lia].
  apply Forall_app. split; [apply H; lia|]. constructor; [done|apply H; lia].
Qed.
Lemma token_char_not c : token_char c = true → is_blank c = false ∧ c ≠ COMMA.
Proof. unfold token_char, isdigit, is_blank. change COMMA with 44. change (#"-") with 45. lia. Qed.

Lemma trim_no_blanks s : Forall (λ c, is_blank c = false) s → trim_token s = s.
Proof.
  assert (H : ∀ s, Forall (λ c, is_blank c = false) s → skip_blank s = s).
  { intros s' Hs. destruct Hs as [|c s' Hc]; [done|]. cbn. by rewrite Hc. }
  intros Hs. unfold trim_token. rewrite (H s) by done. rewrite H by (by apply Forall_reverse). apply reverse_involutive.
Qed.

Lemma item_text_plain nmap it :
  item_ok nmap it → trim_token (item_text it) = item_text it ∧ COMMA ∉ item_text it.
Proof.
  intros H%item_text_chars. rewrite Forall_forall in H. split.
  - apply trim_no_blanks, Forall_forall. intros c Hc. by apply token_char_not, H.
  - intros Hc. by apply H, token_char_not in Hc as [_ ?].
Qed.

Lemma item_text_short it nmap :
  item_ok nmap it → nmap ≤ 2 ^ 31 → (length (item_text it) < 63)%nat.
Proof.
  assert (H : ∀ v, 0 ≤ v < 2 ^ 31 → (length (fmt_d v) ≤ 10)%nat).
  { intros v Hv. rewrite fmt_d_pos by lia. apply dec_fuel_length; lia. }
  destruct it as [lo [hi|]]; intros Hi Hn; cbn in *.
  - pose proof (H lo ltac:(lia)). pose proof (H hi ltac:(lia)). rewrite length_app. cbn. lia.
  - pose proof (H lo ltac:(lia)). lia.
Qed.

Lemma split_commas_word w s cur : COMMA ∉ w → split_commas (w ++ s) cur = split_commas s (cur ++ w).
Proof.
  revert cur. induction w as [|c w IH]; intros cur Hw; cbn; [by rewrite app_nil_r|].
  apply not_elem_of_cons in Hw as [Hc Hw]. rewrite (proj2 (Z.eqb_neq c COMMA)) by done.
  rewrite IH by done. by rewrite <- app_assoc.
Qed.
Lemma split_commas_join ts :
  Forall (λ t, t ≠ [] ∧ COMMA ∉ t) ts → split_commas (join [COMMA] ts) [] = ts.
Proof.
  intros H. destruct H as [|t ts [Hne Hc] H]; [done|]. cbn [join].
  revert t Hne Hc. induction H as [|u us [Hu Huc] _ IH]; intros t Hne Hc; cbn [map concat].
  - rewrite split_commas_word by done. cbn. by destruct t.
  - rewrite split_commas_word by done. cbn [app split_commas]. change (COMMA =? COMMA) with true.
    cbn iota. by rewrite IH.
Qed.

Section Denote.
Context (alloc : Z → bool) (nmap : Z).
Hypothesis Halloc : ∀ n, alloc n = true.
Hypothesis Hnmap : nmap ≤ INT_MAX.

Lemma rid_range_run k j rids cap :
  0 ≤ j → j + Z.of_nat k ≤ nmap →
  ∃ cap', rid_range alloc nmap k j rids cap = Ok (foldl add_new rids (seqZ j (Z.of_nat k)), cap').
Proof using Type*.
  revert j rids cap. induction k as [|k IH]; intros j rids cap Hj Hk; cbn [rid_range]; [by eexists|].
  destruct (Z.leb_spec nmap j); [lia|]. unfold _sf_append_rid_unique.
  destruct (append_unique_total alloc 4 rids cap j 0 Halloc) as [c1 ->]. cbn [mbind outcome_bind].
  destruct (IH (j + 1) (add_new rids j) c1) as [c2 ->]; [lia..|]. exists c2. do 2 f_equal.
  rewrite (seqZ_cons j) by lia. cbn [foldl]. unfold Z.succ.
  by replace (Z.pred (Z.of_nat (S k))) with (Z.of_nat k) by lia.
Qed.

Lemma rid_segment_run it rids cap :
  item_ok nmap it →
  ∃ cap', rid_segment alloc nmap (item_text it) rids cap = Ok (foldl add_new rids (item_rids it), cap').
Proof using Type*.
  intros Hi. unfold rid_segment. destruct (item_text_plain nmap it Hi) as [-> _].
  pose proof (item_text_short it nmap Hi ltac:(unfold INT_MAX in Hnmap; lia)).
  unfold snprintf_s. rewrite take_ge by lia. cbv zeta.
  assert (Hdash : ∀ v, 0 ≤ v → #"-" ∉ fmt_d v).
  { intros v Hv Hin. by apply (proj1 (Forall_forall _ _) (fmt_d_digits v Hv)) in Hin. }
  destruct it as [lo [hi|]]; cbn [item_text item_rids item_ok] in *.
  - rewrite (proj2 (strchr_split_Some (#"-") _ (fmt_d lo) (fmt_d hi))) by (split; [done|apply Hdash; lia]).
    rewrite !nonneg_token_fmt by lia. cbn [mbind outcome_bind].
    destruct (Z.ltb_spec hi lo); [lia|]. unfold rid_turns. rewrite Z.min_l by lia.
    destruct (rid_range_run (Z.to_nat (hi - lo + 1)) lo rids cap) as [c ->]; [lia..|].
    exists c. by rewrite Z2Nat.id by lia.
  - destruct (strchr_split (#"-") (fmt_d lo)) as [[a b]|] eqn:E.
    + apply strchr_split_Some in E as [E _]. exfalso. apply (Hdash lo); [lia|]. rewrite E. set_solver.
    + rewrite nonneg_token_fmt by lia. cbn [mbind outcome_bind]. destruct (Z.leb_spec nmap lo); [lia|].
      destruct (append_unique_total alloc 4 rids cap lo 0 Halloc) as [c E']. exists c. exact E'.
Qed.

Lemma rid_segments_run its rids cap :
  Forall (item_ok nmap) its →
  rid_segments alloc nmap (map item_text its) rids cap = Ok (foldl add_new rids (concat (map item_rids its))).
Proof using Type*.
  intros H. revert rids cap. induction H as [|it its Hi _ IH]; intros rids cap; [done|].
  cbn [map rid_segments concat]. destruct (rid_segment_run it rids cap Hi) as [c ->]. cbn [mbind outcome_bind].
  rewrite IH. by rewrite foldl_app.
Qed.
End Denote.

Lemma item_text_nonempty nmap it : item_ok nmap it → item_text it ≠ [].
Proof.
  destruct it as [lo [hi|]]; intros H Hn; cbn in *;
    [apply app_eq_nil in Hn as [_ Hn]; done|].
  rewrite fmt_d_pos in Hn by lia. destruct (fmt_u_spec lo) as (_ & _ & Hl); [lia|]. by rewrite Hn in Hl; cbn in Hl; lia.
Qed.

(** C23: a list of numbers and ranges denotes the numbers it names.  For any
    numbers and ranges inside the RIDMAP, written in decimal between commas, the
    parser returns the numbers, with every range spelled out, in the order
    written, each at its first occurrence only. *)
Theorem rid_list_denotes ws w ids its :
  tpbcli_task_ridmap_read ws w = Ok ids → its ≠ [] → Z.of_nat (length ids) ≤ INT_MAX →
  Forall (item_ok (Z.of_nat (length ids))) its → (∀ n, w_malloc w n = true) →
  tpbcli_task_parse_rid_list ws (Some (rid_text its)) w = Ok (uniq (concat (map item_rids its))).
Proof.
  intros Hread Hne Hlen Hits Ha. unfold tpbcli_task_parse_rid_list. rewrite Hread.
  change (sel_propagate (Ok ?x)) with (Ok x). cbn [mbind outcome_bind].
  destruct its as [|it its]; [done|]. pose proof Hits as [Hit _]%Forall_cons.
  assert ((Z.of_nat (length ids) =? 0) = false) as -> by (destruct it as [? []]; cbn in Hit; apply Z.eqb_neq; lia).
  rewrite Ha. cbn [negb]. unfold rid_text. rewrite split_commas_join.
  - rewrite rid_segments_run by done. cbn [mbind outcome_bind].
    fold (uniq (concat (map item_rids (it :: its)))). set (r := uniq _). assert (Hr : r ≠ []); [|by destruct r].
    assert (Hin : it.1 ∈ r).
    { unfold r, uniq. apply elem_of_uniq_from. right. cbn [map concat]. apply elem_of_app. left.
      destruct it as [lo [hi|]]; cbn in *; [apply elem_of_seqZ; lia|by left]. }
    intros Hn. rewrite Hn in Hin. by apply elem_of_nil in Hin.
  - apply Forall_map. eapply Forall_impl; [exact Hits|]. intros i Hi. split; [by eapply item_text_nonempty|].
    by eapply item_text_plain.
Qed.

Definition map_ids : list bytes := [replicate 20 1; replicate 20 2; replicate 20 171].
Definition map_world : world :=
  mkWorld {[ $"/ws/.tmp/tpb_rt_local_ridmap" := concat (map ridmap_line map_ids) ]} (λ _, true) 1000 64 (λ _, true).

Lemma rid_list_denotes_witness :
  (tpbcli_task_ridmap_read ($"/ws") map_world = Ok map_ids
   ∧ Forall (item_ok 3) [(2, None); (0, Some 2)])
  ∧ tpbcli_task_parse_rid_list ($"/ws") (Some (rid_text [(2, None); (0, Some 2)])) map_world
    = Ok (uniq (concat (map item_rids [(2, None); (0, Some 2)]))).
Proof.
  assert (H : tpbcli_task_ridmap_read ($"/ws") map_world = Ok map_ids) by (vm_compute; reflexivity).
  assert (Hi : Forall (item_ok 3) [(2, None); (0, Some 2)]) by (repeat constructor; cbn; lia).
  split; [exact (conj H Hi)|].
  apply (rid_list_denotes _ _ map_ids); [exact H|discriminate|vm_compute; congruence|exact Hi|reflexivity].
Defined.
Example rid_list_read :
  tpbcli_task_parse_rid_list ($"/ws") (Some ($" 2, 0-2,")) map_world = Ok [2; 0; 1]
  ∧ tpbcli_task_parse_rid_list ($"/ws") (Some ($"0-3")) map_world = Err TPBE_CLI_FAIL.
Proof. split; vm_compute; reflexivity. Qed.

(** ** Selections by number *)

Lemma hex_to_id_no_UB h outs : tpb_raf_hex_to_id h outs ≠ UB.
Proof.
  unfold tpb_raf_hex_to_id. destruct h as [h|]; [|done]. destruct outs; [|done].
  destruct (negb (forallb _ _)); [done|]. destruct (negb (_ =? 0)); [done|].
  assert (H : ∀ n i, hex_bytes h i n ≠ UB); [|apply H].
  intros n. induction n as [|n IH]; intros i; cbn [hex_bytes]; [done|].
  cbv zeta. case_match; [done|]. apply bind_no_UB; [apply IH|]. by intros.
Qed.
Lemma ridmap_lines_no_UB alloc ls ids cap : ridmap_lines alloc ls ids cap ≠ UB.
Proof.
  revert ids cap. induction ls as [|l ls IH]; intros ids cap; cbn [ridmap_lines]; [done|].
  cbv zeta. destruct (skip_blank (cstr_of l)) as [|c p]; [apply IH|].
  case_match; [apply IH|].
  destruct (length (rstrip (c :: p)) =? 40)%nat; [|done].
  assert (H' : tpb_raf_hex_to_id (Some (rstrip (c :: p))) true ≠ UB) by apply hex_to_id_no_UB.
  destruct (tpb_raf_hex_to_id _ _); [|done|done]. case_match; [done|apply IH].
Qed.
Lemma sel_propagate_no_UB {A} (r : outcome A) : r ≠ UB → sel_propagate r ≠ UB.
Proof. unfold sel_propagate, TPB_PROPAGATE. destruct r; [done| |done]. by case_match. Qed.

Lemma ridmap_read_no_UB ws w : tpbcli_task_ridmap_read ws w ≠ UB.
Proof.
  unfold tpbcli_task_ridmap_read. apply bind_no_UB; [|intros p _; case_match; [apply ridmap_lines_no_UB|done]].
  apply sel_propagate_no_UB. unfold tpbcli_task_ridmap_path. cbv zeta. by case_match.
Qed.
Lemma parse_rid_list_no_UB ws spec w : tpbcli_task_parse_rid_list ws spec w ≠ UB.
Proof.
  unfold tpbcli_task_parse_rid_list. case_match; [|done].
  apply bind_no_UB; [apply sel_propagate_no_UB, ridmap_read_no_UB|]. intros ids _. cbv zeta.
  case_match; [done|]. case_match; [done|]. apply bind_no_UB; [apply rid_segments_no_UB|]. intros rids _. by case_match.
Qed.

(** The parsed numbers and the RIDMAP they were checked against. *)
Lemma parse_rid_list_inv ws spec w rids :
  tpbcli_task_parse_rid_list ws spec w = Ok rids →
  ∃ ids, tpbcli_task_ridmap_read ws w = Ok ids ∧ rids ≠ [] ∧ rids_ok (Z.of_nat (length ids)) rids.
Proof.
  unfold tpbcli_task_parse_rid_list. destruct spec as [spec|]; [|done].
  intros (ids & Hids%sel_propagate_inv & H)%bind_Ok. exists ids. split; [done|].
  cbv zeta in H. case_match; [done|]. case_match; [done|].
  apply bind_Ok in H as (rids' & Hr & H). assert (rids' = rids ∧ rids ≠ []) as [-> Hne].
  { destruct rids'; [done|]. by injection H as <-. }
  split; [done|]. eapply rid_segments_ok; [|exact Hr]. split; [apply NoDup_nil_2|constructor].
Qed.

(** A selection of a number. *)
Definition selects (ids : list bytes) (rid : Z) (sel : tpbcli_task_init_sel) : Prop :=
  ids !! Z.to_nat rid = Some (sel_id sel) ∧ sel_ref sel = cut_ref ($"r" ++ fmt_d rid)
  ∧ sel_kind sel = TPBCLI_TASK_SEL_RID.

Lemma rid_sels_in alloc ids rids i cap :
  Forall (λ r, 0 ≤ r < Z.of_nat (length ids)) rids →
  rid_sels alloc ids rids i cap ≠ UB
  ∧ ∀ sels, rid_sels alloc ids rids i cap = Ok sels → Forall2 (selects ids) rids sels.
Proof.
  intros H. revert i cap. induction H as [|r rids Hr _ IH]; intros i cap; cbn [rid_sels].
  { split; [done|]. by intros sels [= <-]. }
  cbv zeta. case_match; [done|].
  destruct (lookup_lt_is_Some_2 ids (Z.to_nat r)) as [id Hid]; [lia|]. rewrite Hid. split.
  - apply bind_no_UB; [apply IH|]. by intros.
  - intros sels (sels' & Hs & [= <-])%bind_Ok. constructor; [done|]. by eapply IH.
Qed.

(** C22: a selection by numbers stays inside the RIDMAP.  Whatever is written after
    [-r], resolving it never reads outside the array of identifiers; and when it
    succeeds the numbers are distinct numbers of the RIDMAP, at least one, and the
    selections are the identifiers at these numbers, in the order written. *)
Theorem rid_selection_in_bounds ls ws spec w :
  _sf_export_resolve_init_sels ls ws (TPBCLI_TASK_EXP_SEL_RID spec) w ≠ UB
  ∧ ∀ sels, _sf_export_resolve_init_sels ls ws (TPBCLI_TASK_EXP_SEL_RID spec) w = Ok sels →
    ∃ ids rids, tpbcli_task_ridmap_read ws w = Ok ids ∧ rids ≠ [] ∧ NoDup rids
      ∧ Forall (λ r, 0 ≤ r < Z.of_nat (length ids)) rids ∧ Forall2 (selects ids) rids sels.
Proof.
  unfold _sf_export_resolve_init_sels. destruct spec as [spec|]; [|done]. split.
  - apply bind_no_UB; [|intros sels _; by case_match].
    apply bind_no_UB; [apply sel_propagate_no_UB, parse_rid_list_no_UB|].
    intros rids (ids & Hids & _ & _ & Hin)%sel_propagate_inv%parse_rid_list_inv.
    rewrite Hids. change (sel_propagate (Ok ?x)) with (Ok x). cbn [mbind outcome_bind].
    by apply rid_sels_in.
  - intros sels (sels' & Hs & H)%bind_Ok. assert (sels' = sels) as -> by (destruct sels'; [done|by injection H]).
    apply bind_Ok in Hs as (rids & (ids & Hids & Hne & Hnd & Hin)%sel_propagate_inv%parse_rid_list_inv & Hs).
    rewrite Hids in Hs. change (sel_propagate (Ok ?x)) with (Ok x) in Hs. cbn [mbind outcome_bind] in Hs.
    exists ids, rids. split_and!; try done. by eapply rid_sels_in.
Qed.

Lemma rid_selection_in_bounds_witness :
  ∃ sels, _sf_export_resolve_init_sels (λ _, None) ($"/ws") (TPBCLI_TASK_EXP_SEL_RID (Some ($"2,0"))) map_world = Ok sels
    ∧ ∃ ids rids, tpbcli_task_ridmap_read ($"/ws") map_world = Ok ids ∧ rids ≠ [] ∧ NoDup rids
      ∧ Forall (λ r, 0 ≤ r < Z.of_nat (length ids)) rids ∧ Forall2 (selects ids) rids sels.
Proof.
  set (r := _sf_export_resolve_init_sels (λ _, None) ($"/ws") (TPBCLI_TASK_EXP_SEL_RID (Some ($"2,0"))) map_world).
  assert (H : is_Ok r = true) by (vm_compute; reflexivity).
  pose proof (proj2 (rid_selection_in_bounds (λ _, None) ($"/ws") (Some ($"2,0")) map_world)) as Ht. fold r in Ht.
  destruct r as [sels|e|]; [|discriminate H|discriminate H]. exists sels. split; [reflexivity|by apply Ht].
Defined.

(** ** Selections by identifier *)

Lemma strtok_first t rest : t ≠ [] → COMMA ∉ t → head (strtok COMMA (t ++ rest)) = head (strtok COMMA t)
  ∨ head rest ≠ Some COMMA.
Proof.
  intros Ht Hc. destruct rest as [|c rest]; [left; by rewrite app_nil_r|].
  destruct (decide (c = COMMA)) as [->|Hn]; [left|right; by intros [= ->]].
  unfold strtok. rewrite strtok_acc_app by done. cbn [app strtok_acc]. change (COMMA =? COMMA) with true.
  cbn iota. destruct t as [|x t]; [done|]. cbn [app]. rewrite <- (app_nil_r (x :: t)) at 2.
  rewrite strtok_acc_app by done. done.
Qed.

(** C24: only the first prefix of a list after [-i] counts.  What is written after
    the first comma - valid, ambiguous or nonsense - changes nothing: the list
    selects what its first entry selects alone. *)
Theorem task_id_list_first ls ws first rest w :
  first ≠ [] → COMMA ∉ first → (∀ n, w_malloc w n = true) →
  _sf_export_resolve_init_sels ls ws (TPBCLI_TASK_EXP_SEL_TASK_ID (Some (first ++ [COMMA] ++ rest))) w
  = _sf_export_resolve_init_sels ls ws (TPBCLI_TASK_EXP_SEL_TASK_ID (Some first)) w.
Proof.
  intros Hne Hc Ha. unfold _sf_export_resolve_init_sels. rewrite !Ha. cbn [negb]. unfold task_id_sels.
  destruct (strtok_first first ([COMMA] ++ rest) Hne Hc) as [E|E]; [|done].
  destruct (strtok COMMA (first ++ [COMMA] ++ rest)) as [|t ts], (strtok COMMA first) as [|u us]; try done.
  by injection E as ->.
Qed.

(** A workspace of two task records. *)
Definition two_tasks : bytes → option (list bytes) :=
  λ d, if bool_decide (d = $"/w/rafdb/task")
       then Some [tpb_raf_id_to_hex (replicate 20 0xAB) ++ $".tpbr"; tpb_raf_id_to_hex (replicate 20 0xCD) ++ $".tpbr"]
       else None.
Definition empty_world : world := mkWorld ∅ (λ _, true) 0 0 (λ _, true).
Lemma task_id_list_first_witness :
  _sf_export_resolve_init_sels two_tasks ($"/w")
    (TPBCLI_TASK_EXP_SEL_TASK_ID (Some ($"ababab" ++ [COMMA] ++ $"cdcdcd"))) empty_world
  = _sf_export_resolve_init_sels two_tasks ($"/w") (TPBCLI_TASK_EXP_SEL_TASK_ID (Some ($"ababab"))) empty_world.
Proof.
  apply (task_id_list_first two_tasks ($"/w") ($"ababab") ($"cdcdcd") empty_world);
    [discriminate|vm_compute; intros H; repeat (inversion H as [|? ? ? H']; subst; clear H; rename H' into H)|reflexivity].
Defined.
Example second_prefix_ignored :
  match _sf_export_resolve_init_sels two_tasks ($"/w")
          (TPBCLI_TASK_EXP_SEL_TASK_ID (Some ($"ababab,cdcdcd"))) empty_world with
  | Ok sels => bool_decide (sel_id <$> sels = [replicate 20 0xAB])
  | _ => false
  end = true.
Proof. vm_compute. reflexivity. Qed.

(** ** The ranges of a filter *)

(** A range that ends at [INT_MAX] overflows its counter.  The filter
    [subrank=LO-2147483647] is accepted as a token pair, but the loop over the
    range increments [j] past the largest [int].  ([LO] is such that the array of
    the numbers still has an [int] capacity.) *)
Theorem subrank_range_overflows alloc lo :
  INT_MAX - 2 ^ 29 ≤ lo ≤ INT_MAX → (∀ n, alloc n = true) →
  subrank_segment alloc (fmt_d lo ++ [ #"-" ] ++ fmt_d INT_MAX) [] 0 = UB.
Proof.
  intros Hlo' Ha. assert (Hlo : 0 ≤ lo ≤ INT_MAX) by (unfold INT_MAX in *; lia). clear Hlo'. assert (Hf : ∀ k j vals cap, j + Z.of_nat k = INT_MAX → subrank_range alloc (S k) j vals cap = UB).
  { intros k. induction k as [|k IH]; intros j vs c Hk; cbn [subrank_range];
      destruct (append_unique_total alloc 4 vs c j 0 Ha) as [c1 ->]; cbn [mbind outcome_bind].
    - by rewrite (proj2 (Z.eqb_eq j INT_MAX)) by lia.
    - rewrite (proj2 (Z.eqb_neq j INT_MAX)) by lia. apply IH. lia. }
  assert (Hi : item_ok (2 ^ 31) (lo, Some INT_MAX)) by (unfold INT_MAX in *; cbn; lia).
  pose proof (item_text_short (lo, Some INT_MAX) (2 ^ 31) Hi ltac:(done)) as Hs. cbn [item_text] in Hs.
  unfold subrank_segment, snprintf_s. rewrite take_ge by lia. cbv zeta.
  rewrite (proj2 (strchr_split_Some (#"-") _ (fmt_d lo) (fmt_d INT_MAX))).
  2:{ split; [done|]. intros Hin. by apply (proj1 (Forall_forall _ _) (fmt_d_digits lo ltac:(lia))) in Hin. }
  rewrite !nonneg_token_fmt by (unfold INT_MAX in *; lia). cbn [mbind outcome_bind].
  destruct (Z.ltb_spec INT_MAX lo); [lia|].
  replace (Z.to_nat (INT_MAX - lo + 1)) with (S (Z.to_nat (INT_MAX - lo))) by lia. apply Hf. lia.
Qed.
Lemma subrank_range_overflows_witness :
  subrank_segment (λ _, true) (fmt_d 2147000000 ++ [ #"-" ] ++ fmt_d INT_MAX) [] 0 = UB.
Proof. apply subrank_range_overflows; [unfold INT_MAX; lia|reflexivity]. Defined.
Example filter_of_the_last_int :
  tpbcli_task_export_parse_filter (λ _, true) (Some ($"subrank=2147483647-2147483647")) = UB
  ∧ tpbcli_task_export_parse_filter (λ _, true) (Some ($"subrank=4,1-3"))
    = Ok (TPBCLI_TASK_EXP_FKEY_SUBRANK [4; 1; 2; 3])
  ∧ tpbcli_task_export_parse_filter (λ _, true) (Some ($"subtid=00AF, beef1"))
    = Ok (TPBCLI_TASK_EXP_FKEY_SUBTID [$"00af"; $"beef1"]).
Proof. split_and!; vm_compute; reflexivity. Qed.

(** ** Lists of names *)

(** A name as it can be written in a list: bare, or between quotes with its quotes
    doubled. *)
Definition quoted (name : bytes) : bytes := QUOTE :: (name ≫= λ c, if c =? QUOTE then [QUOTE; QUOTE] else [c]) ++ [QUOTE].
Inductive spelled (name : bytes) : bytes → Prop :=
  | spelled_bare c s :
      name = c :: s → c ≠ QUOTE → is_blank c = false → COMMA ∉ name →
      (∀ s' d, name = s' ++ [d] → is_blank d = false) → spelled name name
  | spelled_quoted : spelled name (quoted name).
Definition name_fits (name : bytes) : Prop := name ≠ [] ∧ (length name < TPBM_NAME_STR_MAX_LEN)%nat.

Lemma name_room_ok tok : (length tok < TPBM_NAME_STR_MAX_LEN - 1)%nat → name_room tok = true.
Proof. intros H. apply Nat.ltb_lt. unfold TPBM_NAME_STR_MAX_LEN in *. lia. Qed.

(** What may follow a name: nothing, or a comma. *)
Definition ends_here (rest : bytes) : Prop := rest = [] ∨ ∃ r, rest = COMMA :: r.

Lemma scan_plain_run s tok rest :
  COMMA ∉ s → (length tok + length s < TPBM_NAME_STR_MAX_LEN)%nat → ends_here rest →
  scan_plain (s ++ rest) tok = Some (tok ++ s, rest).
Proof.
  intros Hc Hl Hr. revert tok Hl. induction s as [|c s IH]; intros tok Hl; cbn [app].
  - rewrite app_nil_r. destruct Hr as [->|[r ->]]; [done|]. reflexivity.
  - apply not_elem_of_cons in Hc as [Hcc Hc]. cbn [scan_plain]. rewrite (proj2 (Z.eqb_neq c COMMA)) by done.
    cbn [length] in Hl. rewrite name_room_ok by lia. rewrite IH; [by rewrite <- app_assoc|done|].
    rewrite length_app. cbn [length]. lia.
Qed.

Lemma scan_quoted_run s tok rest :
  (length tok + length s < TPBM_NAME_STR_MAX_LEN)%nat → ends_here rest →
  scan_quoted ((s ≫= λ c, if c =? QUOTE then [QUOTE; QUOTE] else [c]) ++ QUOTE :: rest) tok = Some (tok ++ s, rest).
Proof.
  intros Hl Hr. revert tok Hl. induction s as [|c s IH]; intros tok Hl.
  - rewrite app_nil_r. destruct Hr as [->|[r ->]]; reflexivity.
  - rewrite bind_cons. cbn [length] in Hl. assert (Hroom : name_room tok = true) by (apply name_room_ok; lia).
    assert (Hnext : ∀ d, scan_quoted ((s ≫= λ c, if c =? QUOTE then [QUOTE; QUOTE] else [c]) ++ QUOTE :: rest) (tok ++ [d])
                         = Some (tok ++ d :: s, rest)).
    { intros d. rewrite IH; [by rewrite <- app_assoc|]. rewrite length_app. cbn [length]. lia. }
    destruct (Z.eqb_spec c QUOTE) as [->|Hc].
    + cbn [app scan_quoted]. change (QUOTE =? QUOTE) with true. cbn iota. rewrite Hroom. apply Hnext.
    + cbn [app scan_quoted]. rewrite (proj2 (Z.eqb_neq c QUOTE)) by done. rewrite Hroom. apply Hnext.
Qed.

Lemma trim_bare name c s :
  name = c :: s → is_blank c = false → (∀ s' d, name = s' ++ [d] → is_blank d = false) → trim_token name = name.
Proof.
  intros -> Hc Hlast. unfold trim_token. cbn [skip_blank]. rewrite Hc.
  destruct (c :: s) as [|d s' _] using rev_ind; [done|]. rewrite reverse_snoc. cbn [skip_blank].
  rewrite (Hlast s' d eq_refl). by rewrite reverse_cons, reverse_involutive.
Qed.

(** One spelled name is read back. *)
Lemma scan_name_run name s rest :
  name_fits name → spelled name s → ends_here rest →
  scan_name (s ++ rest) = Some (name, rest)
  ∧ skip_blank (s ++ rest) = s ++ rest ∧ ∃ c r, s = c :: r ∧ (c =? COMMA) = false.
Proof.
  intros [Hne Hl] Hs Hr. destruct Hs as [c s E Hq Hb Hc Hlast|].
  - split; [|split; [|by exists c, s; split; [done|]; apply Z.eqb_neq; rewrite E in Hc; set_solver]].
    + pose proof (scan_plain_run name [] rest Hc ltac:(done) Hr) as Hp. rewrite E in Hp |- *.
      cbn [app scan_name] in *. rewrite (proj2 (Z.eqb_neq c QUOTE)) by done. rewrite Hp. cbn [mbind option_bind app].
      by rewrite (trim_bare (c :: s) c s eq_refl Hb) by (by rewrite <- E).
    + rewrite E. cbn [app skip_blank]. by rewrite Hb.
  - split_and!; [|done|by eexists _, _].
    unfold quoted. cbn [app]. rewrite <- app_assoc. cbn [scan_name]. change (QUOTE =? QUOTE) with true. cbn iota.
    cbn [app]. by apply (scan_quoted_run name []).
Qed.

Lemma append_name_run alloc names cap name :
  (∀ n, alloc n = true) → name ≠ [] →
  ∃ cap', _sf_append_name_unique alloc names cap name = Ok (add_new names name, cap').
Proof.
  intros Ha Hn. destruct name as [|c name]; [done|]. unfold _sf_append_name_unique.
  by apply append_unique_total.
Qed.

Lemma name_csv_loop_run alloc fuel ns ss names cap :
  (∀ n, alloc n = true) → Forall2 (λ n s, name_fits n ∧ spelled n s) ns ss →
  (length (join [COMMA] ss) ≤ fuel)%nat →
  name_csv_loop alloc fuel (join [COMMA] ss) names cap = Ok (foldl add_new names ns).
Proof.
  intros Ha H. revert fuel names cap. induction H as [|n s ns ss [Hfit Hsp] H IH]; intros fuel names cap Hfuel.
  { by destruct fuel. }
  assert (Hrest : ∃ rest, join [COMMA] (s :: ss) = s ++ rest ∧ ends_here rest ∧ tail rest = join [COMMA] ss).
  { destruct ss as [|u us]; [exists []; by split; [|split; [left|]]|].
    exists (COMMA :: join [COMMA] (u :: us)). split; [done|]. split; [right; by eexists|done]. }
  destruct Hrest as (rest & E & Hends & Ht).
  destruct (scan_name_run n s rest Hfit Hsp Hends) as (Hscan & Hskip & c & r & Es & Hc).
  rewrite E in Hfuel |- *. rewrite length_app in Hfuel.
  destruct fuel as [|fuel]; [rewrite Es in Hfuel; cbn [length] in Hfuel; lia|]. cbn [name_csv_loop]. rewrite Hskip.
  rewrite Es in Hscan |- *. cbn [app] in Hscan |- *. rewrite Hc, Hscan.
  destruct n as [|n0 n']; [by destruct Hfit|].
  destruct (append_name_run alloc names cap (n0 :: n') Ha) as [cap' ->]; [done|].
  rewrite Ht. cbn [foldl]. apply IH. rewrite <- Ht. rewrite Es in Hfuel. cbn [length] in Hfuel.
  destruct rest; cbn [tail length] in *; lia.
Qed.


Example name_lists :
  tpbcli_task_parse_name_csv (λ _, true) (Some ($"a, b c ,d,")) = Ok [$"a"; $"b c"; $"d"]
  ∧ tpbcli_task_parse_name_csv (λ _, true) (Some ($"a,,b")) = sel_fail TPBE_CLI_FAIL
  ∧ tpbcli_task_parse_name_csv (λ _, true) (Some ($" ")) = sel_fail TPBE_CLI_FAIL.
Proof. split_and!; vm_compute; reflexivity. Qed.
